(* ===== verification/_CoqProject ===== *)
-Q . S2P
Prelude.v
GoStrings.v
Json.v
JsonText.v
Encoding.v
Compact.v
ErrorTexts.v
Errors.v
Database.v
Timestamps.v
Locks.v
Obs.v
Session.v
Config.v
Sha256.v
Store.v
Ring.v
RingProps.v
Wallets.v
Transfers.v
InvariantAudit.v
Http.v
Responses.v
Middleware.v
Handlers.v
Bodies.v
Routing.v
Api.v
LogLines.v
Stream.v
StreamProps.v
RouteProps.v
Process.v
Migrations.v
Lifecycle.v
Accounting.v
Wp.v
TxLoop.v
Statements.v
TransferSpec.v
TransferProof.v
WalletSpec.v
WalletProof.v
Concurrent.v
LockOrder.v
Progress.v
Cmds.v
Traces.v
Metrics.v
ApiCmds.v
Counting.v
Panics.v
HandlerProof.v
Service.v
ServerSpec.v
ServerProof.v
Deadlock.v
ServerLocks.v
Fixtures.v
StoreProps.v
TransferProps.v
WalletProps.v
ServiceProps.v
HttpProps.v
ServerProps.v
ServerSafety.v
Durability.v
Freshness.v
Funding.v
Respelled.v
