(* ===== verification/Prelude.v ===== *)
(** * wallet-p2p: a verification development

    The repository is a Go service that holds wallets of integer paise in
    Postgres and moves money between them over HTTP: every transfer is double
    entry, carries an idempotency key, and is retried when Postgres aborts it.
    This library translates the service's own code into Rocq and proves what
    makes it correct: money is conserved, nothing is applied twice, nobody
    spends from a wallet that is not theirs, and an answer tells what was
    committed -- but for a 500, which may hide a commit when the environment
    failed or a log line panicked -- for any faults of the environment and any
    interleaving of requests.

    ** How the code is modelled

    A Go function that talks to the database is a program in a free monad
    ([Session.prog]): a tree of commands -- begin, a SQL statement in the
    transaction or on the pool, a savepoint, commit, rollback, a back-off, an
    emitted event.  [Session.exec_cmd] executes one command on the committed
    tables and the session's open transaction, under a [choice] of the
    environment: the fault that hits the command (deadlock or serialization
    abort, lost connection, done context, server failure; a commit or an
    autocommitted statement whose acknowledgement is lost may or may not have
    been applied), the uuid generated, the clock.  [Session.run] runs one
    program alone; [Concurrent.step] interleaves any number of them, one
    command at a time, under Postgres' row locks and unique-index locks
    ([Locks]); a statement that waits for a lock may be aborted there, as the
    victim of a deadlock is.  Isolation is READ COMMITTED: a statement reads the committed
    tables of its moment under the transaction's own writes.

    A log line can panic in the goroutine that writes it: the ring sends to the
    channel of a viewer that is just closing it ([RingProps]).
    [Session.unwind] cuts a program at such a line, as an oracle in the
    surroundings of a request says; [Middleware.recovered] and
    [Middleware.observe] are what net/http and the wrapper make of it: a 500,
    still counted and logged, or a connection that is closed when the line of
    the wrapper itself panics.

    Statements are functions of the tables ([Database]), one constructor per
    SQL string of the Go code, with every constraint of the schema; errors are
    values ([Errors]), matched as the code matches them.  Amounts are integers
    with the bounds of int64 and bigint written out.

    ** Files

    - [Prelude]: results with [let?], int64 bounds and wrap-around, sums over
      lists and maps, unique rows.
    - [GoStrings], [Json], [Sha256]: what the code uses of strings, strconv,
      unicode, encoding/json and crypto/sha256.  [JsonText]: plain texts and
      numbers in a document; [Encoding]: the encoders of encoding/json and slog
      and that the decoder reads back what they write; [Compact]: raw messages
      as encoding/json copies them, and that the copy means the same;
      [ErrorTexts]: the texts of decoding errors, with strconv.Quote;
      [Timestamps]: time.Time in RFC 3339, over the civil calendar, and a reader
      of it.
    - [Errors]: the sentinels and SQLSTATE helpers of internal/store/store.go.
    - [Database], [Locks]: internal/store/schema.sql and all SQL statements;
      the locks each statement takes.
    - [Obs]: correlation ids, log records, metric operations
      (internal/obs/log.go, metrics.go).
    - [Session]: commands, programs, transactions, execution, panics.
    - [Config]: internal/config/config.go, with its property.
    - [Store]: internal/store/store.go, [inTx] and [Fingerprint].
    - [Wallets], [Transfers], [InvariantAudit]: internal/store/wallet.go and
      transfer.go, one definition per function, the bodies passed to [inTx]
      included.
    - [Ring]: the log ring of internal/obs/log.go.
    - [Http], [Middleware], [Handlers]: internal/api/handlers.go and
      middleware.go; a handler is a program that answers its operations on the
      response writer.  [Bodies]: request bodies as clients write them.
      [Responses]: the JSON of every payload and its text.
    - [Routing]: net/http's ServeMux as the service uses it.  [Api]:
      internal/api/server.go and static.go, the table, every endpoint and
      [New_handler], the whole handler.  [RouteProps]: routing is exact.
    - [LogLines]: [NewLogger], the line of a record, the bytes of the event
      stream and a reader of them.
    - [Stream], [StreamProps]: a viewer of /logs/stream among the goroutines
      that log and the other viewers.
    - [Process]: the probe, the connection loop, the retry observer and the
      invariant sampler of cmd/wallet/main.go.  [Migrations]:
      internal/store/migrate.go.  [Lifecycle]: run and main, as the actions
      they take on the pool, the server and the signals, with the goroutine
      that listens interleaved.
    - [Metrics]: the collectors of internal/obs/metrics.go and the contract of
      an operation on them.
    - [Accounting]: the invariant [wf_db] of the tables, their growth
      [grows], and the accounting actions of the specification: a user, a
      wallet, a mint, a settled and a declined transfer.
    - [Wp]: weakest preconditions of programs under the interference of other
      sessions, with what a session's own steps guarantee; [TxLoop] for [inTx];
      [Statements] for single statements; [Panics] adds what holds where a
      program is unwound.
    - [TransferSpec], [WalletSpec]: the outcome relations -- what a call may
      return and commit; [TransferProof], [WalletProof], [HandlerProof]: the
      programs implement them.
    - [Concurrent]: the interleaving, soundness of [Wp] for it, and an
      executable scheduler; [Service]: the seven store calls as one type.
    - [ServerSpec], [ServerProof]: the specification of a request to any
      route and of the process (requests beside the sampler), and that the
      whole handler implements it.
    - [LockOrder], [Progress], [Deadlock], [ServerLocks]: the order in which
      programs take locks, why ordered programs never block each other for
      good, and that the store's programs and the whole handler are ordered.
    - [Cmds], [ApiCmds]: predicates that hold of every command a program can
      issue, along any execution, and those of all handlers.  [Traces],
      [Counting]: the list of events of a whole execution, and what requests
      are counted as.
    - [Fixtures]: concrete uuids, a bank of two wallets and streams of choices
      on which the theorems are exercised.
    - [StoreProps], [TransferProps], [WalletProps], [ServiceProps],
      [HttpProps], [ServerProps], [ServerSafety], [Durability], [Freshness],
      [Funding], [Respelled], [RingProps]: the properties.

    ** What the theorems show

    - The process ([ServerSafety]): any requests to any routes beside the
      sampler, interleaved, under any faults.  The tables stay well-formed and
      money is conserved; the process implements [ServerSpec] in real time: a
      request reads, and changes, only tables that were there between its
      arrival and its answer ([Freshness], over [Concurrent.run_from]), so a
      retry after the answer is a replay of it and a GET after it shows the
      row, or they are a 500 that moved no money;
      nobody commits what the credentials do not permit; a key moves money
      once; an answer announces a change exactly when it was committed, but for
      a 500 when the environment failed or a log line of the request panicked
      ([ServerSafety.line_panicked] is a payment committed and answered so);
      the sampler and /invariants raise no false alarm and miss none; what a
      POST /transfers acknowledged stays in the tables, made once
      ([Durability]), and so does what a mint acknowledged, of any number with
      its key at most one moving money ([Funding]); when ids are spelled as the
      server prints them, no deadlock: some session can always take a step until
      all are answered.  [Respelled]: otherwise there can be one.
    - Interleaved calls of the store ([ServiceProps]): well-formed tables,
      conservation, append-only history, every reply justified by tables of the
      run, at most one commit per idempotency key.
    - Single calls ([TransferProps], [WalletProps]): each branch of a transfer
      and of a mint as an equation, errors that change nothing, exactly-once
      effects over any number of faulty retries, get-or-create, read-back, the
      exact meaning of the audit, and the behaviour on unusual spellings of
      uuids.
    - HTTP ([HttpProps]): the POST endpoints one by one, validation as an
      equivalence, request accounting.  Decoding ([Bodies]): a transfer reads
      back as it was written, and nothing but a strict body is accepted.
      Encoding ([Responses]): a client reads back what the handler answered,
      times in any zone and raw log lines included.
    - The server ([RouteProps], [ServerProps]): the router against the table
      read entry by entry; nothing in the tables changes without credentials,
      for any requests to any route; every metric operation is one its
      collector accepts; every request is counted once, as what it was
      answered, unless the line of a recovered panic panics in turn.
    - The process ([Lifecycle]): it connects or gives up, releases what it
      took on every return, never listens before the schema is there nor after
      the shutdown began, and exits with zero exactly after a graceful
      shutdown, wherever the listening goroutine had come.
    - The stream ([StreamProps]): what a viewer is shown is the log in order.
      The public log ([LogLines]): every line is a JSON object that reads back,
      no text in a record can break the framing, the filters drop nothing.
    - The ring ([RingProps]): a window on the log of all lines; sends that are
      bounded and never block; the one way a writer can panic.
    - [StoreProps], [Config]: the retry bound, fingerprints, configuration.

    ** Bounds and fuel

    [inTx_loop] recurses on the attempts left, five as in the code, and has no
    other fuel; programs are finite trees, so [run] is structural.  [format36]
    has 13 digits of fuel, enough for an int64; [scan_document] has more than
    twice the length of the document ([Json.scan_value_fuel]: any more gives
    the same answer).  [connectDB] and
    [sample_loop] take the turns that happen as an argument.  The schedules of
    the scheduler are finite lists; reachability has no bound.  [race] recurses
    on its schedule, which [complete] extends until both sides are done.

    ** What is not modelled

    The text format of uuids and the validation of text by the server are the
    interface [Database.PgText]: a parser, a printer and three documented
    laws; [Fixtures.hex_text] is one instance.  The pool, the wire protocol
    and pgx are behind the commands of [Session]; the Prometheus handler of
    /metrics is an argument of the handler.  A request body is the bytes that
    arrive; a connection that breaks while it is read is not modelled, nor is
    the request target "*".  The zone of the driver's times, the text of its
    errors and the table of runes that print are the interface
    [Responses.Texts], which has no laws; the time of a log record is an
    argument of its line.  A page is its name, a redirect its path.  Durations
    and panic values appear as opaque attributes, which [LogLines] takes as
    JSON values.  How long a graceful shutdown takes is its environment's
    answer.  Which lines panic is an oracle, not tied to the viewers of the
    moment: it allows more than the ring does.  A panic of the line the sampler
    logs on a violation would end the process; no run reaches that line.  The
    store's own tests (store_test.go) and the embedded pages are left out.

    Every function the process runs has its definition, but for two the code
    only carries: the accessor Pool of the store, and WithAttrs and WithGroup of
    the log handler, which nothing calls.  What else is left outside is not code
    of the repository (the driver, the client library of the metrics, the
    operating system), or an asset, or a test. *)

From stdpp Require Export base gmap strings list fin_maps pretty option sorting.
From Stdlib Require Export ZArith Lia.

#[global] Open Scope Z_scope.

(** ** Notations and tactics of the development *)

Declare Scope wallet_scope.
Delimit Scope wallet_scope with wallet.
#[global] Open Scope wallet_scope.

(** The lemmas that simplify map sums, map updates and world projections. *)
Create HintDb wallet discriminated.
Create Rewrite HintDb wallet_rw.

(** ** Machine integers

    A Go [int64] and a Postgres [bigint] are the integers of [int64_min ..
    int64_max]; Go arithmetic wraps, Postgres arithmetic raises 22003. *)

Definition int64_min : Z := - 2 ^ 63.
Definition int64_max : Z := 2 ^ 63 - 1.

(** [in_int64 z]: the value fits a 64-bit signed integer. *)
Definition in_int64 (z : Z) : bool := (int64_min <=? z) && (z <=? int64_max).

(** Go's wrap-around at width 64 and the conversion to width 32. *)
Definition wrap64 (z : Z) : Z := (z + 2 ^ 63) mod 2 ^ 64 - 2 ^ 63.
Definition wrap32 (z : Z) : Z := (z + 2 ^ 31) mod 2 ^ 32 - 2 ^ 31.

(** ** The error monad

    A call that fails with an [E] or returns an [A]; Go's [(A, error)] pairs
    become it where the value is meaningless on an error. *)

Inductive result (E A : Type) : Type :=
| Ok (a : A)
| Err (e : E).
Arguments Ok {E A} _.
Arguments Err {E A} _.

Definition rbind {E A B} (m : result E A) (f : A → result E B) : result E B :=
  match m with Ok a => f a | Err e => Err e end.

Definition require {E} (b : bool) (e : E) : result E unit :=
  if b then Ok tt else Err e.

Definition of_option {E A} (o : option A) (e : E) : result E A :=
  match o with Some a => Ok a | None => Err e end.

Notation "'let?' x ':=' m 'in' k" := (rbind m (λ x, k))
  (at level 10, x pattern, m at level 100, k at level 200) : wallet_scope.

(** Two images of a list, pointwise. *)
Lemma Forall2_map_diag {A B D} (P : B → D → Prop) (f : A → B) (g : A → D) l :
  (∀ x, In x l → P (f x) (g x)) → Forall2 P (List.map f l) (List.map g l).
Proof. induction l as [|x l IH]; intros Hl; constructor; [apply Hl; by left|apply IH; intros y Hy; apply Hl; by right]. Qed.

(** A test that fails fails somewhere. *)
Lemma forallb_false {A} (f : A → bool) l : forallb f l = false → ∃ x, x ∈ l ∧ f x = false.
Proof.
  induction l as [|x l IH]; simpl; [done|]. rewrite andb_false_iff. intros [Hx|Hl].
  - exists x. split; [by left|done].
  - destruct (IH Hl) as (y & Hy & Hf). exists y. split; [by right|done].
Qed.

(** ** Finite tables

    A table is a [gmap] from its primary key to its rows. *)

(** [map_sum f m]: the sum of [f] over the rows, key and value. *)
Definition map_sum `{Countable K} {A} (f : K → A → Z) (m : gmap K A) : Z :=
  map_fold (λ k x acc, f k x + acc) 0 m.

(** [find_row P m]: a row satisfying [P], with its key. *)
Definition find_row `{Countable K} {A} (P : A → bool) (m : gmap K A) : option (K * A) :=
  List.find (λ r, P r.2) (map_to_list m).

(** [unique_by f m]: no two rows share the value of [f], what a UNIQUE
    constraint over the columns [f] reads says. *)
Definition unique_by `{Countable K} {A B} (f : A → B) (m : gmap K A) : Prop :=
  ∀ i j x y, m !! i = Some x → m !! j = Some y → f x = f y → i = j.

(** [list_sum f l]: the sum of [f] over a list. *)
Definition list_sum {A} (f : A → Z) (l : list A) : Z :=
  foldr (λ x acc, f x + acc) 0 l.

(** ** Tactics *)

(** Destruct the discriminee of a [match] in the goal, or of a hypothesis. *)
Ltac dmatch :=
  match goal with
  | |- context [ match ?x with _ => _ end ] => destruct x eqn:?
  end.
Ltac dmatch_in H :=
  match type of H with
  | context [ match ?x with _ => _ end ] => destruct x eqn:?
  end.

(** Turn boolean facts into propositions. *)
Ltac breflect :=
  repeat match goal with
  | H : (_ && _)%bool = true |- _ => apply andb_true_iff in H; destruct H
  | H : bool_decide _ = true |- _ => apply bool_decide_eq_true in H
  | H : bool_decide _ = false |- _ => apply bool_decide_eq_false in H
  | H : (_ <=? _) = true |- _ => apply Z.leb_le in H
  | H : (_ <=? _) = false |- _ => apply Z.leb_gt in H
  | H : (_ <? _) = true |- _ => apply Z.ltb_lt in H
  | H : (_ <? _) = false |- _ => apply Z.ltb_ge in H
  | H : (_ =? _) = true |- _ => apply Z.eqb_eq in H
  | H : (_ =? _) = false |- _ => apply Z.eqb_neq in H
  | H : negb _ = true |- _ => apply negb_true_iff in H
  | H : negb _ = false |- _ => apply negb_false_iff in H
  end.

(** ** Machine integers: lemmas *)

Lemma in_int64_spec z : in_int64 z = true ↔ int64_min ≤ z ≤ int64_max.
Proof. unfold in_int64. rewrite andb_true_iff, !Z.leb_le. done. Qed.

Lemma wrap64_range z : int64_min ≤ wrap64 z ≤ int64_max.
Proof.
  unfold wrap64, int64_min, int64_max.
  pose proof (Z.mod_pos_bound (z + 2 ^ 63) (2 ^ 64)). lia.
Qed.

Lemma wrap64_id z : int64_min ≤ z ≤ int64_max → wrap64 z = z.
Proof. unfold wrap64, int64_min, int64_max. intros. rewrite Z.mod_small; lia. Qed.

Lemma wrap32_range z : - 2 ^ 31 ≤ wrap32 z ≤ 2 ^ 31 - 1.
Proof. unfold wrap32. pose proof (Z.mod_pos_bound (z + 2 ^ 31) (2 ^ 32)). lia. Qed.

Lemma wrap32_id z : - 2 ^ 31 ≤ z ≤ 2 ^ 31 - 1 → wrap32 z = z.
Proof. unfold wrap32. intros. rewrite Z.mod_small; lia. Qed.

(** ** The error monad: inversion *)

Lemma rbind_Ok {E A B} (m : result E A) (f : A → result E B) b :
  rbind m f = Ok b ↔ ∃ a, m = Ok a ∧ f a = Ok b.
Proof.
  destruct m; simpl; split; [eauto | intros (? & [= ->] & ?); done
    | discriminate | intros (? & ? & ?); discriminate].
Qed.

Lemma rbind_Err {E A B} (m : result E A) (f : A → result E B) e :
  rbind m f = Err e ↔ m = Err e ∨ ∃ a, m = Ok a ∧ f a = Err e.
Proof.
  destruct m as [a|e']; simpl; split.
  - eauto.
  - intros [?|(? & [= ->] & ?)]; [discriminate | done].
  - intros [= ->]. by left.
  - intros [[= ->]|(? & ? & ?)]; [done | discriminate].
Qed.

Lemma require_Ok {E} b (e : E) u : require b e = Ok u ↔ b = true.
Proof. destruct b, u; simpl; split; congruence. Qed.

Lemma require_Err {E} b (e e' : E) : require b e = Err e' ↔ b = false ∧ e = e'.
Proof. destruct b; simpl; split; intuition congruence. Qed.

Lemma of_option_Ok {E A} (o : option A) (e : E) a : of_option o e = Ok a ↔ o = Some a.
Proof. destruct o; simpl; split; intuition congruence. Qed.

Lemma of_option_Err {E A} (o : option A) (e e' : E) :
  of_option o e = Err e' ↔ o = None ∧ e = e'.
Proof. destruct o; simpl; split; intuition congruence. Qed.

(** Decompose a successful or failed computation of the error monad. *)
Ltac rinv H :=
  repeat match type of H with
  | rbind _ _ = Ok _ =>
      let a := fresh "a" in let H1 := fresh "Hm" in
      apply rbind_Ok in H; destruct H as (a & H1 & H); rinv H1
  | require _ _ = Ok _ => apply require_Ok in H
  | of_option _ _ = Ok _ => apply of_option_Ok in H
  end.

(** Split a failed computation into the step that failed. *)
Ltac rerr H :=
  lazymatch type of H with
  | rbind _ _ = Err _ =>
      let a := fresh "a" in let Hm := fresh "Hm" in
      apply rbind_Err in H; destruct H as [H|(a & Hm & H)];
      [rerr H | rinv Hm; rerr H]
  | require _ _ = Err _ =>
      let Hb := fresh "Hb" in apply require_Err in H; destruct H as [Hb <-]
  | of_option _ _ = Err _ =>
      let Hb := fresh "Hb" in apply of_option_Err in H; destruct H as [Hb <-]
  | Ok _ = Err _ => discriminate H
  | _ => idtac
  end.

(** ** Map sums *)

Section map_sum.
Context `{Countable K} {A : Type}.
Implicit Types (m : gmap K A) (f g : K → A → Z).

Lemma map_sum_empty f : map_sum f (∅ : gmap K A) = 0.
Proof. apply map_fold_empty. Qed.

Lemma map_sum_insert f m i x :
  m !! i = None → map_sum f (<[i:=x]> m) = f i x + map_sum f m.
Proof.
  intros. unfold map_sum. rewrite map_fold_insert_L; [done | intros; lia | done].
Qed.

Lemma map_sum_delete f m i x :
  m !! i = Some x → map_sum f m = f i x + map_sum f (delete i m).
Proof.
  intros Hi. rewrite <- (insert_delete_id m i x) at 1 by done.
  apply map_sum_insert, lookup_delete_eq.
Qed.

Lemma map_sum_update f m i x y :
  m !! i = Some x → map_sum f (<[i:=y]> m) = map_sum f m - f i x + f i y.
Proof.
  intros Hi. rewrite (map_sum_delete f m i x) by done.
  rewrite <- (insert_delete_eq m i y), map_sum_insert by apply lookup_delete_eq. lia.
Qed.

(** Induction on the table, each row below it still in the table. *)
Lemma map_sum_ind_lookup (P : gmap K A → Prop) m :
  P ∅ →
  (∀ i x m', m' !! i = None → m !! i = Some x → m' ⊆ m → P m' → P (<[i:=x]> m')) → P m.
Proof.
  intros H0 HS. enough (∀ m', m' ⊆ m → P m') by eauto.
  induction m' as [|i x m' Hi IH] using map_ind; intros Hsub; [done|].
  assert (m' ⊆ m) by (etrans; [by apply insert_subseteq | done]).
  apply HS; auto.
  apply (lookup_weaken (<[i:=x]> m') m); [apply lookup_insert_eq | done].
Qed.

Lemma map_sum_ext f g m :
  (∀ i x, m !! i = Some x → f i x = g i x) → map_sum f m = map_sum g m.
Proof.
  intros Hfg. apply (map_sum_ind_lookup (λ m', map_sum f m' = map_sum g m') m);
    [|intros i x m' Hi Hm Hsub IH].
  - by rewrite !map_sum_empty.
  - rewrite !map_sum_insert, (Hfg i x) by done. by rewrite IH.
Qed.

Lemma map_sum_nonneg f m :
  (∀ i x, m !! i = Some x → 0 ≤ f i x) → 0 ≤ map_sum f m.
Proof.
  intros Hf. apply (map_sum_ind_lookup (λ m', 0 ≤ map_sum f m') m);
    [|intros i x m' Hi Hm Hsub IH].
  - by rewrite map_sum_empty.
  - rewrite map_sum_insert by done. specialize (Hf i x Hm). lia.
Qed.

Lemma map_sum_plus f g m :
  map_sum (λ k x, f k x + g k x) m = map_sum f m + map_sum g m.
Proof.
  induction m as [|i x m Hi IH] using map_ind.
  - by rewrite !map_sum_empty.
  - rewrite !map_sum_insert by done. lia.
Qed.

Lemma map_sum_zero f m :
  (∀ i x, m !! i = Some x → f i x = 0) → map_sum f m = 0.
Proof.
  intros Hf. apply (map_sum_ind_lookup (λ m', map_sum f m' = 0) m);
    [|intros i x m' Hi Hm Hsub IH].
  - by rewrite map_sum_empty.
  - rewrite map_sum_insert by done. specialize (Hf i x Hm). lia.
Qed.

(** One key carries the whole sum. *)
Lemma map_sum_single f m k :
  (∀ i x, m !! i = Some x → i ≠ k → f i x = 0) →
  map_sum f m = from_option (f k) 0 (m !! k).
Proof.
  intros Hf. destruct (m !! k) as [y|] eqn:Hk; simpl.
  - rewrite (map_sum_delete f m k y) by done.
    rewrite map_sum_zero; [lia|]. intros i x [??]%lookup_delete_Some. by apply Hf.
  - apply map_sum_zero. intros i x Hi. apply (Hf i x Hi). congruence.
Qed.
End map_sum.

(** ** List sums *)

Lemma list_sum_app {A} (f : A → Z) l1 l2 :
  list_sum f (l1 ++ l2) = list_sum f l1 + list_sum f l2.
Proof. induction l1; simpl; lia. Qed.

(** Regrouping: a sum over a list of entries, each belonging to a key of [m],
    is the sum over [m] of the entries of each key. *)
Lemma list_sum_group `{Countable K} {A B} (key : B → K) (f : B → Z) (l : list B) (m : gmap K A) :
  (∀ b, b ∈ l → is_Some (m !! key b)) →
  map_sum (λ k _, list_sum (λ b, if bool_decide (key b = k) then f b else 0) l) m = list_sum f l.
Proof.
  induction l as [|b l IH]; intros Hl; simpl.
  - by apply map_sum_zero.
  - rewrite map_sum_plus, IH by (intros; apply Hl; by right). f_equal.
    rewrite (map_sum_single _ m (key b)).
    + destruct (Hl b) as [y ->]; [by left|]. simpl. by rewrite bool_decide_eq_true_2.
    + intros i x _ Hne. by rewrite bool_decide_eq_false_2.
Qed.

(** The same for a sum over a table that refers to another. *)
Lemma map_sum_group `{Countable K} {A B} `{Countable L} (key : B → K) (f : B → Z)
    (n : gmap L B) (m : gmap K A) :
  (∀ j b, n !! j = Some b → is_Some (m !! key b)) →
  map_sum (λ k _, map_sum (λ _ b, if bool_decide (key b = k) then f b else 0) n) m =
  map_sum (λ _ b, f b) n.
Proof.
  intros Hn.
  apply (map_sum_ind_lookup (λ n', map_sum (λ k _, map_sum (λ _ b,
           if bool_decide (key b = k) then f b else 0) n') m = map_sum (λ _ b, f b) n') n);
    [|intros j b n' Hj Hb Hsub IH].
  - rewrite map_sum_empty. apply map_sum_zero. intros. apply map_sum_empty.
  - rewrite map_sum_insert by done. rewrite <- IH.
    rewrite (map_sum_ext _ (λ k _, (if bool_decide (key b = k) then f b else 0) +
      map_sum (λ _ b, if bool_decide (key b = k) then f b else 0) n') m)
      by (intros; by rewrite map_sum_insert).
    rewrite map_sum_plus. f_equal. rewrite (map_sum_single _ m (key b)).
    + destruct (Hn j b Hb) as [y ->]. simpl. by rewrite bool_decide_eq_true_2.
    + intros i x _ Hne. by rewrite bool_decide_eq_false_2.
Qed.

(** ** Finding a row *)

Section find_row.
Context `{Countable K} {A : Type}.
Implicit Types (m : gmap K A) (P : A → bool).

Lemma find_row_Some P m i x :
  find_row P m = Some (i, x) → m !! i = Some x ∧ P x = true.
Proof.
  unfold find_row. intros Hf. apply List.find_some in Hf as [Hin HP].
  apply list_elem_of_In, elem_of_map_to_list in Hin. done.
Qed.

Lemma find_row_None P m :
  find_row P m = None ↔ ∀ i x, m !! i = Some x → P x = false.
Proof.
  unfold find_row. split.
  - intros Hf i x Hi. apply (List.find_none _ _ Hf (i, x)).
    by apply list_elem_of_In, elem_of_map_to_list.
  - intros HP. destruct (List.find _ _) as [[i x]|] eqn:Hf; [|done].
    apply List.find_some in Hf as [Hin Hx].
    apply list_elem_of_In, elem_of_map_to_list in Hin. simpl in *.
    rewrite (HP i x) in Hx; done.
Qed.

Lemma find_row_unique {B} `{EqDecision B} (f : A → B) (b : B) m i x :
  unique_by f m → m !! i = Some x → f x = b →
  find_row (λ r, bool_decide (f r = b)) m = Some (i, x).
Proof.
  intros Hu Hi Hb. destruct (find_row _ m) as [[j y]|] eqn:Hf.
  - apply find_row_Some in Hf as [Hj Hy]. breflect.
    assert (i = j) as <- by (eapply Hu; [exact Hi|exact Hj|congruence]).
    by simplify_map_eq.
  - rewrite find_row_None in Hf. specialize (Hf i x Hi). breflect. done.
Qed.

Lemma unique_by_insert {B} (f : A → B) m i x :
  unique_by f m → (∀ j y, m !! j = Some y → i ≠ j → f y ≠ f x) →
  unique_by f (<[i:=x]> m).
Proof.
  intros Hu Hx j k y z Hj Hk Hf.
  destruct (decide (i = j)), (decide (i = k)); simplify_map_eq; try done.
  - by destruct (Hx k z Hk).
  - by destruct (Hx j y Hj).
  - by eapply Hu.
Qed.

(** Rewriting a row in place, its UNIQUE columns unchanged. *)
Lemma unique_by_update {B} (f : A → B) m i x y :
  unique_by f m → m !! i = Some x → f y = f x → unique_by f (<[i:=y]> m).
Proof.
  intros Hu Hi Hf. apply unique_by_insert; [done|].
  intros j z Hj Hne Heq. apply Hne. eapply Hu; [done..|congruence].
Qed.
End find_row.

#[export] Hint Rewrite @map_sum_empty : wallet_rw.
#[export] Hint Resolve wrap64_range wrap32_range : wallet.
