(* ===== verification/GoStrings.v ===== *)
(** * Go strings

    The functions of the Go standard library the service applies to text:
    [strings.TrimSpace], [strings.EqualFold] against an ASCII word,
    [strings.ToLower] as compared with ASCII words, [strings.IndexByte],
    [strconv.Itoa], [strconv.Atoi] and slicing.  Strings are byte strings. *)

From Stdlib Require Import Ascii String.
From S2P Require Import Prelude.

#[local] Open Scope string_scope.
#[local] Open Scope Z_scope.

(** ** Slicing *)

Fixpoint take_bytes (n : nat) (s : string) : string :=
  match n, s with
  | S n, String c s => String c (take_bytes n s)
  | _, _ => EmptyString
  end.

Fixpoint drop_bytes (n : nat) (s : string) : string :=
  match n, s with
  | S n, String _ s => drop_bytes n s
  | _, _ => s
  end.

Fixpoint rev_bytes (s acc : string) : string :=
  match s with
  | EmptyString => acc
  | String c s => rev_bytes s (String c acc)
  end.

Definition bytes (l : list N) : string :=
  foldr (λ n s, String (Ascii.ascii_of_N n) s) EmptyString l.

(** ** TrimSpace

    The UTF-8 encodings of the runes [unicode.IsSpace] accepts.  An encoding is
    at the front (the back) of a string exactly when the first (the last) rune
    decoded is that rune. *)

Definition space_runes : list string :=
  bytes <$> [[9]; [10]; [11]; [12]; [13]; [32]; [0xC2; 0x85]; [0xC2; 0xA0]; [0xE1; 0x9A; 0x80];
    [0xE2; 0x80; 0x80]; [0xE2; 0x80; 0x81]; [0xE2; 0x80; 0x82]; [0xE2; 0x80; 0x83];
    [0xE2; 0x80; 0x84]; [0xE2; 0x80; 0x85]; [0xE2; 0x80; 0x86]; [0xE2; 0x80; 0x87];
    [0xE2; 0x80; 0x88]; [0xE2; 0x80; 0x89]; [0xE2; 0x80; 0x8A]; [0xE2; 0x80; 0xA8];
    [0xE2; 0x80; 0xA9]; [0xE2; 0x80; 0xAF]; [0xE2; 0x81; 0x9F]; [0xE3; 0x80; 0x80]]%N.

(** Remove one of the prefixes [ps] from the front. *)
Definition strip_one (ps : list string) (s : string) : option string :=
  match List.find (λ p, String.prefix p s) ps with
  | Some p => Some (drop_bytes (String.length p) s)
  | None => None
  end.

Fixpoint strip_all (fuel : nat) (ps : list string) (s : string) : string :=
  match fuel with
  | O => s
  | S fuel => match strip_one ps s with Some s => strip_all fuel ps s | None => s end
  end.

Definition trim_left (s : string) : string := strip_all (String.length s) space_runes s.

Definition trim_right (s : string) : string :=
  rev_bytes (strip_all (String.length s) ((λ p, rev_bytes p "") <$> space_runes) (rev_bytes s "")) "".

Definition TrimSpace (s : string) : string := trim_right (trim_left s).

(** ** ASCII case *)

Definition lower_byte (c : Ascii.ascii) : Ascii.ascii :=
  let n := Ascii.N_of_ascii c in
  if ((65 <=? n) && (n <=? 90))%N then Ascii.ascii_of_N (n + 32) else c.

Fixpoint ToLower (s : string) : string :=
  match s with
  | EmptyString => EmptyString
  | String c s => String (lower_byte c) (ToLower s)
  end.

(** [EqualFold s t] for an ASCII [t] without the letters k and s, whose case
    orbits have no member outside ASCII. *)
Definition EqualFold (s t : string) : bool := String.eqb (ToLower s) (ToLower t).

(** ** Searching and numbers *)

Fixpoint IndexByte (s : string) (c : Ascii.ascii) : Z :=
  match s with
  | EmptyString => -1
  | String x s =>
      if Ascii.eqb x c then 0
      else let i := IndexByte s c in if i <? 0 then -1 else i + 1
  end.

Definition Itoa (n : Z) : string := pretty n.

Definition digit (c : Ascii.ascii) : option Z :=
  let n := Z.of_N (Ascii.N_of_ascii c) in
  if (48 <=? n) && (n <=? 57) then Some (n - 48) else None.

Fixpoint digits (acc : Z) (s : string) : option Z :=
  match s with
  | EmptyString => Some acc
  | String c s => match digit c with Some x => digits (acc * 10 + x) s | None => None end
  end.

(** [strconv.Atoi]: an optional sign, digits, in the range of an int. *)
Definition Atoi (s : string) : option Z :=
  let signed (sign : Z) (body : string) :=
    match body with
    | EmptyString => None
    | _ => match digits 0 body with
           | Some n => if in_int64 (sign * n) then Some (sign * n) else None
           | None => None
           end
    end in
  match s with
  | String "+"%char body => signed 1 body
  | String "-"%char body => signed (-1) body
  | _ => signed 1 s
  end.

(** ** Lemmas *)

Lemma length_take_bytes n s : (String.length (take_bytes n s) ≤ n)%nat.
Proof. revert s. induction n as [|n IH]; intros [|c s]; simpl; try lia. specialize (IH s). lia. Qed.

Lemma take_drop_bytes n s : take_bytes n s +:+ drop_bytes n s = s.
Proof.
  revert s. induction n as [|n IH]; intros [|c s]; try done.
  cbn [take_bytes drop_bytes]. change (String c (take_bytes n s +:+ drop_bytes n s) = String c s).
  by rewrite IH.
Qed.

Lemma Atoi_range s n : Atoi s = Some n → in_int64 n = true.
Proof. unfold Atoi. intros Ha. repeat case_match; simplify_eq; done. Qed.

Example trim_ascii : TrimSpace " 	 a b
 " = "a b".
Proof. reflexivity. Qed.
Example trim_nbsp : TrimSpace (bytes [0xC2; 0xA0; 0x20; 0xE3; 0x80; 0x80]%N) = "".
Proof. reflexivity. Qed.
Example fold_bearer : EqualFold "BeArEr " "bearer " = true.
Proof. reflexivity. Qed.
Example atoi_neg : Atoi "-17" = Some (-17).
Proof. reflexivity. Qed.
Example atoi_overflow : Atoi "9223372036854775808" = None.
Proof. reflexivity. Qed.
