(* ===== verification/Json.v ===== *)
(** * JSON decoding (encoding/json as decodeJSON of internal/api/handlers.go uses it)

    The scanner of one value from the front of a document, with the context of
    its syntax errors, the unquoting of strings, and the strict decoding of an
    object into a struct: exact names first, then names up to case; null
    leaves a string alone and clears a pointer; the first mismatch or unknown
    field is the error, found only once the whole value has been scanned.
    Errors are values; their text is not rendered. *)

From Stdlib Require Import Ascii String.
From S2P Require Import Prelude GoStrings.

#[local] Open Scope string_scope.
#[local] Open Scope Z_scope.

#[warnings="-register-all"]
Inductive json :=
| JNull
| JBool (b : bool)
| JNumber (literal : string)
| JString (s : string)
| JArray (l : list json)
| JObject (l : list (string * json)).

(** [DType value field type]: an [UnmarshalTypeError]. *)
Inductive decode_error :=
| DEOF
| DUnexpectedEOF
| DSyntax (c : Ascii.ascii) (context : string)
| DType (value field type : string)
| DUnknownField (key : string)
| DTrailing.

(** ** Bytes *)

Definition code (c : Ascii.ascii) : Z := Z.of_N (Ascii.N_of_ascii c).
Definition byte (z : Z) : Ascii.ascii := Ascii.ascii_of_N (Z.to_N z).

Definition quote : Ascii.ascii := byte 34.
Definition backslash : Ascii.ascii := byte 92.

Definition is_space (c : Ascii.ascii) : bool :=
  (code c =? 32) || (code c =? 9) || (code c =? 13) || (code c =? 10).

Definition is_digit (c : Ascii.ascii) : bool := (48 <=? code c) && (code c <=? 57).

Definition hex_digit_value (c : Ascii.ascii) : option Z :=
  let n := code c in
  if (48 <=? n) && (n <=? 57) then Some (n - 48)
  else if (97 <=? n) && (n <=? 102) then Some (n - 87)
  else if (65 <=? n) && (n <=? 70) then Some (n - 55)
  else None.

Fixpoint skip_space (s : string) : string :=
  match s with
  | String c s' => if is_space c then skip_space s' else s
  | EmptyString => EmptyString
  end.

(** The byte at the front is not what the state expects. *)
Definition unexpected {A} (s context : string) : result decode_error A :=
  match s with
  | EmptyString => Err DUnexpectedEOF
  | String c _ => Err (DSyntax c context)
  end.

(** The rest after the byte [c] at the front. *)
Definition expect (c : Ascii.ascii) (s : string) : option string :=
  match s with
  | String x r => if Ascii.eqb x c then Some r else None
  | EmptyString => None
  end.

(** ** Literals

    Each scanner answers what it consumed and the rest of the document. *)

Fixpoint scan_word (word expected s : string) : result decode_error string :=
  match expected with
  | EmptyString => Ok s
  | String e expected =>
      match s with
      | EmptyString => Err DUnexpectedEOF
      | String c s =>
          if Ascii.eqb c e then scan_word word expected s
          else Err (DSyntax c ("in literal " +:+ word +:+ " (expecting '" +:+ String e "')"))
      end
  end.

Fixpoint scan_digits (s : string) : string * string :=
  match s with
  | String c s' =>
      if is_digit c then let '(d, r) := scan_digits s' in (String c d, r) else (EmptyString, s)
  | EmptyString => (EmptyString, EmptyString)
  end.

(** At least one digit. *)
Definition scan_digits1 (context s : string) : result decode_error (string * string) :=
  match s with
  | String c _ => if is_digit c then Ok (scan_digits s) else unexpected s context
  | EmptyString => Err DUnexpectedEOF
  end.

Definition scan_integer (s : string) : result decode_error (string * string) :=
  match expect "0" s with
  | Some r => Ok ("0", r)
  | None => scan_digits1 "in numeric literal" s
  end.

Definition scan_fraction (s : string) : result decode_error (string * string) :=
  match expect "." s with
  | Some r =>
      let? (d, r) := scan_digits1 "after decimal point in numeric literal" r in
      Ok (String "." d, r)
  | None => Ok (EmptyString, s)
  end.

Definition scan_sign (s : string) : string * string :=
  match expect "+" s, expect "-" s with
  | Some r, _ => ("+", r)
  | None, Some r => ("-", r)
  | None, None => (EmptyString, s)
  end.

Definition scan_exponent (s : string) : result decode_error (string * string) :=
  match s with
  | String c r =>
      if Ascii.eqb c "e" || Ascii.eqb c "E" then
        let '(sign, r) := scan_sign r in
        let? (d, r) := scan_digits1 "in exponent of numeric literal" r in
        Ok (String c (sign +:+ d), r)
      else Ok (EmptyString, s)
  | EmptyString => Ok (EmptyString, s)
  end.

Definition scan_number (s : string) : result decode_error (string * string) :=
  let '(minus, s) := match expect "-" s with Some r => ("-", r) | None => (EmptyString, s) end in
  let? (i, s) := scan_integer s in
  let? (f, s) := scan_fraction s in
  let? (e, s) := scan_exponent s in
  Ok (minus +:+ i +:+ f +:+ e, s).

Fixpoint check_hex (n : nat) (s : string) : result decode_error unit :=
  match n, s with
  | O, _ => Ok tt
  | S n, String c s =>
      match hex_digit_value c with
      | Some _ => check_hex n s
      | None => Err (DSyntax c "in \u hexadecimal character escape")
      end
  | S _, EmptyString => Err DUnexpectedEOF
  end.

Definition is_simple_escape (c : Ascii.ascii) : bool :=
  existsb (Ascii.eqb c) [quote; backslash; "/"; "b"; "f"; "n"; "r"; "t"]%char.

(** After the opening quote: the raw contents, and the rest after the closing
    one. *)
Fixpoint scan_string (s : string) : result decode_error (string * string) :=
  match s with
  | EmptyString => Err DUnexpectedEOF
  | String c s =>
      if Ascii.eqb c quote then Ok (EmptyString, s)
      else if Ascii.eqb c backslash then
        match s with
        | EmptyString => Err DUnexpectedEOF
        | String e s =>
            let? _ := (if Ascii.eqb e "u" then check_hex 4 s
                       else if is_simple_escape e then Ok tt
                       else Err (DSyntax e "in string escape code")) in
            let? (raw, r) := scan_string s in
            Ok (String c (String e raw), r)
        end
      else if code c <? 32 then Err (DSyntax c "in string literal")
      else let? (raw, r) := scan_string s in Ok (String c raw, r)
  end.

(** ** Unquoting *)

(** The UTF-8 encoding of a rune. *)
Definition encode_rune (r : Z) : string :=
  if r <? 128 then String (byte r) EmptyString
  else if r <? 2048 then
    String (byte (192 + r / 64)) (String (byte (128 + r mod 64)) EmptyString)
  else if r <? 65536 then
    String (byte (224 + r / 4096)) (String (byte (128 + r / 64 mod 64))
      (String (byte (128 + r mod 64)) EmptyString))
  else
    String (byte (240 + r / 262144)) (String (byte (128 + r / 4096 mod 64))
      (String (byte (128 + r / 64 mod 64)) (String (byte (128 + r mod 64)) EmptyString))).

Definition replacement : Z := 65533.

(** [getu4] past the backslash and the u: four hexadecimal digits. *)
Definition get4 (s : string) : option (Z * string) :=
  match s with
  | String a (String b (String c (String d s))) =>
      match hex_digit_value a, hex_digit_value b, hex_digit_value c, hex_digit_value d with
      | Some a, Some b, Some c, Some d => Some (((a * 16 + b) * 16 + c) * 16 + d, s)
      | _, _, _, _ => None
      end
  | _ => None
  end.

Definition is_high (r : Z) : bool := (55296 <=? r) && (r <? 56320).
Definition is_low (r : Z) : bool := (56320 <=? r) && (r <? 57344).

(** A [\u] escape, with the second half of a surrogate pair: the rune, and the
    rest. *)
Definition unquote_u (s : string) : Z * string :=
  match get4 s with
  | None => (replacement, s)
  | Some (r, s) =>
      if is_high r || is_low r then
        let second := match s with
                      | String b (String u s') =>
                          if Ascii.eqb b backslash && Ascii.eqb u "u" then get4 s' else None
                      | _ => None
                      end in
        match second with
        | Some (r2, s') =>
            if is_high r && is_low r2
            then ((r - 55296) * 1024 + (r2 - 56320) + 65536, s')
            else (replacement, s)
        | None => (replacement, s)
        end
      else (r, s)
  end.

Definition escape_value (c : Ascii.ascii) : Ascii.ascii :=
  if Ascii.eqb c "b" then byte 8
  else if Ascii.eqb c "f" then byte 12
  else if Ascii.eqb c "n" then byte 10
  else if Ascii.eqb c "r" then byte 13
  else if Ascii.eqb c "t" then byte 9
  else c.

(** How many bytes of well-formed UTF-8 a multi-byte rune at the front has; 0
    when it is not well-formed. *)
Definition between (lo hi : Z) (c : Ascii.ascii) : bool := (lo <=? code c) && (code c <=? hi).

Definition rune_width (s : string) : nat :=
  match s with
  | String a (String b s') =>
      if between 194 223 a then (if between 128 191 b then 2%nat else 0%nat)
      else if between 224 239 a then
        let lo := if code a =? 224 then 160 else 128 in
        let hi := if code a =? 237 then 159 else 191 in
        match s' with
        | String c _ => if between lo hi b && between 128 191 c then 3%nat else 0%nat
        | EmptyString => 0%nat
        end
      else if between 240 244 a then
        let lo := if code a =? 240 then 144 else 128 in
        let hi := if code a =? 244 then 143 else 191 in
        match s' with
        | String c (String d _) =>
            if between lo hi b && between 128 191 c && between 128 191 d then 4%nat else 0%nat
        | _ => 0%nat
        end
      else 0%nat
  | _ => 0%nat
  end.

(** The string a raw literal denotes; [fuel] is its length. *)
Fixpoint unquote_bytes (fuel : nat) (s : string) : string :=
  match fuel, s with
  | S fuel, String c s' =>
      if Ascii.eqb c backslash then
        match s' with
        | String e s'' =>
            if Ascii.eqb e "u" then
              let '(r, rest) := unquote_u s'' in encode_rune r +:+ unquote_bytes fuel rest
            else String (escape_value e) (unquote_bytes fuel s'')
        | EmptyString => EmptyString
        end
      else if code c <? 128 then String c (unquote_bytes fuel s')
      else
        match rune_width s with
        | O => encode_rune replacement +:+ unquote_bytes fuel s'
        | w => take_bytes w s +:+ unquote_bytes fuel (drop_bytes w s)
        end
  | _, _ => EmptyString
  end.

Definition unquote (raw : string) : string := unquote_bytes (String.length raw) raw.

(** ** Values

    [fuel] bounds the nesting and the items; twice the length of the document
    is more than any document uses ([scan_value_fuel]). *)

Fixpoint scan_value (fuel : nat) (s : string) : result decode_error (json * string) :=
  match fuel with
  | O => Err DUnexpectedEOF
  | S fuel =>
      match skip_space s with
      | EmptyString => Err DUnexpectedEOF
      | String c r =>
          if Ascii.eqb c "{" then
            match expect "}" (skip_space r) with
            | Some r => Ok (JObject [], r)
            | None => let? (ms, r) := scan_members fuel r in Ok (JObject ms, r)
            end
          else if Ascii.eqb c "[" then
            match expect "]" (skip_space r) with
            | Some r => Ok (JArray [], r)
            | None => let? (vs, r) := scan_elements fuel r in Ok (JArray vs, r)
            end
          else if Ascii.eqb c quote then
            let? (raw, r) := scan_string r in Ok (JString (unquote raw), r)
          else if Ascii.eqb c "t" then
            let? r := scan_word "true" "rue" r in Ok (JBool true, r)
          else if Ascii.eqb c "f" then
            let? r := scan_word "false" "alse" r in Ok (JBool false, r)
          else if Ascii.eqb c "n" then
            let? r := scan_word "null" "ull" r in Ok (JNull, r)
          else if Ascii.eqb c "-" || is_digit c then
            let? (lit, r) := scan_number (String c r) in Ok (JNumber lit, r)
          else Err (DSyntax c "looking for beginning of value")
      end
  end
with scan_members (fuel : nat) (s : string) : result decode_error (list (string * json) * string) :=
  match fuel with
  | O => Err DUnexpectedEOF
  | S fuel =>
      match expect quote (skip_space s) with
      | None => unexpected (skip_space s) "looking for beginning of object key string"
      | Some r =>
          let? (raw, r) := scan_string r in
          match expect ":" (skip_space r) with
          | None => unexpected (skip_space r) "after object key"
          | Some r =>
              let? (v, r) := scan_value fuel r in
              match expect "," (skip_space r), expect "}" (skip_space r) with
              | Some r, _ => let? (ms, r) := scan_members fuel r in Ok ((unquote raw, v) :: ms, r)
              | None, Some r => Ok ([(unquote raw, v)], r)
              | None, None => unexpected (skip_space r) "after object key:value pair"
              end
          end
      end
  end
with scan_elements (fuel : nat) (s : string) : result decode_error (list json * string) :=
  match fuel with
  | O => Err DUnexpectedEOF
  | S fuel =>
      let? (v, r) := scan_value fuel s in
      match expect "," (skip_space r), expect "]" (skip_space r) with
      | Some r, _ => let? (vs, r) := scan_elements fuel r in Ok (v :: vs, r)
      | None, Some r => Ok ([v], r)
      | None, None => unexpected (skip_space r) "after array element"
      end
  end.

(** [dec.readValue]: the first value of a document; [io.EOF] when there is
    none. *)
Definition scan_document (s : string) : result decode_error (json * string) :=
  match skip_space s with
  | EmptyString => Err DEOF
  | _ => scan_value (2 * String.length s + 2) s
  end.

(** ** Into a struct *)

(** [foldName]: ASCII letters in upper case, and the two runes outside ASCII
    that fold to an ASCII letter (long s, the Kelvin sign). *)
Fixpoint fold_name (s : string) : string :=
  match s with
  | EmptyString => EmptyString
  | String a s' =>
      if between 97 122 a then String (byte (code a - 32)) (fold_name s')
      else
        match s' with
        | String b s'' =>
            if (code a =? 197) && (code b =? 191) then String "S" (fold_name s'')
            else
              match s'' with
              | String c s3 =>
                  if (code a =? 226) && (code b =? 132) && (code c =? 170)
                  then String "K" (fold_name s3) else String a (fold_name s')
              | EmptyString => String a (fold_name s')
              end
        | EmptyString => String a EmptyString
        end
  end.

(** The field a key names. *)
Definition find_field (names : list string) (key : string) : option string :=
  match List.find (String.eqb key) names with
  | Some name => Some name
  | None => List.find (λ name, String.eqb (fold_name name) (fold_name key)) names
  end.

(** What an [UnmarshalTypeError] calls a value. *)
Definition value_kind (v : json) : string :=
  match v with
  | JNull => "null"
  | JBool _ => "bool"
  | JNumber _ => "number"
  | JString _ => "string"
  | JArray _ => "array"
  | JObject _ => "object"
  end.

(** A value into a field of type string: the new contents and the error. *)
Definition store_string (field : string) (v : json) (old : string) : string * option decode_error :=
  match v with
  | JString s => (s, None)
  | JNull => (old, None)
  | _ => (old, Some (DType (value_kind v) field "string"))
  end.

(** A value into a field of type pointer to int64: anything but null allocates
    the pointer. *)
Definition store_int64 (field : string) (v : json) (old : option Z) : option Z * option decode_error :=
  match v with
  | JNull => (None, None)
  | JNumber lit =>
      match Atoi lit with
      | Some n => (Some n, None)
      | None => (Some (default 0 old), Some (DType ("number " +:+ lit) field "int64"))
      end
  | _ => (Some (default 0 old), Some (DType (value_kind v) field "int64"))
  end.

(** [d.saveError]: the first error stays. *)
Definition save_error (saved err : option decode_error) : option decode_error :=
  match saved with Some e => Some e | None => err end.

Section struct.
Context {T : Type} (names : list string) (store : string → json → T → T * option decode_error).

Definition store_member (acc : T * option decode_error) (m : string * json)
    : T * option decode_error :=
  let '(t, saved) := acc in
  let '(key, v) := m in
  match find_field names key with
  | Some name => let '(t, err) := store name v t in (t, save_error saved err)
  | None => (t, save_error saved (Some (DUnknownField key)))
  end.

Definition decode_struct (zero : T) (v : json) : result decode_error T :=
  match v with
  | JNull => Ok zero
  | JObject ms =>
      match foldl store_member (zero, None) ms with
      | (_, Some e) => Err e
      | (t, None) => Ok t
      end
  | _ => Err (DType (value_kind v) "" "struct")
  end.
End struct.

(** What every store keeps, the result satisfies. *)
Lemma decode_struct_inv {T} names (store : string → json → T → T * option decode_error) (I : T → Prop) zero v t :
  I zero → (∀ name v t, I t → I (store name v t).1) → decode_struct names store zero v = Ok t → I t.
Proof.
  intros H0 Hst. destruct v as [|b|l|s|l|ms]; simpl; try done; [by intros [= <-]|].
  assert (Hf : ∀ ms acc, I acc.1 → I (foldl (store_member names store) acc ms).1).
  { clear ms. induction ms as [|[key v] ms IH]; intros [x e] Hx; [done|]. simpl. apply IH.
    unfold store_member. destruct (find_field names key) as [name|]; [|done].
    specialize (Hst name v x Hx). by destruct (store name v x). }
  specialize (Hf ms (zero, None) H0). destruct (foldl _ _ ms) as [x [e|]]; [done|]. by intros [= <-].
Qed.

Lemma store_string_error field v old :
  (store_string field v old).2 = None → (store_string field v old).1 = old ∨ v = JString (store_string field v old).1.
Proof. destruct v; simpl; eauto. Qed.

Lemma store_int64_range field v old :
  (∀ n, old = Some n → in_int64 n = true) →
  ∀ n, (store_int64 field v old).1 = Some n → in_int64 n = true.
Proof.
  intros Hold n. assert (H0 : in_int64 (default 0 old) = true) by (destruct old; [by apply Hold|done]).
  destruct v; simpl; try (by intros [= <-]).
  destruct (Atoi literal) as [z|] eqn:Ha; intros [= <-]; [by eapply Atoi_range|done].
Qed.

(** ** The scanners consume, and never run out of fuel *)

Lemma skip_space_length s : (String.length (skip_space s) ≤ String.length s)%nat.
Proof. induction s as [|c s IH]; simpl; [done|]. destruct (is_space c); simpl; lia. Qed.

Lemma expect_length c s r : expect c s = Some r → (String.length r < String.length s)%nat.
Proof. destruct s as [|x s]; simpl; [done|]. destruct (Ascii.eqb x c); [|done]. intros [= <-]. lia. Qed.

Lemma scan_word_length w e s r : scan_word w e s = Ok r → (String.length r ≤ String.length s)%nat.
Proof.
  revert s. induction e as [|x e IH]; intros s; simpl; [by intros [= ->]|].
  destruct s as [|c s]; [done|]. destruct (Ascii.eqb c x); [|done]. intros Hr%IH. simpl. lia.
Qed.

Lemma scan_digits_length s : (String.length (scan_digits s).2 ≤ String.length s)%nat.
Proof.
  induction s as [|c s IH]; simpl; [done|]. destruct (is_digit c); [|done].
  destruct (scan_digits s) as [d r]. simpl in *. lia.
Qed.

Lemma scan_digits1_length ctx s d r :
  scan_digits1 ctx s = Ok (d, r) → (String.length r < String.length s)%nat.
Proof.
  destruct s as [|c s]; simpl; [done|]. destruct (is_digit c); [|done].
  pose proof (scan_digits_length s). destruct (scan_digits s) as [d' r']. intros [= _ <-]. simpl in *. lia.
Qed.

Lemma scan_integer_length s i r : scan_integer s = Ok (i, r) → (String.length r < String.length s)%nat.
Proof.
  unfold scan_integer. destruct (expect _ s) eqn:He; [|apply scan_digits1_length].
  intros [= _ <-]. by eapply expect_length.
Qed.

Lemma scan_fraction_length s f r : scan_fraction s = Ok (f, r) → (String.length r ≤ String.length s)%nat.
Proof.
  unfold scan_fraction. destruct (expect _ s) eqn:He; [|by intros [= _ <-]].
  apply expect_length in He. destruct (scan_digits1 _ _) as [[d r']|] eqn:Hd; [|done]. apply scan_digits1_length in Hd.
  intros [= _ <-]. simpl. lia.
Qed.

Lemma scan_sign_length s : (String.length (scan_sign s).2 ≤ String.length s)%nat.
Proof.
  unfold scan_sign. destruct (expect "+" s) eqn:Hp; [apply expect_length in Hp; simpl; lia|].
  destruct (expect "-" s) eqn:Hm; [apply expect_length in Hm|]; simpl; lia.
Qed.

Lemma scan_exponent_length s e r : scan_exponent s = Ok (e, r) → (String.length r ≤ String.length s)%nat.
Proof.
  unfold scan_exponent. destruct s as [|c s]; [by intros [= _ <-]|].
  destruct (_ || _); [|by intros [= _ <-]].
  pose proof (scan_sign_length s). destruct (scan_sign s) as [sg s'].
  destruct (scan_digits1 _ _) as [[d r']|] eqn:Hd; [|done]. apply scan_digits1_length in Hd.
  intros [= _ <-]. simpl in *. lia.
Qed.

Lemma scan_number_length s l r : scan_number s = Ok (l, r) → (String.length r < String.length s)%nat.
Proof.
  unfold scan_number. set (m := match expect "-" s with Some r => ("-", r) | None => (EmptyString, s) end).
  assert (Hm : (String.length m.2 ≤ String.length s)%nat)
    by (subst m; destruct (expect "-" s) eqn:He; [apply expect_length in He|]; simpl; lia).
  destruct m as [minus s0].
  destruct (scan_integer s0) as [[i s1]|] eqn:Hi; [|done]. apply scan_integer_length in Hi.
  cbn [rbind]. destruct (scan_fraction s1) as [[f s2]|] eqn:Hf; [|done]. apply scan_fraction_length in Hf.
  cbn [rbind]. destruct (scan_exponent s2) as [[e s3]|] eqn:He; [|done]. apply scan_exponent_length in He.
  intros [= _ <-]. simpl in *. lia.
Qed.

Lemma scan_string_length n s raw r :
  (String.length s ≤ n)%nat → scan_string s = Ok (raw, r) → (String.length r < String.length s)%nat.
Proof.
  revert s raw. induction n as [|n IH]; intros [|c s] raw Hn; simpl in *; try done; [lia|].
  destruct (Ascii.eqb c quote); [intros [= _ <-]; lia|].
  destruct (Ascii.eqb c backslash).
  - destruct s as [|e s]; [done|]. destruct (if Ascii.eqb e "u" then _ else _); [|done]. cbn [rbind].
    destruct (scan_string s) as [[raw' r']|] eqn:Hs; [|done]. intros [= _ <-].
    apply IH in Hs; simpl in *; lia.
  - destruct (code c <? 32); [done|]. destruct (scan_string s) as [[raw' r']|] eqn:Hs; [|done].
    intros [= _ <-]. apply IH in Hs; lia.
Qed.

(** What a scanner that succeeds left over is shorter. *)
Ltac consumed :=
  repeat match goal with
  | He : expect _ _ = Some _ |- _ => apply expect_length in He
  | He : scan_word _ _ _ = Ok _ |- _ => apply scan_word_length in He
  | He : scan_number _ = Ok _ |- _ => apply scan_number_length in He
  | He : scan_string _ = Ok _ |- _ => apply (scan_string_length _ _ _ _ (Nat.le_refl _)) in He
  end.

Lemma scan_length fuel :
  (∀ s v r, scan_value fuel s = Ok (v, r) → (String.length r < String.length s)%nat) ∧
  (∀ s v r, scan_members fuel s = Ok (v, r) → (String.length r < String.length s)%nat) ∧
  (∀ s v r, scan_elements fuel s = Ok (v, r) → (String.length r < String.length s)%nat).
Proof.
  induction fuel as [|fuel (IHv & IHm & IHe)]; [done|]. split_and!; intros s v r;
    cbn [scan_value scan_members scan_elements].
  - pose proof (skip_space_length s) as Hs. destruct (skip_space s) as [|c s']; [done|]. simpl in Hs.
    pose proof (skip_space_length s').
    repeat match goal with |- (if ?b then _ else _) = _ → _ => destruct b end; try done.
    + destruct (expect _ _) eqn:He; [intros [= _ <-]; consumed; lia|].
      destruct (scan_members _ _) as [[ms r']|] eqn:Hm; [|done]. intros [= _ <-]. apply IHm in Hm. lia.
    + destruct (expect _ _) eqn:He; [intros [= _ <-]; consumed; lia|].
      destruct (scan_elements _ _) as [[ms r']|] eqn:Hm; [|done]. intros [= _ <-]. apply IHe in Hm. lia.
    + destruct (scan_string _) as [[raw r']|] eqn:Hm; [|done]. intros [= _ <-]. consumed. lia.
    + destruct (scan_word _ _ _) eqn:Hm; [|done]. intros [= _ <-]. consumed. lia.
    + destruct (scan_word _ _ _) eqn:Hm; [|done]. intros [= _ <-]. consumed. lia.
    + destruct (scan_word _ _ _) eqn:Hm; [|done]. intros [= _ <-]. consumed. lia.
    + destruct (scan_number _) as [[raw r']|] eqn:Hm; [|done]. intros [= _ <-]. consumed. simpl in *. lia.
  - pose proof (skip_space_length s) as Hs.
    destruct (expect quote _) as [s1|] eqn:Hq; [|by destruct (skip_space s)].
    destruct (scan_string _) as [[raw s2]|] eqn:Hstr; [|done]. cbn [rbind].
    pose proof (skip_space_length s2).
    destruct (expect ":" _) as [s3|] eqn:Hc; [|by destruct (skip_space s2)].
    destruct (scan_value _ _) as [[x s4]|] eqn:Hv; [|done]. apply IHv in Hv. cbn [rbind].
    pose proof (skip_space_length s4).
    destruct (expect "," _) as [s5|] eqn:Hcm.
    + destruct (scan_members _ _) as [[ms r']|] eqn:Hm; [|done]. intros [= _ <-]. apply IHm in Hm.
      consumed. lia.
    + destruct (expect "}" _) as [s5|] eqn:Hb; [|by destruct (skip_space s4)].
      intros [= _ <-]. consumed. lia.
  - destruct (scan_value _ _) as [[x s4]|] eqn:Hv; [|done]. apply IHv in Hv. cbn [rbind].
    pose proof (skip_space_length s4).
    destruct (expect "," _) as [s5|] eqn:Hcm.
    + destruct (scan_elements _ _) as [[ms r']|] eqn:Hm; [|done]. intros [= _ <-]. apply IHe in Hm.
      consumed. lia.
    + destruct (expect "]" _) as [s5|] eqn:Hb; [|by destruct (skip_space s4)].
      intros [= _ <-]. consumed. lia.
Qed.

(** Any fuel past twice the length gives the same answer. *)
Lemma scan_fuel f1 : ∀ f2 s,
  let n := (2 * String.length s)%nat in
  ((n < f1 → n < f2 → scan_value f1 s = scan_value f2 s) ∧
   (S n < f1 → S n < f2 → scan_members f1 s = scan_members f2 s) ∧
   (S n < f1 → S n < f2 → scan_elements f1 s = scan_elements f2 s))%nat.
Proof.
  induction f1 as [|f1 IH]; intros [|f2] s n; [split_and!; lia..|].
  assert (Hrec : ∀ s', (String.length s' < String.length s)%nat → (n ≤ f1)%nat → (n ≤ f2)%nat →
    scan_value f1 s' = scan_value f2 s' ∧ scan_members f1 s' = scan_members f2 s' ∧
    scan_elements f1 s' = scan_elements f2 s').
  { intros s' Hl H1 H2. destruct (IH f2 s') as (Hv & Hm & He). subst n.
    split_and!; [apply Hv|apply Hm|apply He]; lia. }
  split_and!; intros H1 H2; cbn [scan_value scan_members scan_elements].
  - pose proof (skip_space_length s) as Hs. destruct (skip_space s) as [|c s']; [done|]. simpl in Hs.
    destruct (Hrec s') as (_ & -> & ->); [lia..|done].
  - pose proof (skip_space_length s) as Hs.
    destruct (expect quote _) as [s1|] eqn:Hq; [|done].
    destruct (scan_string _) as [[raw s2]|] eqn:Hstr; [|done]. cbn [rbind].
    pose proof (skip_space_length s2).
    destruct (expect ":" _) as [s3|] eqn:Hc; [|done]. consumed.
    destruct (Hrec s3) as (-> & _ & _); [lia..|].
    destruct (scan_value f2 s3) as [[x s4]|] eqn:Hv; [|done]. apply scan_length in Hv. cbn [rbind].
    pose proof (skip_space_length s4). destruct (expect "," _) as [s5|] eqn:Hcm; [|done]. consumed.
    by destruct (Hrec s5) as (_ & -> & _); [lia..|].
  - destruct (IH f2 s) as (Hs & _ & _). subst n. cbv zeta in Hs. rewrite Hs by lia.
    destruct (scan_value f2 s) as [[x s4]|] eqn:Hv; [|done]. apply scan_length in Hv. cbn [rbind].
    pose proof (skip_space_length s4). destruct (expect "," _) as [s5|] eqn:Hcm; [|done]. consumed.
    by destruct (Hrec s5) as (_ & _ & ->); [lia..|].
Qed.

(** The fuel of [scan_document] is enough. *)
Lemma scan_value_fuel f s :
  (2 * String.length s < f)%nat → scan_value f s = scan_value (2 * String.length s + 2) s.
Proof. intros Hf. apply scan_fuel; lia. Qed.
