(* ===== verification/JsonText.v ===== *)
(** * Texts of JSON

    Strings between quotes and decimal numbers, as they are written in a
    document, and how the scanners of [Json] read them. *)

From Stdlib Require Import Ascii String.
From S2P Require Import Prelude GoStrings Json.

#[local] Open Scope string_scope.
#[local] Open Scope Z_scope.

(** ** Text *)

(** Printable ASCII without quotes and backslashes: it stands for itself inside
    quotes. *)
Fixpoint plain (s : string) : bool :=
  match s with
  | EmptyString => true
  | String c s =>
      (32 <=? code c) && (code c <? 128) && negb (Ascii.eqb c quote) && negb (Ascii.eqb c backslash) &&
      plain s
  end.

Definition quoted (s : string) : string := String quote (s +:+ String quote "").

Lemma app_assoc_s (a b c : string) : (a +:+ b) +:+ c = a +:+ (b +:+ c).
Proof. induction a as [|x a IH]; [done|]. change (String x ((a +:+ b) +:+ c) = String x (a +:+ (b +:+ c))). by rewrite IH. Qed.

Lemma app_nil_s (a : string) : a +:+ "" = a.
Proof. induction a as [|x a IH]; [done|]. change (String x (a +:+ "") = String x a). by rewrite IH. Qed.

Lemma app_cons_s x (a b : string) : String x a +:+ b = String x (a +:+ b).
Proof. done. Qed.

(** ** Strings *)

Lemma scan_string_plain s rest :
  plain s = true → scan_string (s +:+ String quote rest) = Ok (s, rest).
Proof.
  induction s as [|c s IH]; intros Hs; [done|]. cbn [plain] in Hs.
  rewrite !andb_true_iff, !negb_true_iff in Hs. destruct Hs as [[[[Hlo _] Hq] Hb] Hs].
  rewrite app_cons_s. cbn [scan_string]. rewrite Hq, Hb, (proj2 (Z.ltb_ge _ _)) by (by apply Z.leb_le).
  by rewrite IH.
Qed.

Lemma unquote_plain s : plain s = true → unquote s = s.
Proof.
  unfold unquote. assert (Hn : ∀ n, n = String.length s → plain s = true → unquote_bytes n s = s); [|by auto].
  induction s as [|c s IH]; intros n -> Hs; [done|]. cbn [plain] in Hs.
  rewrite !andb_true_iff, !negb_true_iff in Hs. destruct Hs as [[[[_ Hhi] _] Hb] Hs].
  cbn [String.length unquote_bytes]. rewrite Hb, Hhi. by rewrite IH.
Qed.

(** ** Decimal numbers *)

Fixpoint all_digits (s : string) : bool :=
  match s with EmptyString => true | String c s => is_digit c && all_digits s end.

Lemma digits_app acc a b :
  digits acc (a +:+ b) = match digits acc a with Some x => digits x b | None => None end.
Proof.
  revert acc. induction a as [|c a IH]; intros acc; [done|]. rewrite app_cons_s. cbn [digits].
  by destruct (digit c).
Qed.

Lemma pretty_char_digit x : (x < 10)%N →
  is_digit (pretty_N_char x) = true ∧ digit (pretty_N_char x) = Some (Z.of_N x) ∧
  ((0 < x)%N → Ascii.eqb (pretty_N_char x) "0" = false).
Proof.
  intros Hx. assert (Hc : (x = 0 ∨ x = 1 ∨ x = 2 ∨ x = 3 ∨ x = 4 ∨ x = 5 ∨ x = 6 ∨ x = 7 ∨ x = 8 ∨ x = 9)%N) by lia.
  repeat destruct Hc as [->|Hc]; try subst x; by vm_compute.
Qed.

(** The digits of a positive number: the first is not 0, and they read back. *)
Lemma pretty_go_spec n : ∀ x s, (N.to_nat x ≤ n)%nat → (0 < x)%N →
  ∃ c d, pretty_N_go x s = String c d +:+ s ∧ is_digit c = true ∧ Ascii.eqb c "0" = false ∧
    all_digits d = true ∧ digits 0 (String c d) = Some (Z.of_N x).
Proof.
  induction n as [|n IH]; intros x s Hn Hx; [lia|].
  rewrite pretty_N_go_step by done.
  assert (Hm : (x mod 10 < 10)%N) by (by apply N.mod_lt).
  destruct (pretty_char_digit _ Hm) as (Hd & Hv & Hz).
  pose proof (N.div_mod x 10 ltac:(done)) as Hdm.
  destruct (decide (x / 10 = 0)%N) as [H0|H0].
  - rewrite H0, pretty_N_go_0. exists (pretty_N_char (x mod 10)), "".
    assert (x mod 10 = x)%N as Hxm by lia. rewrite Hxm in *. split_and!; [done|done|by apply Hz|done|].
    cbn [digits]. rewrite Hv. done.
  - assert (N.to_nat (x / 10) < N.to_nat x)%nat by (pose proof (N.div_lt x 10); lia).
    destruct (IH (x / 10)%N (String (pretty_N_char (x mod 10)) s)) as (c & d & Heq & Hc & Hc0 & Hd' & Hv'); [lia..|].
    exists c, (d +:+ String (pretty_N_char (x mod 10)) ""). split_and!; [|done|done| |].
    + rewrite Heq. rewrite !app_cons_s, app_assoc_s. done.
    + clear -Hd Hd'. induction d as [|y d IH]; simpl in *; [by rewrite Hd|].
      apply andb_true_iff in Hd' as [-> Hd']. by apply IH.
    + rewrite <- app_cons_s, digits_app, Hv'. cbn [digits]. rewrite Hv. f_equal. lia.
Qed.

Lemma Itoa_spec a : 0 < a →
  ∃ c d, Itoa a = String c d ∧ is_digit c = true ∧ Ascii.eqb c "0" = false ∧ all_digits d = true ∧
    digits 0 (String c d) = Some a.
Proof.
  intros Ha. destruct a as [|p|p]; try lia.
  destruct (pretty_go_spec (N.to_nat (N.pos p)) (N.pos p) "") as (c & d & Heq & Hc & H0 & Hd & Hv); [lia..|].
  exists c, d. rewrite app_nil_s in Heq. by split_and!.
Qed.

Lemma is_digit_code c : is_digit c = true → 48 ≤ code c ≤ 57.
Proof. unfold is_digit. rewrite andb_true_iff, !Z.leb_le. done. Qed.

Lemma digit_not c x : is_digit c = true → is_digit x = false → Ascii.eqb c x = false.
Proof. intros Hc Hx. apply Ascii.eqb_neq. congruence. Qed.

Lemma Atoi_Itoa a : 0 < a ≤ int64_max → Atoi (Itoa a) = Some a.
Proof.
  intros Ha. destruct (Itoa_spec a) as (c & d & -> & Hc & _ & Hd & Hv); [lia|].
  assert (Hin : in_int64 (1 * a) = true) by (apply in_int64_spec; unfold int64_min; lia).
  assert (Hgo : Atoi (String c d) = match digits 0 (String c d) with
    | Some n => if in_int64 (1 * n) then Some (1 * n) else None | None => None end).
  { apply is_digit_code in Hc. clear -Hc. unfold code in Hc. unfold Atoi.
    destruct c as [[] [] [] [] [] [] [] []]; try done;
      exfalso; vm_compute in Hc; destruct Hc as [H1 H2]; first [by apply H1|by apply H2]. }
  rewrite Hgo, Hv, Hin. f_equal. lia.
Qed.

Lemma scan_digits_all d c rest :
  all_digits d = true → is_digit c = false → scan_digits (d +:+ String c rest) = (d, String c rest).
Proof.
  induction d as [|x d IH]; intros Hd Hc; [change ("" +:+ String c rest) with (String c rest); cbn [scan_digits]; by rewrite Hc|]. cbn [all_digits] in Hd.
  apply andb_true_iff in Hd as [Hx Hd]. rewrite app_cons_s. cbn [scan_digits]. by rewrite Hx, IH.
Qed.

(** A number in a document, before a comma. *)
Lemma scan_number_Itoa a rest :
  0 < a → scan_number (Itoa a +:+ String "," rest) = Ok (Itoa a, String "," rest).
Proof.
  intros Ha. destruct (Itoa_spec a Ha) as (c & d & -> & Hc & H0 & Hd & _).
  unfold scan_number, scan_integer, scan_fraction, scan_exponent. rewrite app_cons_s. cbn [expect].
  rewrite (digit_not c "-") by done. cbn [expect]. rewrite H0. unfold scan_digits1. rewrite Hc.
  cbn [scan_digits]. rewrite Hc, scan_digits_all by done. cbn. by rewrite app_nil_s.
Qed.
