(* ===== verification/Encoding.v ===== *)
(** * JSON encoding (encoding/json's Encoder and slog's JSON handler)

    The text of a value: compact, strings escaped as the two encoders of the
    service escape them, bytes that are not UTF-8 replaced.  The scanner of
    [Json] reads every text back: [scan_encode]. *)

From Stdlib Require Import Ascii String.
From S2P Require Import Prelude GoStrings Json JsonText.

#[local] Open Scope string_scope.
#[local] Open Scope Z_scope.

(** ** Strings *)

(** The encoder of responses, which escapes for HTML, and that of log lines. *)
Inductive encoder := EncodingJSON | Slog.

Definition hex_lower (d : Z) : Ascii.ascii := byte (if d <? 10 then 48 + d else 87 + d).

(** A byte below 128. *)
Definition escape_byte (e : encoder) (c : Ascii.ascii) : string :=
  let n := code c in
  let plain := String c "" in
  let backslashed x := String backslash (String x "") in
  let coded := String backslash ("u00" +:+ String (hex_lower (n / 16)) (String (hex_lower (n mod 16)) "")) in
  let html := match e with EncodingJSON => true | Slog => false end in
  if (n =? 34) || (n =? 92) then backslashed c
  else if n =? 10 then backslashed "n"%char
  else if n =? 13 then backslashed "r"%char
  else if n =? 9 then backslashed "t"%char
  else if html && (n =? 8) then backslashed "b"%char
  else if html && (n =? 12) then backslashed "f"%char
  else if n <? 32 then coded
  else if html && ((n =? 60) || (n =? 62) || (n =? 38)) then coded
  else plain.

(** A well-formed rune of more than one byte: the two line separators are
    escaped. *)
Definition escape_rune (rune : string) : string :=
  if String.eqb rune (encode_rune 8232) then String backslash "u2028"
  else if String.eqb rune (encode_rune 8233) then String backslash "u2029"
  else rune.

Fixpoint escape_bytes (e : encoder) (fuel : nat) (s : string) : string :=
  match fuel, s with
  | S fuel, String c s' =>
      if code c <? 128 then escape_byte e c +:+ escape_bytes e fuel s'
      else
        match rune_width s with
        | O => String backslash "ufffd" +:+ escape_bytes e fuel s'
        | w => escape_rune (take_bytes w s) +:+ escape_bytes e fuel (drop_bytes w s)
        end
  | _, _ => ""
  end.

(** [appendString] of encoding/json, [appendEscapedJSONString] of slog. *)
Definition escape (e : encoder) (s : string) : string := escape_bytes e (String.length s) s.

(** What a reader gets: bytes that are not UTF-8 are replaced. *)
Fixpoint sanitize_bytes (fuel : nat) (s : string) : string :=
  match fuel, s with
  | S fuel, String c s' =>
      if code c <? 128 then String c (sanitize_bytes fuel s')
      else
        match rune_width s with
        | O => encode_rune replacement +:+ sanitize_bytes fuel s'
        | w => take_bytes w s +:+ sanitize_bytes fuel (drop_bytes w s)
        end
  | _, _ => ""
  end.

Definition sanitize (s : string) : string := sanitize_bytes (String.length s) s.

(** ** Values *)

Definition comma_separated (l : list string) : string := String.concat "," l.

Fixpoint encode (e : encoder) (v : json) : string :=
  match v with
  | JNull => "null"
  | JBool b => if b then "true" else "false"
  | JNumber lit => lit
  | JString s => quoted (escape e s)
  | JArray l => "[" +:+ comma_separated (List.map (encode e) l) +:+ "]"
  | JObject ms =>
      "{" +:+ comma_separated (List.map (λ m, quoted (escape e m.1) +:+ ":" +:+ encode e m.2) ms) +:+ "}"
  end.

(** The value a reader gets. *)
Fixpoint sanitized (v : json) : json :=
  match v with
  | JString s => JString (sanitize s)
  | JArray l => JArray (List.map sanitized l)
  | JObject ms => JObject (List.map (λ m, (sanitize m.1, sanitized m.2)) ms)
  | v => v
  end.

(** ** Strings read back *)

Lemma length_app_s (a b : string) : String.length (a +:+ b) = (String.length a + String.length b)%nat.
Proof. induction a as [|c a IH]; [done|]. rewrite app_cons_s. cbn [String.length]. by rewrite IH. Qed.

Lemma app_empty_s (b : string) : "" +:+ b = b.
Proof. done. Qed.

(** An escaped byte denotes the byte, and is scanned as one piece. *)
Lemma unquote_escape_byte e c fuel rest :
  code c < 128 → unquote_bytes (S fuel) (escape_byte e c +:+ rest) = String c (unquote_bytes fuel rest).
Proof.
  destruct e, c as [[] [] [] [] [] [] [] []]; intros Hc; try reflexivity;
    exfalso; vm_compute in Hc; discriminate Hc.
Qed.

(** What the scanner of strings does with each kind of piece. *)
Definition piece_plain (c : Ascii.ascii) : bool :=
  negb (Ascii.eqb c quote) && negb (Ascii.eqb c backslash) && negb (code c <? 32).

Definition is_hex (c : Ascii.ascii) : bool :=
  match hex_digit_value c with Some _ => true | None => false end.

Lemma scan_plain_byte c s :
  piece_plain c = true →
  scan_string (String c s) = (let? (raw, r) := scan_string s in Ok (String c raw, r)).
Proof.
  unfold piece_plain. rewrite !andb_true_iff, !negb_true_iff. intros [[Hq Hb] Hc]. cbn [scan_string].
  by rewrite Hq, Hb, Hc.
Qed.

Lemma scan_backslashed x s :
  is_simple_escape x = true → Ascii.eqb x "u" = false →
  scan_string (String backslash (String x s)) =
  (let? (raw, r) := scan_string s in Ok (String backslash (String x raw), r)).
Proof.
  intros Hx Hu. cbn [scan_string]. change (Ascii.eqb backslash quote) with false.
  change (Ascii.eqb backslash backslash) with true. cbn beta iota. by rewrite Hu, Hx.
Qed.

Lemma scan_u s :
  scan_string (String backslash (String "u" s)) =
  (let? _ := check_hex 4 s in let? (raw, r) := scan_string s in Ok (String backslash (String "u" raw), r)).
Proof. reflexivity. Qed.

Lemma scan_coded a b c d s :
  is_hex a && is_hex b && is_hex c && is_hex d = true →
  piece_plain a && piece_plain b && piece_plain c && piece_plain d = true →
  scan_string (String backslash (String "u" (String a (String b (String c (String d s)))))) =
  (let? (raw, r) := scan_string s in
   Ok (String backslash (String "u" (String a (String b (String c (String d raw))))), r)).
Proof.
  rewrite !andb_true_iff. intros [[[Ha Hb] Hc] Hd] [[[Pa Pb] Pc] Pd].
  rewrite scan_u. unfold is_hex in *. cbn [check_hex].
  destruct (hex_digit_value a), (hex_digit_value b), (hex_digit_value c), (hex_digit_value d); try done.
  cbn [rbind]. rewrite (scan_plain_byte a), (scan_plain_byte b), (scan_plain_byte c), (scan_plain_byte d) by done.
  by destruct (scan_string s) as [[raw r]|err].
Qed.

Lemma scan_escape_byte e c rest :
  code c < 128 →
  scan_string (escape_byte e c +:+ rest) = (let? (raw, r) := scan_string rest in Ok (escape_byte e c +:+ raw, r)).
Proof.
  intros Hc.
  destruct e, c as [[] [] [] [] [] [] [] []]; try (exfalso; vm_compute in Hc; discriminate Hc);
    match goal with |- context [escape_byte ?e ?c] =>
      let p := eval vm_compute in (escape_byte e c) in change (escape_byte e c) with p end;
    first [ apply scan_plain_byte; reflexivity | apply scan_backslashed; reflexivity
          | apply scan_coded; reflexivity ].
Qed.

(** ** Runes *)

Fixpoint all_high (s : string) : bool :=
  match s with EmptyString => true | String c s => (128 <=? code c) && all_high s end.

Lemma high_plain c : 128 <= code c → piece_plain c = true.
Proof.
  intros Hc. unfold piece_plain. rewrite !andb_true_iff, !negb_true_iff. split_and!.
  - apply Ascii.eqb_neq. intros ->. by apply Z.leb_le in Hc.
  - apply Ascii.eqb_neq. intros ->. by apply Z.leb_le in Hc.
  - apply Z.ltb_ge. lia.
Qed.

Lemma between_lo lo hi c : between lo hi c = true → lo <= code c.
Proof. unfold between. rewrite andb_true_iff, !Z.leb_le. lia. Qed.

(** The rune at the front of a string. *)
Record rune_at (s : string) (w : nat) : Prop := {
  ra_length : String.length (take_bytes w s) = w;
  ra_high : all_high (take_bytes w s) = true;
  ra_width : ∀ x, rune_width (take_bytes w s +:+ x) = w;
  ra_take : ∀ x, take_bytes w (take_bytes w s +:+ x) = take_bytes w s;
  ra_drop : ∀ x, drop_bytes w (take_bytes w s +:+ x) = x;
  ra_split : take_bytes w s +:+ drop_bytes w s = s
}.

Ltac high_bytes :=
  repeat match goal with
  | Hb : between ?lo ?hi ?c = true |- _ => apply between_lo in Hb
  | Hb : _ && _ = true |- _ => apply andb_true_iff in Hb as [? ?]
  end.

Lemma rune_width_spec s w : rune_width s = S w → rune_at s (S w).
Proof.
  destruct s as [|a [|b s]]; [done..|]. intros Hw.
  assert (Hhi : ∀ c, 128 <= code c → (128 <=? code c) = true) by (intros; by apply Z.leb_le).
  pose proof Hw as Hw'. cbn [rune_width] in Hw.
  destruct (between 194 223 a) eqn:H2.
  { destruct (between 128 191 b) eqn:Hb; [|done]. injection Hw as <-.
    split; try done; [|intros x; cbn [take_bytes]; rewrite !app_cons_s; cbn [rune_width]; by rewrite H2, Hb]. high_bytes. cbn [take_bytes all_high]. by rewrite !Hhi by lia. }
  destruct (between 224 239 a) eqn:H3.
  { destruct s as [|c s]; [done|]. destruct (_ && _) eqn:Hb; [|done]. injection Hw as <-.
    split; try done; [|intros x; cbn [take_bytes]; rewrite !app_cons_s; cbn [rune_width]; by rewrite H2, H3, Hb].
    high_bytes. cbn [take_bytes all_high]. rewrite !Hhi; [done|lia|destruct (code a =? 224); lia|lia]. }
  destruct (between 240 244 a) eqn:H4; [|done].
  destruct s as [|c [|d s]]; [done..|]. destruct (_ && _) eqn:Hb; [|done]. injection Hw as <-.
  split; try done.
  high_bytes. cbn [take_bytes all_high]. rewrite !Hhi; [done|lia|lia|destruct (code a =? 240); lia|lia].
Qed.

Lemma scan_high p rest :
  all_high p = true → scan_string (p +:+ rest) = (let? (raw, r) := scan_string rest in Ok (p +:+ raw, r)).
Proof.
  induction p as [|c p IH]; intros Hp.
  { rewrite app_empty_s. by destruct (scan_string rest) as [[raw r]|err]. }
  cbn [all_high] in Hp. apply andb_true_iff in Hp as [Hc Hp]. apply Z.leb_le in Hc.
  rewrite app_cons_s, scan_plain_byte, IH by (try apply high_plain; done).
  by destruct (scan_string rest) as [[raw r]|err].
Qed.

Lemma unquote_high s w fuel x :
  rune_width s = S w →
  unquote_bytes (S fuel) (take_bytes (S w) s +:+ x) = take_bytes (S w) s +:+ unquote_bytes fuel x.
Proof.
  intros Hw. apply rune_width_spec in Hw as Hr. destruct Hr as [Hl Hh Hwx Ht Hd _].
  specialize (Hwx x). specialize (Ht x). specialize (Hd x).
  destruct s as [|a s]; [done|]. cbn [take_bytes] in *. rewrite app_cons_s in *.
  cbn [all_high] in Hh. apply andb_true_iff in Hh as [Ha _]. apply Z.leb_le in Ha.
  cbn [unquote_bytes].
  assert (Hb : Ascii.eqb a backslash = false) by (apply Ascii.eqb_neq; intros ->; by apply Z.leb_le in Ha).
  rewrite Hb, (proj2 (Z.ltb_ge _ _)) by lia. cbv zeta. rewrite Hwx. cbn [take_bytes drop_bytes] in *.
  injection Ht as Ht. by rewrite Ht, Hd.
Qed.

(** A rune, escaped or not. *)
Lemma unquote_escape_rune s w fuel x :
  rune_width s = S w →
  unquote_bytes (S fuel) (escape_rune (take_bytes (S w) s) +:+ x) = take_bytes (S w) s +:+ unquote_bytes fuel x.
Proof.
  intros Hw. unfold escape_rune.
  destruct (String.eqb_spec (take_bytes (S w) s) (encode_rune 8232)) as [->|]; [reflexivity|].
  destruct (String.eqb_spec (take_bytes (S w) s) (encode_rune 8233)) as [->|]; [reflexivity|].
  by apply unquote_high.
Qed.

Lemma scan_escape_rune p rest :
  all_high p = true →
  scan_string (escape_rune p +:+ rest) = (let? (raw, r) := scan_string rest in Ok (escape_rune p +:+ raw, r)).
Proof.
  intros Hp. unfold escape_rune. destruct (String.eqb _ _); [by apply scan_coded|].
  destruct (String.eqb _ _); [by apply scan_coded|by apply scan_high].
Qed.

(** ** Whole strings *)

Lemma scan_escape_bytes e n s rest :
  scan_string (escape_bytes e n s +:+ String quote rest) = Ok (escape_bytes e n s, rest).
Proof.
  revert s. induction n as [|n IH]; intros [|c s]; [reflexivity..|]. cbn [escape_bytes].
  destruct (Z.ltb_spec (code c) 128) as [Hc|Hc].
  { by rewrite app_assoc_s, scan_escape_byte, IH by done. }
  destruct (rune_width (String c s)) as [|w] eqn:Hw; rewrite app_assoc_s.
  - assert (Hp : ∀ x, String backslash "ufffd" +:+ x = String backslash (String "u" (String "f" (String "f"
      (String "f" (String "d" x)))))) by done.
    by rewrite !Hp, scan_coded, IH by done.
  - apply rune_width_spec in Hw. by rewrite scan_escape_rune, IH by apply Hw.
Qed.

Lemma unquote_escape_bytes e n s fuel :
  (String.length (escape_bytes e n s) ≤ fuel)%nat → unquote_bytes fuel (escape_bytes e n s) = sanitize_bytes n s.
Proof.
  revert s fuel. induction n as [|n IH]; intros [|c s] fuel Hf; [by destruct fuel..|].
  cbn [escape_bytes sanitize_bytes] in *.
  assert (Hpos : ∀ p r, (0 < String.length p)%nat → (String.length (p +:+ r) ≤ fuel)%nat →
    ∃ f, fuel = S f ∧ (String.length r ≤ f)%nat).
  { intros p r Hp Hl. rewrite length_app_s in Hl. exists (pred fuel). lia. }
  destruct (Z.ltb_spec (code c) 128) as [Hc|Hc].
  { apply Hpos in Hf as (f & -> & Hf).
    - rewrite unquote_escape_byte by done. by rewrite IH.
    - clear. unfold escape_byte. repeat case_match; simpl; lia. }
  destruct (rune_width (String c s)) as [|w] eqn:Hw.
  - apply Hpos in Hf as (f & -> & Hf); [|simpl; lia]. rewrite <- (IH s f Hf). reflexivity.
  - apply Hpos in Hf as (f & -> & Hf).
    + rewrite unquote_escape_rune by done. by rewrite IH.
    + apply rune_width_spec in Hw. pose proof (ra_length _ _ Hw) as Hl. unfold escape_rune.
      repeat case_match; simpl in *; lia.
Qed.

Lemma scan_escape e s rest : scan_string (escape e s +:+ String quote rest) = Ok (escape e s, rest).
Proof. apply scan_escape_bytes. Qed.

Lemma unquote_escape e s : unquote (escape e s) = sanitize s.
Proof. by apply unquote_escape_bytes. Qed.

(** ** Numbers *)

(** A literal the scanner takes whole. *)
Definition is_number (lit : string) : bool :=
  match scan_number lit with Ok (_, EmptyString) => true | _ => false end.

(** What may follow a number. *)
Definition delimited (rest : string) : Prop :=
  match rest with
  | EmptyString => True
  | String c _ => is_digit c = false ∧ c ∉ ["."; "e"; "E"; "+"; "-"]%char
  end.

Lemma expect_app c s rest :
  (∀ x r, rest = String x r → x ≠ c) → expect c (s +:+ rest) = option_map (λ r, r +:+ rest) (expect c s).
Proof.
  intros Hr. destruct s as [|x s].
  - rewrite app_empty_s. destruct rest as [|y rest]; [done|]. cbn [expect].
    destruct (Ascii.eqb_spec y c) as [->|]; [by destruct (Hr c rest)|done].
  - rewrite app_cons_s. cbn [expect]. by destruct (Ascii.eqb x c).
Qed.

Lemma delimited_not rest c : delimited rest → c ∈ ["."; "e"; "E"; "+"; "-"]%char → ∀ x r, rest = String x r → x ≠ c.
Proof. intros Hd Hc x r -> ->. by destruct Hd. Qed.

Lemma scan_digits_app s rest :
  delimited rest → scan_digits (s +:+ rest) = ((scan_digits s).1, (scan_digits s).2 +:+ rest).
Proof.
  intros Hd. induction s as [|c s IH].
  - rewrite app_empty_s. destruct rest as [|x rest]; [done|]. cbn [scan_digits]. by rewrite (proj1 Hd).
  - rewrite app_cons_s. cbn [scan_digits]. destruct (is_digit c); [|done]. rewrite IH.
    by destruct (scan_digits s).
Qed.

Lemma scan_digits1_app ctx s d r rest :
  delimited rest → scan_digits1 ctx s = Ok (d, r) → scan_digits1 ctx (s +:+ rest) = Ok (d, r +:+ rest).
Proof.
  intros Hd. destruct s as [|c s]; [done|]. rewrite app_cons_s. unfold scan_digits1.
  destruct (is_digit c); [|done]. rewrite <- app_cons_s, scan_digits_app by done.
  destruct (scan_digits (String c s)). by intros [= -> ->].
Qed.

Lemma scan_integer_app s i r rest :
  delimited rest → scan_integer s = Ok (i, r) → scan_integer (s +:+ rest) = Ok (i, r +:+ rest).
Proof.
  intros Hd. unfold scan_integer. destruct s as [|c s]; [done|]. rewrite app_cons_s. cbn [expect].
  destruct (Ascii.eqb c "0"); [by intros [= <- <-]|]. rewrite <- app_cons_s. by apply scan_digits1_app.
Qed.

Lemma scan_fraction_app s f r rest :
  delimited rest → scan_fraction s = Ok (f, r) → scan_fraction (s +:+ rest) = Ok (f, r +:+ rest).
Proof.
  intros Hd. unfold scan_fraction. rewrite expect_app by (apply delimited_not; [done|set_solver]).
  destruct (expect "." s) as [s'|]; cbn [option_map]; [|by intros [= <- <-]].
  destruct (scan_digits1 _ s') as [[d r']|] eqn:Hs; [|done]. intros [= <- <-].
  by rewrite (scan_digits1_app _ _ _ _ rest Hd Hs).
Qed.

Lemma scan_sign_app s rest :
  delimited rest → scan_sign (s +:+ rest) = ((scan_sign s).1, (scan_sign s).2 +:+ rest).
Proof.
  intros Hd. unfold scan_sign. rewrite !expect_app by (apply delimited_not; [done|set_solver]).
  destruct (expect "+" s); [done|]. by destruct (expect "-" s).
Qed.

Lemma scan_exponent_app s e r rest :
  delimited rest → scan_exponent s = Ok (e, r) → scan_exponent (s +:+ rest) = Ok (e, r +:+ rest).
Proof.
  intros Hd. unfold scan_exponent. destruct s as [|c s].
  - rewrite app_empty_s. intros [= <- <-]. destruct rest as [|x rest]; [done|].
    destruct Hd as [_ Hx]. destruct (Ascii.eqb_spec x "e") as [->|]; [set_solver|].
    destruct (Ascii.eqb_spec x "E") as [->|]; [set_solver|done].
  - rewrite app_cons_s. destruct (_ || _); [|by intros [= <- <-]].
    rewrite scan_sign_app by done. destruct (scan_sign s) as [sg s']. cbn [fst snd].
    destruct (scan_digits1 _ s') as [[d r']|] eqn:Hs; [|done]. intros [= <- <-].
    by rewrite (scan_digits1_app _ _ _ _ rest Hd Hs).
Qed.

Lemma scan_number_app s l r rest :
  delimited rest → scan_number s = Ok (l, r) → scan_number (s +:+ rest) = Ok (l, r +:+ rest).
Proof.
  intros Hd. unfold scan_number. rewrite expect_app by (apply delimited_not; [done|set_solver]).
  assert (Hm : (match option_map (λ r, r +:+ rest) (expect "-" s) with Some r => ("-", r) | None => ("", s +:+ rest) end) =
    ((match expect "-" s with Some r => ("-", r) | None => ("", s) end).1,
     (match expect "-" s with Some r => ("-", r) | None => ("", s) end).2 +:+ rest)) by by destruct (expect "-" s).
  rewrite Hm. destruct (match expect "-" s with Some r => ("-", r) | None => ("", s) end) as [minus s0]. cbn [fst snd].
  destruct (scan_integer s0) as [[i s1]|] eqn:Hi; [|done]. rewrite (scan_integer_app _ _ _ rest Hd Hi). cbn [rbind].
  destruct (scan_fraction s1) as [[f s2]|] eqn:Hf; [|done]. rewrite (scan_fraction_app _ _ _ rest Hd Hf). cbn [rbind].
  destruct (scan_exponent s2) as [[e s3]|] eqn:He; [|done]. rewrite (scan_exponent_app _ _ _ rest Hd He). cbn [rbind].
  by intros [= <- <-].
Qed.

(** What a scanner took and what it left make up the input. *)
Lemma scan_digits_split s : (scan_digits s).1 +:+ (scan_digits s).2 = s.
Proof.
  induction s as [|c s IH]; [done|]. cbn [scan_digits]. destruct (is_digit c); [|done].
  destruct (scan_digits s) as [d r]. cbn [fst snd] in *. by rewrite app_cons_s, IH.
Qed.

Lemma scan_digits1_split ctx s d r : scan_digits1 ctx s = Ok (d, r) → d +:+ r = s.
Proof.
  destruct s as [|c s]; [done|]. unfold scan_digits1. destruct (is_digit c); [|done].
  pose proof (scan_digits_split (String c s)) as Hs. destruct (scan_digits (String c s)) as [d' r'].
  by intros [= -> ->].
Qed.

Lemma expect_split c s r : expect c s = Some r → s = String c r.
Proof. destruct s as [|x s]; [done|]. cbn [expect]. destruct (Ascii.eqb_spec x c) as [->|]; [|done]. by intros [= ->]. Qed.

Lemma scan_number_split s l r : scan_number s = Ok (l, r) → l +:+ r = s.
Proof.
  unfold scan_number.
  destruct (match expect "-" s with Some r => ("-", r) | None => ("", s) end) as [minus s0] eqn:Hm.
  assert (Hs : s = minus +:+ s0).
  { destruct (expect "-" s) as [s'|] eqn:He; injection Hm as <- <-; [by apply expect_split in He|done]. }
  clear Hm. subst s.
  destruct (scan_integer s0) as [[i s1]|] eqn:Hi; [|done]. cbn [rbind].
  assert (Hi' : i +:+ s1 = s0).
  { unfold scan_integer in Hi. destruct (expect "0" s0) as [x|] eqn:He; [|by eapply scan_digits1_split].
    injection Hi as <- <-. by apply expect_split in He. }
  destruct (scan_fraction s1) as [[f s2]|] eqn:Hf; [|done]. cbn [rbind].
  assert (Hf' : f +:+ s2 = s1).
  { unfold scan_fraction in Hf. destruct (expect "." s1) as [x|] eqn:He; [|by injection Hf as <- <-].
    destruct (scan_digits1 _ x) as [[d y]|] eqn:Hd; [|done]. injection Hf as <- <-.
    apply expect_split in He. apply scan_digits1_split in Hd. by rewrite app_cons_s, Hd. }
  destruct (scan_exponent s2) as [[e s3]|] eqn:He; [|done]. cbn [rbind].
  assert (He' : e +:+ s3 = s2).
  { unfold scan_exponent in He. destruct s2 as [|c s2]; [by injection He as <- <-|].
    destruct (_ || _); [|by injection He as <- <-]. destruct (scan_sign s2) as [sg y] eqn:Hsg.
    assert (Hy : sg +:+ y = s2).
    { unfold scan_sign in Hsg. destruct (expect "+" s2) as [x|] eqn:Hp; [apply expect_split in Hp|];
        [|destruct (expect "-" s2) as [x|] eqn:Hp'; [apply expect_split in Hp'|]]; by injection Hsg as <- <-. }
    destruct (scan_digits1 _ y) as [[d z]|] eqn:Hd; [|done]. injection He as <- <-.
    apply scan_digits1_split in Hd. by rewrite app_cons_s, app_assoc_s, Hd, Hy. }
  intros [= <- <-]. by rewrite !app_assoc_s, He', Hf', Hi'.
Qed.

Lemma skip_head c s : is_space c = false → skip_space (String c s) = String c s.
Proof. intros Hc. cbn [skip_space]. by rewrite Hc. Qed.

Lemma expect_self c s : expect c (String c s) = Some s.
Proof. cbn [expect]. by rewrite Ascii.eqb_refl. Qed.

Lemma expect_other c x s : Ascii.eqb x c = false → expect c (String x s) = None.
Proof. intros Hx. cbn [expect]. by rewrite Hx. Qed.

(** ** Literals, on their own

    A number that was scanned from a document is one by itself. *)

Definition number_byte (c : Ascii.ascii) : bool := is_digit c || existsb (Ascii.eqb c) ["."; "e"; "E"; "+"; "-"]%char.

Fixpoint number_text (s : string) : bool :=
  match s with EmptyString => true | String c s => number_byte c && number_text s end.

Lemma number_byte_code c : number_byte c = true → 43 ≤ code c ≤ 57 ∨ code c = 69 ∨ code c = 101.
Proof.
  unfold number_byte. rewrite orb_true_iff. intros [Hc%is_digit_code|Hc]; [lia|].
  cbn [existsb] in Hc. rewrite !orb_true_iff, !Ascii.eqb_eq in Hc.
  repeat destruct Hc as [->|Hc]; [..|done]; vm_compute; intuition discriminate.
Qed.

Lemma number_text_app a b : number_text (a +:+ b) = number_text a && number_text b.
Proof. induction a as [|c a IH]; [done|]. rewrite app_cons_s. cbn [number_text]. by rewrite IH, andb_assoc. Qed.

(** No digit at the front. *)
Definition nondigit (s : string) : Prop := match s with EmptyString => True | String c _ => is_digit c = false end.

Lemma scan_digits_spec s : all_digits (scan_digits s).1 = true ∧ nondigit (scan_digits s).2.
Proof.
  induction s as [|c s [IH1 IH2]]; [done|]. cbn [scan_digits]. destruct (is_digit c) eqn:Hc; [|done].
  destruct (scan_digits s) as [d r]. cbn [fst snd all_digits] in *. by rewrite Hc.
Qed.

Lemma scan_digits_self d r : all_digits d = true → nondigit r → scan_digits (d +:+ r) = (d, r).
Proof.
  intros Hd Hr. induction d as [|c d IH].
  - rewrite app_empty_s. destruct r as [|c r]; [done|]. cbn [scan_digits]. cbn in Hr. by rewrite Hr.
  - cbn [all_digits] in Hd. apply andb_true_iff in Hd as [Hc Hd]. rewrite app_cons_s. cbn [scan_digits].
    by rewrite Hc, IH.
Qed.

Lemma number_text_digits d : all_digits d = true → number_text d = true.
Proof.
  induction d as [|c d IH]; [done|]. cbn [all_digits number_text]. rewrite !andb_true_iff. intros [Hc Hd].
  split; [by unfold number_byte; rewrite Hc|by apply IH].
Qed.

(** A scanned part, the text [p] taken from [s]: its bytes, and that it is
    scanned again before anything of [follows]. *)
Record rescans (scan : string → result decode_error (string * string)) (follows : string → Prop) (s p : string) : Prop := {
  rs_text : number_text p = true;
  rs_again : ∀ r, follows r → scan (p +:+ r) = Ok (p, r)
}.

Lemma rescans_digits1 ctx s d r : scan_digits1 ctx s = Ok (d, r) → rescans (scan_digits1 ctx) nondigit s d.
Proof.
  intros Hs. unfold scan_digits1 in Hs. destruct s as [|c s]; [done|]. destruct (is_digit c) eqn:Hc; [|done].
  pose proof (scan_digits_spec (String c s)) as [Hd _].
  assert (Hh : ∃ d', d = String c d').
  { cbn [scan_digits] in Hs. rewrite Hc in Hs. destruct (scan_digits s). injection Hs as <- _. by eexists. }
  destruct (scan_digits (String c s)) as [d1 r1]. injection Hs as -> _. cbn [fst] in Hd.
  split; [by apply number_text_digits|]. intros x Hx. destruct Hh as [d' ->].
  unfold scan_digits1. rewrite app_cons_s, Hc, <- app_cons_s. by rewrite scan_digits_self.
Qed.

Lemma rescans_integer s i r : scan_integer s = Ok (i, r) → rescans scan_integer nondigit s i.
Proof.
  unfold scan_integer at 1. destruct (expect "0" s) as [x|] eqn:He.
  { intros [= <- <-]. by split. }
  intros Hs. pose proof (rescans_digits1 _ _ _ _ Hs) as [Ht Ha]. split; [done|]. intros x Hx.
  unfold scan_integer. rewrite (Ha x Hx).
  apply scan_digits1_split in Hs as <-. destruct i as [|c i]; [by specialize (Ha "" I)|].
  rewrite app_cons_s in *. cbn [expect] in *. by destruct (Ascii.eqb c "0").
Qed.

Definition no_fraction (s : string) : Prop :=
  match s with EmptyString => True | String c _ => is_digit c = false ∧ Ascii.eqb c "." = false end.

Lemma rescans_fraction s f r :
  scan_fraction s = Ok (f, r) → rescans scan_fraction no_fraction s f ∧ ∀ x, no_fraction x → nondigit (f +:+ x).
Proof.
  unfold scan_fraction at 1. destruct (expect "." s) as [y|] eqn:He.
  - destruct (scan_digits1 _ y) as [[d z]|] eqn:Hd; [|done]. intros [= <- <-].
    apply rescans_digits1 in Hd as [Ht Ha]. split; [|done]. split; [by cbn [number_text]; rewrite Ht|].
    intros x Hx. unfold scan_fraction. rewrite app_cons_s, expect_self. rewrite Ha; [done|].
    destruct x as [|c x]; [done|apply Hx].
  - intros [= <- <-]. split; [split; [done|]|]; intros x Hx; rewrite app_empty_s.
    + unfold scan_fraction. destruct x as [|c x]; [done|]. cbn [expect]. by rewrite (proj2 Hx).
    + destruct x as [|c x]; [done|apply Hx].
Qed.

Lemma rescans_exponent s e r :
  scan_exponent s = Ok (e, r) → number_text e = true ∧ scan_exponent e = Ok (e, "") ∧ no_fraction e.
Proof.
  unfold scan_exponent at 1. destruct s as [|c s]; [by intros [= <- <-]|].
  destruct (Ascii.eqb c "e" || Ascii.eqb c "E") eqn:Hc; [|by intros [= <- <-]].
  destruct (scan_sign s) as [sg y] eqn:Hsg.
  destruct (scan_digits1 _ y) as [[d z]|] eqn:Hd; [|done]. intros [= <- <-].
  pose proof (rescans_digits1 _ _ _ _ Hd) as [Ht Ha]. specialize (Ha "" I) as Ha'. rewrite app_nil_s in Ha'.
  assert (Hs : number_text sg = true ∧ scan_sign (sg +:+ d) = (sg, d)).
  { assert (Hdig : ∃ x d', d = String x d' ∧ is_digit x = true).
    { destruct d as [|x d']; [done|]. exists x, d'. split; [done|]. unfold scan_digits1 in Ha'.
      by destruct (is_digit x). }
    destruct Hdig as (x & d' & -> & Hx). unfold scan_sign in Hsg.
    destruct (expect "+" s); [injection Hsg as <- <-; by split|]. destruct (expect "-" s); injection Hsg as <- <-; [by split|].
    split; [done|]. rewrite app_empty_s. unfold scan_sign. cbn [expect].
    by rewrite (digit_not x "+"), (digit_not x "-") by done. }
  destruct Hs as [Hsg1 Hsg2]. split_and!.
  - cbn [number_text]. rewrite number_text_app, Ht, Hsg1, andb_true_r. unfold number_byte.
    apply orb_true_iff in Hc as [->%Ascii.eqb_eq| ->%Ascii.eqb_eq]; done.
  - unfold scan_exponent. rewrite Hc, Hsg2. by rewrite Ha'.
  - apply orb_true_iff in Hc as [->%Ascii.eqb_eq| ->%Ascii.eqb_eq]; done.
Qed.

(** The literal of a document. *)
Lemma scan_number_literal s lit r : scan_number s = Ok (lit, r) → is_number lit = true ∧ number_text lit = true.
Proof.
  unfold scan_number. destruct (match expect "-" s with Some r => ("-", r) | None => ("", s) end) as [m s0] eqn:Hm.
  destruct (scan_integer s0) as [[i s1]|] eqn:Hi; [|done]. apply rescans_integer in Hi as [Ti Ai]. cbn [rbind].
  destruct (scan_fraction s1) as [[f s2]|] eqn:Hf; [|done]. apply rescans_fraction in Hf as [[Tf Af] Nf]. cbn [rbind].
  destruct (scan_exponent s2) as [[e s3]|] eqn:He; [|done]. apply rescans_exponent in He as (Te & Ae & Ne). cbn [rbind].
  intros [= <- _]. specialize (Ai (f +:+ e) (Nf e Ne)). specialize (Af e Ne).
  assert (Hbody : ∀ x, (m = "-" ∧ x = "-" ∨ m = "" ∧ x = "") →
    (match expect "-" (x +:+ i +:+ f +:+ e) with Some r => ("-", r) | None => ("", x +:+ i +:+ f +:+ e) end) = (m, i +:+ f +:+ e)).
  { intros x [[-> ->]|[-> ->]]; [done|]. rewrite app_empty_s.
    unfold scan_integer in Ai. destruct (i +:+ f +:+ e) as [|c y] eqn:Hy; [done|]. cbn [expect] in *.
    destruct (Ascii.eqb_spec c "-") as [->|]; [|done]. exfalso. by destruct i. }
  assert (Hm' : m = "-" ∨ m = "") by (destruct (expect "-" s); injection Hm as <- _; auto).
  split.
  - unfold is_number, scan_number. rewrite (Hbody m) by (destruct Hm' as [->| ->]; auto). rewrite Ai. cbn [rbind]. rewrite Af. cbn [rbind].
    by rewrite Ae.
  - rewrite !number_text_app, Ti, Tf, Te, !andb_true_r. by destruct Hm' as [->| ->].
Qed.

Lemma number_text_scanned s lit r : scan_number s = Ok (lit, r) → number_text lit = true.
Proof. intros Hs. apply (scan_number_literal _ _ _ Hs). Qed.

Lemma is_number_scan lit rest :
  is_number lit = true → delimited rest → scan_number (lit +:+ rest) = Ok (lit, rest).
Proof.
  unfold is_number. intros Hn Hd. destruct (scan_number lit) as [[l r]|err] eqn:Hs; [|done].
  destruct r; [|done]. pose proof (scan_number_split _ _ _ Hs) as Hl. rewrite app_nil_s in Hl. subst l.
  by rewrite (scan_number_app _ _ _ rest Hd Hs).
Qed.

Lemma is_number_Itoa z : is_number (Itoa z) = true.
Proof.
  assert (Hpos : ∀ p, is_number (Itoa (Z.pos p)) = true ∧ is_number (String "-" (Itoa (Z.pos p))) = true).
  { intros p. destruct (Itoa_spec (Z.pos p)) as (c & d & -> & Hc & H0 & Hd & _); [lia|].
    assert (Hall : ∀ d, all_digits d = true → scan_digits d = (d, "")).
    { clear. induction d as [|c d IH]; [done|]. cbn [all_digits scan_digits].
      intros [-> Hd]%andb_true_iff. by rewrite IH. }
    assert (Hint : scan_integer (String c d) = Ok (String c d, "")).
    { unfold scan_integer. cbn [expect]. rewrite H0. unfold scan_digits1. rewrite Hc.
      cbn [scan_digits]. by rewrite Hc, Hall. }
    unfold is_number, scan_number. cbn [expect]. rewrite (digit_not c "-") by done.
    change (Ascii.eqb "-" "-") with true. cbn beta iota. rewrite Hint. done. }
  destruct z as [|p|p]; [reflexivity|by apply Hpos|]. apply (proj2 (Hpos p)).
Qed.

(** ** Values read back *)

(** Every number of a value is one the scanner takes. *)
Fixpoint encodable (v : json) : bool :=
  match v with
  | JNumber lit => is_number lit
  | JArray l => forallb encodable l
  | JObject ms => forallb (λ m, encodable m.2) ms
  | _ => true
  end.

(** Induction on a value, through its lists. *)
Lemma json_nested_ind (P : json → Prop) :
  P JNull → (∀ b, P (JBool b)) → (∀ lit, P (JNumber lit)) → (∀ s, P (JString s)) →
  (∀ l, Forall P l → P (JArray l)) → (∀ ms, Forall (λ m, P m.2) ms → P (JObject ms)) → ∀ v, P v.
Proof.
  intros Hn Hb Hnum Hs Ha Ho. fix IH 1. intros [|b|lit|s|l|ms]; [done|done|done|done|..].
  - apply Ha. induction l as [|v l IHl]; constructor; [apply IH|apply IHl].
  - apply Ho. induction ms as [|[k v] ms IHm]; constructor; [apply IH|apply IHm].
Qed.

Lemma delimited_byte c rest :
  is_digit c = false → existsb (Ascii.eqb c) ["."; "e"; "E"; "+"; "-"]%char = false → delimited (String c rest).
Proof.
  intros Hd Hc. split; [done|]. intros Hin. apply not_true_iff_false in Hc. apply Hc, existsb_exists.
  exists c. split; [by apply list_elem_of_In|apply Ascii.eqb_refl].
Qed.

(** How the text of a value starts. *)
Definition value_head (c : Ascii.ascii) : bool :=
  negb (is_space c) && negb (Ascii.eqb c "]").

Lemma number_head lit :
  is_number lit = true → ∃ c s, lit = String c s ∧ (c = "-"%char ∨ is_digit c = true).
Proof.
  intros Hn. destruct lit as [|c s]; [done|]. exists c, s. split; [done|].
  destruct (Ascii.eqb_spec c "-") as [->|Hm]; [by left|right].
  destruct (is_digit c) eqn:Hd; [done|]. unfold is_number, scan_number in Hn.
  rewrite expect_other in Hn by by apply Ascii.eqb_neq. unfold scan_integer in Hn.
  assert (H0 : Ascii.eqb c "0" = false) by (apply Ascii.eqb_neq; by intros ->).
  rewrite expect_other in Hn by done. unfold scan_digits1 in Hn. by rewrite Hd in Hn.
Qed.

Lemma digit_head c : is_digit c = true → value_head c = true.
Proof.
  intros Hc. apply is_digit_code in Hc as Hr. unfold value_head, is_space.
  rewrite (digit_not c "]") by done. rewrite !(proj2 (Z.eqb_neq _ _)) by lia. done.
Qed.

(** A text in which any large enough fuel finds the value [v], whatever follows
    that cannot continue a number. *)
Record denotes (t : string) (v : json) : Prop := {
  dn_head : ∃ c s, t = String c s ∧ value_head c = true;
  dn_scan : ∃ n, ∀ fuel rest, (n ≤ fuel)%nat → delimited rest → scan_value fuel (t +:+ rest) = Ok (v, rest)
}.

(** The raw contents of a string literal for [s]. *)
Record spells (raw s : string) : Prop := {
  sp_scan : ∀ rest, scan_string (raw +:+ String quote rest) = Ok (raw, rest);
  sp_value : unquote raw = s
}.

Lemma denotes_word t v :
  (∃ c s, t = String c s ∧ value_head c = true) →
  (∀ fuel rest, scan_value (S fuel) (t +:+ rest) = Ok (v, rest)) → denotes t v.
Proof. intros Hh Hs. split; [done|]. exists 1%nat. intros [|fuel] rest Hf _; [lia|apply Hs]. Qed.

Lemma denotes_number lit : is_number lit = true → denotes lit (JNumber lit).
Proof.
  intros Hn. destruct (number_head lit Hn) as (c & s & Hl & Hc).
  assert (Hsp : is_space c = false ∧ Ascii.eqb c "-" || is_digit c = true ∧
    ∀ x, x ∈ ["{"; "["; quote; "t"; "f"; "n"]%char → Ascii.eqb c x = false).
  { destruct Hc as [->|Hc].
    - split_and!; [done|done|]. intros x Hx. apply Ascii.eqb_neq. intros <-. by vm_compute in Hx; set_solver.
    - apply is_digit_code in Hc as Hr. split_and!; [|by rewrite Hc, orb_true_r|].
      + unfold is_space. by rewrite !(proj2 (Z.eqb_neq _ _)) by lia.
      + intros x Hx. apply digit_not; [done|]. set_unfold. by destruct_or! Hx; subst x. }
  split; [exists c, s; split; [done|]; destruct Hc as [->|Hc]; [done|by apply digit_head]|].
  exists 1%nat. intros [|fuel] rest Hf Hd; [lia|].
  pose proof (is_number_scan lit rest Hn Hd) as Hs. subst lit. rewrite app_cons_s in *. cbn [scan_value].
  destruct Hsp as (Hsp & Hm & Hx). rewrite skip_head by done.
  rewrite !Hx by set_solver. rewrite Hm. by rewrite Hs.
Qed.

Lemma denotes_string raw s : spells raw s → denotes (quoted raw) (JString s).
Proof.
  intros [Hs Hv]. apply denotes_word; [by eexists _, _|]. intros fuel rest. unfold quoted.
  rewrite app_cons_s, app_assoc_s, app_cons_s, app_empty_s. cbn [scan_value].
  rewrite skip_head by done. change (Ascii.eqb quote "{") with false. change (Ascii.eqb quote "[") with false.
  change (Ascii.eqb quote quote) with true. cbn beta iota. rewrite Hs. cbn [rbind]. by rewrite Hv.
Qed.

Lemma concat_cons (x y : string) l :
  comma_separated (x :: y :: l) = x +:+ String "," (comma_separated (y :: l)).
Proof. done. Qed.

(** The first byte of a list of texts is that of its first text. *)
Lemma comma_separated_head c t ts : ∃ s, comma_separated (String c t :: ts) = String c s.
Proof. destruct ts; [by exists t|]. rewrite concat_cons, app_cons_s. by eexists. Qed.

Lemma denotes_elements t ts v vs :
  denotes t v → Forall2 denotes ts vs →
  ∃ n, ∀ fuel rest, (n ≤ fuel)%nat →
    scan_elements fuel (comma_separated (t :: ts) +:+ String "]" rest) = Ok (v :: vs, rest).
Proof.
  intros Ht Hts. revert t v Ht. induction Hts as [|t' v' ts vs Ht' Hts IH]; intros t v [_ [n Hn]].
  - exists (S n). intros [|fuel] rest Hf; [lia|]. change (comma_separated [t]) with t. cbn [scan_elements].
    rewrite Hn by (lia || by apply delimited_byte). cbn [rbind].
    rewrite skip_head, expect_other, expect_self by done. done.
  - destruct (IH t' v' Ht') as [m Hm]. exists (S (n + m)). intros [|fuel] rest Hf; [lia|].
    rewrite concat_cons, app_assoc_s, app_cons_s. cbn [scan_elements].
    rewrite Hn by (lia || by apply delimited_byte). cbn [rbind].
    rewrite skip_head, expect_self by done. by rewrite Hm by lia.
Qed.

Lemma denotes_array ts vs :
  Forall2 denotes ts vs → denotes ("[" +:+ comma_separated ts +:+ "]") (JArray vs).
Proof.
  intros [|t v ts' vs' Ht Hts].
  { by apply denotes_word; [eexists _, _|]. }
  split; [by eexists _, _|]. destruct (denotes_elements _ _ _ _ Ht Hts) as [n Hn]. exists (S n).
  intros [|fuel] rest Hf _; [lia|]. specialize (Hn fuel rest ltac:(lia)).
  change ("[" +:+ ?x) with (String "[" x). rewrite app_cons_s, app_assoc_s. cbn [scan_value].
  rewrite skip_head by done. change (Ascii.eqb "[" "{") with false. change (Ascii.eqb "[" "[") with true.
  cbn beta iota. change ("]" +:+ rest) with (String "]" rest).
  destruct (dn_head _ _ Ht) as (c & s & -> & Hc). unfold value_head in Hc.
  apply andb_true_iff in Hc as [Hsp%negb_true_iff Hb%negb_true_iff].
  destruct (comma_separated_head c s ts') as [x Hx]. rewrite Hx in *. rewrite app_cons_s in *.
  rewrite skip_head, expect_other by done. by rewrite Hn.
Qed.

(** A member, as its raw name and the text of its value. *)
Definition member_text (m : string * string) : string := quoted m.1 +:+ ":" +:+ m.2.

Definition denotes_member (m : string * string) (m' : string * json) : Prop :=
  spells m.1 m'.1 ∧ denotes m.2 m'.2.

Lemma scan_member fuel raw k text :
  spells raw k →
  scan_members (S fuel) (quoted raw +:+ ":" +:+ text) =
  (let? (v, r) := scan_value fuel text in
   match expect "," (skip_space r), expect "}" (skip_space r) with
   | Some r, _ => let? (ms, r) := scan_members fuel r in Ok ((k, v) :: ms, r)
   | None, Some r => Ok ([(k, v)], r)
   | None, None => unexpected (skip_space r) "after object key:value pair"
   end).
Proof.
  intros [Hs Hv]. unfold quoted. rewrite app_cons_s, app_assoc_s, app_cons_s, app_empty_s.
  cbn [scan_members]. rewrite skip_head, expect_self by done. rewrite Hs. cbn [rbind].
  change (":" +:+ text) with (String ":" text). rewrite skip_head, expect_self by done. by rewrite Hv.
Qed.

Lemma denotes_members m ms m' ms' :
  denotes_member m m' → Forall2 denotes_member ms ms' →
  ∃ n, ∀ fuel rest, (n ≤ fuel)%nat →
    scan_members fuel (comma_separated (List.map member_text (m :: ms)) +:+ String "}" rest) = Ok (m' :: ms', rest).
Proof.
  intros Hm Hms. revert m m' Hm.
  induction Hms as [|m2 m2' ms ms' Hm2 Hms IH]; intros [k t] [k' v] [Hk [_ [n Hn]]]; cbn [fst snd] in *.
  - exists (S n). intros [|fuel] rest Hf; [lia|]. cbn [List.map]. change (comma_separated [?x]) with x.
    unfold member_text. cbn [fst snd]. rewrite !app_assoc_s, (scan_member _ _ _ _ Hk).
    rewrite Hn by (lia || by apply delimited_byte). cbn [rbind].
    rewrite skip_head, expect_other, expect_self by done. done.
  - destruct (IH m2 m2' Hm2) as [p Hp]. exists (S (n + p)). intros [|fuel] rest Hf; [lia|].
    cbn [List.map] in *. rewrite concat_cons. unfold member_text at 1. cbn [fst snd].
    rewrite !app_assoc_s, (app_cons_s ","), (scan_member _ _ _ _ Hk).
    rewrite Hn by (lia || by apply delimited_byte). cbn [rbind].
    rewrite skip_head, expect_self by done. by rewrite Hp by lia.
Qed.

Lemma denotes_object ms ms' :
  Forall2 denotes_member ms ms' →
  denotes ("{" +:+ comma_separated (List.map member_text ms) +:+ "}") (JObject ms').
Proof.
  intros [|m m' ms1 ms1' Hm Hms].
  { by apply denotes_word; [eexists _, _|]. }
  split; [by eexists _, _|]. destruct (denotes_members _ _ _ _ Hm Hms) as [n Hn]. exists (S n).
  intros [|fuel] rest Hf _; [lia|]. specialize (Hn fuel rest ltac:(lia)).
  change ("{" +:+ ?x) with (String "{" x). rewrite app_cons_s, app_assoc_s. cbn [scan_value].
  rewrite skip_head by done. change (Ascii.eqb "{" "{") with true.
  cbn beta iota. change ("}" +:+ rest) with (String "}" rest). cbn [List.map] in *.
  destruct (comma_separated_head quote ((m.1 +:+ String quote "") +:+ ":" +:+ m.2) (List.map member_text ms1)) as [x Hx].
  change (String quote ((m.1 +:+ String quote "") +:+ ":" +:+ m.2)) with (member_text m) in Hx.
  rewrite Hx, app_cons_s in *. rewrite skip_head, expect_other by done. by rewrite Hn.
Qed.

Lemma spells_escape e s : spells (escape e s) (sanitize s).
Proof. split; [apply scan_escape|apply unquote_escape]. Qed.

(** The text of a value denotes the value. *)
Lemma denotes_encode e v : encodable v = true → denotes (encode e v) (sanitized v).
Proof.
  induction v as [|[]|lit|s|l IH|ms IH] using json_nested_ind; intros Hv;
    try (by apply denotes_word; [eexists _, _|]); cbn [encode sanitized encodable] in *.
  - by apply denotes_number.
  - apply denotes_string, spells_escape.
  - apply denotes_array, Forall2_map_diag. rewrite forallb_forall in Hv. rewrite Forall_forall in IH.
    intros x Hx. by apply IH, Hv; [apply list_elem_of_In|].
  - rewrite <- (map_map (λ m, (escape e m.1, encode e m.2)) member_text).
    apply denotes_object, Forall2_map_diag. rewrite forallb_forall in Hv. rewrite Forall_forall in IH.
    intros x Hx. split; [apply spells_escape|]. by apply (IH x), Hv; [apply list_elem_of_In|].
Qed.

(** Such a text, and anything that cannot continue a number, is read as the
    value. *)
Lemma scan_denoted t v rest : denotes t v → delimited rest → scan_document (t +:+ rest) = Ok (v, rest).
Proof.
  intros [(c & s & -> & Hc) [n Hn]] Hd. unfold value_head in Hc.
  apply andb_true_iff in Hc as [Hsp%negb_true_iff _]. set (text := String c s +:+ rest) in *.
  unfold scan_document. assert (Ht : text = String c (s +:+ rest)) by done.
  rewrite Ht at 1. rewrite skip_head by done.
  rewrite <- (scan_value_fuel (n + S (2 * String.length text))) by lia. apply Hn; [lia|done].
Qed.

Lemma scan_encode e v rest :
  encodable v = true → delimited rest → scan_document (encode e v +:+ rest) = Ok (sanitized v, rest).
Proof. intros Hv. by apply scan_denoted, denotes_encode. Qed.

(** ** No control characters

    The encoders write none, so the text of a value is one line. *)

Fixpoint control_free (s : string) : bool :=
  match s with EmptyString => true | String c s => (32 <=? code c) && control_free s end.

Lemma control_free_app a b : control_free (a +:+ b) = control_free a && control_free b.
Proof. induction a as [|c a IH]; [done|]. rewrite app_cons_s. cbn [control_free]. by rewrite IH, andb_assoc. Qed.

Lemma control_free_escape_byte e c : code c < 128 → control_free (escape_byte e c) = true.
Proof. by destruct e, c as [[] [] [] [] [] [] [] []]. Qed.

Lemma control_free_high s : all_high s = true → control_free s = true.
Proof.
  induction s as [|c s IH]; [done|]. cbn [all_high control_free]. rewrite !andb_true_iff, !Z.leb_le.
  intros [Hc Hs]. split; [lia|by apply IH].
Qed.

Lemma control_free_escape e s : control_free (escape e s) = true.
Proof.
  unfold escape. generalize (String.length s) as n. intros n. revert s.
  induction n as [|n IH]; intros [|c s]; try done. cbn [escape_bytes].
  destruct (Z.ltb_spec (code c) 128) as [Hc|Hc].
  { by rewrite control_free_app, control_free_escape_byte, IH. }
  destruct (rune_width (String c s)) as [|w] eqn:Hw; rewrite control_free_app, IH, andb_true_r; [done|].
  apply rune_width_spec in Hw as [_ Hh _ _ _ _]. unfold escape_rune. repeat case_match; [done|done|].
  by apply control_free_high.
Qed.

Lemma control_free_number lit : is_number lit = true → control_free lit = true.
Proof.
  unfold is_number. destruct (scan_number lit) as [[l r]|] eqn:Hs; [|done]. destruct r; [|done]. intros _.
  pose proof (scan_number_split _ _ _ Hs) as Hl. rewrite app_nil_s in Hl. subst l.
  apply number_text_scanned in Hs. clear -Hs. induction lit as [|c lit IH]; [done|]. cbn [number_text control_free] in *.
  apply andb_true_iff in Hs as [Hc Hs]. rewrite IH, andb_true_r by done. apply Z.leb_le.
  destruct (number_byte_code c Hc); lia.
Qed.

Lemma control_free_commas l : forallb control_free l = true → control_free (comma_separated l) = true.
Proof.
  induction l as [|x [|y l] IH]; [done|cbn; by rewrite andb_true_r|]. cbn [forallb]. rewrite andb_true_iff.
  intros [Hx Hl]. rewrite concat_cons, control_free_app, Hx. cbn [control_free]. by apply IH.
Qed.

Lemma control_free_quoted e s : control_free (quoted (escape e s)) = true.
Proof. unfold quoted. cbn [control_free]. by rewrite control_free_app, control_free_escape. Qed.

Lemma control_free_encode e v : encodable v = true → control_free (encode e v) = true.
Proof.
  induction v as [|[]|lit|s|l IH|ms IH] using json_nested_ind; intros Hv; try done; cbn [encode].
  - by apply control_free_number.
  - apply control_free_quoted.
  - rewrite !control_free_app. cbn [control_free]. rewrite andb_true_r, control_free_commas; [done|].
    cbn [encodable] in Hv. rewrite forallb_forall in *. intros x (v & <- & Hin)%in_map_iff.
    rewrite Forall_forall in IH. apply IH; [by apply list_elem_of_In|by apply Hv].
  - rewrite !control_free_app. cbn [control_free]. rewrite andb_true_r, control_free_commas; [done|].
    cbn [encodable] in Hv. rewrite forallb_forall in *. intros x (m & <- & Hin)%in_map_iff.
    rewrite !control_free_app, control_free_quoted. cbn [control_free andb]. rewrite Forall_forall in IH.
    apply (IH m); [by apply list_elem_of_In|by apply (Hv m)].
Qed.
