(* ===== verification/Compact.v ===== *)
(** * Raw JSON in a response (encoding/json's [appendCompact], as writeJSON meets the lines of /logs/recent)

    A [json.RawMessage] is written without the space between its tokens, with
    markup and the two line separators escaped, and is otherwise copied byte
    by byte: [compact].  Whatever the space and the spelling, a reader gets the
    value that was there: [compact_denotes]. *)

From Stdlib Require Import Ascii String.
From S2P Require Import Prelude GoStrings Json JsonText Encoding.

#[local] Open Scope string_scope.
#[local] Open Scope Z_scope.

(** ** The copy *)

(** Where a byte stands: between tokens or in a literal, in a string, after a
    backslash. *)
Inductive place := Outside | Inside | Escaped.

Definition next_place (p : place) (c : Ascii.ascii) : place :=
  match p with
  | Outside => if Ascii.eqb c quote then Inside else Outside
  | Inside => if Ascii.eqb c quote then Outside else if Ascii.eqb c backslash then Escaped else Inside
  | Escaped => Inside
  end.

Definition is_markup (c : Ascii.ascii) : bool := (code c =? 60) || (code c =? 62) || (code c =? 38).

Definition is_separator (a b c : Ascii.ascii) : bool :=
  (code a =? 226) && (code b =? 128) && ((code c =? 168) || (code c =? 169)).

Definition coded (c : Ascii.ascii) (rest : string) : string :=
  String backslash (String "u" (String "0" (String "0"
    (String (hex_lower (code c / 16)) (String (hex_lower (code c mod 16)) rest))))).

Definition coded_separator (c : Ascii.ascii) (rest : string) : string :=
  String backslash (String "u" (String "2" (String "0" (String "2" (String (hex_lower (code c mod 16)) rest))))).

Fixpoint compact (p : place) (s : string) : string :=
  match s with
  | EmptyString => EmptyString
  | String c s1 =>
      let keep := match p with
                  | Outside => if is_space c then compact p s1 else String c (compact (next_place p c) s1)
                  | _ => String c (compact (next_place p c) s1)
                  end in
      if is_markup c then coded c (compact (next_place p c) s1)
      else match s1 with
           | String c2 (String c3 s3) =>
               if is_separator c c2 c3 then coded_separator c3 (compact p s3) else keep
           | _ => keep
           end
  end.

(** A byte that is copied whatever follows. *)
Definition copied (c : Ascii.ascii) : bool := negb (is_markup c) && negb (code c =? 226).

Lemma compact_copied p c s :
  copied c = true → (p = Outside → is_space c = false) →
  compact p (String c s) = String c (compact (next_place p c) s).
Proof.
  unfold copied. rewrite andb_true_iff, !negb_true_iff. intros [Hm Hc] Hp.
  assert (Hsep : ∀ c2 c3, is_separator c c2 c3 = false) by (intros; unfold is_separator; by rewrite Hc).
  assert (Hkeep : match p with
    | Outside => if is_space c then compact p s else String c (compact (next_place p c) s)
    | _ => String c (compact (next_place p c) s) end = String c (compact (next_place p c) s))
    by (destruct p; [by rewrite Hp|done|done]).
  cbn [compact]. rewrite Hm. destruct s as [|c2 [|c3 s3]]; [exact Hkeep..|]. by rewrite Hsep.
Qed.

Lemma compact_space c s : is_space c = true → compact Outside (String c s) = compact Outside s.
Proof.
  intros Hs. assert (Hcode : code c = 32 ∨ code c = 9 ∨ code c = 13 ∨ code c = 10).
  { unfold is_space in Hs. rewrite !orb_true_iff, !Z.eqb_eq in Hs. tauto. }
  assert (Hm : is_markup c = false)
    by (unfold is_markup; rewrite !orb_false_iff, !Z.eqb_neq; lia).
  assert (Hsep : ∀ c2 c3, is_separator c c2 c3 = false)
    by (intros; unfold is_separator; rewrite (proj2 (Z.eqb_neq (code c) 226)) by lia; done).
  cbn [compact]. rewrite Hm, Hs. destruct s as [|c2 [|c3 s3]]; [done..|]. by rewrite Hsep.
Qed.

Lemma compact_skip s : compact Outside (skip_space s) = compact Outside s.
Proof.
  induction s as [|c s IH]; [done|]. cbn [skip_space]. destruct (is_space c) eqn:Hc; [|done].
  by rewrite compact_space.
Qed.

(** A token outside strings: none of its bytes is a quote, space, markup or
    high. *)
Fixpoint token (s : string) : bool :=
  match s with
  | EmptyString => true
  | String c s => copied c && negb (is_space c) && negb (Ascii.eqb c quote) && token s
  end.

Lemma compact_token t s : token t = true → compact Outside (t +:+ s) = t +:+ compact Outside s.
Proof.
  induction t as [|c t IH]; [done|]. cbn [token]. rewrite !andb_true_iff, !negb_true_iff. intros [[[Hc Hs] Hq] Ht].
  rewrite !app_cons_s, compact_copied by done. cbn [next_place]. rewrite Hq. by rewrite IH.
Qed.

Lemma token_number t : number_text t = true → token t = true.
Proof.
  induction t as [|c t IH]; [done|]. cbn [number_text token]. rewrite andb_true_iff. intros [Hc Ht].
  rewrite IH, andb_true_r by done. apply number_byte_code in Hc.
  unfold copied, is_markup, is_space. rewrite !andb_true_iff, !negb_true_iff, !orb_false_iff, !Z.eqb_neq.
  split_and!; try lia. apply Ascii.eqb_neq. intros ->. vm_compute in Hc. intuition discriminate.
Qed.

(** ** String literals, piece by piece

    The pieces as the unquoter takes them: an escape, an ASCII byte, a
    well-formed rune, a byte that belongs to none. *)

Inductive pieces : string → Prop :=
| p_nil : pieces ""
| p_simple e s :
    is_simple_escape e = true → pieces s → pieces (String backslash (String e s))
| p_u a b c d s :
    is_hex a && is_hex b && is_hex c && is_hex d = true → pieces s →
    pieces (String backslash (String "u" (String a (String b (String c (String d s))))))
| p_ascii c s : code c < 128 → piece_plain c = true → pieces s → pieces (String c s)
| p_rune s w : rune_width s = S w → pieces (drop_bytes (S w) s) → pieces s
| p_bad c s : 128 ≤ code c → rune_width (String c s) = 0%nat → pieces s → pieces (String c s).

Lemma hex_plain c : is_hex c = true → piece_plain c = true.
Proof. destruct c as [[] [] [] [] [] [] [] []]; try done; intros Hc; vm_compute in Hc; discriminate Hc. Qed.

Lemma hexes_plain a b c d :
  is_hex a && is_hex b && is_hex c && is_hex d = true →
  piece_plain a && piece_plain b && piece_plain c && piece_plain d = true.
Proof. rewrite !andb_true_iff. intros [[[]]]. by rewrite !hex_plain. Qed.

(** What the scanner of a literal does first. *)
Lemma scan_string_cases s raw r :
  scan_string s = Ok (raw, r) →
  (raw = "" ∧ s = String quote r) ∨
  (∃ e s1 raw1, s = String backslash (String e s1) ∧ raw = String backslash (String e raw1) ∧
     scan_string s1 = Ok (raw1, r) ∧
     if Ascii.eqb e "u" then check_hex 4 s1 = Ok tt else is_simple_escape e = true) ∨
  (∃ c s1 raw1, s = String c s1 ∧ raw = String c raw1 ∧ piece_plain c = true ∧ scan_string s1 = Ok (raw1, r)).
Proof.
  destruct s as [|c s]; [done|]. cbn [scan_string]. destruct (Ascii.eqb_spec c quote) as [->|Hq].
  { intros [= <- <-]. by left. }
  destruct (Ascii.eqb_spec c backslash) as [->|Hb].
  - destruct s as [|e s]; [done|]. intros Hs. right. left.
    destruct (Ascii.eqb e "u") eqn:Hu.
    + destruct (check_hex 4 s) as [[]|] eqn:Hh; [|done]. cbn [rbind] in Hs.
      destruct (scan_string s) as [[raw1 r1]|] eqn:Hs1; [|done]. injection Hs as <- <-.
      exists e, s, raw1. by rewrite Hu.
    + destruct (is_simple_escape e) eqn:He; [|done]. cbn [rbind] in Hs.
      destruct (scan_string s) as [[raw1 r1]|] eqn:Hs1; [|done]. injection Hs as <- <-.
      exists e, s, raw1. by rewrite Hu.
  - destruct (code c <? 32) eqn:Hc; [done|]. destruct (scan_string s) as [[raw1 r1]|] eqn:Hs1; [|done].
    intros [= <- <-]. right. right. exists c, s, raw1. split_and!; try done. unfold piece_plain.
    by rewrite (proj2 (Ascii.eqb_neq _ _) Hq), (proj2 (Ascii.eqb_neq _ _) Hb), Hc.
Qed.

(** A plain byte of the input is one of the literal. *)
Lemma scan_string_unbroken c s raw r :
  piece_plain c = true → scan_string (String c s) = Ok (raw, r) →
  ∃ raw1, raw = String c raw1 ∧ scan_string s = Ok (raw1, r).
Proof.
  intros Hc. rewrite scan_plain_byte by done. destruct (scan_string s) as [[raw1 r1]|]; [|done].
  intros [= <- <-]. by eexists.
Qed.

(** High bytes in front can be left out. *)
Lemma scan_string_drop n s raw r :
  scan_string s = Ok (raw, r) → all_high (take_bytes n raw) = true →
  ∃ s', scan_string s' = Ok (drop_bytes n raw, r).
Proof.
  revert s raw. induction n as [|n IH]; intros s raw Hs Hh; [by exists s|].
  destruct (scan_string_cases _ _ _ Hs) as [[-> _]|[(e & s1 & raw1 & -> & -> & _)|(c & s1 & raw1 & -> & -> & _ & Hs1)]];
    [by exists s|by vm_compute in Hh|]. cbn [take_bytes drop_bytes all_high] in *.
  apply andb_true_iff in Hh as [_ Hh]. by eapply IH.
Qed.

Lemma check_hex_4 s : check_hex 4 s = Ok tt →
  ∃ a b c d s', s = String a (String b (String c (String d s'))) ∧ is_hex a && is_hex b && is_hex c && is_hex d = true.
Proof.
  destruct s as [|a [|b [|c [|d s]]]]; cbn [check_hex]; repeat (case_match; [|done]); try done.
  intros _. exists a, b, c, d, s. split; [done|]. unfold is_hex. by simplify_option_eq.
Qed.

Lemma drop_bytes_length n s : (String.length (drop_bytes n s) ≤ String.length s)%nat.
Proof. revert s. induction n as [|n IH]; intros [|c s]; simpl; try lia. specialize (IH s). lia. Qed.

Lemma scan_string_pieces n : ∀ s raw r,
  (String.length raw ≤ n)%nat → scan_string s = Ok (raw, r) → pieces raw ∧ s = raw +:+ String quote r.
Proof.
  induction n as [n IH] using lt_wf_ind. intros s raw r Hn Hs.
  destruct (scan_string_cases _ _ _ Hs)
    as [[-> ->]|[(e & s1 & raw1 & -> & -> & Hs1 & He)|(c & s1 & raw1 & -> & -> & Hc & Hs1)]]; cbn [String.length] in Hn.
  - split; [constructor|done].
  - destruct (IH (String.length raw1) ltac:(lia) s1 raw1 r ltac:(lia) Hs1) as [Hp Heq].
    split; [|by rewrite !app_cons_s, <- Heq].
    destruct (Ascii.eqb_spec e "u") as [->|_]; [|by constructor].
    destruct (check_hex_4 s1 He) as (a & b & c & d & s2 & -> & Hx).
    pose proof (hexes_plain _ _ _ _ Hx) as Hpl. rewrite !andb_true_iff in Hpl. destruct Hpl as [[[Pa Pb] Pc] Pd].
    apply scan_string_unbroken in Hs1 as (r1 & -> & Hs1); [|done]. apply scan_string_unbroken in Hs1 as (r2 & -> & Hs1); [|done].
    apply scan_string_unbroken in Hs1 as (r3 & -> & Hs1); [|done]. apply scan_string_unbroken in Hs1 as (r4 & -> & Hs1); [|done].
    constructor; [done|]. cbn [String.length] in Hn. by apply (IH (String.length r4) ltac:(lia) s2 r4 r).
  - destruct (IH (String.length raw1) ltac:(lia) s1 raw1 r ltac:(lia) Hs1) as [Hp Heq].
    split; [|by rewrite app_cons_s, <- Heq].
    destruct (Z.lt_ge_cases (code c) 128) as [Hlow|Hhigh]; [by constructor|].
    destruct (rune_width (String c raw1)) as [|w] eqn:Hw; [by apply p_bad|]. apply (p_rune _ w Hw).
    destruct (scan_string_drop (S w) _ _ _ Hs) as [s' Hs']; [by apply rune_width_spec in Hw as [_ ? _ _ _ _]|].
    apply (IH (String.length (drop_bytes w raw1))) with (s := s') (r := r);
      [pose proof (drop_bytes_length w raw1); lia|done|done].
Qed.

Lemma pieces_scan raw rest : pieces raw → scan_string (raw +:+ String quote rest) = Ok (raw, rest).
Proof.
  induction 1 as [|e s He _ IH|a b c d s Hx _ IH|c s Hc Hp _ IH|s w Hw _ IH|c s Hc Hw _ IH].
  - reflexivity.
  - rewrite !app_cons_s, scan_backslashed, IH; [done|done|]. by destruct (Ascii.eqb_spec e "u") as [->|].
  - rewrite !app_cons_s, scan_coded, IH; [done|done|by apply hexes_plain].
  - by rewrite app_cons_s, scan_plain_byte, IH.
  - apply rune_width_spec in Hw as [_ Hh _ _ _ Hsplit]. rewrite <- Hsplit at 1.
    rewrite app_assoc_s, scan_high, IH by done. cbn [rbind]. by rewrite Hsplit.
  - rewrite app_cons_s, scan_plain_byte, IH by by apply high_plain. done.
Qed.

(** ** The copy of a literal *)

(** A continuation byte. *)
Definition cont (c : Ascii.ascii) : bool := between 128 191 c.

Fixpoint all_cont (s : string) : bool :=
  match s with EmptyString => true | String c s => cont c && all_cont s end.

Lemma code_byte c : byte (code c) = c.
Proof. unfold byte, code. by rewrite N2Z.id, Ascii.ascii_N_embedding. Qed.

Lemma separator_bytes a b c :
  is_separator a b c = true → a = byte 226 ∧ b = byte 128 ∧ (c = byte 168 ∨ c = byte 169).
Proof.
  unfold is_separator. rewrite !andb_true_iff, orb_true_iff, !Z.eqb_eq. intros [[Ha Hb] Hc].
  rewrite <- (code_byte a), <- (code_byte b), <- (code_byte c), Ha, Hb. split_and!; [done|done|].
  by destruct Hc as [->| ->]; [left|right].
Qed.

Lemma separator_width a b c s : is_separator a b c = true → rune_width (String a (String b (String c s))) = 3%nat.
Proof. intros Hs. destruct (separator_bytes _ _ _ Hs) as (-> & -> & [->| ->]); reflexivity. Qed.

(** A high byte that does not start a separator. *)
Lemma compact_high c s :
  128 ≤ code c → (∀ c2 c3 s3, s = String c2 (String c3 s3) → is_separator c c2 c3 = false) →
  compact Inside (String c s) = String c (compact Inside s).
Proof.
  intros Hc Hsep. pose proof (high_plain c Hc) as Hp. unfold piece_plain in Hp.
  rewrite !andb_true_iff, !negb_true_iff in Hp. destruct Hp as [[Hq Hb] _].
  assert (Hm : is_markup c = false) by (unfold is_markup; rewrite !orb_false_iff, !Z.eqb_neq; lia).
  assert (Hn : next_place Inside c = Inside) by (cbn [next_place]; by rewrite Hq, Hb).
  cbn [compact]. rewrite Hm, Hn. destruct s as [|c2 [|c3 s3]]; [done..|]. by rewrite (Hsep c2 c3 s3).
Qed.

Lemma compact_cont c s : cont c = true → compact Inside (String c s) = String c (compact Inside s).
Proof.
  unfold cont, between. rewrite andb_true_iff, !Z.leb_le. intros Hc. apply compact_high; [lia|].
  intros c2 c3 s3 _. unfold is_separator. by rewrite (proj2 (Z.eqb_neq (code c) 226)) by lia.
Qed.

Lemma compact_conts p s : all_cont p = true → compact Inside (p +:+ s) = p +:+ compact Inside s.
Proof.
  induction p as [|c p IH]; [done|]. cbn [all_cont]. rewrite andb_true_iff. intros [Hc Hp].
  by rewrite !app_cons_s, compact_cont, IH.
Qed.

(** A well-formed rune: its first byte, and continuation bytes. *)
Lemma rune_conts s w :
  rune_width s = S w → ∃ a s', s = String a s' ∧ 128 ≤ code a ∧ all_cont (take_bytes w s') = true.
Proof.
  destruct s as [|a [|b s]]; [done..|]. intros Hw. exists a, (String b s). split; [done|].
  assert (Hc : ∀ lo hi c, 128 <= lo → hi <= 191 → between lo hi c = true → cont c = true).
  { unfold cont, between. intros lo hi c Hlo Hhi. rewrite !andb_true_iff, !Z.leb_le. lia. }
  cbn [rune_width] in Hw. destruct (between 194 223 a) eqn:H2.
  { destruct (between 128 191 b) eqn:Hb; [|done]. injection Hw as <-. apply between_lo in H2.
    split; [lia|]. cbn [take_bytes all_cont]. unfold cont. by rewrite Hb. }
  destruct (between 224 239 a) eqn:H3.
  { destruct s as [|c s]; [done|]. destruct (_ && _) eqn:Hb; [|done]. injection Hw as <-. apply between_lo in H3.
    apply andb_true_iff in Hb as [Hb Hc']. split; [lia|]. cbn [take_bytes all_cont].
    apply Hc in Hb; [|destruct (code a =? 224); lia|destruct (code a =? 237); lia].
    rewrite Hb. unfold cont. by rewrite Hc'. }
  destruct (between 240 244 a) eqn:H4; [|done].
  destruct s as [|c [|d s]]; [done..|]. destruct (_ && _) eqn:Hb; [|done]. injection Hw as <-. apply between_lo in H4.
  rewrite !andb_true_iff in Hb. destruct Hb as [[Hb Hc'] Hd]. split; [lia|]. cbn [take_bytes all_cont].
  apply Hc in Hb; [|destruct (code a =? 240); lia|destruct (code a =? 244); lia].
  rewrite Hb. unfold cont. by rewrite Hc', Hd.
Qed.

(** The copy of a rune, before anything. *)
Lemma compact_rune s w :
  rune_width s = S w →
  (∃ a b c, is_separator a b c = true ∧ take_bytes (S w) s = String a (String b (String c "")) ∧
     ∀ x, compact Inside (take_bytes (S w) s +:+ x) = coded_separator c (compact Inside x)) ∨
  ∀ x, compact Inside (take_bytes (S w) s +:+ x) = take_bytes (S w) s +:+ compact Inside x.
Proof.
  intros Hw. pose proof (rune_width_spec _ _ Hw) as [Hl _ Hwx _ _ _].
  destruct (rune_conts _ _ Hw) as (a & s' & -> & Ha & Hconts). cbn [take_bytes] in *.
  set (q := take_bytes w s') in *. injection Hl as Hl.
  assert (Hcases : (∃ b c, q = String b (String c "") ∧ is_separator a b c = true) ∨
    (∀ b c, q = String b (String c "") → is_separator a b c = false)).
  { destruct q as [|b [|c [|]]]; [by right..| |by right].
    destruct (is_separator a b c) eqn:Hsep; [left; by exists b, c|]. right. by intros b' c' [= <- <-]. }
  destruct Hcases as [(b & c & Hq & Hsep)|Hn].
  - left. exists a, b, c. split; [done|]. split; [by rewrite Hq|]. intros x. rewrite Hq.
    by destruct (separator_bytes _ _ _ Hsep) as (-> & -> & [->| ->]).
  - right. intros x. rewrite !app_cons_s, compact_high; [by rewrite compact_conts|done|].
    intros b c y Hq. apply not_true_is_false. intros Hsep. specialize (Hwx x). rewrite app_cons_s, Hq in Hwx.
    rewrite (separator_width _ _ _ _ Hsep) in Hwx. injection Hwx as <-.
    destruct q as [|b' [|c' [|]]] eqn:Hqq; try done. rewrite !app_cons_s in Hq. injection Hq as -> -> _.
    by rewrite (Hn b c eq_refl) in Hsep.
Qed.

(** The continuation bytes in front, at most [n]: all that the width of a rune
    looks at. *)
Fixpoint cont_prefix (n : nat) (s : string) : string :=
  match n, s with
  | S n, String c s => if cont c then String c (cont_prefix n s) else EmptyString
  | _, _ => EmptyString
  end.

Lemma rune_width_prefix a s : rune_width (String a s) = rune_width (String a (cont_prefix 3 s)).
Proof.
  assert (Hn : ∀ lo hi c, cont c = false → 128 <= lo → hi <= 191 → between lo hi c = false).
  { unfold cont, between. intros lo hi c Hc Hlo Hhi. apply andb_false_iff. rewrite !Z.leb_gt.
    apply andb_false_iff in Hc. rewrite !Z.leb_gt in Hc. lia. }
  assert (H1 : 128 <= (if code a =? 224 then 160 else 128)) by (destruct (code a =? 224); lia).
  assert (H2 : (if code a =? 237 then 159 else 191) <= 191) by (destruct (code a =? 237); lia).
  assert (H3 : 128 <= (if code a =? 240 then 144 else 128)) by (destruct (code a =? 240); lia).
  assert (H4 : (if code a =? 244 then 143 else 191) <= 191) by (destruct (code a =? 244); lia).
  destruct s as [|b s]; [done|]. cbn [cont_prefix]. destruct (cont b) eqn:Hb.
  2:{ cbn [rune_width]. rewrite !(Hn _ _ b Hb) by lia. cbn [andb]. by repeat case_match. }
  destruct s as [|c s]; [done|]. destruct (cont c) eqn:Hc.
  2:{ cbn [rune_width]. rewrite !(Hn 128 191 c Hc) by lia. rewrite !andb_false_r. cbn [andb]. by repeat case_match. }
  destruct s as [|d s]; [done|]. destruct (cont d) eqn:Hd; [done|].
  cbn [rune_width]. rewrite !(Hn 128 191 d Hd) by lia. rewrite !andb_false_r. by repeat case_match.
Qed.

Lemma cont_prefix_compact n s : cont_prefix n (compact Inside s) = cont_prefix n s.
Proof.
  revert s. induction n as [|n IH]; intros [|c s]; [done..|]. cbn [cont_prefix]. destruct (cont c) eqn:Hc.
  { rewrite compact_cont by done. by rewrite Hc, IH. }
  cbn [compact]. destruct (is_markup c); [reflexivity|].
  destruct s as [|c2 [|c3 s3]]; [by rewrite Hc..|]. destruct (is_separator c c2 c3); [reflexivity|by rewrite Hc].
Qed.

(** A byte that belongs to no rune still belongs to none. *)
Lemma compact_bad c s :
  128 ≤ code c → rune_width (String c s) = 0%nat →
  compact Inside (String c s) = String c (compact Inside s) ∧ rune_width (String c (compact Inside s)) = 0%nat.
Proof.
  intros Hc Hw. split.
  - apply compact_high; [done|]. intros c2 c3 s3 ->. apply not_true_is_false. intros Hsep.
    by rewrite (separator_width _ _ _ _ Hsep) in Hw.
  - by rewrite rune_width_prefix, cont_prefix_compact, <- rune_width_prefix.
Qed.

Lemma simple_copied e : is_simple_escape e = true → copied e = true.
Proof. destruct e as [[] [] [] [] [] [] [] []]; try done; intros He; vm_compute in He; discriminate He. Qed.

Lemma hex_copied e : is_hex e = true → copied e = true ∧ next_place Inside e = Inside.
Proof. destruct e as [[] [] [] [] [] [] [] []]; try done; intros He; vm_compute in He; discriminate He. Qed.

Lemma compact_simple e s :
  is_simple_escape e = true →
  compact Inside (String backslash (String e s)) = String backslash (String e (compact Inside s)).
Proof.
  intros He. rewrite compact_copied by done. change (next_place Inside backslash) with Escaped.
  by rewrite compact_copied by (done || by apply simple_copied).
Qed.

Lemma compact_hex4 a b c d s :
  is_hex a && is_hex b && is_hex c && is_hex d = true →
  compact Inside (String a (String b (String c (String d s)))) =
  String a (String b (String c (String d (compact Inside s)))).
Proof.
  rewrite !andb_true_iff. intros [[[Ha Hb] Hc] Hd].
  apply hex_copied in Ha as [Ca Na]. apply hex_copied in Hb as [Cb Nb].
  apply hex_copied in Hc as [Cc Nc]. apply hex_copied in Hd as [Cd Nd].
  by rewrite (compact_copied Inside a), Na, (compact_copied Inside b), Nb, (compact_copied Inside c), Nc,
    (compact_copied Inside d), Nd by done.
Qed.

Lemma compact_u a b c d s :
  is_hex a && is_hex b && is_hex c && is_hex d = true →
  compact Inside (String backslash (String "u" (String a (String b (String c (String d s)))))) =
  String backslash (String "u" (String a (String b (String c (String d (compact Inside s)))))).
Proof.
  intros Hx. rewrite compact_copied by done. change (next_place Inside backslash) with Escaped.
  rewrite compact_copied by done. change (next_place Escaped "u") with Inside. by rewrite compact_hex4.
Qed.

Lemma compact_ascii c s :
  code c < 128 → piece_plain c = true →
  compact Inside (String c s) =
  if is_markup c then coded c (compact Inside s) else String c (compact Inside s).
Proof.
  intros Hc Hp. unfold piece_plain in Hp. rewrite !andb_true_iff, !negb_true_iff in Hp. destruct Hp as [[Hq Hb] _].
  assert (Hn : next_place Inside c = Inside) by (cbn [next_place]; by rewrite Hq, Hb).
  destruct (is_markup c) eqn:Hm; [cbn [compact]; by rewrite Hm, Hn|].
  rewrite compact_copied by (done || unfold copied; rewrite Hm; cbn [negb andb]; apply negb_true_iff, Z.eqb_neq; lia).
  by rewrite Hn.
Qed.

(** The copy of a literal is a literal. *)
Lemma pieces_compact raw :
  pieces raw → pieces (compact Inside raw) ∧
  ∀ x, compact Inside (raw +:+ String quote x) = compact Inside raw +:+ String quote (compact Outside x).
Proof.
  induction 1 as [|e s He _ [IH1 IH2]|a b c d s Hx _ [IH1 IH2]|c s Hc Hp _ [IH1 IH2]|s w Hw _ [IH1 IH2]|c s Hc Hw _ [IH1 IH2]].
  - split; [constructor|]. intros x. rewrite !app_empty_s. by rewrite compact_copied.
  - split; [rewrite compact_simple by done; by constructor|]. intros x.
    rewrite !app_cons_s, !compact_simple, IH2 by done. by rewrite !app_cons_s.
  - split; [rewrite compact_u by done; by constructor|]. intros x.
    rewrite !app_cons_s, !compact_u, IH2 by done. by rewrite !app_cons_s.
  - split.
    + rewrite compact_ascii by done. destruct (is_markup c) eqn:Hm; [|by constructor].
      apply p_u; [|done]. clear -Hm. destruct c as [[] [] [] [] [] [] [] []]; try done; vm_compute in Hm; discriminate Hm.
    + intros x. rewrite app_cons_s, !compact_ascii, IH2 by done. by destruct (is_markup c).
  - pose proof (rune_width_spec _ _ Hw) as [_ _ Hwx Ht Hd Hsplit].
    destruct (compact_rune s w Hw) as [(a & b & c & Hsep & _ & E)|E]; split;
      try (intros x; rewrite <- Hsplit at 1 2; by rewrite app_assoc_s, !E, IH2, ?app_assoc_s);
      rewrite <- Hsplit, E.
    + apply p_u; [|done]. by destruct (separator_bytes _ _ _ Hsep) as (_ & _ & [->| ->]).
    + apply (p_rune _ w); [apply Hwx|by rewrite Hd].
  - destruct (compact_bad c s Hc Hw) as [E1 E2]. split; [rewrite E1; by apply p_bad|].
    intros x. rewrite E1, app_cons_s. rewrite compact_high; [by rewrite IH2|done|].
    intros c2 c3 s3 Hs. apply not_true_is_false. intros Hsep.
    destruct (separator_bytes _ _ _ Hsep) as (_ & -> & Hc3). destruct s as [|b [|d s]].
    + by injection Hs.
    + rewrite !app_cons_s in Hs. injection Hs as _ <- _. by destruct Hc3.
    + rewrite !app_cons_s in Hs. injection Hs as -> -> _. by rewrite (separator_width _ _ _ _ Hsep) in Hw.
Qed.

(** ** What the copy denotes *)

(** The escape that may complete a surrogate pair. *)
Definition second_half (s : string) : option (Z * string) :=
  match s with
  | String b (String u s') => if Ascii.eqb b backslash && Ascii.eqb u "u" then get4 s' else None
  | _ => None
  end.

Definition pair_up (r : Z) (s : string) : Z * string :=
  if is_high r || is_low r then
    match second_half s with
    | Some (r2, s') =>
        if is_high r && is_low r2 then ((r - 55296) * 1024 + (r2 - 56320) + 65536, s') else (replacement, s)
    | None => (replacement, s)
    end
  else (r, s).

Lemma get4_hex a b c d :
  is_hex a && is_hex b && is_hex c && is_hex d = true →
  ∃ r, ∀ s, get4 (String a (String b (String c (String d s)))) = Some (r, s).
Proof.
  unfold is_hex. rewrite !andb_true_iff. intros [[[Ha Hb] Hc] Hd]. cbn [get4].
  destruct (hex_digit_value a), (hex_digit_value b), (hex_digit_value c), (hex_digit_value d); try done. by eexists.
Qed.

Lemma unquote_u_hex a b c d r s :
  (∀ s, get4 (String a (String b (String c (String d s)))) = Some (r, s)) →
  unquote_u (String a (String b (String c (String d s)))) = pair_up r s.
Proof. intros Hr. unfold unquote_u. rewrite Hr. done. Qed.

Lemma not_backslash c : piece_plain c = true → Ascii.eqb c backslash = false.
Proof. unfold piece_plain. rewrite !andb_true_iff, !negb_true_iff. tauto. Qed.

Lemma second_half_other c s : Ascii.eqb c backslash = false → second_half (String c s) = None.
Proof. intros Hc. destruct s as [|u s]; [done|]. cbn [second_half]. by rewrite Hc. Qed.

Lemma second_half_compact s :
  pieces s →
  (∃ a b c d s' r2, s = String backslash (String "u" (String a (String b (String c (String d s'))))) ∧
     is_hex a && is_hex b && is_hex c && is_hex d = true ∧
     second_half s = Some (r2, s') ∧ second_half (compact Inside s) = Some (r2, compact Inside s')) ∨
  (second_half s = None ∧ ∀ r2 x, second_half (compact Inside s) = Some (r2, x) → is_low r2 = false).
Proof.
  intros [|e s1 He _|a b c d s1 Hx _|c s1 Hc Hp _|s1 w Hw _|c s1 Hc Hw _].
  - by right.
  - right. rewrite compact_simple by done. cbn [second_half].
    by destruct (Ascii.eqb_spec e "u") as [->|]; [|rewrite andb_false_r].
  - left. destruct (get4_hex _ _ _ _ Hx) as [r2 Hr]. exists a, b, c, d, s1, r2. split; [done|]. split; [done|].
    rewrite compact_u by done. cbn [second_half]. change (Ascii.eqb backslash backslash && Ascii.eqb "u" "u") with true.
    cbn beta iota. by rewrite !Hr.
  - right. apply not_backslash in Hp as Hb. split; [by apply second_half_other|]. rewrite compact_ascii by done.
    destruct (is_markup c) eqn:Hm; [|by rewrite second_half_other].
    assert (Hcs : c = byte 60 ∨ c = byte 62 ∨ c = byte 38).
    { unfold is_markup in Hm. rewrite !orb_true_iff, !Z.eqb_eq in Hm. rewrite <- (code_byte c).
      destruct Hm as [[->| ->]| ->]; auto. }
    by destruct Hcs as [->|[->| ->]]; intros r2 x [= <- _].
  - right. destruct (rune_conts _ _ Hw) as (a & s' & -> & Ha & _). apply high_plain, not_backslash in Ha as Hb.
    split; [by apply second_half_other|]. pose proof (rune_width_spec _ _ Hw) as [_ _ _ _ _ Hsplit].
    rewrite <- Hsplit. destruct (compact_rune _ _ Hw) as [(a' & b & c & Hsep & _ & ->)| ->].
    + by destruct (separator_bytes _ _ _ Hsep) as (_ & _ & [->| ->]); intros r2 x [= <- _].
    + cbn [take_bytes]. by rewrite app_cons_s, second_half_other.
  - right. pose proof (not_backslash c (high_plain c Hc)) as Hb. split; [by apply second_half_other|].
    destruct (compact_bad c s1 Hc Hw) as [-> _]. by rewrite second_half_other.
Qed.

(** The copy of [s] is unquoted like [s]. *)
Definition unquotes_alike (s : string) : Prop :=
  ∀ f1 f2, (String.length (compact Inside s) ≤ f1)%nat → (String.length s ≤ f2)%nat →
    unquote_bytes f1 (compact Inside s) = unquote_bytes f2 s.

Lemma unquote_bytes_u f x :
  unquote_bytes (S f) (String backslash (String "u" x)) =
  (let '(r, rest) := unquote_u x in encode_rune r +:+ unquote_bytes f rest).
Proof. reflexivity. Qed.

Lemma alike_u a b c d s :
  is_hex a && is_hex b && is_hex c && is_hex d = true → pieces s → unquotes_alike s →
  (∀ a b c d s', s = String backslash (String "u" (String a (String b (String c (String d s'))))) → unquotes_alike s') →
  unquotes_alike (String backslash (String "u" (String a (String b (String c (String d s)))))).
Proof.
  intros Hx Hs IH IH' f1 f2 H1 H2. destruct (get4_hex _ _ _ _ Hx) as [r Hr]. rewrite compact_u in * by done.
  cbn [String.length] in *. destruct f1 as [|f1]; [lia|]. destruct f2 as [|f2]; [lia|].
  rewrite !unquote_bytes_u, !(unquote_u_hex _ _ _ _ r) by done. unfold pair_up.
  destruct (is_high r || is_low r) eqn:Hsur; [|f_equal; apply IH; lia].
  destruct (second_half_compact s Hs) as [(a' & b' & c' & d' & s' & r2 & Heq & Hx' & -> & ->)|[-> Hlow]].
  - destruct (is_high r && is_low r2); [|f_equal; apply IH; lia]. f_equal.
    assert (Hl : (String.length (compact Inside s') ≤ String.length (compact Inside s) ∧ String.length s' ≤ String.length s)%nat).
    { subst s. rewrite compact_u by done. cbn [String.length]. lia. }
    apply (IH' _ _ _ _ _ Heq); lia.
  - destruct (second_half (compact Inside s)) as [[r2 x]|]; [|f_equal; apply IH; lia].
    rewrite (Hlow r2 x eq_refl), andb_false_r. f_equal. apply IH; lia.
Qed.

Lemma alike_ascii c s :
  code c < 128 → piece_plain c = true → unquotes_alike s → unquotes_alike (String c s).
Proof.
  intros Hc Hp IH f1 f2 H1 H2. rewrite compact_ascii in * by done. cbn [String.length] in H2.
  destruct f2 as [|f2]; [lia|]. apply not_backslash in Hp as Hb.
  assert (Hone : ∀ f x, unquote_bytes (S f) (String c x) = String c (unquote_bytes f x)).
  { intros f x. cbn [unquote_bytes]. by rewrite Hb, (proj2 (Z.ltb_lt _ _) Hc). }
  rewrite Hone. destruct (is_markup c) eqn:Hm.
  - destruct f1 as [|f1]; [simpl in H1; lia|]. rewrite <- (IH f1 f2); [|simpl in H1; lia|lia].
    assert (Hcs : c = byte 60 ∨ c = byte 62 ∨ c = byte 38).
    { unfold is_markup in Hm. rewrite !orb_true_iff, !Z.eqb_eq in Hm. rewrite <- (code_byte c).
      destruct Hm as [[->| ->]| ->]; auto. }
    by destruct Hcs as [->|[->| ->]].
  - cbn [String.length] in H1. destruct f1 as [|f1]; [lia|]. rewrite Hone. f_equal. apply IH; lia.
Qed.

Lemma alike_rune s w : rune_width s = S w → unquotes_alike (drop_bytes (S w) s) → unquotes_alike s.
Proof.
  intros Hw IH f1 f2 H1 H2. pose proof (rune_width_spec _ _ Hw) as [Hl _ _ _ _ Hsplit].
  set (x := drop_bytes (S w) s) in *.
  assert (Hlen : ∀ y, String.length (take_bytes (S w) s +:+ y) = (S w + String.length y)%nat)
    by (intros y; by rewrite length_app_s, Hl).
  assert (Hs : String.length s = (S w + String.length x)%nat) by (rewrite <- Hsplit at 1; apply Hlen).
  destruct f2 as [|f2]; [lia|]. trans (take_bytes (S w) s +:+ unquote_bytes f2 x).
  2:{ rewrite <- (unquote_high s w f2 x Hw). by rewrite Hsplit. }
  destruct (compact_rune s w Hw) as [(a & b & c & Hsep & Htk & E)|E]; specialize (E x); rewrite Hsplit in E; rewrite E in *.
  - destruct f1 as [|f1]; [simpl in H1; lia|]. rewrite Htk, <- (IH f1 f2); [|simpl in H1; lia|lia].
    by destruct (separator_bytes _ _ _ Hsep) as (-> & -> & [->| ->]).
  - rewrite Hlen in H1. destruct f1 as [|f1]; [lia|]. rewrite (unquote_high s w f1 _ Hw). f_equal. apply IH; lia.
Qed.

Lemma alike_bad c s :
  128 ≤ code c → rune_width (String c s) = 0%nat → unquotes_alike s → unquotes_alike (String c s).
Proof.
  intros Hc Hw IH f1 f2 H1 H2. destruct (compact_bad c s Hc Hw) as [E Hw']. rewrite E in *. cbn [String.length] in *.
  destruct f1 as [|f1]; [lia|]. destruct f2 as [|f2]; [lia|]. pose proof (not_backslash c (high_plain c Hc)) as Hb.
  assert (Hone : ∀ f x, rune_width (String c x) = 0%nat →
    unquote_bytes (S f) (String c x) = encode_rune replacement +:+ unquote_bytes f x).
  { intros f x Hx. cbn [unquote_bytes]. by rewrite Hb, (proj2 (Z.ltb_ge _ _) Hc), Hx. }
  rewrite !Hone by done. f_equal. apply IH; lia.
Qed.

Lemma pieces_alike s : pieces s →
  unquotes_alike s ∧
  ∀ a b c d s', s = String backslash (String "u" (String a (String b (String c (String d s'))))) → unquotes_alike s'.
Proof.
  assert (Hhigh : ∀ c s s', 128 ≤ code c → String c s ≠ String backslash s') by (intros c s0 s' Hc [= -> _]; by vm_compute in Hc).
  induction 1 as [|e s He _ [IH _]|a b c d s Hx Hs [IH IH']|c s Hc Hp _ [IH _]|s w Hw _ [IH _]|c s Hc Hw _ [IH _]].
  - split; [|done]. intros f1 f2 _ _. by destruct f1, f2.
  - split; [|by intros a b c d s' [= -> _]]. intros f1 f2 H1 H2. rewrite compact_simple in * by done.
    cbn [String.length] in *. destruct f1 as [|f1]; [lia|]. destruct f2 as [|f2]; [lia|].
    cbn [unquote_bytes]. change (Ascii.eqb backslash backslash) with true. cbn beta iota.
    destruct (Ascii.eqb_spec e "u") as [->|]; [done|]. f_equal. apply IH; lia.
  - split; [by apply alike_u|]. by intros a' b' c' d' s' [= <- <- <- <- <-].
  - split; [by apply alike_ascii|]. intros a b d e s' [= -> _]. done.
  - split; [by eapply alike_rune|]. intros a b c d s' ->. destruct (rune_conts _ _ Hw) as (x & y & Heq & Hx & _).
    by destruct (Hhigh x y _ Hx (eq_sym Heq)).
  - split; [by apply alike_bad|]. intros a b d e s' Heq. by destruct (Hhigh c s _ Hc Heq).
Qed.

(** A literal and its copy. *)
Lemma spells_compact s raw r :
  scan_string s = Ok (raw, r) →
  spells (compact Inside raw) (unquote raw) ∧
  compact Inside s = compact Inside raw +:+ String quote (compact Outside r).
Proof.
  intros Hs. destruct (scan_string_pieces _ s raw r (Nat.le_refl _) Hs) as [Hp ->].
  destruct (pieces_compact raw Hp) as [Hp' Hx]. split; [|apply Hx]. split; [intros rest; by apply pieces_scan|].
  by apply (pieces_alike raw Hp).
Qed.

(** ** The copy of a value *)

Lemma scan_word_split w t s r : scan_word w t s = Ok r → s = t +:+ r.
Proof.
  revert s. induction t as [|e t IH]; intros s; cbn [scan_word]; [by intros [= ->]|].
  destruct s as [|c s]; [done|]. destruct (Ascii.eqb_spec c e) as [->|]; [|done]. intros Hs.
  by rewrite app_cons_s, (IH s Hs).
Qed.

(** A byte of structure, after the space before it. *)
Lemma compact_expect c s r :
  copied c = true → is_space c = false → Ascii.eqb c quote = false →
  expect c (skip_space s) = Some r → compact Outside s = String c (compact Outside r).
Proof.
  intros Hc Hs Hq He. apply expect_split in He. rewrite <- compact_skip, He, compact_copied by done.
  cbn [next_place]. by rewrite Hq.
Qed.

Definition value_copied (s r : string) (v : json) : Prop :=
  ∃ t, denotes t v ∧ compact Outside s = t +:+ compact Outside r.

Definition elements_copied (s r : string) (vs : list json) : Prop :=
  ∃ t ts, Forall2 denotes (t :: ts) vs ∧ compact Outside s = comma_separated (t :: ts) +:+ String "]" (compact Outside r).

Definition members_copied (s r : string) (ms : list (string * json)) : Prop :=
  ∃ t ts, Forall2 denotes_member (t :: ts) ms ∧
    compact Outside s = comma_separated (List.map member_text (t :: ts)) +:+ String "}" (compact Outside r).

Lemma copied_token t s v : token t = true → denotes t v → value_copied (t +:+ s) s v.
Proof. intros Ht Hd. exists t. split; [done|]. by apply compact_token. Qed.

(** One value, when the lists inside are copied. *)
Lemma copy_value fuel s v r :
  (∀ s ms r, scan_members fuel s = Ok (ms, r) → members_copied s r ms) →
  (∀ s vs r, scan_elements fuel s = Ok (vs, r) → elements_copied s r vs) →
  scan_value (S fuel) s = Ok (v, r) → value_copied s r v.
Proof.
  intros IHm IHe. cbn [scan_value]. unfold value_copied. rewrite <- (compact_skip s).
  destruct (skip_space s) as [|c x]; [done|]. destruct (Ascii.eqb_spec c "{") as [->|_].
  { rewrite compact_copied by done. change (next_place Outside "{") with Outside.
    destruct (expect "}" (skip_space x)) as [y|] eqn:He.
    - intros [= <- <-]. exists ("{" +:+ comma_separated (List.map member_text []) +:+ "}"). split; [by apply denotes_object|].
      by rewrite (compact_expect "}" x y) by done.
    - destruct (scan_members fuel x) as [[ms y]|] eqn:Hm; [|done]. intros [= <- <-].
      destruct (IHm _ _ _ Hm) as (t & ts & Hts & ->). eexists. split; [by apply denotes_object|].
      by rewrite !app_assoc_s. }
  destruct (Ascii.eqb_spec c "[") as [->|_].
  { rewrite compact_copied by done. change (next_place Outside "[") with Outside.
    destruct (expect "]" (skip_space x)) as [y|] eqn:He.
    - intros [= <- <-]. exists ("[" +:+ comma_separated [] +:+ "]"). split; [by apply denotes_array|].
      by rewrite (compact_expect "]" x y) by done.
    - destruct (scan_elements fuel x) as [[vs y]|] eqn:Hm; [|done]. intros [= <- <-].
      destruct (IHe _ _ _ Hm) as (t & ts & Hts & ->). eexists. split; [by apply denotes_array|].
      by rewrite !app_assoc_s. }
  destruct (Ascii.eqb_spec c quote) as [->|_].
  { rewrite compact_copied by done. change (next_place Outside quote) with Inside.
    destruct (scan_string x) as [[raw y]|] eqn:Hs; [|done]. intros [= <- <-].
    destruct (spells_compact _ _ _ Hs) as [Hsp ->]. eexists. split; [by apply denotes_string|].
    unfold quoted. by rewrite app_cons_s, app_assoc_s. }
  assert (Hword : ∀ w t val, scan_word w t x = Ok r → token (String c t) = true →
    (∀ fuel rest, scan_value (S fuel) (String c t +:+ rest) = Ok (val, rest)) → value_head c = true →
    ∃ t, denotes t val ∧ compact Outside (String c x) = t +:+ compact Outside r).
  { intros w t val Hw Ht Hscan Hh. rewrite (scan_word_split _ _ _ _ Hw), <- app_cons_s.
    apply copied_token; [done|]. by apply denotes_word; [eexists _, _|]. }
  destruct (Ascii.eqb_spec c "t") as [->|_].
  { destruct (scan_word _ _ _) as [y|] eqn:Hw; [|done]. intros [= <- <-]. by eapply Hword. }
  destruct (Ascii.eqb_spec c "f") as [->|_].
  { destruct (scan_word _ _ _) as [y|] eqn:Hw; [|done]. intros [= <- <-]. by eapply Hword. }
  destruct (Ascii.eqb_spec c "n") as [->|_].
  { destruct (scan_word _ _ _) as [y|] eqn:Hw; [|done]. intros [= <- <-]. by eapply Hword. }
  destruct (_ || _); [|done]. destruct (scan_number (String c x)) as [[lit y]|] eqn:Hn; [|done].
  intros [= <- <-]. destruct (scan_number_literal _ _ _ Hn) as [Hlit Htext].
  rewrite <- (scan_number_split _ _ _ Hn). apply copied_token; [by apply token_number|by apply denotes_number].
Qed.

Lemma copy_members fuel s ms r :
  (∀ s v r, scan_value fuel s = Ok (v, r) → value_copied s r v) →
  (∀ s ms r, scan_members fuel s = Ok (ms, r) → members_copied s r ms) →
  scan_members (S fuel) s = Ok (ms, r) → members_copied s r ms.
Proof.
  intros IHv IHm. cbn [scan_members]. destruct (expect quote (skip_space s)) as [x|] eqn:Hq; [|by destruct (skip_space s)].
  destruct (scan_string x) as [[raw y]|] eqn:Hs; [|done]. cbn [rbind].
  destruct (expect ":" (skip_space y)) as [z|] eqn:Hc; [|by destruct (skip_space y)].
  destruct (scan_value fuel z) as [[v z']|] eqn:Hv; [|done]. cbn [rbind].
  destruct (IHv _ _ _ Hv) as (t & Ht & Ez). destruct (spells_compact _ _ _ Hs) as [Hsp Ex].
  assert (Es : compact Outside s = member_text (compact Inside raw, t) +:+ compact Outside z').
  { rewrite <- compact_skip. apply expect_split in Hq as ->. rewrite compact_copied by done.
    change (next_place Outside quote) with Inside. rewrite Ex, (compact_expect ":" y z), Ez by done.
    unfold member_text, quoted. cbn [fst snd]. by rewrite !app_cons_s, !app_assoc_s, !app_cons_s. }
  assert (Hm : denotes_member (compact Inside raw, t) (unquote raw, v)) by by split.
  destruct (expect "," (skip_space z')) as [u|] eqn:Hcm.
  - destruct (scan_members fuel u) as [[ms' r']|] eqn:Hms; [|done]. intros [= <- <-].
    destruct (IHm _ _ _ Hms) as (m2 & ts & Hts & Eu). exists (compact Inside raw, t), (m2 :: ts).
    split; [by constructor|]. rewrite Es, (compact_expect "," z' u), Eu by done.
    cbn [List.map]. by rewrite concat_cons, app_assoc_s.
  - destruct (expect "}" (skip_space z')) as [u|] eqn:Hb; [|by destruct (skip_space z')].
    intros [= <- <-]. exists (compact Inside raw, t), []. split; [by constructor; [|constructor]|].
    by rewrite Es, (compact_expect "}" z' u).
Qed.

Lemma copy_elements fuel s vs r :
  (∀ s v r, scan_value fuel s = Ok (v, r) → value_copied s r v) →
  (∀ s vs r, scan_elements fuel s = Ok (vs, r) → elements_copied s r vs) →
  scan_elements (S fuel) s = Ok (vs, r) → elements_copied s r vs.
Proof.
  intros IHv IHe. cbn [scan_elements].
  destruct (scan_value fuel s) as [[v z]|] eqn:Hv; [|done]. cbn [rbind].
  destruct (IHv _ _ _ Hv) as (t & Ht & Es).
  destruct (expect "," (skip_space z)) as [u|] eqn:Hcm.
  - destruct (scan_elements fuel u) as [[vs' r']|] eqn:Hvs; [|done]. intros [= <- <-].
    destruct (IHe _ _ _ Hvs) as (t2 & ts & Hts & Eu). exists t, (t2 :: ts).
    split; [by constructor|]. rewrite Es, (compact_expect "," z u), Eu by done.
    by rewrite concat_cons, app_assoc_s.
  - destruct (expect "]" (skip_space z)) as [u|] eqn:Hb; [|by destruct (skip_space z)].
    intros [= <- <-]. exists t, []. split; [by constructor; [|constructor]|].
    by rewrite Es, (compact_expect "]" z u).
Qed.

Lemma copies fuel :
  (∀ s v r, scan_value fuel s = Ok (v, r) → value_copied s r v) ∧
  (∀ s ms r, scan_members fuel s = Ok (ms, r) → members_copied s r ms) ∧
  (∀ s vs r, scan_elements fuel s = Ok (vs, r) → elements_copied s r vs).
Proof.
  induction fuel as [|fuel (IHv & IHm & IHe)]; [done|]. split_and!.
  - intros s v r. by apply copy_value.
  - intros s ms r. by apply copy_members.
  - intros s vs r. by apply copy_elements.
Qed.

(** The copy of a document with nothing but space after its value denotes the
    value. *)
Lemma compact_denotes s v r :
  scan_document s = Ok (v, r) → skip_space r = "" → denotes (compact Outside s) v.
Proof.
  intros Hs Hr. unfold scan_document in Hs. destruct (skip_space s); [done|].
  destruct (proj1 (copies _) _ _ _ Hs) as (t & Ht & ->).
  rewrite <- (compact_skip r), Hr. by rewrite app_nil_s.
Qed.

(** Space goes, markup is escaped, text in strings keeps its space. *)
Example compact_markup :
  let q s := quoted s in
  compact Outside ("{ " +:+ q "a b" +:+ " : [1, " +:+ q "<i>" +:+ "] }" +:+ String (byte 10) "") =
  "{" +:+ q "a b" +:+ ":[1," +:+ q (String backslash "u003ci" +:+ String backslash "u003e") +:+ "]}".
Proof. reflexivity. Qed.
