(* ===== verification/ErrorTexts.v ===== *)
(** * The texts of decoding errors (encoding/json's errors, strconv.Quote)

    What a client is told of a body that does not decode: the text of each
    [decode_error], with the quoting of characters and names.  Which runes
    beyond Latin-1 print is the table of strconv, an argument. *)

From Stdlib Require Import Ascii String.
From S2P Require Import Prelude GoStrings Json JsonText Encoding.

#[local] Open Scope string_scope.
#[local] Open Scope Z_scope.

Section texts.
Context (printable : Z → bool).

(** ** strconv.Quote *)

(** [strconv.IsPrint] *)
Definition is_print (r : Z) : bool :=
  if r <=? 255 then ((32 <=? r) && (r <? 127)) || ((161 <=? r) && negb (r =? 173)) else printable r.

(** [n] hexadecimal digits. *)
Fixpoint hex_text (n : nat) (r : Z) : string :=
  match n with
  | O => ""
  | S n => String (hex_lower (r / 16 ^ Z.of_nat n mod 16)) (hex_text n r)
  end.

(** The escapes with a letter of their own. *)
Definition letter_escape (r : Z) : option Ascii.ascii :=
  if r =? 7 then Some "a"%char
  else if r =? 8 then Some "b"%char
  else if r =? 12 then Some "f"%char
  else if r =? 10 then Some "n"%char
  else if r =? 13 then Some "r"%char
  else if r =? 9 then Some "t"%char
  else if r =? 11 then Some "v"%char
  else None.

(** [appendEscapedRune]: the rune [r], whose UTF-8 encoding is [bytes]. *)
Definition escaped_rune (r : Z) (bytes : string) : string :=
  if (r =? 34) || (r =? 92) then String backslash bytes
  else if is_print r then bytes
  else match letter_escape r with
       | Some c => String backslash (String c "")
       | None =>
           if (r <? 32) || (r =? 127) then String backslash (String "x" (hex_text 2 r))
           else if r <? 65536 then String backslash (String "u" (hex_text 4 r))
           else String backslash (String "U" (hex_text 8 r))
       end.

(** The rune a well-formed encoding stands for. *)
Fixpoint continue_rune (acc : Z) (s : string) : Z :=
  match s with
  | EmptyString => acc
  | String c s => continue_rune (acc * 64 + (code c - 128)) s
  end.

Definition rune_value (s : string) : Z :=
  match s with
  | EmptyString => 0
  | String a r =>
      let lead := if code a <? 224 then 192 else if code a <? 240 then 224 else 240 in
      continue_rune (code a - lead) r
  end.

Fixpoint quote_bytes (fuel : nat) (s : string) : string :=
  match fuel, s with
  | S fuel, String c s' =>
      if code c <? 128 then escaped_rune (code c) (String c "") +:+ quote_bytes fuel s'
      else
        match rune_width s with
        | O => String backslash (String "x" (hex_text 2 (code c))) +:+ quote_bytes fuel s'
        | w => escaped_rune (rune_value (take_bytes w s)) (take_bytes w s) +:+ quote_bytes fuel (drop_bytes w s)
        end
  | _, _ => ""
  end.

(** [strconv.Quote], the verb [%q] *)
Definition Quote (s : string) : string := quoted (quote_bytes (String.length s) s).

(** [quoteChar] of encoding/json *)
Definition quote_char (c : Ascii.ascii) : string :=
  let single := byte 39 in
  if Ascii.eqb c single then String single (String backslash (String single (String single "")))
  else if Ascii.eqb c quote then String single (String quote (String single ""))
  else String single (escaped_rune (code c) (encode_rune (code c)) +:+ String single "").

(** ** The errors

    [struct] is the name of the struct type that was decoded into. *)

Definition decode_error_text (struct : string) (e : decode_error) : string :=
  match e with
  | DEOF => "EOF"
  | DUnexpectedEOF => "unexpected EOF"
  | DSyntax c context => "invalid character " +:+ quote_char c +:+ " " +:+ context
  | DType value "" _ => "json: cannot unmarshal " +:+ value +:+ " into Go value of type api." +:+ struct
  | DType value field type =>
      "json: cannot unmarshal " +:+ value +:+ " into Go struct field " +:+ struct +:+ "." +:+ field +:+
      " of type " +:+ type
  | DUnknownField key => "json: unknown field " +:+ Quote key
  | DTrailing => "body must contain exactly one JSON object"
  end.

(** ** Properties of the quoting *)

Lemma code_byte_range z : 0 ≤ z < 256 → code (byte z) = z.
Proof. intros Hz. unfold code, byte. rewrite Ascii.N_ascii_embedding by lia. by rewrite Z2N.id by lia. Qed.

(** The encoding of a rune stands for it. *)
Lemma rune_value_encode r : 128 ≤ r < 1114112 → rune_value (encode_rune r) = r.
Proof.
  intros Hr. unfold encode_rune. rewrite (proj2 (Z.ltb_ge r 128)) by lia.
  destruct (Z.ltb_spec r 2048); [|destruct (Z.ltb_spec r 65536)].
  - assert (H1 : 194 ≤ 192 + r / 64 < 224 ∧ 0 ≤ 128 + r mod 64 < 256) by (Z.to_euclidean_division_equations; lia).
    unfold rune_value. rewrite code_byte_range by lia. rewrite (proj2 (Z.ltb_lt _ 224)) by lia.
    cbn [continue_rune]. rewrite code_byte_range by lia. Z.to_euclidean_division_equations; lia.
  - assert (H1 : 224 ≤ 224 + r / 4096 < 240 ∧ 0 ≤ 128 + r / 64 mod 64 < 256 ∧ 0 ≤ 128 + r mod 64 < 256)
      by (Z.to_euclidean_division_equations; lia).
    unfold rune_value. rewrite code_byte_range by lia. rewrite (proj2 (Z.ltb_ge _ 224)), (proj2 (Z.ltb_lt _ 240)) by lia.
    cbn [continue_rune]. rewrite !code_byte_range by lia. Z.to_euclidean_division_equations; lia.
  - assert (H1 : 240 ≤ 240 + r / 262144 < 256 ∧ 0 ≤ 128 + r / 4096 mod 64 < 256 ∧ 0 ≤ 128 + r / 64 mod 64 < 256 ∧
      0 ≤ 128 + r mod 64 < 256) by (Z.to_euclidean_division_equations; lia).
    unfold rune_value. rewrite code_byte_range by lia. rewrite (proj2 (Z.ltb_ge _ 224)), (proj2 (Z.ltb_ge _ 240)) by lia.
    cbn [continue_rune]. rewrite !code_byte_range by lia. Z.to_euclidean_division_equations; lia.
Qed.
End texts.

(** A table in which nothing beyond Latin-1 prints. *)
Definition latin_only (r : Z) : bool := false.

Example quote_tab : quote_char latin_only (byte 9) = "'" +:+ String backslash "t'". Proof. reflexivity. Qed.
Example quote_latin : quote_char latin_only (byte 233) = "'" +:+ encode_rune 233 +:+ "'". Proof. reflexivity. Qed.
Example quote_high : quote_char latin_only (byte 128) = "'" +:+ String backslash "u0080'". Proof. reflexivity. Qed.
Example quote_name :
  Quote latin_only (String quote (String (byte 255) (encode_rune 8232))) =
  quoted (String backslash (String quote (String backslash "xff" +:+ String backslash "u2028"))).
Proof. reflexivity. Qed.
