(* ===== verification/Errors.v ===== *)
(** * Error values of the store (internal/store/store.go)

    Go errors are values: sentinels compared with [errors.Is], Postgres errors
    recognised with [errors.As], and [fmt.Errorf("...%w")] wrappers that both
    look through. *)

From S2P Require Import Prelude.

(** [pgconn.PgError]: the fields the code reads. *)
Record PgError := MkPgError { Code : string; ConstraintName : string }.

(** The errors that reach the store: its own sentinels, pgx's, the context's,
    a server error, a broken connection, and a [%w] wrapper. *)
Inductive error :=
| ErrWalletNotFound
| ErrTransferNotFound
| ErrIdempotencyConflict
| ErrSameWallet
| ErrNotOwner
| errReplay
| errDebitLost
| ErrNoRows
| ErrTxClosed
| ErrTxCommitRollback
| EPg (e : PgError)
| EConn (msg : string)
| ECtx (msg : string)
| EScan (msg : string)
| EText (msg : string)
| EWrap (msg : string) (e : error).

#[global] Instance PgError_eq_dec : EqDecision PgError.
Proof. solve_decision. Defined.
#[global] Instance error_eq_dec : EqDecision error.
Proof. solve_decision. Defined.

(** Postgres SQLSTATEs the code reacts to by name. *)
Definition sqlstateUniqueViolation : string := "23505".
Definition sqlstateCheckViolation : string := "23514".
Definition sqlstateForeignKeyViolation : string := "23503".
Definition sqlstateDeadlockDetected : string := "40P01".
Definition sqlstateSerializationFail : string := "40001".

(** [errors.Is(err, target)]: the target is somewhere on the wrap chain. *)
Fixpoint errors_Is (err target : error) : bool :=
  bool_decide (err = target) ||
  match err with EWrap _ e => errors_Is e target | _ => false end.

(** [errors.As(err, &pgErr)]: the first Postgres error on the wrap chain. *)
Fixpoint errors_As (err : error) : option PgError :=
  match err with
  | EPg e => Some e
  | EWrap _ e => errors_As e
  | _ => None
  end.

Definition sqlstate (err : error) : string :=
  match errors_As err with Some pgErr => Code pgErr | None => "" end.

Definition constraintName (err : error) : string :=
  match errors_As err with Some pgErr => ConstraintName pgErr | None => "" end.

(** The same functions on a possibly nil error. *)
Definition sqlstate_of (err : option error) : string := from_option sqlstate "" err.
Definition Is (err : option error) (target : error) : bool :=
  from_option (λ e, errors_Is e target) false err.

Definition isTransient (err : error) : bool :=
  let s := sqlstate err in
  if String.eqb s sqlstateDeadlockDetected then true
  else if String.eqb s sqlstateSerializationFail then true
  else false.

(** ** Lemmas *)

(** Wrapping is transparent to the two inspections. *)
Lemma sqlstate_wrap m e : sqlstate (EWrap m e) = sqlstate e.
Proof. done. Qed.

Lemma errors_Is_wrap m e t : (∀ m' e', t ≠ EWrap m' e') →
  errors_Is (EWrap m e) t = errors_Is e t.
Proof.
  intros Ht. simpl. rewrite bool_decide_eq_false_2; [done|].
  intros ?. subst. by eapply Ht.
Qed.

Lemma errors_Is_refl e : errors_Is e e = true.
Proof.
  destruct e; simpl; try reflexivity; apply orb_true_iff; left; by apply bool_decide_eq_true_2.
Qed.

(** What is transient: exactly a deadlock or a serialization failure. *)
Lemma isTransient_spec e :
  isTransient e = true ↔
  sqlstate e = sqlstateDeadlockDetected ∨ sqlstate e = sqlstateSerializationFail.
Proof.
  unfold isTransient. repeat case_match; try rewrite String.eqb_eq in *;
    try rewrite String.eqb_neq in *; naive_solver.
Qed.

Lemma isTransient_EPg e :
  isTransient (EPg e) = true ↔ Code e = sqlstateDeadlockDetected ∨ Code e = sqlstateSerializationFail.
Proof. apply isTransient_spec. Qed.
