(* ===== verification/Database.v ===== *)
(** * The database (internal/store/schema.sql and the SQL of the store)

    The five tables of the schema, their CHECK, UNIQUE, PRIMARY KEY and
    REFERENCES constraints, and every SQL statement of the Go code as a
    function of the tables it reads: a statement fails with the SQLSTATE and
    the constraint Postgres reports, or returns its rows (or its count of
    affected rows) and the list of row versions it writes.

    What the server chooses is an argument: [gen_random_uuid()] is [u],
    [now()] (the start of the transaction) is [now].  What Postgres does with
    the text of a value is the class [PgText]: its parser and printer of
    [uuid] and its validation of [text] input, with the two documented laws
    the code relies on. *)

From S2P Require Import Prelude Errors.

(** The 16 bytes of a [uuid] column. *)
Record uuid := Uuid { uuid_bytes : string }.

#[global] Instance uuid_eq_dec : EqDecision uuid.
Proof. solve_decision. Defined.
#[global] Instance uuid_countable : Countable uuid.
Proof. refine (inj_countable' uuid_bytes Uuid _). by intros []. Defined.

(** [timestamptz], in microseconds. *)
Abbreviation timestamp := Z (only parsing).

(** A string of 7-bit characters other than NUL. *)
Fixpoint ascii7 (s : string) : bool :=
  match s with
  | EmptyString => true
  | String c s => (0 <? Z.of_N (Ascii.N_of_ascii c)) && (Z.of_N (Ascii.N_of_ascii c) <? 128) && ascii7 s
  end.

Lemma ascii7_app s t : ascii7 (s +:+ t) = ascii7 s && ascii7 t.
Proof.
  induction s as [|c s IH]; [done|]. change (String c s +:+ t) with (String c (s +:+ t)). cbn [ascii7].
  by rewrite IH, !andb_assoc.
Qed.

(** Text input and output of Postgres types.  [uuid_in] accepts several
    spellings of one uuid (upper case, braces, no hyphens); [uuid_out] prints
    the canonical one, which reads back; every spelling is 7-bit text.  [text_in] accepts 7-bit text without
    a NUL under every server encoding. *)
Class PgText := {
  uuid_in : string → option uuid;
  uuid_out : uuid → string;
  text_in : string → bool;
  uuid_out_in : ∀ u, uuid_in (uuid_out u) = Some u;
  uuid_in_text : ∀ s u, uuid_in s = Some u → text_in s = true;
  text_in_ascii : ∀ s, ascii7 s = true → text_in s = true
}.

(** ** Rows and tables *)

Record user_row := MkUser {
  u_token_hash : string;
  u_created_at : timestamp
}.

Record wallet_row := MkWallet {
  w_user_id : uuid;
  w_balance_paise : Z;
  w_created_at : timestamp;
  w_updated_at : timestamp
}.

Record transfer_row := MkTransfer {
  t_idempotency_key : string;
  t_requester_user_id : uuid;
  t_from_wallet_id : uuid;
  t_to_wallet_id : uuid;
  t_amount_paise : Z;
  t_status : string;
  t_decline_reason : option string;
  t_request_fingerprint : string;
  t_created_at : timestamp;
  t_completed_at : option timestamp
}.

(** The [bigserial] id of a ledger entry is its position in the table. *)
Record ledger_row := MkLedger {
  l_transfer_id : uuid;
  l_wallet_id : uuid;
  l_delta_paise : Z;
  l_created_at : timestamp
}.

Record mint_row := MkMint {
  m_idempotency_key : string;
  m_wallet_id : uuid;
  m_amount_paise : Z;
  m_created_at : timestamp
}.

Record db := MkDb {
  users : gmap uuid user_row;
  wallets : gmap uuid wallet_row;
  transfers : gmap uuid transfer_row;
  ledger_entries : list ledger_row;
  mints : gmap uuid mint_row
}.

#[global] Instance user_row_eq_dec : EqDecision user_row.
Proof. solve_decision. Defined.
#[global] Instance wallet_row_eq_dec : EqDecision wallet_row.
Proof. solve_decision. Defined.
#[global] Instance transfer_row_eq_dec : EqDecision transfer_row.
Proof. solve_decision. Defined.
#[global] Instance ledger_row_eq_dec : EqDecision ledger_row.
Proof. solve_decision. Defined.
#[global] Instance mint_row_eq_dec : EqDecision mint_row.
Proof. solve_decision. Defined.

Definition empty_db : db := MkDb ∅ ∅ ∅ [] ∅.

(** A row version written by a statement. *)
Inductive write :=
| PutUser (id : uuid) (r : user_row)
| PutWallet (id : uuid) (r : wallet_row)
| PutTransfer (id : uuid) (r : transfer_row)
| AddLedger (r : ledger_row)
| PutMint (id : uuid) (r : mint_row).

Definition apply_write (d : db) (w : write) : db :=
  match w with
  | PutUser i r => MkDb (<[i := r]> (users d)) (wallets d) (transfers d) (ledger_entries d) (mints d)
  | PutWallet i r => MkDb (users d) (<[i := r]> (wallets d)) (transfers d) (ledger_entries d) (mints d)
  | PutTransfer i r => MkDb (users d) (wallets d) (<[i := r]> (transfers d)) (ledger_entries d) (mints d)
  | AddLedger r => MkDb (users d) (wallets d) (transfers d) (ledger_entries d ++ [r]) (mints d)
  | PutMint i r => MkDb (users d) (wallets d) (transfers d) (ledger_entries d) (<[i := r]> (mints d))
  end.

Definition apply_writes (d : db) (ws : list write) : db := foldl apply_write d ws.

(** ** Constraints

    The first violated CHECK of a row, by constraint name in the order
    Postgres evaluates them (alphabetical). *)

Definition check_wallet (r : wallet_row) : option string :=
  if 0 <=? w_balance_paise r then None else Some "wallets_balance_nonneg".

Definition transfer_status_valid (s : string) : bool :=
  String.eqb s "pending" || String.eqb s "succeeded" || String.eqb s "declined".

Definition decline_reason_valid (r : transfer_row) : bool :=
  (String.eqb (t_status r) "declined" && bool_decide (is_Some (t_decline_reason r))) ||
  (negb (String.eqb (t_status r) "declined") && bool_decide (t_decline_reason r = None)).

Definition check_transfer (r : transfer_row) : option string :=
  if negb (0 <? t_amount_paise r) then Some "transfers_amount_positive"
  else if negb (decline_reason_valid r) then Some "transfers_decline_reason"
  else if bool_decide (t_from_wallet_id r = t_to_wallet_id r) then Some "transfers_no_self"
  else if negb (transfer_status_valid (t_status r)) then Some "transfers_status_valid"
  else None.

Definition check_ledger (r : ledger_row) : option string :=
  if l_delta_paise r =? 0 then Some "ledger_delta_nonzero" else None.

Definition check_mint (r : mint_row) : option string :=
  if negb (0 <? m_amount_paise r) then Some "mints_amount_positive" else None.

(** The server errors the statements raise. *)
Definition unique_violation (c : string) : PgError := MkPgError sqlstateUniqueViolation c.
Definition check_violation (c : string) : PgError := MkPgError sqlstateCheckViolation c.
Definition fk_violation (c : string) : PgError := MkPgError sqlstateForeignKeyViolation c.
Definition invalid_text : PgError := MkPgError "22P02" "".
Definition invalid_encoding : PgError := MkPgError "22021" "".
Definition out_of_range : PgError := MkPgError "22003" "".

Definition checked (c : option string) : result PgError unit :=
  match c with None => Ok tt | Some name => Err (check_violation name) end.

(** UNIQUE lookups. *)
Definition user_by_hash (d : db) (h : string) : option (uuid * user_row) :=
  find_row (λ r, bool_decide (u_token_hash r = h)) (users d).
Definition wallet_by_user (d : db) (u : uuid) : option (uuid * wallet_row) :=
  find_row (λ r, bool_decide (w_user_id r = u)) (wallets d).
Definition transfer_key (r : transfer_row) : uuid * string :=
  (t_requester_user_id r, t_idempotency_key r).
Definition transfer_by_key (d : db) (u : uuid) (k : string) : option (uuid * transfer_row) :=
  find_row (λ r, bool_decide (transfer_key r = (u, k))) (transfers d).
Definition mint_by_key (d : db) (k : string) : option (uuid * mint_row) :=
  find_row (λ r, bool_decide (m_idempotency_key r = k)) (mints d).

(** ** The statements of the store

    One constructor per SQL statement of internal/store, its arguments the
    bound parameters; the index is what the statement returns: [option] of a
    row for a query, the count of affected rows for an [Exec]. *)

Inductive stmt : Set → Set :=
| UpsertUserStmt (token_hash : string) : stmt (option uuid)
| UpsertWalletStmt (user_id : string) : stmt (option (uuid * wallet_row * bool))
| SelectWallet (id : string) : stmt (option (uuid * wallet_row))
| InsertMint (idemKey walletID : string) (amountPaise : Z) : stmt Z
| CreditWallet (amountPaise : Z) (id : string) : stmt Z
| InsertTransfer (idem requester from to : string) (amountPaise : Z) (fingerprint : string)
    : stmt (option (uuid * timestamp))
| SelectWalletForNoKeyUpdate (id : string) : stmt (option (uuid * Z))
| DeclineTransfer (id reason : string) : stmt (option timestamp)
| DebitWallet (amountPaise : Z) (id : string) : stmt Z
| InsertLedger (transfer w1 : string) (d1 : Z) (w2 : string) (d2 : Z) : stmt Z
| SucceedTransfer (id : string) : stmt Z
| SelectTransferByKey (userID key : string) : stmt (option (uuid * transfer_row))
| SelectTransfer (id : string) : stmt (option (uuid * transfer_row))
| SelectInvariants : stmt (option (list Z)).

Section statements.
Context `{PgText}.
Variables (u : uuid) (now : timestamp) (d : db).

(** What a statement yields: its answer and the row versions it writes. *)
Definition answer (R : Set) : Set := result PgError (R * list write).

(** Every text parameter is converted from the client's encoding before its
    type's parser sees it. *)
Definition text_param (s : string) : result PgError unit := require (text_in s) invalid_encoding.
Definition uuid_param (s : string) : result PgError uuid :=
  let? _ := text_param s in of_option (uuid_in s) invalid_text.
Definition bigint (z : Z) : result PgError unit := require (in_int64 z) out_of_range.

(** [INSERT INTO users ... ON CONFLICT (token_hash) DO UPDATE ... RETURNING id] *)
Definition upsert_user (h : string) : answer (option uuid) :=
  match user_by_hash d h with
  | Some (i, r) => Ok (Some i, [PutUser i (MkUser h (u_created_at r))])
  | None =>
      let? _ := require (bool_decide (users d !! u = None)) (unique_violation "users_pkey") in
      Ok (Some u, [PutUser u (MkUser h now)])
  end.

(** [INSERT INTO wallets ... ON CONFLICT (user_id) DO UPDATE ... RETURNING ...,
    (xmax = 0) AS inserted] *)
Definition upsert_wallet (user_id : string) : answer (option (uuid * wallet_row * bool)) :=
  let? uid := uuid_param user_id in
  match wallet_by_user d uid with
  | Some (i, r) =>
      let r' := MkWallet uid (w_balance_paise r) (w_created_at r) (w_updated_at r) in
      Ok (Some (i, r', false), [PutWallet i r'])
  | None =>
      let r := MkWallet uid 0 now now in
      let? _ := checked (check_wallet r) in
      let? _ := require (bool_decide (wallets d !! u = None)) (unique_violation "wallets_pkey") in
      let? _ := require (bool_decide (is_Some (users d !! uid))) (fk_violation "wallets_user_id_fkey") in
      Ok (Some (u, r, true), [PutWallet u r])
  end.

(** [SELECT id, user_id, balance_paise, created_at FROM wallets WHERE id = $1] *)
Definition select_wallet (id : string) : answer (option (uuid * wallet_row)) :=
  let? i := uuid_param id in
  Ok (pair i <$> wallets d !! i, []).

(** [INSERT INTO mints (idempotency_key, wallet_id, amount_paise) VALUES ...] *)
Definition insert_mint (idemKey walletID : string) (amountPaise : Z) : answer Z :=
  let? _ := text_param idemKey in
  let? wid := uuid_param walletID in
  let r := MkMint idemKey wid amountPaise now in
  let? _ := checked (check_mint r) in
  let? _ := require (bool_decide (mints d !! u = None)) (unique_violation "mints_pkey") in
  let? _ := require (bool_decide (mint_by_key d idemKey = None)) (unique_violation "mints_idem_key") in
  let? _ := require (bool_decide (is_Some (wallets d !! wid))) (fk_violation "mints_wallet_id_fkey") in
  Ok (1, [PutMint u r]).

(** The new version of a wallet row whose balance moves by [delta]. *)
Definition move_balance (i : uuid) (r : wallet_row) (delta : Z) : answer Z :=
  let b := w_balance_paise r + delta in
  let? _ := bigint b in
  let r' := MkWallet (w_user_id r) b (w_created_at r) now in
  let? _ := checked (check_wallet r') in
  Ok (1, [PutWallet i r']).

(** [UPDATE wallets SET balance_paise = balance_paise + $1, updated_at = now()
    WHERE id = $2] *)
Definition credit_wallet (amountPaise : Z) (id : string) : answer Z :=
  let? i := uuid_param id in
  match wallets d !! i with
  | Some r => move_balance i r amountPaise
  | None => Ok (0, [])
  end.

(** [UPDATE wallets SET balance_paise = balance_paise - $1, updated_at = now()
    WHERE id = $2 AND balance_paise >= $1] *)
Definition debit_wallet (amountPaise : Z) (id : string) : answer Z :=
  let? i := uuid_param id in
  match wallets d !! i with
  | Some r =>
      if amountPaise <=? w_balance_paise r then move_balance i r (- amountPaise) else Ok (0, [])
  | None => Ok (0, [])
  end.

(** [INSERT INTO transfers (...) VALUES ($1, $2, $3, $4, $5, 'pending', $6)
    RETURNING id, created_at] *)
Definition insert_transfer (idem requester from to : string) (amountPaise : Z)
    (fingerprint : string) : answer (option (uuid * timestamp)) :=
  let? _ := text_param idem in
  let? req := uuid_param requester in
  let? fid := uuid_param from in
  let? tid := uuid_param to in
  let r := MkTransfer idem req fid tid amountPaise "pending" None fingerprint now None in
  let? _ := checked (check_transfer r) in
  let? _ := require (bool_decide (transfers d !! u = None)) (unique_violation "transfers_pkey") in
  let? _ := require (bool_decide (transfer_by_key d req idem = None))
              (unique_violation "transfers_idem_key") in
  let? _ := require (bool_decide (is_Some (users d !! req)))
              (fk_violation "transfers_requester_user_id_fkey") in
  let? _ := require (bool_decide (is_Some (wallets d !! fid)))
              (fk_violation "transfers_from_wallet_id_fkey") in
  let? _ := require (bool_decide (is_Some (wallets d !! tid)))
              (fk_violation "transfers_to_wallet_id_fkey") in
  Ok (Some (u, now), [PutTransfer u r]).

(** [SELECT id, balance_paise FROM wallets WHERE id = $1 FOR NO KEY UPDATE] *)
Definition select_wallet_for_no_key_update (id : string) : answer (option (uuid * Z)) :=
  let? i := uuid_param id in
  Ok ((λ r, (i, w_balance_paise r)) <$> wallets d !! i, []).

Definition set_status (r : transfer_row) (status : string) (reason : option string) : transfer_row :=
  MkTransfer (t_idempotency_key r) (t_requester_user_id r) (t_from_wallet_id r)
    (t_to_wallet_id r) (t_amount_paise r) status reason (t_request_fingerprint r)
    (t_created_at r) (Some now).

(** [UPDATE transfers SET status = 'declined', decline_reason = $2,
    completed_at = now() WHERE id = $1 RETURNING completed_at] *)
Definition decline_transfer (id reason : string) : answer (option timestamp) :=
  let? i := uuid_param id in
  let? _ := text_param reason in
  match transfers d !! i with
  | None => Ok (None, [])
  | Some r =>
      let r' := set_status r "declined" (Some reason) in
      let? _ := checked (check_transfer r') in
      Ok (Some now, [PutTransfer i r'])
  end.

(** [UPDATE transfers SET status = 'succeeded', completed_at = now() WHERE id = $1] *)
Definition succeed_transfer (id : string) : answer Z :=
  let? i := uuid_param id in
  match transfers d !! i with
  | None => Ok (0, [])
  | Some r =>
      let r' := set_status r "succeeded" (t_decline_reason r) in
      let? _ := checked (check_transfer r') in
      Ok (1, [PutTransfer i r'])
  end.

(** One row of [INSERT INTO ledger_entries ...]: its CHECK, then its two
    REFERENCES at the end of the statement. *)
Definition ledger_refs (r : ledger_row) : result PgError unit :=
  let? _ := require (bool_decide (is_Some (transfers d !! l_transfer_id r)))
              (fk_violation "ledger_entries_transfer_id_fkey") in
  require (bool_decide (is_Some (wallets d !! l_wallet_id r)))
    (fk_violation "ledger_entries_wallet_id_fkey").

(** [INSERT INTO ledger_entries (transfer_id, wallet_id, delta_paise)
    VALUES ($1, $2, $3), ($1, $4, $5)] *)
Definition insert_ledger (transfer w1 : string) (d1 : Z) (w2 : string) (d2 : Z) : answer Z :=
  let? t := uuid_param transfer in
  let? i1 := uuid_param w1 in
  let? i2 := uuid_param w2 in
  let r1 := MkLedger t i1 d1 now in
  let r2 := MkLedger t i2 d2 now in
  let? _ := checked (check_ledger r1) in
  let? _ := checked (check_ledger r2) in
  let? _ := ledger_refs r1 in
  let? _ := ledger_refs r2 in
  Ok (2, [AddLedger r1; AddLedger r2]).

(** [SELECT ... FROM transfers WHERE requester_user_id = $1 AND idempotency_key = $2] *)
Definition select_transfer_by_key (userID key : string) : answer (option (uuid * transfer_row)) :=
  let? uid := uuid_param userID in
  let? _ := text_param key in
  Ok (transfer_by_key d uid key, []).

(** [SELECT ... FROM transfers WHERE id = $1] *)
Definition select_transfer (id : string) : answer (option (uuid * transfer_row)) :=
  let? i := uuid_param id in
  Ok (pair i <$> transfers d !! i, []).

(** The eight scalar subqueries of [CheckInvariants]. *)
Definition count_rows {A} (P : A → bool) (m : gmap uuid A) : Z :=
  map_sum (λ _ r, if P r then 1 else 0) m.

Definition select_invariants : answer (option (list Z)) :=
  Ok (Some [ count_rows (λ _, true) (wallets d);
             map_sum (λ _, w_balance_paise) (wallets d);
             map_sum (λ _, m_amount_paise) (mints d);
             list_sum l_delta_paise (ledger_entries d);
             count_rows (λ r, w_balance_paise r <? 0) (wallets d);
             count_rows (λ r, String.eqb (t_status r) "succeeded") (transfers d);
             count_rows (λ r, String.eqb (t_status r) "declined") (transfers d);
             count_rows (λ r, String.eqb (t_status r) "pending") (transfers d) ], []).

Definition exec_stmt {R} (s : stmt R) : answer R :=
  match s with
  | UpsertUserStmt h => upsert_user h
  | UpsertWalletStmt uid => upsert_wallet uid
  | SelectWallet id => select_wallet id
  | InsertMint k w a => insert_mint k w a
  | CreditWallet a id => credit_wallet a id
  | InsertTransfer k r f t a fp => insert_transfer k r f t a fp
  | SelectWalletForNoKeyUpdate id => select_wallet_for_no_key_update id
  | DeclineTransfer id reason => decline_transfer id reason
  | DebitWallet a id => debit_wallet a id
  | InsertLedger t w1 d1 w2 d2 => insert_ledger t w1 d1 w2 d2
  | SucceedTransfer id => succeed_transfer id
  | SelectTransferByKey uid k => select_transfer_by_key uid k
  | SelectTransfer id => select_transfer id
  | SelectInvariants => select_invariants
  end.
End statements.
