(* ===== verification/Timestamps.v ===== *)
(** * Timestamps (time.Time as encoding/json prints it)

    A timestamp is a number of microseconds since 1970 in UTC; its text is RFC
    3339 in a zone, minutes east of UTC, the fraction without trailing zeros.
    A reader of the text gets the timestamp back: [parse_time_back]. *)

From Stdlib Require Import Ascii String.
From S2P Require Import Prelude GoStrings Json JsonText Encoding Database.

#[local] Open Scope string_scope.
#[local] Open Scope Z_scope.

(** ** The calendar

    Days since 1970-01-01 against years, months and days of the proleptic
    Gregorian calendar; an era is 400 years, and a year starts in March. *)

Definition era_days : Z := 146097.

(** The day of an era, in years, months from March and days of the month. *)
Definition split_day (doe : Z) : Z * Z * Z :=
  let yoe := (doe - doe / 1460 + doe / 36524 - doe / 146096) / 365 in
  let doy := doe - (365 * yoe + yoe / 4 - yoe / 100) in
  let mp := (5 * doy + 2) / 153 in
  (yoe, mp, doy - (153 * mp + 2) / 5 + 1).

Definition join_day (yoe mp d : Z) : Z := 365 * yoe + yoe / 4 - yoe / 100 + ((153 * mp + 2) / 5 + d - 1).

Definition civil_from_days (days : Z) : Z * Z * Z :=
  let z := days + 719468 in
  let '(yoe, mp, d) := split_day (z mod era_days) in
  let y := yoe + 400 * (z / era_days) in
  if mp <? 10 then (y, mp + 3, d) else (y + 1, mp - 9, d).

Definition days_from_civil (y m d : Z) : Z :=
  let y' := if m <=? 2 then y - 1 else y in
  let mp := if m <=? 2 then m + 9 else m - 3 in
  era_days * (y' / 400) + join_day (y' mod 400) mp d - 719468.

Lemma split_day_spec doe : 0 ≤ doe < era_days →
  let '(yoe, mp, d) := split_day doe in
  0 ≤ yoe < 400 ∧ 0 ≤ mp < 12 ∧ 1 ≤ d ≤ 31 ∧ join_day yoe mp d = doe.
Proof.
  unfold era_days, split_day, join_day. intros Hd.
  set (yoe := (doe - doe / 1460 + doe / 36524 - doe / 146096) / 365).
  assert (Hy : 0 ≤ yoe < 400) by (subst yoe; Z.to_euclidean_division_equations; lia).
  assert (Hdoy : 0 ≤ doe - (365 * yoe + yoe / 4 - yoe / 100) ≤ 365)
    by (subst yoe; Z.to_euclidean_division_equations; lia).
  set (doy := doe - (365 * yoe + yoe / 4 - yoe / 100)) in *. set (mp := (5 * doy + 2) / 153).
  assert (Hmp : 153 * mp ≤ 5 * doy + 2 < 153 * mp + 153) by (subst mp; Z.to_euclidean_division_equations; lia).
  split_and!; try lia; Z.to_euclidean_division_equations; lia.
Qed.

Lemma civil_days days :
  let '(y, m, d) := civil_from_days days in
  days_from_civil y m d = days ∧ 1 ≤ m ≤ 12 ∧ 1 ≤ d ≤ 31.
Proof.
  unfold civil_from_days. set (z := days + 719468).
  pose proof (split_day_spec (z mod era_days) ltac:(by apply Z.mod_pos_bound)) as Hs.
  destruct (split_day (z mod era_days)) as [[yoe mp] d]. destruct Hs as (Hy & Hm & Hd & Hj).
  assert (Hdm : z = era_days * (z / era_days) + z mod era_days) by (by apply Z.div_mod).
  assert (Hdiv : (yoe + 400 * (z / era_days)) / 400 = z / era_days ∧ (yoe + 400 * (z / era_days)) mod 400 = yoe).
  { split; [rewrite Z.add_comm, Z.mul_comm, Z.div_add_l by done; rewrite (Z.div_small yoe) by lia; lia|].
    rewrite Z.mul_comm, Z.mod_add by done. apply Z.mod_small; lia. }
  destruct Hdiv as [Hdiv Hmod]. unfold days_from_civil.
  destruct (Z.ltb_spec mp 10).
  - rewrite (proj2 (Z.leb_gt (mp + 3) 2)) by lia. rewrite Hdiv, Hmod.
    replace (mp + 3 - 3) with mp by lia. rewrite Hj. lia.
  - rewrite (proj2 (Z.leb_le (mp - 9) 2)) by lia. replace (yoe + 400 * (z / era_days) + 1 - 1) with (yoe + 400 * (z / era_days)) by lia.
    rewrite Hdiv, Hmod. replace (mp - 9 + 9) with mp by lia. rewrite Hj. lia.
Qed.

Example epoch : civil_from_days 0 = (1970, 1, 1). Proof. reflexivity. Qed.
Example leap_day : civil_from_days 11016 = (2000, 2, 29). Proof. reflexivity. Qed.
Example no_leap_day : civil_from_days (-25509) = (1900, 2, 28) ∧ civil_from_days (-25508) = (1900, 3, 1).
Proof. by split. Qed.

(** ** Digits *)

Definition digit (k : Z) : Ascii.ascii := byte (48 + k).
Definition two (n : Z) : string := String (digit (n / 10)) (String (digit (n mod 10)) "").
Definition four (n : Z) : string := two (n / 100) +:+ two (n mod 100).

(** [n] digits of a fraction, as far as there are any but zeros. *)
Fixpoint fraction (n : nat) (u : Z) : string :=
  match n with
  | O => ""
  | S n => if u =? 0 then "" else String (digit (u / 10 ^ Z.of_nat n)) (fraction n (u mod 10 ^ Z.of_nat n))
  end.

Definition read_digit (s : string) : option (Z * string) :=
  match s with
  | String c s => if is_digit c then Some (code c - 48, s) else None
  | EmptyString => None
  end.

Definition read_two (s : string) : option (Z * string) :=
  '(a, s) ← read_digit s; '(b, s) ← read_digit s; Some (10 * a + b, s).

Definition read_four (s : string) : option (Z * string) :=
  '(a, s) ← read_two s; '(b, s) ← read_two s; Some (100 * a + b, s).

Fixpoint read_fraction (n : nat) (s : string) : Z * string :=
  match n with
  | O => (0, s)
  | S n =>
      match read_digit s with
      | Some (k, r) => let '(v, r) := read_fraction n r in (k * 10 ^ Z.of_nat n + v, r)
      | None => (0, s)
      end
  end.

Lemma code_digit k : 0 ≤ k ≤ 9 → code (digit k) = 48 + k.
Proof.
  intros Hk. unfold digit, code, byte. rewrite Ascii.N_ascii_embedding; [|lia]. rewrite Z2N.id by lia. done.
Qed.

Lemma is_digit_digit k : 0 ≤ k ≤ 9 → is_digit (digit k) = true.
Proof. intros Hk. unfold is_digit. rewrite code_digit, andb_true_iff, !Z.leb_le by done. lia. Qed.

Lemma read_digit_back k s : 0 ≤ k ≤ 9 → read_digit (String (digit k) s) = Some (k, s).
Proof. intros Hk. cbn [read_digit]. rewrite is_digit_digit, code_digit by done. do 2 f_equal. lia. Qed.

Lemma tens n : 0 ≤ n < 100 → 0 ≤ n / 10 ≤ 9 ∧ 0 ≤ n mod 10 ≤ 9 ∧ 10 * (n / 10) + n mod 10 = n.
Proof. intros Hn. Z.to_euclidean_division_equations. lia. Qed.

Lemma read_two_back n s : 0 ≤ n < 100 → read_two (two n +:+ s) = Some (n, s).
Proof.
  intros (Ha & Hb & Hn)%tens. unfold two, read_two. rewrite !app_cons_s, app_empty_s.
  rewrite read_digit_back by done. cbn [mbind option_bind]. rewrite read_digit_back by done. cbn [mbind option_bind]. by rewrite Hn.
Qed.

Lemma read_four_back n s : 0 ≤ n < 10000 → read_four (four n +:+ s) = Some (n, s).
Proof.
  intros Hn. assert (Hh : 0 ≤ n / 100 < 100 ∧ 0 ≤ n mod 100 < 100 ∧ 100 * (n / 100) + n mod 100 = n)
    by (Z.to_euclidean_division_equations; lia). destruct Hh as (Ha & Hb & Hj).
  unfold four, read_four. rewrite app_assoc_s, read_two_back by done. cbn [mbind option_bind].
  rewrite read_two_back by done. cbn [mbind option_bind]. by rewrite Hj.
Qed.

Lemma read_fraction_back n u s :
  0 ≤ u < 10 ^ Z.of_nat n → nondigit s → read_fraction n (fraction n u +:+ s) = (u, s).
Proof.
  revert u. induction n as [|n IH]; intros u Hu Hs.
  { change (10 ^ Z.of_nat 0) with 1 in Hu. cbn. f_equal. lia. }
  cbn [fraction read_fraction]. destruct (Z.eqb_spec u 0) as [->|Hne].
  { rewrite app_empty_s. destruct s as [|c s]; [done|]. cbn [read_digit]. cbn in Hs. by rewrite Hs. }
  rewrite Nat2Z.inj_succ, Z.pow_succ_r in Hu by lia. set (w := 10 ^ Z.of_nat n) in *.
  assert (Hw : 0 < w) by (subst w; apply Z.pow_pos_nonneg; lia).
  assert (Hq : 0 ≤ u / w ≤ 9).
  { split; [apply Z.div_pos; lia|]. apply Z.lt_succ_r, Z.div_lt_upper_bound; lia. }
  rewrite app_cons_s, read_digit_back by done. rewrite IH by (try done; by apply Z.mod_pos_bound).
  f_equal. pose proof (Z.div_mod u w ltac:(lia)). lia.
Qed.

(** ** The text *)

(** Minutes east of UTC. *)
Definition zone_text (z : Z) : string :=
  if z =? 0 then "Z"
  else String (if z <? 0 then "-"%char else "+"%char) (two (Z.abs z / 60) +:+ ":" +:+ two (Z.abs z mod 60)).

Definition minute : Z := 60 * 1000000.
Definition day : Z := 1440 * minute.

(** The year on the calendar of the zone. *)
Definition year_of (z t : Z) : Z :=
  let '(y, _, _) := civil_from_days ((t + z * minute) / day) in y.

(** [time.RFC3339Nano] *)
Definition time_text (z t : Z) : string :=
  let local := t + z * minute in
  let '(y, m, d) := civil_from_days (local / day) in
  let u := local mod day in
  let micros := u mod 1000000 in
  four y +:+ "-" +:+ two m +:+ "-" +:+ two d +:+ "T" +:+
  two (u / (60 * minute)) +:+ ":" +:+ two (u / minute mod 60) +:+ ":" +:+ two (u / 1000000 mod 60) +:+
  (if micros =? 0 then "" else "." +:+ fraction 6 micros) +:+ zone_text z.

(** What [MarshalJSON] accepts: a year of four digits, a zone below a day. *)
Definition time_fits (z t : Z) : bool :=
  (0 <=? year_of z t) && (year_of z t <=? 9999) && (Z.abs z <? 1440).

(** ** A reader *)

Definition read_zone (s : string) : option (Z * string) :=
  match s with
  | String c s =>
      if Ascii.eqb c "Z" then Some (0, s)
      else
        '(h, s) ← read_two s; s ← expect ":" s; '(m, s) ← read_two s;
        if Ascii.eqb c "-" then Some (- (60 * h + m), s)
        else if Ascii.eqb c "+" then Some (60 * h + m, s) else None
  | EmptyString => None
  end.

Definition parse_time (s : string) : option Z :=
  '(y, s) ← read_four s; s ← expect "-" s; '(m, s) ← read_two s; s ← expect "-" s; '(d, s) ← read_two s;
  s ← expect "T" s; '(h, s) ← read_two s; s ← expect ":" s; '(mi, s) ← read_two s;
  s ← expect ":" s; '(sec, s) ← read_two s;
  let '(micros, s) := match expect "." s with Some s => read_fraction 6 s | None => (0, s) end in
  '(z, s) ← read_zone s;
  match s with
  | EmptyString => Some (days_from_civil y m d * day + (60 * h + mi) * minute + sec * 1000000 + micros - z * minute)
  | _ => None
  end.

Lemma read_zone_back z s : Z.abs z < 1440 → read_zone (zone_text z +:+ s) = Some (z, s).
Proof.
  intros Hz. unfold zone_text. destruct (Z.eqb_spec z 0) as [->|Hne]; [done|]. rewrite app_cons_s. cbn [read_zone].
  assert (Hd : 0 ≤ Z.abs z / 60 < 100 ∧ 0 ≤ Z.abs z mod 60 < 100 ∧ 60 * (Z.abs z / 60) + Z.abs z mod 60 = Z.abs z)
    by (Z.to_euclidean_division_equations; lia). destruct Hd as (Hh & Hm & Hj).
  assert (Hc : Ascii.eqb (if (z <? 0)%Z then "-" else "+")%char "Z" = false) by by destruct (z <? 0).
  rewrite Hc, !app_assoc_s, read_two_back by done. cbn [mbind option_bind].
  rewrite app_cons_s, app_empty_s, expect_self. cbn [mbind option_bind]. rewrite read_two_back by done. cbn [mbind option_bind].
  rewrite Hj. destruct (Z.ltb_spec z 0); cbn; do 2 f_equal; lia.
Qed.

Lemma zone_head z s : ∃ c r, zone_text z +:+ s = String c r ∧ is_digit c = false ∧ Ascii.eqb c "." = false.
Proof.
  unfold zone_text. destruct (z =? 0); [by eexists _, _|]. rewrite app_cons_s. eexists _, _. split; [done|].
  by destruct (z <? 0).
Qed.


(** A separator in the text. *)
Lemma expect_separator c s : expect c (String c "" +:+ s) = Some s.
Proof. rewrite app_cons_s, app_empty_s. apply expect_self. Qed.

(** The time of day in hours, minutes, seconds and microseconds. *)
Lemma clock u : 0 ≤ u < day →
  let h := u / (60 * minute) in let mi := u / minute mod 60 in let sec := u / 1000000 mod 60 in let us := u mod 1000000 in
  0 ≤ h < 100 ∧ 0 ≤ mi < 100 ∧ 0 ≤ sec < 100 ∧ 0 ≤ us < 1000000 ∧ (60 * h + mi) * minute + sec * 1000000 + us = u.
Proof. unfold day, minute. intros Hu. Z.to_euclidean_division_equations. lia. Qed.

(** The fraction and what follows it. *)
Lemma fraction_back us z s :
  0 ≤ us < 1000000 →
  (match expect "." ((if us =? 0 then "" else "." +:+ fraction 6 us) +:+ zone_text z +:+ s) with
   | Some s => read_fraction 6 s | None => (0, (if us =? 0 then "" else "." +:+ fraction 6 us) +:+ zone_text z +:+ s) end)
  = (us, zone_text z +:+ s).
Proof.
  intros Hus. destruct (zone_head z s) as (c & r & Hz & Hd & Hp). rewrite Hz.
  destruct (Z.eqb_spec us 0) as [->|].
  - rewrite app_empty_s, expect_other by done. done.
  - rewrite app_assoc_s, expect_separator. by apply read_fraction_back.
Qed.

Lemma parse_time_back z t : time_fits z t = true → parse_time (time_text z t) = Some t.
Proof.
  unfold time_fits, year_of, time_text, parse_time. rewrite !andb_true_iff, !Z.leb_le, Z.ltb_lt.
  set (local := t + z * minute). pose proof (civil_days (local / day)) as Hdays.
  assert (Hu : 0 ≤ local mod day < day) by by apply Z.mod_pos_bound.
  destruct (clock _ Hu) as (Hh & Hmi & Hsec & Hus & Hclock). set (u := local mod day) in *.
  destruct (civil_from_days (local / day)) as [[y m] d]. destruct Hdays as (Hciv & Hm & Hd). intros [[Hy0 Hy] Hz].
  rewrite read_four_back by lia. cbn [mbind option_bind]. rewrite expect_separator. cbn [mbind option_bind].
  rewrite read_two_back by lia. cbn [mbind option_bind]. rewrite expect_separator. cbn [mbind option_bind].
  rewrite read_two_back by lia. cbn [mbind option_bind]. rewrite expect_separator. cbn [mbind option_bind].
  rewrite read_two_back by lia. cbn [mbind option_bind]. rewrite expect_separator. cbn [mbind option_bind].
  rewrite read_two_back by lia. cbn [mbind option_bind]. rewrite expect_separator. cbn [mbind option_bind].
  rewrite read_two_back by lia. cbn [mbind option_bind].
  rewrite <- (app_nil_s (zone_text z)). rewrite fraction_back by lia. rewrite read_zone_back by lia.
  cbn [mbind option_bind]. f_equal. rewrite Hciv.
  assert (Hl : local = day * (local / day) + u) by (by apply Z.div_mod). lia.
Qed.

(** ** ASCII *)

Lemma ascii7_digit k s : 0 ≤ k ≤ 9 → ascii7 (String (digit k) s) = ascii7 s.
Proof.
  intros Hk. cbn [ascii7]. fold (code (digit k)). rewrite code_digit by done.
  rewrite (proj2 (Z.ltb_lt 0 _)), (proj2 (Z.ltb_lt _ 128)) by lia. done.
Qed.

Lemma ascii7_two n : 0 ≤ n < 100 → ascii7 (two n) = true.
Proof. intros (Ha & Hb & _)%tens. unfold two. by rewrite !ascii7_digit. Qed.

Lemma ascii7_fraction n u : 0 ≤ u < 10 ^ Z.of_nat n → ascii7 (fraction n u) = true.
Proof.
  revert u. induction n as [|n IH]; intros u Hu; [done|]. cbn [fraction]. destruct (u =? 0); [done|].
  rewrite Nat2Z.inj_succ, Z.pow_succ_r in Hu by lia. set (w := 10 ^ Z.of_nat n) in *.
  assert (Hw : 0 < w) by (subst w; apply Z.pow_pos_nonneg; lia).
  rewrite ascii7_digit; [apply IH; by apply Z.mod_pos_bound|].
  split; [apply Z.div_pos; lia|]. apply Z.lt_succ_r, Z.div_lt_upper_bound; lia.
Qed.

Lemma ascii7_time z t : time_fits z t = true → ascii7 (time_text z t) = true.
Proof.
  unfold time_fits, year_of, time_text. rewrite !andb_true_iff, !Z.leb_le, Z.ltb_lt.
  set (local := t + z * minute). pose proof (civil_days (local / day)) as Hdays.
  assert (Hu : 0 ≤ local mod day < day) by by apply Z.mod_pos_bound.
  destruct (clock _ Hu) as (Hh & Hmi & Hsec & Hus & _). set (u := local mod day) in *.
  destruct (civil_from_days (local / day)) as [[y m] d]. destruct Hdays as (_ & Hm & Hd). intros [[Hy0 Hy] Hz].
  assert (Hyy : 0 ≤ y / 100 < 100 ∧ 0 ≤ y mod 100 < 100) by (Z.to_euclidean_division_equations; lia).
  assert (Hzz : 0 ≤ Z.abs z / 60 < 100 ∧ 0 ≤ Z.abs z mod 60 < 100) by (Z.to_euclidean_division_equations; lia).
  assert (Hzt : ascii7 (zone_text z) = true).
  { unfold zone_text. destruct (z =? 0); [done|]. cbn [ascii7]. rewrite !ascii7_app, !ascii7_two by lia.
    by destruct (z <? 0). }
  unfold four. rewrite !ascii7_app, !ascii7_two by lia. rewrite Hzt.
  destruct (_ =? 0); [done|]. by rewrite ascii7_app, ascii7_fraction by lia.
Qed.

(** Half past one in the morning in India, on a leap day. *)
Example time_in_india : time_text 330 951768000123000 = "2000-02-29T01:30:00.123+05:30".
Proof. reflexivity. Qed.

Example time_in_utc : time_text 0 0 = "1970-01-01T00:00:00Z".
Proof. reflexivity. Qed.
