(* ===== verification/Locks.v ===== *)
(** * Row and key locks taken by the statements

    Postgres takes, for every statement, the row locks and unique-index locks
    listed here and holds them to the end of the transaction: the four row
    lock modes with their documented conflict table, FOR KEY SHARE on the
    rows a foreign key references, FOR NO KEY UPDATE for an update that
    leaves the key columns alone, FOR UPDATE for the [ON CONFLICT DO UPDATE]
    statements that assign a unique column, and the in-progress entry of a
    unique index, on which a second inserter of the key blocks. *)

From S2P Require Import Prelude Errors Database.

Inductive lock_mode := KeyShare | Share | NoKeyUpdate | Update.

Inductive lock :=
| LUser (m : lock_mode) (i : uuid)
| LWallet (m : lock_mode) (i : uuid)
| LTransfer (m : lock_mode) (i : uuid)
| LMint (m : lock_mode) (i : uuid)
| LUserHash (h : string)
| LWalletUser (u : uuid)
| LTransferKey (u : uuid) (k : string)
| LMintKey (k : string).

#[global] Instance lock_mode_eq_dec : EqDecision lock_mode.
Proof. solve_decision. Defined.
#[global] Instance lock_eq_dec : EqDecision lock.
Proof. solve_decision. Defined.

(** The row-level lock conflict table. *)
Definition mode_conflict (a b : lock_mode) : bool :=
  match a, b with
  | KeyShare, Update | Update, KeyShare => true
  | KeyShare, _ | _, KeyShare => false
  | Share, Share => false
  | _, _ => true
  end.

Definition conflict (a b : lock) : bool :=
  match a, b with
  | LUser m i, LUser n j => bool_decide (i = j) && mode_conflict m n
  | LWallet m i, LWallet n j => bool_decide (i = j) && mode_conflict m n
  | LTransfer m i, LTransfer n j => bool_decide (i = j) && mode_conflict m n
  | LMint m i, LMint n j => bool_decide (i = j) && mode_conflict m n
  | LUserHash h, LUserHash g => bool_decide (h = g)
  | LWalletUser u, LWalletUser v => bool_decide (u = v)
  | LTransferKey u k, LTransferKey v l => bool_decide (u = v) && bool_decide (k = l)
  | LMintKey k, LMintKey l => bool_decide (k = l)
  | _, _ => false
  end.

Definition compatible (l1 l2 : list lock) : bool :=
  forallb (λ a, forallb (λ b, negb (conflict a b)) l2) l1.

Section stmt_locks.
Context `{PgText}.

(** A lock on the row named by a text parameter. *)
Definition lock_param (f : uuid → lock) (s : string) : list lock :=
  match uuid_in s with Some i => [f i] | None => [] end.

(** The locks a statement needs, on tables [d] and with [u] the uuid it
    generates: the index entries it inserts, then the rows it locks. *)
Definition stmt_locks {R} (u : uuid) (d : db) (s : stmt R) : list lock :=
  match s with
  | UpsertUserStmt h =>
      LUserHash h ::
      match user_by_hash d h with
      | Some (i, _) => [LUser Update i]
      | None => [LUser Update u]
      end
  | UpsertWalletStmt uid =>
      lock_param LWalletUser uid ++
      match uuid_in uid ≫= wallet_by_user d with
      | Some (i, _) => [LWallet Update i]
      | None => LWallet Update u :: lock_param (LUser KeyShare) uid
      end
  | InsertMint k w _ => LMintKey k :: LMint Update u :: lock_param (LWallet KeyShare) w
  | InsertTransfer k r f t _ _ =>
      lock_param (λ i, LTransferKey i k) r ++ LTransfer Update u ::
      lock_param (LUser KeyShare) r ++ lock_param (LWallet KeyShare) f ++
      lock_param (LWallet KeyShare) t
  | SelectWalletForNoKeyUpdate id | CreditWallet _ id | DebitWallet _ id =>
      lock_param (LWallet NoKeyUpdate) id
  | DeclineTransfer id _ | SucceedTransfer id => lock_param (LTransfer NoKeyUpdate) id
  | InsertLedger t w1 _ w2 _ =>
      lock_param (LTransfer KeyShare) t ++ lock_param (LWallet KeyShare) w1 ++
      lock_param (LWallet KeyShare) w2
  | SelectWallet _ | SelectTransferByKey _ _ | SelectTransfer _ | SelectInvariants => []
  end.
End stmt_locks.

(** ** Lemmas *)

Lemma mode_conflict_sym a b : mode_conflict a b = mode_conflict b a.
Proof. by destruct a, b. Qed.

Lemma bool_decide_sym {A} `{EqDecision A} (x y : A) : bool_decide (x = y) = bool_decide (y = x).
Proof. apply bool_decide_ext. split; congruence. Qed.

Lemma conflict_sym a b : conflict a b = conflict b a.
Proof.
  destruct a, b; simpl; try done;
    first [ apply bool_decide_sym
          | apply f_equal2; [apply bool_decide_sym | apply mode_conflict_sym || apply bool_decide_sym] ].
Qed.

Lemma compatible_spec l1 l2 :
  compatible l1 l2 = true ↔ ∀ a b, a ∈ l1 → b ∈ l2 → conflict a b = false.
Proof.
  unfold compatible. rewrite forallb_forall. split.
  - intros Hc a b Ha%list_elem_of_In Hb%list_elem_of_In.
    specialize (Hc a Ha). rewrite forallb_forall in Hc. by apply negb_true_iff, Hc.
  - intros Hc a Ha%list_elem_of_In. apply forallb_forall.
    intros b Hb%list_elem_of_In. by apply negb_true_iff, Hc.
Qed.
