(* ===== verification/Obs.v ===== *)
(** * Observability values (internal/obs)

    The request context's correlation id, the log records with the handler
    that stamps it, and the operations on the Prometheus metric set. *)

From S2P Require Import Prelude Errors GoStrings Json.

(** ** Context: the value stored under [correlationIDKey] *)

Record context := MkContext { correlationIDKey : option string }.

Definition Background : context := MkContext None.

Definition WithCorrelationID (ctx : context) (id : string) : context := MkContext (Some id).

(** ["" ] if absent. *)
Definition CorrelationID (ctx : context) : string := default "" (correlationIDKey ctx).

(** ** Log records *)

Inductive Level := LevelDebug | LevelInfo | LevelWarn | LevelError.

#[global] Instance Level_eq_dec : EqDecision Level.
Proof. solve_decision. Defined.

(** slog's numeric levels. *)
Definition level_value (l : Level) : Z :=
  match l with LevelDebug => -4 | LevelInfo => 0 | LevelWarn => 4 | LevelError => 8 end.

(** [AErrorText e] is the string [e.Error()]; [AOpaque] is a value the model
    does not compute (a duration, a panic value). *)
Inductive attr_value :=
| AString (s : string)
| AInt64 (z : Z)
| ABool (b : bool)
| AErrorText (e : error)
| AOpaque.

Record log_record := MkRecord {
  r_level : Level;
  r_msg : string;
  r_attrs : list (string * attr_value)
}.

(** [correlationHandler.Handle]: stamp the record with the context's id. *)
Definition Handle (ctx : context) (r : log_record) : log_record :=
  let id := CorrelationID ctx in
  if negb (String.eqb id "") then
    MkRecord (r_level r) (r_msg r) (r_attrs r ++ [("correlation_id", AString id)])
  else r.

(** The JSON handler drops records below the configured level. *)
Definition Enabled (configured : Level) (l : Level) : bool :=
  level_value configured <=? level_value l.

(** ** Lines of the ring *)

(** [Valid]: [json.Valid], one JSON value of any kind and nothing but space
    around it. *)
Definition Valid (b : string) : bool :=
  match scan_document b with
  | Ok (_, rest) => String.eqb (skip_space rest) ""
  | Err _ => false
  end.

(** ** Metrics *)

Definition OutcomeSucceeded : string := "succeeded".
Definition OutcomeInsufficient : string := "declined_insufficient_funds".
Definition OutcomeReplay : string := "idempotent_replay".
Definition OutcomeConflict : string := "idempotency_key_conflict".
Definition OutcomeInvalid : string := "rejected_invalid".

(** [float64(n)] of an int64: round to 53 significant bits, ties to even. *)
Definition float64_of_int64 (n : Z) : Z :=
  let a := Z.abs n in
  let e := Z.log2 a - 52 in
  if e <=? 0 then n
  else
    let p := 2 ^ e in
    let q := a / p in
    let r := a mod p in
    let q' := if 2 * r <? p then q
              else if p <? 2 * r then q + 1
              else if Z.even q then q else q + 1 in
    Z.sgn n * (q' * p).

(** One update of the metric set. *)
Inductive metric_op :=
| HTTPRequestsInc (method route status : string)
| HTTPDurationObserve (method route : string)
| HTTPInFlightInc
| HTTPInFlightDec
| TransfersInc (outcome : string)
| TransferAmountAdd (v : Z)
| WalletsCreatedInc
| WalletsReusedInc
| MintedPaiseAdd (v : Z)
| DBRetriesInc (sqlstate : string)
| TotalBalanceSet (v : Z)
| LedgerSumSet (v : Z).

#[global] Instance metric_op_eq_dec : EqDecision metric_op.
Proof. solve_decision. Defined.

(** What a program emits: a metric update, or a log record. *)
Inductive event :=
| EvMetric (m : metric_op)
| EvLog (r : log_record).

(** ** Lemmas *)

Lemma CorrelationID_With ctx id : CorrelationID (WithCorrelationID ctx id) = id.
Proof. done. Qed.

Lemma float64_exact n : Z.abs n < 2 ^ 53 → float64_of_int64 n = n.
Proof.
  intros Hn. unfold float64_of_int64.
  destruct (Z.leb_spec (Z.log2 (Z.abs n) - 52) 0) as [|Hlt]; [done|exfalso].
  destruct (decide (Z.abs n = 0)) as [H0|H0]; [rewrite H0 in Hlt; simpl in Hlt; lia|].
  assert (Z.log2 (Z.abs n) < 53); [|lia]. apply Z.log2_lt_pow2; lia.
Qed.
