(* ===== verification/Session.v ===== *)
(** * Sessions: programs over the database connection

    The Go code of the store is a program in a free monad: [Do c k] issues the
    command [c] -- begin, a statement inside the transaction or on the pool,
    a savepoint, commit, rollback, a back-off, an emitted event -- and goes on
    with its answer.  [exec_cmd] gives one command its meaning on a world of
    committed tables and one open transaction; everything the environment
    decides (the fault that hits the command, the uuid generated, the clock,
    a done context) is the [choice] it is given.  [run] executes a program
    alone under a stream of choices.  [unwind] is a program some of whose log
    lines panic. *)

From S2P Require Import Prelude Errors Database Locks Obs.

(** ** Commands and programs *)

Inductive cmd : Set → Type :=
| Begin : cmd (result error unit)
| TxStmt {R} (s : stmt R) : cmd (result error R)
| PoolStmt {R} (s : stmt R) : cmd (result error R)
| BatchClose : cmd (result error unit)
| Commit : cmd (result error unit)
| Rollback : cmd unit
| Savepoint : cmd (result error unit)
| ReleaseSavepoint : cmd (result error unit)
| RollbackToSavepoint : cmd unit
| Backoff (millis : Z) : cmd (option error)
| Emit (e : event) : cmd unit.

Inductive prog (A : Type) : Type :=
| Ret (a : A)
| Do {R : Set} (c : cmd R) (k : R → prog A).
Arguments Ret {A} _.
Arguments Do {A R} _ _.

Fixpoint bind {A B} (p : prog A) (f : A → prog B) : prog B :=
  match p with
  | Ret a => f a
  | Do c k => Do c (λ r, bind (k r) f)
  end.

#[global] Instance prog_ret : MRet prog := @Ret.
#[global] Instance prog_bind : MBind prog := λ A B f p, bind p f.

Definition call {R} (c : cmd R) : prog R := Do c Ret.

(** ** Panics

    The one call of a program that may not return is a log call: the write of
    its line panics when a subscriber of the log ring has just cancelled
    ([RingProps.ring_panics_only_cancelled]).  The line is out by then, and the
    panic unwinds the program up to the function that recovers.  [unwind panics
    p] is [p] below such a function: [panics n] is whether its [n]-th line
    panics, and [None] is the result of a program that was unwound.  No frame
    in between has a deferred call that touches the session: no log line is
    written inside a transaction ([LockOrder.admissible]). *)

Definition logs {R : Set} (c : cmd R) : bool := match c with Emit (EvLog _) => true | _ => false end.

Fixpoint unwind {A} (panics : nat → bool) (p : prog A) : prog (option A) :=
  match p with
  | Ret a => Ret (Some a)
  | Do c k =>
      Do c (λ r, if logs c && panics 0%nat then Ret None
                 else unwind (if logs c then λ n, panics (S n) else panics) (k r))
  end.

(** ** The environment's choices *)

(** What can hit a command: a deadlock or serialization abort, a broken
    connection, a done context, or a server error of a class that no
    statement raises on its own account. *)
Inductive server_class := InsufficientResources | OperatorIntervention | SystemError | InternalError.

Inductive fault :=
| FDeadlock
| FSerialization
| FConn (msg : string)
| FCanceled (msg : string)
| FServer (c : server_class) (rest : string).

Definition class_code (c : server_class) : string :=
  match c with
  | InsufficientResources => "53"
  | OperatorIntervention => "57"
  | SystemError => "58"
  | InternalError => "XX"
  end.

Definition fault_error (f : fault) : error :=
  match f with
  | FDeadlock => EPg (MkPgError sqlstateDeadlockDetected "")
  | FSerialization => EPg (MkPgError sqlstateSerializationFail "")
  | FConn m => EConn m
  | FCanceled m => ECtx m
  | FServer c rest => EPg (MkPgError (class_code c +:+ rest) "")
  end.

(** A commit (or an autocommitted statement) whose acknowledgement is lost may
    have been applied; one the server refused has not. *)
Definition ack_lost (f : fault) : bool :=
  match f with FConn _ | FCanceled _ => true | _ => false end.

Record choice := MkChoice {
  ch_fault : option fault;
  ch_applied : bool;
  ch_uuid : uuid;
  ch_now : timestamp;
  ch_done : option string
}.

(** ** Transactions and worlds *)

Inductive tx_status := TxActive | TxAborted | TxBroken.

Record txn := MkTxn {
  tx_now : timestamp;
  tx_state : tx_status;
  tx_writes : list write;
  tx_locks : list lock;
  tx_saves : list (list write * list lock)
}.

(** [commits]: every change this session made to the committed tables, newest
    first, as the tables before and after. *)
Record world := MkWorld {
  committed : db;
  session : option txn;
  trace : list event;
  commits : list (db * db)
}.

Definition begin_txn (now : timestamp) : txn := MkTxn now TxActive [] [] [].

(** What the transaction reads: the committed tables under its own writes
    (READ COMMITTED). *)
Definition view (t : txn) (d : db) : db := apply_writes d (tx_writes t).

Definition with_session (w : world) (s : option txn) : world :=
  MkWorld (committed w) s (trace w) (commits w).

Definition with_committed (w : world) (d : db) : world :=
  MkWorld d (session w) (trace w) (commits w).

Definition emit_event (w : world) (e : event) : world :=
  MkWorld (committed w) (session w) (trace w ++ [e]) (commits w).

(** Install [d] as the committed tables and close the session's transaction. *)
Definition install (w : world) (s : option txn) (d : db) : world :=
  MkWorld d s (trace w) ((committed w, d) :: commits w).

Definition set_state (t : txn) (s : tx_status) : txn :=
  MkTxn (tx_now t) s (tx_writes t) (tx_locks t) (tx_saves t).

(** A fault leaves the transaction aborted, or broken if the connection is
    gone. *)
Definition after_fault (f : fault) : tx_status :=
  match f with FConn _ | FCanceled _ => TxBroken | _ => TxAborted end.

(** The error a statement meets in a transaction that is not active: 25P02 in
    an aborted one. *)
Definition dead_tx_error (s : tx_status) : error :=
  match s with
  | TxActive | TxAborted => EPg (MkPgError "25P02" "")
  | TxBroken => EConn "conn closed"
  end.

(** ** Execution of one command *)

Section exec.
Context `{PgText}.

(** Run [f] on the open transaction, unless it is dead or a fault hits. *)
Definition in_tx {R} (ch : choice) (w : world)
    (f : txn → result error R * txn) : result error R * world :=
  match session w with
  | None => (Err ErrTxClosed, w)
  | Some t =>
      match tx_state t with
      | TxActive =>
          match ch_fault ch with
          | Some e => (Err (fault_error e), with_session w (Some (set_state t (after_fault e))))
          | None => let '(r, t') := f t in (r, with_session w (Some t'))
          end
      | s => (Err (dead_tx_error s), w)
      end
  end.

Definition exec_tx_stmt {R} (ch : choice) (w : world) (s : stmt R) : result error R * world :=
  in_tx ch w (λ t,
    let v := view t (committed w) in
    let locks := tx_locks t ++ stmt_locks (ch_uuid ch) v s in
    match exec_stmt (ch_uuid ch) (tx_now t) v s with
    | Err e => (Err (EPg e), MkTxn (tx_now t) TxAborted (tx_writes t) locks (tx_saves t))
    | Ok (r, ws) => (Ok r, MkTxn (tx_now t) TxActive (tx_writes t ++ ws) locks (tx_saves t))
    end).

(** A statement on the pool is a transaction of its own. *)
Definition exec_pool_stmt {R} (ch : choice) (w : world) (s : stmt R) : result error R * world :=
  let outcome := exec_stmt (ch_uuid ch) (ch_now ch) (committed w) s in
  let applied ws := match ws with [] => w | _ => install w (session w) (apply_writes (committed w) ws) end in
  match ch_fault ch with
  | Some f =>
      (Err (fault_error f),
       match outcome with
       | Ok (_, ws) => if ack_lost f && ch_applied ch then applied ws else w
       | Err _ => w
       end)
  | None =>
      match outcome with
      | Err e => (Err (EPg e), w)
      | Ok (r, ws) => (Ok r, applied ws)
      end
  end.

Definition exec_commit (ch : choice) (w : world) : result error unit * world :=
  match session w with
  | None => (Err ErrTxClosed, w)
  | Some t =>
      match tx_state t with
      | TxActive =>
          let d := view t (committed w) in
          match ch_fault ch with
          | None => (Ok tt, install w None d)
          | Some f =>
              (Err (fault_error f),
               if ack_lost f && ch_applied ch then install w None d else with_session w None)
          end
      | TxAborted => (Err ErrTxCommitRollback, with_session w None)
      | TxBroken => (Err (dead_tx_error TxBroken), with_session w None)
      end
  end.

(** [ROLLBACK TO SAVEPOINT]: back to the writes and locks saved, active again
    unless the connection is gone. *)
Definition exec_rollback_to (t : txn) : txn :=
  match tx_state t, tx_saves t with
  | TxBroken, _ | _, [] => t
  | _, (ws, ls) :: _ => MkTxn (tx_now t) TxActive ws ls (tx_saves t)
  end.

Definition exec_cmd {R} (ch : choice) (w : world) (c : cmd R) : R * world :=
  match c with
  | Begin =>
      match ch_fault ch with
      | Some f => (Err (fault_error f), w)
      | None => (Ok tt, with_session w (Some (begin_txn (ch_now ch))))
      end
  | TxStmt s => exec_tx_stmt ch w s
  | PoolStmt s => exec_pool_stmt ch w s
  | BatchClose => in_tx ch w (λ t, (Ok tt, t))
  | Commit => exec_commit ch w
  | Rollback => (tt, with_session w None)
  | Savepoint =>
      in_tx ch w (λ t, (Ok tt, MkTxn (tx_now t) (tx_state t) (tx_writes t) (tx_locks t)
                                 ((tx_writes t, tx_locks t) :: tx_saves t)))
  | ReleaseSavepoint =>
      in_tx ch w (λ t, (Ok tt, MkTxn (tx_now t) (tx_state t) (tx_writes t) (tx_locks t)
                                 (tail (tx_saves t))))
  | RollbackToSavepoint => (tt, with_session w (exec_rollback_to <$> session w))
  | Backoff _ => (ECtx <$> ch_done ch, w)
  | Emit e => (tt, emit_event w e)
  end.

(** ** Running a program alone *)

Fixpoint run {A} (env : nat → choice) (n : nat) (p : prog A) (w : world) : A * world * nat :=
  match p with
  | Ret a => (a, w, n)
  | Do c k => let '(r, w') := exec_cmd (env n) w c in run env (S n) (k r) w'
  end.
End exec.

(** ** Query helpers *)

(** [QueryRow(...).Scan(...)]: no row is [pgx.ErrNoRows]. *)
Definition scan_row {R} (r : result error (option R)) : result error R :=
  match r with
  | Ok (Some x) => Ok x
  | Ok None => Err ErrNoRows
  | Err e => Err e
  end.

Definition tx_QueryRow {R} (s : stmt (option R)) : prog (result error R) :=
  r ← call (TxStmt s); mret (scan_row r).

Definition pool_QueryRow {R} (s : stmt (option R)) : prog (result error R) :=
  r ← call (PoolStmt s); mret (scan_row r).

Definition tx_Exec (s : stmt Z) : prog (result error Z) := call (TxStmt s).

(** [tx.SendBatch]: the server runs the queued statements in order and skips
    the rest after an error; the results are then read one by one. *)
Fixpoint SendBatch {R} (queue : list (stmt R)) : prog (list (result error R)) :=
  match queue with
  | [] => mret []
  | s :: rest =>
      r ← call (TxStmt s);
      match r with
      | Err _ => mret [r]
      | Ok _ => rs ← SendBatch rest; mret (r :: rs)
      end
  end.

(** The result of the [i]-th statement; reading past the failed one meets the
    aborted transaction. *)
Definition batch_result {R} (rs : list (result error R)) (i : nat) : result error R :=
  default (Err (EPg (MkPgError "25P02" ""))) (rs !! i).

(** Emit a list of events in order. *)
Fixpoint emit_all (es : list event) : prog unit :=
  match es with
  | [] => mret tt
  | e :: es => call (Emit e);; emit_all es
  end.

(** ** Lemmas *)

Lemma SendBatch_cons {R} (s : stmt R) rest :
  SendBatch (s :: rest) =
  (r ← call (TxStmt s);
   match r with
   | Err _ => mret [r]
   | Ok _ => rs ← SendBatch rest; mret (r :: rs)
   end).
Proof. done. Qed.

(** Running a composite program. *)
Lemma run_bind `{PgText} {A B} env n (p : prog A) (f : A → prog B) w :
  run env n (p ≫= f) w = (let '(a, w1, n1) := run env n p w in run env n1 (f a) w1).
Proof.
  unfold mbind, prog_bind. revert n w. induction p as [a|R c k IH]; intros n w; simpl; [done|].
  destruct (exec_cmd _ _ _) as [r w1]. apply IH.
Qed.

(** A world with more events. *)
Definition traced (w : world) (es : list event) : world :=
  MkWorld (committed w) (session w) (trace w ++ es) (commits w).

Lemma traced_app w es es' : traced (traced w es) es' = traced w (es ++ es').
Proof. unfold traced. simpl. by rewrite app_assoc. Qed.

Lemma traced_nil w : traced w [] = w.
Proof. unfold traced. rewrite app_nil_r. by destruct w. Qed.

Lemma run_emit_all `{PgText} {A} env n es (p : prog A) w :
  run env n (emit_all es;; p) w = run env (n + length es) p (traced w es).
Proof.
  revert n w. induction es as [|e es IH]; intros n w.
  - simpl. by rewrite traced_nil, Nat.add_0_r.
  - change (emit_all (e :: es);; p) with (Do (Emit e) (λ _, emit_all es;; p)). cbn [run exec_cmd].
    rewrite IH. change (emit_event w e) with (traced w [e]). rewrite traced_app. simpl.
    by rewrite Nat.add_succ_r.
Qed.
