(* ===== verification/Config.v ===== *)
(** * Configuration (internal/config/config.go)

    [Load] as a function of the environment ([os.Getenv], "" for an unset
    variable), with Go's integer conversions. *)

From Stdlib Require Import String.
From S2P Require Import Prelude GoStrings Errors Obs.

#[local] Open Scope string_scope.
#[local] Open Scope Z_scope.

Module Config.
Record t := Mk {
  Port : string;
  DatabaseURL : string;
  AdminToken : string;
  LogLevel : Level;
  LogRingSize : Z;
  MaxDBConns : Z;
  MinDBConns : Z;
  ShutdownGrace : Z;
  MigrateOnStart : bool;
  InvariantSample : Z;
  Version : string
}.
End Config.

(** Why [Load] fails. *)
Inductive config_error := DatabaseURLRequired | MinExceedsMax (min max : Z).

Section load.
Variable Getenv : string → string.

Definition env (key def : string) : string :=
  let v := Getenv key in if negb (String.eqb v "") then v else def.

Definition envInt (key : string) (def : Z) : Z :=
  let v := Getenv key in
  if negb (String.eqb v "") then default def (Atoi v) else def.

(** [time.Duration(n) * time.Second], in nanoseconds. *)
Definition seconds (n : Z) : Z := wrap64 (n * 1000000000).

Definition log_level (v : string) : Level :=
  let l := ToLower v in
  if String.eqb l "debug" then LevelDebug
  else if String.eqb l "warn" then LevelWarn
  else if String.eqb l "error" then LevelError
  else LevelInfo.

Definition Load : result config_error Config.t :=
  let c := Config.Mk
    (env "PORT" "8080") (Getenv "DATABASE_URL") (env "ADMIN_TOKEN" "dev-admin-token")
    (log_level (env "LOG_LEVEL" "info"))
    (envInt "LOG_RING_SIZE" 5000)
    (wrap32 (envInt "DB_MAX_CONNS" 20)) (wrap32 (envInt "DB_MIN_CONNS" 2))
    (seconds (envInt "SHUTDOWN_GRACE_SECONDS" 15))
    (String.eqb (env "MIGRATE_ON_START" "true") "true")
    (seconds (envInt "INVARIANT_SAMPLE_SECONDS" 15))
    (env "APP_VERSION" "dev") in
  if String.eqb (Config.DatabaseURL c) "" then Err DatabaseURLRequired
  else if Config.MaxDBConns c <? Config.MinDBConns c
  then Err (MinExceedsMax (Config.MinDBConns c) (Config.MaxDBConns c))
  else Ok c.

(** The integer a variable stands for: its value if it parses, else the
    default. *)
Definition int_of (key : string) (def : Z) : Z :=
  match Getenv key with
  | "" => def
  | v => default def (Atoi v)
  end.

Lemma envInt_int_of key def : envInt key def = int_of key def.
Proof. unfold envInt, int_of. by destruct (Getenv key). Qed.

Lemma envInt_range key def : in_int64 def = true → in_int64 (envInt key def) = true.
Proof.
  intros Hd. unfold envInt. destruct (negb _); [|done]. destruct (Atoi _) as [n|] eqn:Ha; [|done].
  by eapply Atoi_range.
Qed.

(** The ranges in which the conversions of [Load] are exact. *)
Definition fits_int32 (z : Z) : Prop := - 2 ^ 31 ≤ z ≤ 2 ^ 31 - 1.
Definition fits_seconds (z : Z) : Prop := - 9223372036 ≤ z ≤ 9223372036.

Lemma seconds_exact z : fits_seconds z → seconds z = z * 1000000000.
Proof. unfold fits_seconds, seconds. intros. apply wrap64_id. unfold int64_min, int64_max. lia. Qed.

(** C40: Loading is exact in range: with a database URL, pool bounds that fit 32
    bits and durations that fit an int64 of nanoseconds -- each variable read
    as its integer, or as its default when unset or not an integer -- [Load]
    fails exactly when the minimum of the pool exceeds its maximum, and
    otherwise returns those very values. *)
Theorem load_in_range :
  let max := int_of "DB_MAX_CONNS" 20 in
  let min := int_of "DB_MIN_CONNS" 2 in
  let grace := int_of "SHUTDOWN_GRACE_SECONDS" 15 in
  let sample := int_of "INVARIANT_SAMPLE_SECONDS" 15 in
  Getenv "DATABASE_URL" ≠ "" → fits_int32 max → fits_int32 min →
  fits_seconds grace → fits_seconds sample →
  if max <? min then Load = Err (MinExceedsMax min max)
  else ∃ c, Load = Ok c ∧ Config.MaxDBConns c = max ∧ Config.MinDBConns c = min ∧
    Config.ShutdownGrace c = grace * 1000000000 ∧ Config.InvariantSample c = sample * 1000000000 ∧
    Config.LogRingSize c = int_of "LOG_RING_SIZE" 5000 ∧
    Config.DatabaseURL c = Getenv "DATABASE_URL".
Proof.
  intros max min grace sample Hurl Hmax Hmin Hg Hs. unfold Load. cbv zeta.
  cbn [Config.DatabaseURL Config.MaxDBConns Config.MinDBConns].
  rewrite !envInt_int_of. fold max min grace sample.
  rewrite (wrap32_id max Hmax), (wrap32_id min Hmin), (seconds_exact grace Hg), (seconds_exact sample Hs).
  apply String.eqb_neq in Hurl as ->. destruct (max <? min); [done|]. by eexists.
Qed.
End load.

(** Outside the range the conversions wrap silently: a maximum of 2^32 + 20
    connections is accepted and means 20. *)
Example pool_bound_wraps :
  let getenv k := if String.eqb k "DATABASE_URL" then "postgres://"
                  else if String.eqb k "DB_MAX_CONNS" then "4294967316" else "" in
  match Load getenv with Ok c => Config.MaxDBConns c | Err _ => -1 end = 20.
Proof. vm_compute. reflexivity. Qed.

(** An environment with some variables set. *)
Definition sample_env (k : string) : string :=
  if String.eqb k "DATABASE_URL" then "postgres://"
  else if String.eqb k "DB_MAX_CONNS" then "40"
  else if String.eqb k "SHUTDOWN_GRACE_SECONDS" then "soon" else "".

Lemma load_in_range_witness :
  ∃ c, Load sample_env = Ok c ∧ Config.MaxDBConns c = 40 ∧ Config.MinDBConns c = 2 ∧
    Config.ShutdownGrace c = 15000000000 ∧ Config.InvariantSample c = 15000000000 ∧
    Config.LogRingSize c = 5000 ∧ Config.DatabaseURL c = "postgres://".
Proof.
  apply (load_in_range sample_env); [done|by vm_compute..].
Defined.
