(* ===== verification/Sha256.v ===== *)
(** * SHA-256 (crypto/sha256 of the Go standard library)

    The hash the store fingerprints transfers and tokens with, on byte
    strings, executable; checked against the published test vectors at the end
    of the file. *)

From S2P Require Import Prelude.

#[local] Open Scope N_scope.

(** ** 32-bit words *)

Definition mask32 (x : N) : N := N.land x (N.ones 32).
Definition add32 (x y : N) : N := mask32 (x + y).
Definition not32 (x : N) : N := N.lxor x (N.ones 32).
Definition rotr32 (n x : N) : N :=
  N.lor (N.shiftr x n) (mask32 (N.shiftl x (32 - n))).

Definition big_sigma0 (x : N) : N := N.lxor (rotr32 2 x) (N.lxor (rotr32 13 x) (rotr32 22 x)).
Definition big_sigma1 (x : N) : N := N.lxor (rotr32 6 x) (N.lxor (rotr32 11 x) (rotr32 25 x)).
Definition small_sigma0 (x : N) : N := N.lxor (rotr32 7 x) (N.lxor (rotr32 18 x) (N.shiftr x 3)).
Definition small_sigma1 (x : N) : N := N.lxor (rotr32 17 x) (N.lxor (rotr32 19 x) (N.shiftr x 10)).
Definition choose (x y z : N) : N := N.lxor (N.land x y) (N.land (not32 x) z).
Definition majority (x y z : N) : N := N.lxor (N.land x y) (N.lxor (N.land x z) (N.land y z)).

(** The constants of the standard are derived, not copied: 32 bits of the
    fractional parts of the roots of the first primes. *)

Definition is_prime (n : nat) : bool :=
  (2 <=? n)%nat && forallb (λ d, negb (n mod d =? 0)%nat) (seq 2 (n - 2)).

(** The first 64 primes. *)
Definition primes : list N :=
  Eval vm_compute in N.of_nat <$> filter (λ n, is_prime n = true) (seq 0 312).

(** The integer cube root, by the bits below [2 ^ k]. *)
Fixpoint cube_root (k : nat) (n r : N) : N :=
  match k with
  | O => r
  | S k =>
      let r' := r + N.shiftl 1 (N.of_nat k) in
      cube_root k n (if r' * r' * r' <=? n then r' else r)
  end.

Definition round_constants : list N :=
  Eval vm_compute in (λ p, mask32 (cube_root 36 (N.shiftl p 96) 0)) <$> primes.

Definition initial_hash : list N :=
  Eval vm_compute in (λ p, mask32 (N.sqrt (N.shiftl p 64))) <$> take 8 primes.

(** ** Bytes and words *)

Fixpoint bytes_of (s : string) : list N :=
  match s with
  | EmptyString => []
  | String c s => Ascii.N_of_ascii c :: bytes_of s
  end.

Fixpoint string_of (l : list N) : string :=
  match l with
  | [] => EmptyString
  | b :: l => String (Ascii.ascii_of_N b) (string_of l)
  end.

Fixpoint words_of (l : list N) : list N :=
  match l with
  | a :: b :: c :: d :: l =>
      N.lor (N.shiftl a 24) (N.lor (N.shiftl b 16) (N.lor (N.shiftl c 8) d)) :: words_of l
  | _ => []
  end.

(** [n] big-endian bytes of [x]. *)
Fixpoint be_bytes (n : nat) (x : N) : list N :=
  match n with
  | O => []
  | S n => N.land (N.shiftr x (8 * N.of_nat n)) 255 :: be_bytes n x
  end.

(** ** The hash *)

Definition pad (l : list N) : list N :=
  let len := N.of_nat (length l) in
  l ++ [128] ++ repeat 0 (N.to_nat ((119 - len mod 64) mod 64)) ++ be_bytes 8 (8 * len).

(** The message schedule, newest word first. *)
Fixpoint extend (n : nat) (w : list N) : list N :=
  match n with
  | O => w
  | S n =>
      let word i := nth i w 0 in
      extend n (add32 (add32 (small_sigma1 (word 1%nat)) (word 6%nat))
                      (add32 (small_sigma0 (word 14%nat)) (word 15%nat)) :: w)
  end.

Definition schedule (block : list N) : list N := rev (extend 48 (rev block)).

Definition round (h : list N) (kw : N * N) : list N :=
  match h with
  | [a; b; c; d; e; f; g; hh] =>
      let t1 := add32 (add32 hh (big_sigma1 e)) (add32 (choose e f g) (add32 kw.1 kw.2)) in
      let t2 := add32 (big_sigma0 a) (majority a b c) in
      [add32 t1 t2; a; b; c; add32 d t1; e; f; g]
  | _ => h
  end.

Definition compress (h block : list N) : list N :=
  zip_with add32 h (foldl round h (zip round_constants (schedule block))).

Fixpoint compress_blocks (n : nat) (h words : list N) : list N :=
  match n with
  | O => h
  | S n => compress_blocks n (compress h (take 16 words)) (drop 16 words)
  end.

(** [sha256.Sum256]: the 32 bytes of the digest. *)
Definition Sum256 (msg : string) : string :=
  let padded := pad (bytes_of msg) in
  string_of (mjoin (be_bytes 4 <$>
    compress_blocks (length padded / 64)%nat initial_hash (words_of padded))).

(** ** Test vectors *)

Definition hex_digit (n : N) : Ascii.ascii :=
  Ascii.ascii_of_N (if n <? 10 then 48 + n else 87 + n).

Fixpoint hex (s : string) : string :=
  match s with
  | EmptyString => EmptyString
  | String c s =>
      let n := Ascii.N_of_ascii c in
      String (hex_digit (n / 16)) (String (hex_digit (n mod 16)) (hex s))
  end.

Example sha256_empty :
  hex (Sum256 "") = "e3b0c44298fc1c149afbf4c8996fb92427ae41e4649b934ca495991b7852b855".
Proof. vm_compute. reflexivity. Qed.

Example sha256_abc :
  hex (Sum256 "abc") = "ba7816bf8f01cfea414140de5dae2223b00361a396177a9cb410ff61f20015ad".
Proof. vm_compute. reflexivity. Qed.

Example sha256_two_blocks :
  hex (Sum256 "abcdbcdecdefdefgefghfghighijhijkijkljklmklmnlmnomnopnopq") =
  "248d6a61d20638b8e5c026930c3e6039a33ce45964ff2167f6ecedd419db06c1".
Proof. vm_compute. reflexivity. Qed.
