(* ===== verification/Store.v ===== *)
(** * The store: domain types and the transaction wrapper (internal/store/store.go)

    [Wallet], [Transfer] and [TransferResult] as Go structs, [Fingerprint],
    the [Store] with its retry observer, and [inTx], the bounded retry loop
    around a transaction body. *)

From S2P Require Import Prelude Errors Database Obs Session Sha256.

(** ** Domain types *)

Module Wallet.
Record t := Mk { ID : string; UserID : string; BalancePaise : Z; CreatedAt : timestamp }.
Definition zero : t := Mk "" "" 0 0.
End Wallet.

Module Transfer.
Record t := Mk {
  ID : string;
  Status : string;
  DeclineReason : option string;
  FromWalletID : string;
  ToWalletID : string;
  AmountPaise : Z;
  IdempotencyKey : string;
  CreatedAt : timestamp;
  CompletedAt : option timestamp
}.
Definition zero : t := Mk "" "" None "" "" 0 "" 0 None.
End Transfer.

Definition StatusSucceeded : string := "succeeded".
Definition StatusDeclined : string := "declined".
Definition ReasonInsufficientFunds : string := "insufficient_funds".

Module TransferResult.
Record t := Mk { Transfer : Transfer.t; Replay : bool }.
Definition zero : t := Mk Transfer.zero false.
End TransferResult.

#[global] Instance Wallet_eq_dec : EqDecision Wallet.t.
Proof. solve_decision. Defined.
#[global] Instance Transfer_eq_dec : EqDecision Transfer.t.
Proof. solve_decision. Defined.
#[global] Instance TransferResult_eq_dec : EqDecision TransferResult.t.
Proof. solve_decision. Defined.

(** ** Fingerprint *)

(** [fmt.Sprintf("v1|%s|%s|%d", from, to, amountPaise)] *)
Definition canonical_request (from to : string) (amountPaise : Z) : string :=
  "v1|" +:+ from +:+ "|" +:+ to +:+ "|" +:+ pretty amountPaise.

Definition Fingerprint (from to : string) (amountPaise : Z) : string :=
  Sum256 (canonical_request from to amountPaise).

(** ** The store *)

(** [Store]: its pool is the session the program runs on; [onRetry] is the
    observer, as the events its call emits.  It returns; where a log line of it
    panics the server unwinds the whole call, transaction included. *)
Record Store := MkStore { onRetry : string → list event }.

Definition New : Store := MkStore (λ _, []).

(** [OnRetry] installs the observer unless it is nil. *)
Definition OnRetry (s : Store) (f : option (string → list event)) : Store :=
  match f with Some f => MkStore f | None => s end.

Definition maxTxAttempts : nat := 5.

(** [fmt.Errorf("transaction failed after %d attempts: %w", maxTxAttempts, err)] *)
Definition attempts_exhausted (err : option error) : error :=
  match err with
  | Some err => EWrap "transaction failed after 5 attempts" err
  | None => EText "transaction failed after 5 attempts: %!w(<nil>)"
  end.

(** One attempt: begin, the body, commit.  [inr err] is [continue] after a
    transient error, [inl] is [return].  [V] holds the variables the body
    captures. *)
Definition attempt_tx {V} (fn : V → prog (V * option error)) (vars : V)
    : prog (V * (option error + error)) :=
  let failed vars err := mret (vars, if isTransient err then inr err else inl (Some err)) in
  b ← call Begin;
  match b with
  | Err err => failed vars err
  | Ok _ =>
      '(vars, err) ← fn vars;
      match err with
      | Some err => call Rollback;; failed vars err
      | None =>
          c ← call Commit;
          match c with
          | Err err => failed vars err
          | Ok _ => mret (vars, inl None)
          end
      end
  end.

(** The loop, with [n] attempts left, [attempt] the index of the next one and
    [err] the error of the last. *)
Fixpoint inTx_loop {V} (s : Store) (fn : V → prog (V * option error)) (n : nat) (attempt : Z)
    (err : option error) (vars : V) : prog (V * option error) :=
  match n with
  | O => mret (vars, Some (attempts_exhausted err))
  | S n =>
      let try_once :=
        '(vars, next) ← attempt_tx fn vars;
        match next with
        | inl r => mret (vars, r)
        | inr err => inTx_loop s fn n (attempt + 1) (Some err) vars
        end in
      if 0 <? attempt then
        emit_all (onRetry s (sqlstate_of err));;
        stop ← call (Backoff (attempt * attempt * 2));
        match stop with
        | Some err => mret (vars, Some err)
        | None => try_once
        end
      else try_once
  end.

Definition inTx {V} (s : Store) (fn : V → prog (V * option error)) (vars : V)
    : prog (V * option error) :=
  inTx_loop s fn maxTxAttempts 0 None vars.
