(* ===== verification/Ring.v ===== *)
(** * The log ring (internal/obs/log.go, [Ring])

    A bounded buffer of the most recent log lines with a fan-out to live
    subscribers.  [Write] has two phases: under the mutex it stores the line
    and copies the set of subscribers; after the unlock it sends to each copied
    channel.  The phases of several goroutines interleave, and a subscriber may
    cancel -- which closes its channel -- between them. *)

From stdpp Require Import gmap.
From S2P Require Import Prelude.

(** ** State

    Channels are allocated on a heap: a queue of at most 256 lines and the
    closed flag.  [subs] are the registered channels. *)

Record chan := MkChan { queue : list string; closed : bool }.

Definition chan_cap : nat := 256.

Record Ring := MkRing {
  buf : list string;
  size : Z;
  next : Z;
  count : Z;
  subs : gset nat
}.

Abbreviation heap := (gmap nat chan) (only parsing).

Definition NewRing (size : Z) : Ring :=
  let size := if size <=? 0 then 1 else size in
  MkRing (replicate (Z.to_nat size) "") size 0 0 ∅.

(** ** Write *)

(** The part under the mutex: the ring, and the channels to send to (a map
    iteration: in no particular order). *)
Definition write_locked (r : Ring) (line : string) : Ring * list nat :=
  (MkRing (<[Z.to_nat (next r) := line]> (buf r)) (size r)
     (Z.rem (next r + 1) (size r))
     (if count r <? size r then count r + 1 else count r) (subs r),
   elements (subs r)).

(** [select { case c <- line: default: }]: a send on a closed channel panics
    ([None]); a full queue drops the line. *)
Definition try_send (h : heap) (c : nat) (line : string) : option heap :=
  match h !! c with
  | None => Some h
  | Some ch =>
      if closed ch then None
      else if (length (queue ch) <? chan_cap)%nat
      then Some (<[c := MkChan (queue ch ++ [line]) false]> h)
      else Some h
  end.

Fixpoint send_all (h : heap) (cs : list nat) (line : string) : option heap :=
  match cs with
  | [] => Some h
  | c :: cs => match try_send h c line with Some h => send_all h cs line | None => None end
  end.

(** A whole [Write], with nothing between its phases; the byte count returned
    is the length of the line. *)
Definition Write (r : Ring) (h : heap) (p : string) : option (Ring * heap * Z) :=
  let '(r, cs) := write_locked r p in
  match send_all h cs p with
  | Some h => Some (r, h, Z.of_nat (String.length p))
  | None => None
  end.

(** ** Snapshot *)

Definition clamp_n (r : Ring) (n : Z) : Z :=
  if (n <=? 0) || (count r <? n) then count r else n.

Definition Snapshot (r : Ring) (n : Z) : list string :=
  let n := clamp_n r n in
  let start := Z.rem (Z.rem (next r - n) (size r) + size r) (size r) in
  (λ i, default "" (buf r !! Z.to_nat (Z.rem (start + Z.of_nat i) (size r)))) <$> seq 0 (Z.to_nat n).

(** ** Subscribers *)

Definition Subscribe (r : Ring) (h : heap) (ch : nat) : Ring * heap :=
  (MkRing (buf r) (size r) (next r) (count r) ({[ch]} ∪ subs r), <[ch := MkChan [] false]> h).

(** The cancel function: once, under the mutex. *)
Definition cancel (r : Ring) (h : heap) (ch : nat) : Ring * heap :=
  if bool_decide (ch ∈ subs r) then
    (MkRing (buf r) (size r) (next r) (count r) (subs r ∖ {[ch]}),
     alter (λ c, MkChan (queue c) true) ch h)
  else (r, h).

Definition Subscribers (r : Ring) : Z := Z.of_nat (stdpp.base.size (subs r)).

(** A receive on a subscriber's channel: [None] blocks, [Some None] is a closed
    and drained channel. *)
Definition receive (h : heap) (ch : nat) : option (option string * heap) :=
  match h !! ch with
  | None => None
  | Some c =>
      match queue c with
      | line :: q => Some (Some line, <[ch := MkChan q (closed c)]> h)
      | [] => if closed c then Some (None, h) else None
      end
  end.

(** ** The last lines of a history *)

Definition last_lines {A} (n : nat) (hist : list A) : list A :=
  drop (length hist - n) hist.

(** How many lines a ring of [size] slots retains of a history, and how many
    of those a snapshot of [n] asks for. *)
Definition retained {A} (size : Z) (hist : list A) : Z := Z.min (Z.of_nat (length hist)) size.
Definition window {A} (size n : Z) (hist : list A) : Z :=
  if (n <=? 0) || (retained size hist <? n) then retained size hist else n.

(** The ring after writing the lines of [hist]. *)
Record holds_history (r : Ring) (hist : list string) : Prop := {
  hh_size : 0 < size r;
  hh_length : Z.of_nat (length (buf r)) = size r;
  hh_next : next r = Z.of_nat (length hist) mod size r;
  hh_count : count r = retained (size r) hist;
  hh_slots : ∀ k, Z.of_nat (length hist) - count r ≤ k < Z.of_nat (length hist) →
    buf r !! Z.to_nat (k mod size r) = hist !! Z.to_nat k
}.

Lemma NewRing_history n : holds_history (NewRing n) [].
Proof.
  unfold NewRing. cbv zeta. set (m := if n <=? 0 then 1 else n).
  assert (0 < m) by (subst m; destruct (Z.leb_spec n 0); lia).
  split; simpl; [done|rewrite length_replicate; lia|by rewrite Z.mod_0_l by lia| |].
  - unfold retained. simpl. lia.
  - intros k Hk. lia.
Qed.

(** Distinct lines of one window live in distinct slots. *)
Lemma slots_apart k l m : 0 < m → l - m < k < l → k mod m ≠ l mod m.
Proof.
  intros Hm Hk Heq.
  assert (Hd : (l - k) mod m = 0) by (rewrite Zminus_mod, Heq, Z.sub_diag; by rewrite Z.mod_0_l by lia).
  rewrite Z.mod_small in Hd by lia. lia.
Qed.

Lemma write_history r hist line :
  holds_history r hist → holds_history (write_locked r line).1 (hist ++ [line]).
Proof.
  intros [Hs Hl Hn Hc Hk]. unfold retained in Hc.
  pose proof (Z.mod_pos_bound (Z.of_nat (length hist)) (size r) Hs) as Hb.
  split; simpl; [done|by rewrite length_insert| | |].
  - rewrite length_app. simpl. rewrite Z.rem_mod_nonneg by lia. rewrite Hn.
    rewrite Zplus_mod_idemp_l. f_equal. lia.
  - unfold retained. rewrite length_app. simpl. destruct (Z.ltb_spec (count r) (size r)); lia.
  - rewrite length_app. simpl. intros k Hk'.
    destruct (decide (k = Z.of_nat (length hist))) as [->|Hne].
    + rewrite Hn, list_lookup_insert_eq by lia.
      rewrite lookup_app_r by lia. by rewrite Nat2Z.id, Nat.sub_diag.
    + assert (Hlow : Z.of_nat (length hist) - size r < k ∧ 0 ≤ k).
      { destruct (Z.ltb_spec (count r) (size r)); lia. }
      rewrite list_lookup_insert_ne, Hk.
      * rewrite lookup_app_l by lia. done.
      * destruct (Z.ltb_spec (count r) (size r)); lia.
      * rewrite Hn. intros Heq. apply Z2Nat.inj in Heq; [|lia|by apply Z.mod_pos_bound].
        by apply (slots_apart k (Z.of_nat (length hist)) (size r)); [|lia|].
Qed.

Lemma snapshot_history r hist n :
  holds_history r hist →
  Snapshot r n = last_lines (Z.to_nat (window (size r) n hist)) hist.
Proof.
  intros [Hs Hl Hn Hc Hk]. unfold Snapshot, window. rewrite <- Hc. fold (clamp_n r n).
  set (m := clamp_n r n).
  assert (Hm : 0 ≤ m ≤ count r).
  { subst m. unfold clamp_n. unfold retained in Hc.
    destruct (Z.leb_spec n 0), (Z.ltb_spec (count r) n); simpl; lia. }
  assert (Hcl : count r ≤ Z.of_nat (length hist) ∧ count r ≤ size r) by (unfold retained in Hc; lia).
  pose proof (Z.mod_pos_bound (Z.of_nat (length hist)) (size r) Hs) as Hb.
  assert (Hstart : Z.rem (Z.rem (next r - m) (size r) + size r) (size r) =
    (Z.of_nat (length hist) - m) mod size r).
  { assert (- size r < Z.rem (next r - m) (size r)) by (pose proof (Z.rem_bound_abs (next r - m) (size r)); lia).
    rewrite Z.rem_mod_nonneg by lia. rewrite Zplus_mod, Z_mod_same_full, Z.add_0_r, Zmod_mod.
    assert (Hr : Z.rem (next r - m) (size r) mod size r = (next r - m) mod size r).
    { pose proof (Z.quot_rem' (next r - m) (size r)) as Hq. rewrite Hq at 2.
      rewrite Z.add_comm, Z.mul_comm, Z.mod_add by lia. done. }
    rewrite Hr, Hn. rewrite Zminus_mod_idemp_l. done. }
  rewrite Hstart. unfold last_lines. apply list_eq. intros i. rewrite list_lookup_fmap, lookup_drop.
  destruct (decide (i < Z.to_nat m)%nat) as [Hi|Hi].
  - rewrite lookup_seq_lt by done. simpl.
    rewrite Z.rem_mod_nonneg by (pose proof (Z.mod_pos_bound (Z.of_nat (length hist) - m) (size r)); lia).
    rewrite Zplus_mod_idemp_l. rewrite Hk by lia.
    replace (Z.to_nat (Z.of_nat (length hist) - m + Z.of_nat i)) with (length hist - Z.to_nat m + i)%nat by lia.
    destruct (lookup_lt_is_Some_2 hist (length hist - Z.to_nat m + i)) as [x Hx]; [lia|]. by rewrite Hx.
  - rewrite lookup_seq_ge by lia. simpl. symmetry. apply lookup_ge_None_2. lia.
Qed.

(** The ring after lines written one by one. *)
Definition write_lines (r : Ring) (lines : list string) : Ring :=
  foldl (λ r line, (write_locked r line).1) r lines.

Lemma write_lines_history lines : ∀ r hist, holds_history r hist →
  holds_history (write_lines r lines) (hist ++ lines) ∧ size (write_lines r lines) = size r.
Proof.
  unfold write_lines. induction lines as [|l ls IH]; intros r hist Hr; simpl; [by rewrite app_nil_r|].
  destruct (IH (write_locked r l).1 (hist ++ [l])) as [H1 H2]; [by apply write_history|].
  rewrite <- app_assoc in H1. simpl in H1. by split.
Qed.

Lemma snapshot_written sz lines n :
  Snapshot (write_lines (NewRing sz) lines) n =
  last_lines (Z.to_nat (window (if sz <=? 0 then 1 else sz) n lines)) lines.
Proof.
  destruct (write_lines_history lines (NewRing sz) [] (NewRing_history sz)) as [H1 H2].
  by rewrite (snapshot_history _ _ n H1), H2.
Qed.

(** ** Sending *)

(** Every registered channel is open. *)
Definition subs_open (r : Ring) (h : heap) : Prop :=
  ∀ c, c ∈ subs r → ∃ q, h !! c = Some (MkChan q false).

(** What a line does to an open queue. *)
Definition offer (line : string) (q : list string) : list string :=
  if (length q <? chan_cap)%nat then q ++ [line] else q.

Lemma try_send_open h c q line :
  h !! c = Some (MkChan q false) → try_send h c line = Some (<[c := MkChan (offer line q) false]> h).
Proof.
  intros Hc. unfold try_send, offer. rewrite Hc. cbn [queue closed].
  destruct (length q <? chan_cap)%nat; [done|]. by rewrite insert_id.
Qed.

Lemma send_all_open cs h line :
  NoDup cs → (∀ c, c ∈ cs → ∃ q, h !! c = Some (MkChan q false)) →
  ∃ h', send_all h cs line = Some h' ∧
    ∀ c, h' !! c = if decide (c ∈ cs) then (λ ch, MkChan (offer line (queue ch)) false) <$> h !! c
                   else h !! c.
Proof.
  intros Hnd. revert h. induction Hnd as [|c cs Hc Hnd IH]; intros h Ho; cbn [send_all].
  { exists h. split; [done|]. intros c. case_decide as Hx; [by apply not_elem_of_nil in Hx|done]. }
  destruct (Ho c) as [q Hq]; [by left|]. rewrite (try_send_open _ _ _ _ Hq).
  destruct (IH (<[c:=MkChan (offer line q) false]> h)) as (h' & -> & Hh').
  { intros x Hx. destruct (Ho x) as [qx Hqx]; [by right|]. exists qx.
    rewrite lookup_insert_ne; [done|]. intros ->. done. }
  exists h'. split; [done|]. intros x. rewrite Hh'.
  destruct (decide (x = c)) as [->|Hne].
  - rewrite decide_False by done. rewrite decide_True by (by left). by rewrite lookup_insert_eq, Hq.
  - rewrite lookup_insert_ne by done.
    destruct (decide (x ∈ cs)) as [Hx|Hx].
    + by rewrite decide_True by (by right).
    + rewrite decide_False; [done|]. by intros [?|?]%elem_of_cons.
Qed.
