(* ===== verification/RingProps.v ===== *)
(** * The log ring: properties

    The ring refines a log of everything written, sends are bounded and never
    block, and -- with the phases of [Write] interleaved -- what can go wrong. *)

From stdpp Require Import gmap.
From S2P Require Import Prelude Ring.

(** ** The ring as a log *)

(** The ring is a window on the log: after any lines are written to a new
    ring of any size, a snapshot of n is the last n lines oldest first, or all
    the ring retains -- the last max(size,1) of them -- when n is not positive
    or asks for more. *)
Theorem ring_snapshot sz lines n :
  Snapshot (write_lines (NewRing sz) lines) n =
  last_lines (Z.to_nat (window (if sz <=? 0 then 1 else sz) n lines)) lines.
Proof. apply snapshot_written. Qed.

(** C31: A write done in one piece never blocks and never panics: it returns the
    length of the line, offers the line to every registered channel -- taken
    if its queue has fewer than 256 lines, dropped otherwise -- leaves the
    other channels alone, and keeps every registered channel open. *)
Theorem ring_write_atomic r h p :
  subs_open r h →
  ∃ r' h', Write r h p = Some (r', h', Z.of_nat (String.length p)) ∧ subs_open r' h' ∧
    subs r' = subs r ∧
    ∀ c, h' !! c = if decide (c ∈ subs r) then (λ ch, MkChan (offer p (queue ch)) false) <$> h !! c
                   else h !! c.
Proof.
  intros Ho. unfold Write. cbn [write_locked].
  destruct (send_all_open (elements (subs r)) h p) as (h' & -> & Hh').
  { apply NoDup_elements. }
  { intros c Hc. apply Ho. by apply elem_of_elements. }
  assert (Heq : ∀ c, h' !! c = if decide (c ∈ subs r) then (λ ch, MkChan (offer p (queue ch)) false) <$> h !! c
    else h !! c).
  { intros c. rewrite Hh'. destruct (decide (c ∈ elements (subs r))) as [Hc|Hc];
      rewrite elem_of_elements in Hc; [by rewrite decide_True|by rewrite decide_False]. }
  eexists _, h'. split; [done|]. split; [|done]. intros c Hc. simpl in Hc.
  destruct (Ho c Hc) as [q Hq]. exists (offer p q). by rewrite Heq, decide_True, Hq.
Qed.

(** ** Interleaving

    [rs_writers]: the goroutines between the unlock and their last send, each
    with its line and the channels still to send to. *)

Record ring_state := MkRingState {
  rs_ring : Ring;
  rs_heap : gmap nat chan;
  rs_writers : list (string * list nat);
  rs_panicked : bool
}.

Inductive ring_step : ring_state → ring_state → Prop :=
| rs_write r h ws line :
    ring_step (MkRingState r h ws false)
      (MkRingState (write_locked r line).1 h (ws ++ [(line, (write_locked r line).2)]) false)
| rs_send r h ws i line c cs h' :
    ws !! i = Some (line, c :: cs) → try_send h c line = Some h' →
    ring_step (MkRingState r h ws false) (MkRingState r h' (<[i := (line, cs)]> ws) false)
| rs_panic r h ws i line c cs :
    ws !! i = Some (line, c :: cs) → try_send h c line = None →
    ring_step (MkRingState r h ws false) (MkRingState r h ws true)
| rs_subscribe r h ws ch :
    h !! ch = None →
    ring_step (MkRingState r h ws false)
      (MkRingState (Subscribe r h ch).1 (Subscribe r h ch).2 ws false)
| rs_cancel r h ws ch :
    ring_step (MkRingState r h ws false)
      (MkRingState (cancel r h ch).1 (cancel r h ch).2 ws false)
| rs_receive r h ws ch line h' :
    receive h ch = Some (line, h') →
    ring_step (MkRingState r h ws false) (MkRingState r h' ws false).

Inductive ring_reachable (sz : Z) : ring_state → Prop :=
| rr_init : ring_reachable sz (MkRingState (NewRing sz) ∅ [] false)
| rr_step st st' : ring_reachable sz st → ring_step st st' → ring_reachable sz st'.

(** What every reachable state satisfies. *)
Record ring_inv (st : ring_state) : Prop := {
  ri_open : subs_open (rs_ring st) (rs_heap st);
  ri_bound : ∀ c ch, rs_heap st !! c = Some ch → (length (queue ch) ≤ chan_cap)%nat;
  ri_pending : ∀ line cs c, (line, cs) ∈ rs_writers st → c ∈ cs → is_Some (rs_heap st !! c)
}.

Lemma try_send_dom h c line h' x : try_send h c line = Some h' → is_Some (h !! x) → is_Some (h' !! x).
Proof.
  unfold try_send. intros Hs Hx. repeat case_match; simplify_eq; try done.
  rewrite lookup_insert. case_decide; [done|exact Hx].
Qed.

Lemma offer_bound line q : (length q ≤ chan_cap)%nat → (length (offer line q) ≤ chan_cap)%nat.
Proof.
  intros Hq. unfold offer. destruct (Nat.ltb_spec (length q) chan_cap); [|done].
  rewrite length_app. simpl. lia.
Qed.

Lemma try_send_Some h c line h' :
  try_send h c line = Some h' →
  h' = h ∨ ∃ q, h !! c = Some (MkChan q false) ∧ h' = <[c := MkChan (offer line q) false]> h.
Proof.
  unfold try_send. destruct (h !! c) as [[q b]|] eqn:Hc; [|by intros [= <-]; left].
  cbn [closed queue]. destruct b; [done|]. unfold offer.
  destruct (length q <? chan_cap)%nat eqn:Hq; intros [= <-]; [right|by left].
  exists q. by rewrite Hq.
Qed.

Lemma subs_open_send r h c line h' : subs_open r h → try_send h c line = Some h' → subs_open r h'.
Proof.
  intros Ho Hs x Hx. destruct (Ho x Hx) as [qx Hqx].
  destruct (try_send_Some _ _ _ _ Hs) as [->|(q & Hq & ->)]; [by exists qx|].
  rewrite lookup_insert. case_decide; [by eexists|by exists qx].
Qed.

Lemma step_ring_inv st st' : ring_inv st → ring_step st st' → ring_inv st'.
Proof.
  intros [Ho Hb Hp] Hst.
  destruct Hst as [r h ws line|r h ws i line c cs h' Hi Hs|r h ws i line c cs Hi Hs|r h ws ch Hf
    |r h ws ch|r h ws ch line h' Hr]; simpl in Ho, Hb, Hp.
  - split; simpl; [exact Ho|exact Hb|]. intros l cs c [Hin|Hin]%elem_of_app Hc; [by eapply Hp|].
    apply list_elem_of_singleton in Hin as [= -> ->]. apply elem_of_elements in Hc.
    destruct (Ho c Hc) as [q ->]. done.
  - split; simpl; [by eapply subs_open_send| |].
    + intros x ch Hx. destruct (try_send_Some _ _ _ _ Hs) as [->|(q & Hq & ->)]; [by eapply Hb|].
      rewrite lookup_insert in Hx. case_decide; [|by eapply Hb].
      injection Hx as <-. apply offer_bound. apply (Hb _ _ Hq).
    + intros l cs' x Hin Hx. eapply try_send_dom; [exact Hs|].
      apply list_elem_of_lookup in Hin as [j Hj].
      rewrite list_lookup_insert_Some in Hj. destruct Hj as [(_ & [= <- <-] & _)|[_ Hj]].
      * eapply Hp; [|by right]. eapply list_elem_of_lookup_2. exact Hi.
      * eapply Hp; [|exact Hx]. eapply list_elem_of_lookup_2. exact Hj.
  - by split.
  - split; simpl.
    + intros c Hc. apply elem_of_union in Hc as [->%elem_of_singleton|Hc].
      * eexists. apply lookup_insert_eq.
      * destruct (Ho c Hc) as [q Hq]. exists q. rewrite lookup_insert_ne by congruence. done.
    + intros c x. rewrite lookup_insert. case_decide; [intros [= <-]; simpl; lia|apply Hb].
    + intros l cs c Hin Hc. rewrite lookup_insert. case_decide; [done|by eapply Hp].
  - unfold cancel. case_bool_decide as Hch; [|by split]. split; simpl.
    + intros c [Hc Hne%not_elem_of_singleton]%elem_of_difference. destruct (Ho c Hc) as [q Hq].
      exists q. by rewrite lookup_alter_ne.
    + intros c x. rewrite lookup_alter. case_decide; [|apply Hb].
      destruct (h !! ch) as [y|] eqn:Hy; [|done]. intros [= <-]. apply (Hb _ _ Hy).
    + intros l cs c Hin Hc. rewrite lookup_alter. case_decide; [subst; apply fmap_is_Some|]; by eapply Hp.
  - unfold receive in Hr. destruct (h !! ch) as [[q b]|] eqn:Hq; [|done]. cbn [queue closed] in Hr.
    destruct q as [|x q]; [destruct b; [|done]|]; injection Hr as <- <-; [by split|].
    split; simpl.
    + intros c Hc. destruct (Ho c Hc) as [qc Hqc]. rewrite lookup_insert.
      case_decide; [|by exists qc]. subst. rewrite Hq in Hqc. injection Hqc as <- ->. by eexists.
    + intros c y. rewrite lookup_insert. case_decide; [|apply Hb].
      intros [= <-]. specialize (Hb _ _ Hq). simpl in Hb |- *. lia.
    + intros l cs c Hin Hc. rewrite lookup_insert. case_decide; [done|by eapply Hp].
Qed.

Lemma reachable_ring_inv sz st : ring_reachable sz st → ring_inv st.
Proof.
  induction 1 as [|st st' _ IH Hst]; [|by eapply step_ring_inv].
  split; simpl; [|by intros c ch; rewrite lookup_empty|by intros l cs c ?%not_elem_of_nil].
  intros c Hc. unfold NewRing in Hc. simpl in Hc. by apply not_elem_of_empty in Hc.
Qed.

(** C32: Bounded memory: in every interleaving of writes, sends, subscriptions,
    cancellations and receives, no subscriber's queue exceeds 256 lines, and
    every registered channel is open. *)
Theorem ring_bounded sz st :
  ring_reachable sz st →
  (∀ c ch, rs_heap st !! c = Some ch → (length (queue ch) ≤ chan_cap)%nat) ∧
  subs_open (rs_ring st) (rs_heap st).
Proof. intros Hr. by destruct (reachable_ring_inv sz st Hr). Qed.

(** A subscriber that disconnects between a writer's unlock and its send makes
    the writer send on a closed channel. *)
Lemma ring_send_on_closed sz :
  ∃ st, ring_reachable sz st ∧ rs_panicked st = true.
Proof.
  set (r1 := (Subscribe (NewRing sz) ∅ 0).1). set (h1 := (Subscribe (NewRing sz) ∅ 0).2).
  set (r2 := (write_locked r1 "line").1). set (ws := [("line", (write_locked r1 "line").2)]).
  exists (MkRingState (cancel r2 h1 0).1 (cancel r2 h1 0).2 ws true). split; [|done].
  eapply rr_step; [|apply (rs_panic _ _ ws 0 "line" 0 []); reflexivity].
  eapply rr_step; [|apply rs_cancel].
  eapply rr_step; [|apply (rs_write r1 h1 [] "line")].
  eapply rr_step; [apply rr_init|]. apply rs_subscribe, lookup_empty.
Qed.

(** C33: A writer panics only on a channel that was cancelled after the writer
    copied the subscribers: in every reachable state, a pending send to a
    channel that is still registered succeeds without blocking.  And that can
    happen, whatever the size of the ring: a subscriber that disconnects
    between a writer's unlock and its send makes the goroutine that logs
    panic. *)
Theorem ring_panics_only_cancelled sz :
  (∀ st i line c cs, ring_reachable sz st → rs_writers st !! i = Some (line, c :: cs) →
     c ∈ subs (rs_ring st) → ∃ h', try_send (rs_heap st) c line = Some h') ∧
  ∃ st, ring_reachable sz st ∧ rs_panicked st = true.
Proof.
  split; [|apply ring_send_on_closed]. intros st i line c cs Hr Hi Hc.
  destruct (ri_open _ (reachable_ring_inv sz st Hr) c Hc) as [q Hq]. eexists. by apply try_send_open.
Qed.

(** ** At concrete inputs *)

(** A ring of three lines with one subscriber, a line written. *)
Definition one_sub : ring_state :=
  let '(r, h) := Subscribe (NewRing 3) ∅ 0 in
  MkRingState (write_locked r "line").1 h [("line", (write_locked r "line").2)] false.

Lemma one_sub_reachable : ring_reachable 3 one_sub.
Proof.
  eapply rr_step; [|apply (rs_write _ _ [] "line")].
  eapply rr_step; [apply rr_init|]. apply rs_subscribe, lookup_empty.
Qed.

Lemma ring_write_atomic_witness :
  let r := rs_ring one_sub in let h := rs_heap one_sub in
  ∃ r' h', Write r h "more" = Some (r', h', 4) ∧ subs_open r' h' ∧ subs r' = subs r ∧
    ∀ c, h' !! c = if decide (c ∈ subs r) then (λ ch, MkChan (offer "more" (queue ch)) false) <$> h !! c
                   else h !! c.
Proof.
  apply (ring_write_atomic (rs_ring one_sub) (rs_heap one_sub) "more").
  apply (ri_open _ (reachable_ring_inv 3 one_sub one_sub_reachable)).
Defined.

Lemma ring_bounded_witness :
  (∀ c ch, rs_heap one_sub !! c = Some ch → (length (queue ch) ≤ chan_cap)%nat) ∧
  subs_open (rs_ring one_sub) (rs_heap one_sub).
Proof. apply (ring_bounded 3 one_sub), one_sub_reachable. Defined.

Lemma ring_panics_only_cancelled_witness : ∃ h', try_send (rs_heap one_sub) 0%nat "line" = Some h'.
Proof.
  apply (proj1 (ring_panics_only_cancelled 3) one_sub 0%nat "line" 0%nat []); [apply one_sub_reachable|reflexivity|].
  cbn. set_solver.
Defined.
