(* ===== verification/Wallets.v ===== *)
(** * Users, wallets and mints (internal/store/wallet.go) *)

From S2P Require Import Prelude Errors Database Session Sha256 Store.

Module User.
Record t := Mk { ID : string }.
Definition zero : t := Mk "".
End User.

Section wallets.
Context `{PgText}.

Definition TokenHash (token : string) : string := Sum256 token.

Definition UpsertUser (token : string) : prog (User.t * option error) :=
  r ← pool_QueryRow (UpsertUserStmt (TokenHash token));
  match r with
  | Ok id => mret (User.Mk (uuid_out id), None)
  | Err err => mret (User.zero, Some err)
  end.

(** The [Scan] of [id, user_id, balance_paise, created_at]. *)
Definition scan_wallet (i : uuid) (r : wallet_row) : Wallet.t :=
  Wallet.Mk (uuid_out i) (uuid_out (w_user_id r)) (w_balance_paise r) (w_created_at r).

Definition GetOrCreateWallet (userID : string) : prog (Wallet.t * bool * option error) :=
  r ← pool_QueryRow (UpsertWalletStmt userID);
  match r with
  | Ok (i, row, created) => mret (scan_wallet i row, created, None)
  | Err err => mret (Wallet.zero, false, Some err)
  end.

Definition GetWallet (id : string) : prog (Wallet.t * option error) :=
  r ← pool_QueryRow (SelectWallet id);
  match r with
  | Ok (i, row) => mret (scan_wallet i row, None)
  | Err err =>
      if errors_Is err ErrNoRows then mret (Wallet.zero, Some ErrWalletNotFound)
      else if String.eqb (sqlstate err) "22P02" then mret (Wallet.zero, Some ErrWalletNotFound)
      else mret (Wallet.zero, Some err)
  end.

(** ** Mint *)

(** The variables [w] and [applied] the transaction body captures. *)
Record mint_vars := MkMintVars { mv_w : Wallet.t; mv_applied : bool }.

(** The tail of the body: credit if the mint row is new, then read the wallet
    into [w]. *)
Definition mint_finish (walletID : string) (amountPaise : Z) (vars : mint_vars)
    : prog (mint_vars * option error) :=
  let read_back :=
    r ← tx_QueryRow (SelectWallet walletID);
    match r with
    | Ok (i, row) => mret (MkMintVars (scan_wallet i row) (mv_applied vars), None)
    | Err err => mret (vars, Some err)
    end in
  if mv_applied vars then
    r ← tx_Exec (CreditWallet amountPaise walletID);
    match r with
    | Err err => mret (vars, Some err)
    | Ok _ => read_back
    end
  else read_back.

Definition mint_body (walletID idemKey : string) (amountPaise : Z) (vars : mint_vars)
    : prog (mint_vars * option error) :=
  let vars := MkMintVars (mv_w vars) false in
  sp ← call Savepoint;
  match sp with
  | Err err => mret (vars, Some err)
  | Ok _ =>
      r ← tx_Exec (InsertMint idemKey walletID amountPaise);
      match r with
      | Ok _ =>
          let vars := MkMintVars (mv_w vars) true in
          c ← call ReleaseSavepoint;
          match c with
          | Err err => mret (vars, Some err)
          | Ok _ => mint_finish walletID amountPaise vars
          end
      | Err err =>
          call RollbackToSavepoint;;
          if String.eqb (sqlstate err) sqlstateUniqueViolation then
            mint_finish walletID amountPaise vars
          else if String.eqb (sqlstate err) sqlstateForeignKeyViolation ||
                  String.eqb (sqlstate err) "22P02" then
            mret (vars, Some ErrWalletNotFound)
          else mret (vars, Some err)
      end
  end.

Definition Mint (s : Store) (walletID idemKey : string) (amountPaise : Z)
    : prog (Wallet.t * bool * option error) :=
  '(vars, err) ← inTx s (mint_body walletID idemKey amountPaise) (MkMintVars Wallet.zero false);
  if Is err ErrNoRows then mret (Wallet.zero, false, Some ErrWalletNotFound)
  else mret (mv_w vars, mv_applied vars, err).
End wallets.
