(* ===== verification/Transfers.v ===== *)
(** * Transfers (internal/store/transfer.go) *)

From S2P Require Import Prelude Errors Database Session Sha256 Store.

Module TransferRequest.
Record t := Mk {
  RequesterUserID : string;
  FromWalletID : string;
  ToWalletID : string;
  AmountPaise : Z;
  IdempotencyKey : string
}.
End TransferRequest.
Import TransferRequest.

(** [storedTransfer]: a transfer with its fingerprint. *)
Record storedTransfer := MkStored { st_transfer : Transfer.t; st_fingerprint : string }.

(** The variables [result], [conflict] and [replayed] the body captures. *)
Record transfer_vars := MkTransferVars {
  tv_result : TransferResult.t;
  tv_conflict : bool;
  tv_replayed : bool
}.

Section transfers.
Context `{PgText}.

(** The [Scan] of a transfer row. *)
Definition scan_transfer (i : uuid) (r : transfer_row) : Transfer.t :=
  Transfer.Mk (uuid_out i) (t_status r) (t_decline_reason r)
    (uuid_out (t_from_wallet_id r)) (uuid_out (t_to_wallet_id r))
    (t_amount_paise r) (t_idempotency_key r) (t_created_at r) (t_completed_at r).

Definition transferByKey (userID key : string) : prog (storedTransfer * option error) :=
  r ← pool_QueryRow (SelectTransferByKey userID key);
  match r with
  | Ok (i, row) => mret (MkStored (scan_transfer i row) (t_request_fingerprint row), None)
  | Err err =>
      if errors_Is err ErrNoRows
      then mret (MkStored Transfer.zero "", Some ErrTransferNotFound)
      else mret (MkStored Transfer.zero "", Some err)
  end.

Definition GetTransfer (id : string) : prog (Transfer.t * option error) :=
  r ← pool_QueryRow (SelectTransfer id);
  match r with
  | Ok (i, row) => mret (scan_transfer i row, None)
  | Err err =>
      if errors_Is err ErrNoRows || String.eqb (sqlstate err) "22P02"
      then mret (Transfer.zero, Some ErrTransferNotFound)
      else mret (Transfer.zero, Some err)
  end.

(** ** The transaction body *)

(** Step 2: the two wallet ids in ascending order, as Go compares strings. *)
Definition lock_order (from to : string) : string * string :=
  if String.ltb to from then (to, from) else (from, to).

(** The loop that reads the two locked rows into [balances]. *)
Fixpoint read_balances (rs : list (result error (option (uuid * Z)))) (i n : nat)
    (balances : gmap string Z) : result error (gmap string Z) :=
  match n with
  | O => Ok balances
  | S n =>
      match scan_row (batch_result rs i) with
      | Err err => Err err
      | Ok (id, bal) => read_balances rs (S i) n (<[uuid_out id := bal]> balances)
      end
  end.

(** Locking both wallets in one batch: the balances read, or the error the
    body returns. *)
Definition lock_wallets (req : TransferRequest.t) : prog (result error (gmap string Z)) :=
  let '(lo, hi) := lock_order (FromWalletID req) (ToWalletID req) in
  br ← SendBatch [SelectWalletForNoKeyUpdate lo; SelectWalletForNoKeyUpdate hi];
  match read_balances br 0 2 ∅ with
  | Err err =>
      call BatchClose;;
      if errors_Is err ErrNoRows then mret (Err ErrWalletNotFound) else mret (Err err)
  | Ok balances =>
      c ← call BatchClose;
      match c with
      | Err err => mret (Err err)
      | Ok _ => mret (Ok balances)
      end
  end.

Definition with_status (t : Transfer.t) (status : string) (reason : option string)
    (completed : option timestamp) : Transfer.t :=
  Transfer.Mk (Transfer.ID t) status reason (Transfer.FromWalletID t) (Transfer.ToWalletID t)
    (Transfer.AmountPaise t) (Transfer.IdempotencyKey t) (Transfer.CreatedAt t) completed.

(** Step 3, short balance: record the decline. *)
Definition decline (t : Transfer.t) : prog (result error TransferResult.t) :=
  let reason := ReasonInsufficientFunds in
  r ← tx_QueryRow (DeclineTransfer (Transfer.ID t) reason);
  match r with
  | Err err => mret (Err err)
  | Ok completed =>
      let t := with_status t StatusDeclined (Some reason) (Some completed) in
      mret (Ok (TransferResult.Mk t false))
  end.

(** Step 4: the four statements of the apply batch, and the reading of their
    results. *)
Definition apply_batch (req : TransferRequest.t) (t : Transfer.t) : list (stmt Z) :=
  let amount := AmountPaise req in
  [ DebitWallet amount (FromWalletID req);
    CreditWallet amount (ToWalletID req);
    InsertLedger (Transfer.ID t) (FromWalletID req) (wrap64 (- amount)) (ToWalletID req) amount;
    SucceedTransfer (Transfer.ID t) ].

Definition read_apply (abr : list (result error Z)) : result error unit :=
  let? debit := batch_result abr 0 in
  let? _ := require (debit =? 1) errDebitLost in
  let? credit := batch_result abr 1 in
  let? _ := require (credit =? 1) ErrWalletNotFound in
  let? _ := batch_result abr 2 in
  let? _ := batch_result abr 3 in
  Ok tt.

Definition apply_transfer (req : TransferRequest.t) (t : Transfer.t)
    : prog (result error TransferResult.t) :=
  abr ← SendBatch (apply_batch req t);
  match read_apply abr with
  | Err err => call BatchClose;; mret (Err err)
  | Ok _ =>
      c ← call BatchClose;
      match c with
      | Err err => mret (Err err)
      | Ok _ =>
          let now := Transfer.CreatedAt t in
          let t := with_status t StatusSucceeded (Transfer.DeclineReason t) (Some now) in
          mret (Ok (TransferResult.Mk t false))
      end
  end.

Definition reset_vars : transfer_vars := MkTransferVars TransferResult.zero false false.

(** Steps 2 to 4, once the key is claimed. *)
Definition settle_claimed (req : TransferRequest.t) (t : Transfer.t)
    : prog (result error TransferResult.t) :=
  locked ← lock_wallets req;
  match locked with
  | Err err => mret (Err err)
  | Ok balances =>
      if default 0 (balances !! FromWalletID req) <? AmountPaise req
      then decline t
      else apply_transfer req t
  end.

(** The whole body of the money transaction. *)
Definition transfer_body (req : TransferRequest.t) (fingerprint : string) (vars : transfer_vars)
    : prog (transfer_vars * option error) :=
  r ← tx_QueryRow (InsertTransfer (IdempotencyKey req) (RequesterUserID req) (FromWalletID req)
                     (ToWalletID req) (AmountPaise req) fingerprint);
  match r with
  | Err err =>
      if String.eqb (sqlstate err) sqlstateUniqueViolation &&
         String.eqb (constraintName err) "transfers_idem_key"
      then mret (MkTransferVars TransferResult.zero false true, Some errReplay)
      else if String.eqb (sqlstate err) sqlstateForeignKeyViolation ||
              String.eqb (sqlstate err) "22P02"
      then mret (reset_vars, Some ErrWalletNotFound)
      else mret (reset_vars, Some err)
  | Ok (id, created_at) =>
      let t := Transfer.Mk (uuid_out id) "" None (FromWalletID req) (ToWalletID req)
                 (AmountPaise req) (IdempotencyKey req) created_at None in
      settled ← settle_claimed req t;
      match settled with
      | Err err => mret (reset_vars, Some err)
      | Ok result => mret (MkTransferVars result false false, None)
      end
  end.

(** ** Transfer *)

(** The replay path, on a fresh read outside the aborted transaction. *)
Definition replay (req : TransferRequest.t) (fingerprint : string)
    : prog (TransferResult.t * option error) :=
  '(existing, rerr) ← transferByKey (RequesterUserID req) (IdempotencyKey req);
  match rerr with
  | Some err => mret (TransferResult.zero, Some err)
  | None =>
      if negb (String.eqb (st_fingerprint existing) fingerprint)
      then mret (TransferResult.zero, Some ErrIdempotencyConflict)
      else mret (TransferResult.Mk (st_transfer existing) true, None)
  end.

Definition Transfer (s : Store) (req : TransferRequest.t)
    : prog (TransferResult.t * option error) :=
  if String.eqb (FromWalletID req) (ToWalletID req)
  then mret (TransferResult.zero, Some ErrSameWallet)
  else
    let fingerprint := Fingerprint (FromWalletID req) (ToWalletID req) (AmountPaise req) in
    '(vars, err) ← inTx s (transfer_body req fingerprint) reset_vars;
    if tv_replayed vars || Is err errReplay
    then replay req fingerprint
    else
      match err with
      | Some err => mret (TransferResult.zero, Some err)
      | None => mret (tv_result vars, None)
      end.
End transfers.
