(* ===== verification/InvariantAudit.v ===== *)
(** * The invariant audit (internal/store/transfer.go, [CheckInvariants]) *)

From S2P Require Import Prelude Errors Database Session.

Module Invariants.
Record t := Mk {
  WalletCount : Z;
  TotalBalancePaise : Z;
  TotalMintedPaise : Z;
  LedgerSumPaise : Z;
  NegativeBalances : Z;
  TransfersSucceeded : Z;
  TransfersDeclined : Z;
  PendingTransfers : Z;
  Conservation : bool;
  NoOverdraft : bool;
  AllHold : bool
}.
Definition zero : t := Mk 0 0 0 0 0 0 0 0 false false false.
End Invariants.
Import Invariants.

Section audit.
Context `{PgText}.

(** The [Scan] of a [numeric] or [bigint] column into an int64 fails out of
    range. *)
Definition scan_int64 (z : Z) : result error Z :=
  if in_int64 z then Ok z else Err (EScan "is greater than maximum value for int64").

Definition scan_counts (cols : list Z) : result error (list Z) :=
  foldr (λ z acc, let? v := scan_int64 z in let? vs := acc in Ok (v :: vs)) (Ok []) cols.

(** The three verdicts, computed from the eight counts. *)
Definition judge (wallets total minted ledger negative succeeded declined pending : Z)
    : Invariants.t :=
  let conservation := (total =? minted) && (ledger =? 0) in
  let no_overdraft := negative =? 0 in
  Invariants.Mk wallets total minted ledger negative succeeded declined pending
    conservation no_overdraft (conservation && no_overdraft && (pending =? 0)).

Definition CheckInvariants : prog (Invariants.t * option error) :=
  r ← pool_QueryRow SelectInvariants;
  match r with
  | Err err => mret (Invariants.zero, Some err)
  | Ok cols =>
      match scan_counts cols with
      | Ok [a; b; c; d; e; f; g; h] => mret (judge a b c d e f g h, None)
      | Ok _ => mret (Invariants.zero, Some (EScan "number of field descriptions"))
      | Err err => mret (Invariants.zero, Some err)
      end
  end.
End audit.
