(* ===== verification/Http.v ===== *)
(** * HTTP: requests, responses, the status recorder

    A handler is a program that answers the operations it performs on the
    response writer, in order; [statusRecorder] interprets them.  JSON bodies
    are kept as the values that are encoded. *)

From S2P Require Import Prelude Errors GoStrings Json Obs Session Store Wallets InvariantAudit.

(** ** Requests *)

(** [rq_path] is [URL.Path], [rq_escaped] is [URL.EscapedPath()], [rq_query] is
    [URL.Query().Get]; the router fills in [rq_pattern] and [rq_id], which is
    [PathValue("id")]. *)
Record request := MkRequest {
  rq_ctx : context;
  rq_method : string;
  rq_path : string;
  rq_escaped : string;
  rq_pattern : string;
  rq_header : string → string;
  rq_query : string → string;
  rq_id : string;
  rq_body : string
}.

(** [r.WithContext(ctx)] *)
Definition with_context (r : request) (ctx : context) : request :=
  MkRequest ctx (rq_method r) (rq_path r) (rq_escaped r) (rq_pattern r) (rq_header r) (rq_query r)
    (rq_id r) (rq_body r).

(** ** Responses *)

(** The text of a message; that of a decoder's error, into a struct of that
    name, is rendered in [ErrorTexts]. *)
Inductive message :=
| MText (s : string)
| MDecodeError (prefix struct : string) (e : decode_error).
Coercion MText : string >-> message.

Inductive payload :=
| PError (code : string) (msg : message) (correlation_id : string)
| PWallet (w : Wallet.t)
| PTransfer (t : Transfer.t)
| PInvariants (inv : Invariants.t)
| PHealth (version : string) (uptime_seconds : Z)
| PReady
| PDegraded (e : error)
| PIndex (version : string)
| PLogs (count subscribers : Z) (lines : list string)
| PData (line : string)
| PHeartbeat
| PPage (name : string)
| PMetrics
| PText (s : string)
| PMoved (path : string).

(** [Abort] is no call of the handler: it marks a response whose handler let a
    panic escape, so that net/http closed the connection, and of what was
    written only what had been flushed is sure to have been sent. *)
Inductive write_op :=
| SetHeader (key value : string)
| WriteHeader (code : Z)
| WriteBody (p : payload)
| Flush
| Abort.

Definition writeJSON (status : Z) (v : payload) : list write_op :=
  [SetHeader "Content-Type" "application/json; charset=utf-8"; WriteHeader status; WriteBody v].

Definition writeError (r : request) (status : Z) (code : string) (msg : message) : list write_op :=
  writeJSON status (PError code msg (CorrelationID (rq_ctx r))).

(** The HTTP status codes used. *)
Definition StatusOK : Z := 200.
Definition StatusCreated : Z := 201.
Definition StatusMovedPermanently : Z := 301.
Definition StatusBadRequest : Z := 400.
Definition StatusUnauthorized : Z := 401.
Definition StatusForbidden : Z := 403.
Definition StatusNotFound : Z := 404.
Definition StatusMethodNotAllowed : Z := 405.
Definition StatusConflict : Z := 409.
Definition StatusUnprocessableEntity : Z := 422.
Definition StatusInternalServerError : Z := 500.
Definition StatusServiceUnavailable : Z := 503.

(** ** The status recorder

    [rec_sent] is the status the underlying writer sent. *)

Record statusRecorder := MkRecorder { rec_status : Z; rec_sent : option Z }.

Definition recorder_WriteHeader (w : statusRecorder) (code : Z) : statusRecorder :=
  if rec_status w =? 0 then MkRecorder code (match rec_sent w with None => Some code | s => s end)
  else w.

Definition recorder_Write (w : statusRecorder) : statusRecorder :=
  let w := if rec_status w =? 0 then MkRecorder StatusOK (rec_sent w) else w in
  MkRecorder (rec_status w) (match rec_sent w with None => Some StatusOK | s => s end).

(** [Flush] goes straight to the underlying writer, which sends its header. *)
Definition recorder_Flush (w : statusRecorder) : statusRecorder :=
  MkRecorder (rec_status w) (match rec_sent w with None => Some StatusOK | s => s end).

Definition record_op (w : statusRecorder) (op : write_op) : statusRecorder :=
  match op with
  | SetHeader _ _ => w
  | WriteHeader code => recorder_WriteHeader w code
  | WriteBody _ => recorder_Write w
  | Flush => recorder_Flush w
  | Abort => w
  end.

Definition record_ops (ops : list write_op) : statusRecorder :=
  foldl record_op (MkRecorder 0 None) ops.

(** The status a list of operations answers with. *)
Definition status_of (ops : list write_op) : Z := rec_status (record_ops ops).

(** ** Handlers *)

(** The dependencies of the handlers. *)
Record Server := MkServer {
  sv_store : Store;
  sv_level : Level;
  sv_adminToken : string;
  sv_version : string
}.

Definition handler : Type := request → prog (list write_op).

(** [s.log.XContext(ctx, msg, attrs...)]: a line, if the level is enabled.  The
    call may panic once the line is out; [unwind] then cuts the program here. *)
Definition log_at (s : Server) (ctx : context) (level : Level) (msg : string)
    (attrs : list (string * attr_value)) : prog unit :=
  if Enabled (sv_level s) level
  then call (Emit (EvLog (Handle ctx (MkRecord level msg attrs))))
  else mret tt.

Definition metric (m : metric_op) : prog unit := call (Emit (EvMetric m)).

(** ** Lemmas *)

Lemma status_of_writeJSON status v : status ≠ 0 → status_of (writeJSON status v) = status.
Proof.
  intros Hs. unfold status_of, record_ops. simpl. unfold recorder_WriteHeader. simpl.
  unfold recorder_Write. simpl. by rewrite (proj2 (Z.eqb_neq _ _) Hs).
Qed.

Lemma status_of_writeError r status code msg :
  status ≠ 0 → status_of (writeError r status code msg) = status.
Proof. apply status_of_writeJSON. Qed.

(** The correlation header and the closing of the connection leave the status. *)
Lemma status_of_wrapped k v ops tail :
  tail = [] ∨ tail = [Abort] → status_of (SetHeader k v :: ops ++ tail) = status_of ops.
Proof. unfold status_of, record_ops. simpl. rewrite foldl_app. by intros [-> | ->]. Qed.

(** The status recorded is the one the client was sent. *)
Definition rec_ok (w : statusRecorder) : Prop :=
  rec_sent w = if rec_status w =? 0 then None else Some (rec_status w).

Lemma record_op_ok w op :
  (∀ code, op = WriteHeader code → code ≠ 0) → op ≠ Flush → rec_ok w → rec_ok (record_op w op).
Proof.
  unfold rec_ok. intros Hop Hfl Hw. destruct op as [|code|p| |]; simpl; [done| | |done|done];
    unfold recorder_WriteHeader, recorder_Write; destruct (rec_status w =? 0) eqn:Hz; simpl; try done.
  - specialize (Hop code eq_refl). apply Z.eqb_neq in Hop as ->. by rewrite Hw.
  - by rewrite Hz.
  - by rewrite Hw.
  - by rewrite Hz, Hw.
Qed.

Lemma record_ops_ok ops :
  (∀ code, WriteHeader code ∈ ops → code ≠ 0) → Flush ∉ ops → rec_ok (record_ops ops).
Proof.
  unfold record_ops. assert (H0 : rec_ok (MkRecorder 0 None)) by done. revert H0.
  generalize (MkRecorder 0 None). induction ops as [|op ops IH]; intros w Hw Hc Hf; simpl; [done|].
  apply not_elem_of_cons in Hf as [Hf Hfs].
  apply IH; [apply record_op_ok; [|done|done]| |done]; intros; apply Hc; [subst; by left|by right].
Qed.
