(* ===== verification/Responses.v ===== *)
(** * Response bodies (internal/api/handlers.go, [errorBody], [writeJSON]; the JSON tags of internal/store)

    Each payload as the JSON value the encoder makes of it, by the struct tags
    and in their order, maps by sorted keys; the text written, with the raw
    lines of the log copied as the encoder copies raw messages; and a client
    that reads the text back.  The zone of the driver's times and the texts of
    its errors are an interface. *)

From Stdlib Require Import Ascii String.
From S2P Require Import Prelude GoStrings Json JsonText Encoding Compact Errors Database Obs Session Store.
From S2P Require Import Wallets InvariantAudit Http Timestamps ErrorTexts.

#[local] Open Scope string_scope.
#[local] Open Scope Z_scope.

(** What the code does not decide: the zone of the times the driver gives, in
    minutes east of UTC, the text of an error, and the runes beyond Latin-1
    that print. *)
Class Texts := {
  zone : timestamp → Z;
  error_out : error → string;
  printable : Z → bool
}.

Section responses.
Context `{Texts}.

(** ** The JSON of a payload *)

Definition number (z : Z) : json := JNumber (Itoa z).
Definition time (t : timestamp) : json := JString (time_text (zone t) t).

(** A field left out when it is nil. *)
Definition omitempty {A} (name : string) (f : A → json) (o : option A) : list (string * json) :=
  match o with Some a => [(name, f a)] | None => [] end.

Definition wallet_json (w : Wallet.t) : json :=
  JObject [("id", JString (Wallet.ID w)); ("user_id", JString (Wallet.UserID w));
           ("balance_paise", number (Wallet.BalancePaise w)); ("created_at", time (Wallet.CreatedAt w))].

Definition transfer_json (t : Transfer.t) : json :=
  JObject (
    [("id", JString (Transfer.ID t)); ("status", JString (Transfer.Status t))] ++
    omitempty "decline_reason" JString (Transfer.DeclineReason t) ++
    [("from", JString (Transfer.FromWalletID t)); ("to", JString (Transfer.ToWalletID t));
     ("amount_paise", number (Transfer.AmountPaise t));
     ("idempotency_key", JString (Transfer.IdempotencyKey t)); ("created_at", time (Transfer.CreatedAt t))] ++
    omitempty "completed_at" time (Transfer.CompletedAt t))%list.

Definition invariants_json (inv : Invariants.t) : json :=
  JObject [("wallet_count", number (Invariants.WalletCount inv));
           ("total_balance_paise", number (Invariants.TotalBalancePaise inv));
           ("total_minted_paise", number (Invariants.TotalMintedPaise inv));
           ("ledger_sum_paise", number (Invariants.LedgerSumPaise inv));
           ("negative_balance_wallets", number (Invariants.NegativeBalances inv));
           ("transfers_succeeded", number (Invariants.TransfersSucceeded inv));
           ("transfers_declined", number (Invariants.TransfersDeclined inv));
           ("transfers_stuck_pending", number (Invariants.PendingTransfers inv));
           ("conservation_holds", JBool (Invariants.Conservation inv));
           ("no_overdraft_holds", JBool (Invariants.NoOverdraft inv));
           ("all_invariants_hold", JBool (Invariants.AllHold inv))].

(** [errorBody] *)
Definition error_json (code msg correlation_id : string) : json :=
  JObject [("error", JObject [("code", JString code); ("message", JString msg);
                              ("correlation_id", JString correlation_id)])].

Definition message_out (m : message) : string :=
  match m with
  | MText s => s
  | MDecodeError prefix struct e => prefix +:+ decode_error_text printable struct e
  end.

Definition health_json (version : string) (uptime_seconds : Z) : json :=
  JObject [("status", JString "ok"); ("uptime_seconds", number uptime_seconds); ("version", JString version)].

(** [handleIndex], by sorted keys *)
Definition index_json (version : string) : json :=
  JObject [
    ("endpoints", JObject [
      ("GET /dashboard", JString "live metrics dashboard");
      ("GET /healthz", JString "liveness");
      ("GET /invariants", JString "live invariant audit, recomputed from base tables");
      ("GET /logs", JString "live structured log stream (public)");
      ("GET /metrics", JString "prometheus metrics");
      ("GET /readyz", JString "readiness (checks database)");
      ("GET /transfers/{id}", JString "transfer status");
      ("GET /wallets/{id}", JString "current balance");
      ("POST /admin/mint", JString "test funding (admin bearer token); NOT a transfer");
      ("POST /transfers", JString "move money; body: from, to, amount_paise, idempotency_key");
      ("POST /wallets", JString "get-or-create the caller's wallet (bearer token = identity)")]);
    ("money", JString "all amounts are integer paise; there is no float in this service");
    ("service", JString "wallet-p2p"); ("version", JString version)].

Definition ready_json : json := JObject [("db", JString "ok"); ("status", JString "ready")].

Definition degraded_json (e : error) : json :=
  JObject [("db", JString "unreachable"); ("error", JString (error_out e)); ("status", JString "degraded")].

(** The payloads [writeJSON] encodes as values. *)
Definition payload_json (p : payload) : option json :=
  match p with
  | PError code msg id => Some (error_json code (message_out msg) id)
  | PWallet w => Some (wallet_json w)
  | PTransfer t => Some (transfer_json t)
  | PInvariants inv => Some (invariants_json inv)
  | PHealth version uptime => Some (health_json version uptime)
  | PReady => Some ready_json
  | PDegraded e => Some (degraded_json e)
  | PIndex version => Some (index_json version)
  | _ => None
  end.

(** The times in a payload, which [MarshalJSON] prints or refuses. *)
Definition payload_times (p : payload) : list timestamp :=
  match p with
  | PWallet w => [Wallet.CreatedAt w]
  | PTransfer t => Transfer.CreatedAt t :: option_list (Transfer.CompletedAt t)
  | _ => []
  end.

Definition times_fit (p : payload) : bool := forallb (λ t, time_fits (zone t) t) (payload_times p).

(** [json.NewEncoder(w).Encode(v)] *)
Definition Encode (v : json) : string := encode EncodingJSON v +:+ String (byte 10) "".

(** The recent lines, raw messages in a map. *)
Definition logs_text (count subscribers : Z) (lines : list string) : string :=
  "{" +:+ comma_separated (List.map member_text
    [("count", Itoa count);
     ("lines", "[" +:+ comma_separated (List.map (compact Outside) lines) +:+ "]");
     ("subscribers", Itoa subscribers)]) +:+ "}".

(** What is written of a payload: nothing when a raw message is not JSON or a
    time does not fit, which the encoder reports and [writeJSON] ignores. *)
Definition body_text (p : payload) : option string :=
  match p with
  | PLogs count subscribers lines =>
      Some (if forallb Valid lines then logs_text count subscribers lines +:+ String (byte 10) "" else "")
  | _ => option_map (λ v, if times_fit p then Encode v else "") (payload_json p)
  end.

(** ** A client *)

Definition read_body (text : string) : option json :=
  match scan_document text with
  | Ok (v, rest) => if String.eqb (skip_space rest) "" then Some v else None
  | Err _ => None
  end.

Definition field (name : string) (v : json) : option json :=
  match v with
  | JObject ms => option_map snd (List.find (λ m, String.eqb m.1 name) ms)
  | _ => None
  end.

Definition read_text (name : string) (v : json) : option string :=
  match field name v with Some (JString s) => Some s | _ => None end.
Definition read_int (name : string) (v : json) : option Z :=
  match field name v with Some (JNumber lit) => Atoi lit | _ => None end.
Definition read_bool (name : string) (v : json) : option bool :=
  match field name v with Some (JBool b) => Some b | _ => None end.
Definition read_time (name : string) (v : json) : option timestamp := read_text name v ≫= parse_time.

(** A field that may be missing. *)
Definition read_opt {A} (read : string → json → option A) (name : string) (v : json) : option (option A) :=
  match field name v with Some _ => option_map Some (read name v) | None => Some None end.

Definition read_wallet (v : json) : option Wallet.t :=
  id ← read_text "id" v; user ← read_text "user_id" v; balance ← read_int "balance_paise" v;
  created ← read_time "created_at" v; Some (Wallet.Mk id user balance created).

Definition read_transfer (v : json) : option Transfer.t :=
  id ← read_text "id" v; status ← read_text "status" v; reason ← read_opt read_text "decline_reason" v;
  from ← read_text "from" v; to ← read_text "to" v; amount ← read_int "amount_paise" v;
  key ← read_text "idempotency_key" v; created ← read_time "created_at" v;
  completed ← read_opt read_time "completed_at" v;
  Some (Transfer.Mk id status reason from to amount key created completed).

Definition read_invariants (v : json) : option Invariants.t :=
  a ← read_int "wallet_count" v; b ← read_int "total_balance_paise" v; c ← read_int "total_minted_paise" v;
  d ← read_int "ledger_sum_paise" v; e ← read_int "negative_balance_wallets" v;
  f ← read_int "transfers_succeeded" v; g ← read_int "transfers_declined" v;
  h ← read_int "transfers_stuck_pending" v; x ← read_bool "conservation_holds" v;
  y ← read_bool "no_overdraft_holds" v; z ← read_bool "all_invariants_hold" v;
  Some (Invariants.Mk a b c d e f g h x y z).

Definition read_error (v : json) : option (string * string * string) :=
  e ← field "error" v; code ← read_text "code" e; msg ← read_text "message" e;
  id ← read_text "correlation_id" e; Some (code, msg, id).

(** ** Reading back *)

(** A text that is UTF-8. *)
Definition utf8 (s : string) : bool := String.eqb (sanitize s) s.

Lemma utf8_sanitize s : utf8 s = true → sanitize s = s.
Proof. apply String.eqb_eq. Qed.

Lemma sanitize_ascii s : ascii7 s = true → sanitize s = s.
Proof.
  unfold sanitize. induction s as [|c s IH]; [done|]. cbn [ascii7 String.length sanitize_bytes].
  rewrite !andb_true_iff. intros [[_ Hc] Hs]. unfold code. rewrite Hc. by rewrite IH.
Qed.

Lemma Atoi_minus s n :
  s ≠ "" → digits 0 s = Some n → Atoi (String "-" s) = if in_int64 (-1 * n) then Some (-1 * n) else None.
Proof. intros Hs Hd. destruct s; [done|]. unfold Atoi. by rewrite Hd. Qed.

Lemma Atoi_number z : in_int64 z = true → Atoi (Itoa z) = Some z.
Proof.
  intros Hz. destruct z as [|p|p]; [done|apply Atoi_Itoa; apply in_int64_spec in Hz; lia|].
  change (Itoa (Z.neg p)) with (String "-" (Itoa (Z.pos p))).
  destruct (Itoa_spec (Z.pos p)) as (c & d & Heq & _ & _ & _ & Hd); [lia|]. rewrite Heq.
  rewrite (Atoi_minus _ (Z.pos p)) by done. change (-1 * Z.pos p) with (Z.neg p). by rewrite Hz.
Qed.

Lemma read_Encode v : encodable v = true → read_body (Encode v) = Some (sanitized v).
Proof. intros Hv. unfold read_body, Encode. by rewrite scan_encode by (done || by apply delimited_byte). Qed.

Lemma encodable_number z : encodable (number z) = true.
Proof. apply is_number_Itoa. Qed.

(** Everything the service encodes is a JSON text. *)
Lemma payload_encodable p v : payload_json p = Some v → encodable v = true.
Proof.
  destruct p; intros [= <-]; try done.
  - cbn. by rewrite is_number_Itoa.
  - unfold transfer_json, omitempty.
    destruct (Transfer.DeclineReason t), (Transfer.CompletedAt t); cbn; by rewrite is_number_Itoa.
  - cbn. by rewrite !is_number_Itoa.
  - cbn. by rewrite is_number_Itoa.
Qed.

Lemma read_payload p v :
  payload_json p = Some v → times_fit p = true →
  ∃ text, body_text p = Some text ∧ read_body text = Some (sanitized v).
Proof.
  intros Hv Hfit. exists (Encode v). split.
  { assert (body_text p = option_map (λ v, if times_fit p then Encode v else "") (payload_json p)) as -> by by destruct p.
    by rewrite Hv, Hfit. }
  by apply read_Encode, (payload_encodable p).
Qed.

(** A valid line has a value. *)
Lemma Valid_read line : Valid line = true → ∃ v, read_body line = Some v ∧ denotes (compact Outside line) v.
Proof.
  unfold Valid, read_body. destruct (scan_document line) as [[v rest]|] eqn:Hs; [|done].
  intros Hr. rewrite Hr. exists v. split; [done|]. eapply compact_denotes; [exact Hs|by apply String.eqb_eq].
Qed.

(** The recent lines: their number, and what a reader gets of each. *)
Definition logs_json (count subscribers : Z) (vs : list json) : json :=
  JObject [("count", number count); ("lines", JArray vs); ("subscribers", number subscribers)].

Lemma read_logs count subscribers lines :
  forallb Valid lines = true →
  ∃ text vs, body_text (PLogs count subscribers lines) = Some text ∧
    Forall2 (λ line v, read_body line = Some v) lines vs ∧
    read_body text = Some (logs_json count subscribers vs).
Proof.
  intros Hlines. unfold body_text. rewrite Hlines.
  assert (Hvs : ∃ vs, Forall2 (λ line v, read_body line = Some v) lines vs ∧
    Forall2 denotes (List.map (compact Outside) lines) vs).
  { clear count subscribers. induction lines as [|line lines IH]; [by exists []|]. cbn [forallb] in Hlines.
    apply andb_true_iff in Hlines as [Hl Hlines]. destruct (IH Hlines) as (vs & H1 & H2).
    destruct (Valid_read line Hl) as (v & Hv & Hd). exists (v :: vs). by split; constructor. }
  destruct Hvs as (vs & H1 & H2). eexists _, vs. split; [done|]. split; [done|].
  unfold read_body. erewrite scan_denoted; [done| |by apply delimited_byte].
  assert (Hk : ∀ k, ascii7 k = true → escape EncodingJSON k = k → spells k k).
  { intros k Ha Hk. rewrite <- Hk at 1. rewrite <- (sanitize_ascii k Ha) at 2. apply spells_escape. }
  unfold logs_text, logs_json. apply denotes_object.
  constructor; [|constructor; [|constructor; [|constructor]]]; (split; [apply Hk; reflexivity|]); cbn [fst snd].
  - apply denotes_number, is_number_Itoa.
  - by apply denotes_array.
  - apply denotes_number, is_number_Itoa.
Qed.

(** ** Records

    Texts are UTF-8, numbers are int64s. *)

Definition wallet_printable (w : Wallet.t) : bool :=
  utf8 (Wallet.ID w) && utf8 (Wallet.UserID w) && in_int64 (Wallet.BalancePaise w) && times_fit (PWallet w).

Definition transfer_printable (t : Transfer.t) : bool :=
  utf8 (Transfer.ID t) && utf8 (Transfer.Status t) && utf8 (Transfer.FromWalletID t) &&
  utf8 (Transfer.ToWalletID t) && utf8 (Transfer.IdempotencyKey t) &&
  utf8 (default "" (Transfer.DeclineReason t)) && in_int64 (Transfer.AmountPaise t) && times_fit (PTransfer t).

Definition invariants_printable (inv : Invariants.t) : bool :=
  forallb in_int64 [Invariants.WalletCount inv; Invariants.TotalBalancePaise inv; Invariants.TotalMintedPaise inv;
    Invariants.LedgerSumPaise inv; Invariants.NegativeBalances inv; Invariants.TransfersSucceeded inv;
    Invariants.TransfersDeclined inv; Invariants.PendingTransfers inv].

#[local] Opaque sanitize utf8 Itoa Atoi time_text parse_time time_fits.

Ltac sanitize_texts :=
  repeat match goal with
  | Hu : utf8 ?s = true |- context [sanitize ?s] => rewrite (utf8_sanitize s Hu)
  | |- context [sanitize ?s] => rewrite (sanitize_ascii s) by reflexivity
  | Hf : time_fits ?z ?t = true |- context [sanitize (time_text ?z ?t)] => rewrite (sanitize_ascii _ (ascii7_time z t Hf))
  end.

Lemma wallet_printable_times w : wallet_printable w = true → times_fit (PWallet w) = true.
Proof. unfold wallet_printable. rewrite !andb_true_iff. tauto. Qed.

Lemma transfer_printable_times t : transfer_printable t = true → times_fit (PTransfer t) = true.
Proof. unfold transfer_printable. rewrite !andb_true_iff. tauto. Qed.

Lemma read_wallet_back w : wallet_printable w = true → read_wallet (sanitized (wallet_json w)) = Some w.
Proof.
  unfold wallet_printable, times_fit. cbn [payload_times forallb]. rewrite !andb_true_iff. intros [[[Hi Hu] Hb] [Hf _]].
  unfold wallet_json, number, time. cbn [sanitized List.map fst snd]. sanitize_texts.
  unfold read_wallet, read_time. cbn. rewrite Atoi_number by done. cbn. rewrite parse_time_back by done. by destruct w.
Qed.

Lemma read_transfer_back t : transfer_printable t = true → read_transfer (sanitized (transfer_json t)) = Some t.
Proof.
  unfold transfer_printable, times_fit. rewrite !andb_true_iff. intros [[[[[[[Hi Hs] Hf] Ht] Hk] Hr] Ha] Hx].
  destruct t as [id status reason from to amount key created completed].
  cbn [payload_times Transfer.CreatedAt Transfer.CompletedAt forallb] in Hx. apply andb_true_iff in Hx as [Hx Hy].
  assert (Hy' : ∀ c, completed = Some c → time_fits (zone c) c = true)
    by (intros c ->; cbn in Hy; by rewrite andb_true_r in Hy). clear Hy. cbn in *.
  unfold transfer_json, omitempty, number, time. cbn.
  destruct reason as [reason|], completed as [completed|]; try specialize (Hy' _ eq_refl); cbn in *; sanitize_texts;
    unfold read_transfer, read_opt, read_time; cbn; rewrite Atoi_number by done; cbn;
    by rewrite !parse_time_back.
Qed.

Lemma read_invariants_back inv :
  invariants_printable inv = true → read_invariants (sanitized (invariants_json inv)) = Some inv.
Proof.
  unfold invariants_printable. cbn [forallb]. rewrite !andb_true_iff.
  intros (H1 & H2 & H3 & H4 & H5 & H6 & H7 & H8 & _).
  unfold invariants_json, number. cbn [sanitized List.map fst snd]. sanitize_texts.
  unfold read_invariants. cbn. rewrite !Atoi_number by done. by destruct inv.
Qed.

Lemma read_error_back code msg id :
  read_error (sanitized (error_json code msg id)) = Some (sanitize code, sanitize msg, sanitize id).
Proof. unfold error_json. cbn [sanitized List.map fst snd]. reflexivity. Qed.

(** A record whose JSON a client turns back into the record. *)
Lemma read_record {A} (read : json → option A) p v a :
  payload_json p = Some v → times_fit p = true → read (sanitized v) = Some a →
  ∃ text, body_text p = Some text ∧ read_body text ≫= read = Some a.
Proof. intros Hv Hf Ha. destruct (read_payload p v Hv Hf) as (text & Ht & Hr). exists text. by rewrite Hr. Qed.

End responses.

(** Times in UTC, one text for all errors, nothing beyond Latin-1 in quotes. *)
Definition utc_texts : Texts :=
  {| zone := λ _, 0; error_out := λ _, "error"; printable := latin_only |}.

(** ** Property *)

(** C17: What the service answers is what a client reads.  The body written for any
    payload is a JSON text that reads back as the payload's value; the recent
    lines of the log, copied raw without their space and with markup escaped,
    read back as their number and the value of every line, in order; a wallet, a transfer -- with or without its optional fields -- and an
    audit read back field by field as the very record the handler had, for
    texts in UTF-8, numbers in 64 bits and times in years of four digits,
    printed in whatever zone; and an error body gives its code,
    its message and its correlation id, bytes that are not UTF-8 replaced,
    whatever quotes, controls or markup the client put in them. *)
Theorem response_reads_back `{Texts} :
  (∀ p v, payload_json p = Some v → times_fit p = true → ∃ text, body_text p = Some text ∧ read_body text = Some (sanitized v)) ∧
  (∀ w, wallet_printable w = true →
    ∃ text, body_text (PWallet w) = Some text ∧ read_body text ≫= read_wallet = Some w) ∧
  (∀ t, transfer_printable t = true →
    ∃ text, body_text (PTransfer t) = Some text ∧ read_body text ≫= read_transfer = Some t) ∧
  (∀ inv, invariants_printable inv = true →
    ∃ text, body_text (PInvariants inv) = Some text ∧ read_body text ≫= read_invariants = Some inv) ∧
  (∀ code msg id, ∃ text, body_text (PError code msg id) = Some text ∧
    read_body text ≫= read_error = Some (sanitize code, sanitize (message_out msg), sanitize id)) ∧
  (∀ count subscribers lines, forallb Valid lines = true →
    ∃ text vs, body_text (PLogs count subscribers lines) = Some text ∧
      Forall2 (λ line v, read_body line = Some v) lines vs ∧
      read_body text = Some (logs_json count subscribers vs)).
Proof.
  split_and!; intros.
  - by apply read_payload.
  - eapply read_record; [done|by apply wallet_printable_times|by apply read_wallet_back].
  - eapply read_record; [done|by apply transfer_printable_times|by apply read_transfer_back].
  - by eapply read_record; [done|done|apply read_invariants_back].
  - by eapply read_record; [done|done|apply read_error_back].
  - by apply read_logs.
Qed.

(** A declined transfer under a key with quotes, and the body of an error whose
    correlation id is markup and a lone continuation byte. *)
Definition declined_transfer : Transfer.t :=
  Transfer.Mk "t1" "declined" (Some "insufficient_funds") "w1" "w2" 9223372036854775807
    (String quote ("k<>" +:+ String backslash (String (byte 9) ""))) 1735689600000000 None.

Lemma response_reads_back_witness :
  (∃ text, @body_text utc_texts (PTransfer declined_transfer) = Some text ∧
    read_body text ≫= read_transfer = Some declined_transfer) ∧
  (∃ text, @body_text utc_texts (PError "not_found" "no such wallet" ("<b>" +:+ String (byte 128) "")) = Some text ∧
    read_body text ≫= read_error = Some ("not_found", "no such wallet", "<b>" +:+ encode_rune replacement)).
Proof.
  destruct (@response_reads_back utc_texts) as (_ & _ & Ht & _ & He & _). split.
  - apply Ht. by vm_compute.
  - destruct (He "not_found" "no such wallet" ("<b>" +:+ String (byte 128) "")) as (text & Htext & Hread).
    exists text. split; [exact Htext|]. rewrite Hread. by vm_compute.
Defined.
