(* ===== verification/Middleware.v ===== *)
(** * Middleware (internal/api/middleware.go)

    Correlation ids, the observing wrapper around every request, which recovers
    its panics, bearer-token authentication and the admin gate. *)

From Stdlib Require Import Ascii String.
From S2P Require Import Prelude GoStrings Errors Database Obs Session Sha256 Store Wallets Http.

#[local] Open Scope string_scope.
#[local] Open Scope Z_scope.

Definition correlationHeader : string := "X-Correlation-Id".

(** [strconv.FormatInt(n, 36)] of a non-negative [n]. *)
Definition base36_digit (d : Z) : Ascii.ascii :=
  Ascii.ascii_of_N (Z.to_N (if d <? 10 then 48 + d else 87 + d)).

Fixpoint format36 (fuel : nat) (n : Z) (acc : string) : string :=
  match fuel with
  | O => acc
  | S fuel =>
      let acc := String (base36_digit (n mod 36)) acc in
      if n / 36 =? 0 then acc else format36 fuel (n / 36) acc
  end.

(** [newCorrelationID]: [random] is what [rand.Read] filled in, [None] if it
    failed; [nanos] is the clock. *)
Definition newCorrelationID (random : option string) (nanos : Z) : string :=
  match random with
  | None => format36 13 nanos ""
  | Some b => "req_" +:+ hex b
  end.

(** [routeLabel]: the pattern from its first slash on. *)
Definition routeLabel (r : request) : string :=
  let p := rq_pattern r in
  if negb (String.eqb p "") then
    let i := IndexByte p "/"%char in
    if 0 <=? i then drop_bytes (Z.to_nat i) p else p
  else "unmatched".

Definition isNoisyRoute (route : string) : bool :=
  existsb (String.eqb route)
    ["/metrics"; "/logs"; "/logs/stream"; "/logs/recent"; "/healthz"; "/"; "/dashboard"].

(** The deferred function of [observe] that recovers, counts and logs, run once
    the handler returned or panicked with [status] recorded. *)
Definition observe_deferred (s : Server) (ctx : context) (r : request) (panicked : bool) (status : Z)
    : prog unit :=
  (if panicked then
     log_at s ctx LevelError "panic recovered" [("panic", AOpaque); ("path", AString (rq_path r))]
   else mret tt);;
  let route := routeLabel r in
  let status := if status =? 0 then StatusOK else status in
  metric (HTTPDurationObserve (rq_method r) route);;
  metric (HTTPRequestsInc (rq_method r) route (Itoa status));;
  (if negb (isNoisyRoute route) then
     log_at s ctx LevelInfo "http_request"
       [("event", AString "http_request"); ("method", AString (rq_method r)); ("route", AString route);
        ("path", AString (rq_path r)); ("status", AInt64 status); ("duration_ms", AOpaque);
        ("bytes", AOpaque)]
   else mret tt).

(** [next.ServeHTTP] as the wrapper meets it: what it wrote and whether it
    panicked.  A handler writes nothing before its last log line, so one that
    is unwound has written nothing. *)
Definition recovered (panics : nat → bool) (next : handler) : request → prog (list write_op * bool) := λ r,
  result ← unwind panics (next r);
  mret (match result with Some ops => (ops, false) | None => ([], true) end).

(** [observe]: [next] answers its writes and whether it panicked after them,
    [closing] is which lines of the deferred function panic.  Such a panic is
    recovered by nobody here: the gauge is still lowered, by the function
    deferred first, and net/http aborts the connection.  The result is every
    operation on the client's writer. *)
Definition observe (s : Server) (closing : nat → bool) (random : option string) (nanos : Z)
    (next : request → prog (list write_op * bool)) (r : request) : prog (list write_op) :=
  let header := rq_header r correlationHeader in
  let id := if String.eqb header "" then newCorrelationID random nanos else header in
  let ctx := WithCorrelationID (rq_ctx r) id in
  let r := with_context r ctx in
  metric HTTPInFlightInc;;
  '(ops, panicked) ← next r;
  let status := status_of ops in
  let unanswered := panicked && (status =? 0) in
  let status := if unanswered then StatusInternalServerError else status in
  closed ← unwind closing (observe_deferred s ctx r panicked status);
  metric HTTPInFlightDec;;
  mret (SetHeader correlationHeader id ::
        ops ++
        (if unanswered
         then writeError r StatusInternalServerError "internal_error" "unexpected server error"
         else []) ++
        (match closed with Some _ => [] | None => [Abort] end)).

(** [bearerToken] *)
Definition bearerToken (r : request) : option string :=
  let h := rq_header r "Authorization" in
  if (String.length h <? 8)%nat || negb (EqualFold (take_bytes 7 h) "bearer ") then None
  else
    let token := TrimSpace (drop_bytes 7 h) in
    if String.eqb token "" then None else Some token.

Section auth.
Context `{PgText}.

(** [authenticate] *)
Definition authenticate (s : Server) (next : User.t → handler) : handler := λ r,
  match bearerToken r with
  | None =>
      mret (writeError r StatusUnauthorized "unauthorized"
              "provide a bearer token: Authorization: Bearer <token>")
  | Some token =>
      '(user, err) ← UpsertUser token;
      match err with
      | Some err =>
          log_at s (rq_ctx r) LevelError "auth failed" [("error", AErrorText err)];;
          mret (writeError r StatusInternalServerError "internal_error" "could not resolve caller")
      | None =>
          let ctx := WithCorrelationID (rq_ctx r) (CorrelationID (rq_ctx r)) in
          next user (with_context r ctx)
      end
  end.

(** [requireAdmin] *)
Definition requireAdmin (s : Server) (next : handler) : handler := λ r,
  match bearerToken r with
  | Some token =>
      if String.eqb token (sv_adminToken s) then next r
      else mret (writeError r StatusForbidden "forbidden" "admin token required")
  | None => mret (writeError r StatusForbidden "forbidden" "admin token required")
  end.
End auth.
