(* ===== verification/Handlers.v ===== *)
(** * The handlers of the money API (internal/api/handlers.go)

    Each handler as a program over the store: the decoding of its body, its
    validation, its store calls, its metrics and log lines, its response. *)

From Stdlib Require Import Ascii String.
From S2P Require Import Prelude GoStrings Json Errors Database Obs Session Store Wallets Transfers.
From S2P Require Import InvariantAudit Http Middleware.

#[local] Open Scope string_scope.
#[local] Open Scope Z_scope.

Module transferRequestBody.
Record t := Mk { From : string; To : string; AmountPaise : option Z; IdempotencyKey : string }.
End transferRequestBody.

Module mintRequestBody.
Record t := Mk { WalletID : string; AmountPaise : option Z; IdempotencyKey : string }.
End mintRequestBody.

(** ** decodeJSON *)

Definition maxBodyBytes : Z := Z.shiftl 8 10.

(** The first [maxBodyBytes] bytes are read; nothing but space may follow the
    value in them. *)
Definition decodeJSON {T} (names : list string) (store : string → json → T → T * option decode_error)
    (zero : T) (r : request) : result decode_error T :=
  let input := take_bytes (Z.to_nat maxBodyBytes) (rq_body r) in
  let? (v, rest) := scan_document input in
  let? dst := decode_struct names store zero v in
  match skip_space rest with
  | EmptyString => Ok dst
  | _ => Err DTrailing
  end.

(** The fields of the two bodies, by their json tags. *)
Definition transfer_names : list string := ["from"; "to"; "amount_paise"; "idempotency_key"].

Definition store_transfer (name : string) (v : json) (b : transferRequestBody.t)
    : transferRequestBody.t * option decode_error :=
  let '(transferRequestBody.Mk from to amount key) := b in
  if String.eqb name "from" then
    let '(x, e) := store_string name v from in (transferRequestBody.Mk x to amount key, e)
  else if String.eqb name "to" then
    let '(x, e) := store_string name v to in (transferRequestBody.Mk from x amount key, e)
  else if String.eqb name "amount_paise" then
    let '(x, e) := store_int64 name v amount in (transferRequestBody.Mk from to x key, e)
  else
    let '(x, e) := store_string name v key in (transferRequestBody.Mk from to amount x, e).

Definition decode_transfer : request → result decode_error transferRequestBody.t :=
  decodeJSON transfer_names store_transfer (transferRequestBody.Mk "" "" None "").

Definition mint_names : list string := ["wallet_id"; "amount_paise"; "idempotency_key"].

Definition store_mint (name : string) (v : json) (b : mintRequestBody.t)
    : mintRequestBody.t * option decode_error :=
  let '(mintRequestBody.Mk wallet amount key) := b in
  if String.eqb name "wallet_id" then
    let '(x, e) := store_string name v wallet in (mintRequestBody.Mk x amount key, e)
  else if String.eqb name "amount_paise" then
    let '(x, e) := store_int64 name v amount in (mintRequestBody.Mk wallet x key, e)
  else
    let '(x, e) := store_string name v key in (mintRequestBody.Mk wallet amount x, e).

Definition decode_mint : request → result decode_error mintRequestBody.t :=
  decodeJSON mint_names store_mint (mintRequestBody.Mk "" None "").

(** The amount of a body is an int64. *)
Lemma decode_transfer_amount r body a :
  decode_transfer r = Ok body → transferRequestBody.AmountPaise body = Some a → in_int64 a = true.
Proof.
  unfold decode_transfer, decodeJSON. destruct (scan_document _) as [[v rest]|]; [|done]. cbn [rbind].
  destruct (decode_struct _ _ _ v) as [b|] eqn:Hd; [|done]. cbn [rbind].
  destruct (skip_space rest); [|done]. intros [= <-]. revert a.
  refine (decode_struct_inv _ _ (λ b, ∀ a, transferRequestBody.AmountPaise b = Some a → in_int64 a = true)
    _ _ _ _ _ Hd); [by intros a|].
  intros name v' [from to amount key] Hb. unfold store_transfer. simpl in Hb.
  repeat destruct (String.eqb name _); try (by destruct (store_string _ _ _)).
  pose proof (store_int64_range name v' amount Hb) as Hs. by destruct (store_int64 name v' amount).
Qed.

Section handlers.
Context `{PgText} (s : Server).

Definition internal_error (r : request) (msg : string) : list write_op :=
  writeError r StatusInternalServerError "internal_error" msg.

(** ** POST /wallets *)

Definition handleCreateWallet (user : User.t) : handler := λ r,
  '(wallet, created, err) ← GetOrCreateWallet (User.ID user);
  match err with
  | Some err =>
      log_at s (rq_ctx r) LevelError "get-or-create wallet failed"
        [("event", AString "wallet_error"); ("error", AErrorText err)];;
      mret (internal_error r "could not provision wallet")
  | None =>
      metric (if (created : bool) then WalletsCreatedInc else WalletsReusedInc);;
      log_at s (rq_ctx r) LevelInfo "wallet get-or-create"
        [("event", AString "wallet_get_or_create"); ("wallet_id", AString (Wallet.ID wallet));
         ("user_id", AString (Wallet.UserID wallet)); ("created", ABool created);
         ("balance_paise", AInt64 (Wallet.BalancePaise wallet))];;
      mret (writeJSON (if (created : bool) then StatusCreated else StatusOK) (PWallet wallet))
  end.

(** ** GET /wallets/{id} *)

Definition handleGetWallet (user : User.t) : handler := λ r,
  '(wallet, err) ← GetWallet (rq_id r);
  match err with
  | Some err =>
      if errors_Is err ErrWalletNotFound
      then mret (writeError r StatusNotFound "wallet_not_found" "no wallet with that id")
      else
        log_at s (rq_ctx r) LevelError "get wallet failed" [("error", AErrorText err)];;
        mret (internal_error r "could not read wallet")
  | None => mret (writeJSON StatusOK (PWallet wallet))
  end.

(** ** POST /transfers *)

Definition rejectTransferStatus (r : request) (status : Z) (code msg : string) : prog (list write_op) :=
  metric (TransfersInc OutcomeInvalid);;
  log_at s (rq_ctx r) LevelWarn "transfer rejected"
    [("event", AString "transfer_rejected"); ("reason", AString code); ("status", AInt64 status)];;
  mret (writeError r status code msg).

Definition rejectTransfer (r : request) (code msg : string) : prog (list write_op) :=
  rejectTransferStatus r StatusUnprocessableEntity code msg.

(** The validation switch: the code and message of the first case that holds,
    or the amount of a body that passes. *)
Definition validate (body : transferRequestBody.t) : result (string * string) Z :=
  let '(transferRequestBody.Mk from to amount key) := body in
  if String.eqb (TrimSpace key) "" then
    Err ("missing_idempotency_key", "idempotency_key is required")
  else if (255 <? String.length key)%nat then
    Err ("invalid_idempotency_key", "idempotency_key must be at most 255 characters")
  else if String.eqb from "" || String.eqb to "" then
    Err ("missing_wallet", "both from and to are required")
  else if String.eqb from to then
    Err ("same_wallet", "from and to must be different wallets")
  else
    match amount with
    | None => Err ("missing_amount", "amount_paise is required (integer paise)")
    | Some a => if a <=? 0 then Err ("invalid_amount", "amount_paise must be a positive integer") else Ok a
    end.

(** The two wallet reads before the transaction: [None] when the source
    belongs to the caller and the destination exists, otherwise the response. *)
Definition precheck_failed (r : request) (err : error) (msg : string) : prog (option (list write_op)) :=
  log_at s (rq_ctx r) LevelError "transfer precheck failed" [("error", AErrorText err)];;
  mret (Some (internal_error r msg)).

Definition stop_with (r : request) (status : Z) (code msg : string) : prog (option (list write_op)) :=
  response ← rejectTransferStatus r status code msg; mret (Some response).

Definition precheck (user : User.t) (body : transferRequestBody.t) (r : request)
    : prog (option (list write_op)) :=
  '(fromWallet, err) ← GetWallet (transferRequestBody.From body);
  match err with
  | Some err =>
      if errors_Is err ErrWalletNotFound
      then stop_with r StatusNotFound "wallet_not_found" "source wallet does not exist"
      else precheck_failed r err "could not read source wallet"
  | None =>
      if negb (String.eqb (Wallet.UserID fromWallet) (User.ID user))
      then stop_with r StatusForbidden "not_wallet_owner"
             "bearer token does not own the source wallet"
      else
        '(_, err) ← GetWallet (transferRequestBody.To body);
        match err with
        | Some err =>
            if errors_Is err ErrWalletNotFound
            then stop_with r StatusNotFound "wallet_not_found"
                   "destination wallet does not exist"
            else precheck_failed r err "could not read destination wallet"
        | None => mret None
        end
  end.

(** What the handler does with an error of [Transfer]. *)
Definition transfer_failed (r : request) (key : string) (err : error) : prog (list write_op) :=
  if errors_Is err ErrIdempotencyConflict then
    metric (TransfersInc OutcomeConflict);;
    log_at s (rq_ctx r) LevelWarn "idempotency key reused with a different body"
      [("event", AString "idempotency_conflict"); ("idempotency_key", AString key)];;
    mret (writeError r StatusConflict "idempotency_key_conflict"
            "this idempotency_key was already used with different transfer parameters")
  else if errors_Is err ErrWalletNotFound then
    rejectTransferStatus r StatusNotFound "wallet_not_found" "wallet does not exist"
  else if errors_Is err ErrSameWallet then
    rejectTransfer r "same_wallet" "from and to must be different wallets"
  else
    log_at s (rq_ctx r) LevelError "transfer failed"
      [("event", AString "transfer_error"); ("idempotency_key", AString key); ("error", AErrorText err)];;
    mret (internal_error r "transfer could not be processed").

(** The events of a recorded transfer. *)
Definition transfer_events (r : request) (res : TransferResult.t) : prog unit :=
  let t := TransferResult.Transfer res in
  if (TransferResult.Replay res : bool) then
    metric (TransfersInc OutcomeReplay);;
    log_at s (rq_ctx r) LevelInfo "idempotent replay hit"
      [("event", AString "idempotent_replay"); ("transfer_id", AString (Transfer.ID t));
       ("idempotency_key", AString (Transfer.IdempotencyKey t));
       ("replayed_status", AString (Transfer.Status t))]
  else if String.eqb (Transfer.Status t) StatusSucceeded then
    metric (TransfersInc OutcomeSucceeded);;
    metric (TransferAmountAdd (float64_of_int64 (Transfer.AmountPaise t)));;
    log_at s (rq_ctx r) LevelInfo "transfer debited and credited"
      [("event", AString "transfer_succeeded"); ("transfer_id", AString (Transfer.ID t));
       ("debited_wallet", AString (Transfer.FromWalletID t));
       ("credited_wallet", AString (Transfer.ToWalletID t));
       ("amount_paise", AInt64 (Transfer.AmountPaise t))]
  else
    metric (TransfersInc OutcomeInsufficient);;
    log_at s (rq_ctx r) LevelWarn "transfer declined"
      [("event", AString "transfer_declined"); ("transfer_id", AString (Transfer.ID t));
       ("from", AString (Transfer.FromWalletID t)); ("amount_paise", AInt64 (Transfer.AmountPaise t));
       ("reason", AString (default "" (Transfer.DeclineReason t)))].

Definition handleCreateTransfer (user : User.t) : handler := λ r,
  match decode_transfer r with
  | Err err =>
      metric (TransfersInc OutcomeInvalid);;
      mret (writeError r StatusBadRequest "invalid_body" (MDecodeError "could not parse request: " "transferRequestBody" err))
  | Ok body =>
      match validate body with
      | Err (code, msg) => rejectTransfer r code msg
      | Ok amount =>
          stop ← precheck user body r;
          match stop with
          | Some response => mret response
          | None =>
              let from := transferRequestBody.From body in
              let to := transferRequestBody.To body in
              let key := transferRequestBody.IdempotencyKey body in
              log_at s (rq_ctx r) LevelInfo "transfer requested"
                [("event", AString "transfer_created"); ("from", AString from); ("to", AString to);
                 ("amount_paise", AInt64 amount); ("idempotency_key", AString key)];;
              '(res, err) ← Transfer (sv_store s) (TransferRequest.Mk (User.ID user) from to amount key);
              match err with
              | Some err => transfer_failed r key err
              | None =>
                  transfer_events r res;;
                  mret ((if (TransferResult.Replay res : bool) then [SetHeader "Idempotent-Replay" "true"] else []) ++
                        writeJSON StatusCreated (PTransfer (TransferResult.Transfer res)))%list
              end
          end
      end
  end.

(** ** GET /transfers/{id} *)

Definition handleGetTransfer (user : User.t) : handler := λ r,
  '(t, err) ← GetTransfer (rq_id r);
  match err with
  | Some err =>
      if errors_Is err ErrTransferNotFound
      then mret (writeError r StatusNotFound "transfer_not_found" "no transfer with that id")
      else
        log_at s (rq_ctx r) LevelError "get transfer failed" [("error", AErrorText err)];;
        mret (internal_error r "could not read transfer")
  | None => mret (writeJSON StatusOK (PTransfer t))
  end.

(** ** POST /admin/mint *)

Definition handleMint : handler := λ r,
  match decode_mint r with
  | Err err => mret (writeError r StatusBadRequest "invalid_body" (MDecodeError "" "mintRequestBody" err))
  | Ok (mintRequestBody.Mk walletID amount key) =>
      let invalid := mret (writeError r StatusUnprocessableEntity "invalid_mint"
        "wallet_id and a positive integer amount_paise are required") in
      match amount with
      | None => invalid
      | Some a =>
          if String.eqb walletID "" || (a <=? 0) then invalid
          else if String.eqb (TrimSpace key) "" then
            mret (writeError r StatusUnprocessableEntity "missing_idempotency_key"
              "idempotency_key is required so a retried funding step cannot double the float")
          else
            '(wallet, applied, err) ← Mint (sv_store s) walletID key a;
            match err with
            | Some err =>
                if errors_Is err ErrWalletNotFound
                then mret (writeError r StatusNotFound "wallet_not_found" "no wallet with that id")
                else
                  log_at s (rq_ctx r) LevelError "mint failed" [("error", AErrorText err)];;
                  mret (internal_error r "could not mint")
            | None =>
                (if (applied : bool) then metric (MintedPaiseAdd (float64_of_int64 a)) else mret tt);;
                log_at s (rq_ctx r) LevelInfo "mint"
                  [("event", AString "mint"); ("wallet_id", AString (Wallet.ID wallet));
                   ("amount_paise", AInt64 a); ("applied", ABool applied);
                   ("balance_paise", AInt64 (Wallet.BalancePaise wallet))];;
                mret ((if (applied : bool) then [] else [SetHeader "Idempotent-Replay" "true"]) ++
                      writeJSON StatusOK (PWallet wallet))%list
            end
      end
  end.

(** ** GET /invariants *)

Definition handleInvariants : handler := λ r,
  '(inv, err) ← CheckInvariants;
  match err with
  | Some err => mret (internal_error r "could not compute invariants")
  | None =>
      metric (TotalBalanceSet (float64_of_int64 (Invariants.TotalBalancePaise inv)));;
      metric (LedgerSumSet (float64_of_int64 (Invariants.LedgerSumPaise inv)));;
      mret (writeJSON (if Invariants.AllHold inv then StatusOK else StatusInternalServerError)
              (PInvariants inv))
  end.
End handlers.
