(* ===== verification/Bodies.v ===== *)
(** * Request bodies as clients write them

    The JSON text of a transfer, and the proof that the decoder reads it
    back. *)

From Stdlib Require Import Ascii String.
From S2P Require Import Prelude GoStrings Json JsonText ErrorTexts Errors Obs Session Store Http Handlers.

#[local] Open Scope string_scope.
#[local] Open Scope Z_scope.

(** The text of a transfer request. *)
Definition transfer_text (from to : string) (amount : Z) (key : string) : string :=
  "{" +:+ quoted "from" +:+ ":" +:+ quoted from +:+ "," +:+ quoted "to" +:+ ":" +:+ quoted to +:+
  "," +:+ quoted "amount_paise" +:+ ":" +:+ Itoa amount +:+ "," +:+
  quoted "idempotency_key" +:+ ":" +:+ quoted key +:+ "}".

(** ** Members *)

Lemma scan_value_string fuel v rest :
  plain v = true → scan_value (S fuel) (quoted v +:+ rest) = Ok (JString v, rest).
Proof.
  intros Hv. unfold quoted. rewrite app_cons_s, app_assoc_s, app_cons_s. cbn [scan_value skip_space].
  change (is_space quote) with false. cbn beta iota.
  change (Ascii.eqb quote "{") with false. change (Ascii.eqb quote "[") with false.
  change (Ascii.eqb quote quote) with true. cbn beta iota.
  rewrite scan_string_plain by done. cbn [rbind]. by rewrite unquote_plain.
Qed.

Lemma scan_value_number fuel a rest :
  0 < a → scan_value (S fuel) (Itoa a +:+ String "," rest) = Ok (JNumber (Itoa a), String "," rest).
Proof.
  intros Ha. pose proof (scan_number_Itoa a rest Ha) as Hn.
  destruct (Itoa_spec a Ha) as (c & d & Heq & Hc & _). rewrite Heq in Hn |- *.
  rewrite app_cons_s in Hn |- *. cbn [scan_value skip_space].
  assert (Hsp : is_space c = false).
  { apply is_digit_code in Hc. unfold is_space. rewrite !orb_false_iff, !Z.eqb_neq. lia. }
  rewrite Hsp. rewrite !(digit_not c) by done. rewrite Hc, orb_true_r. by rewrite Hn.
Qed.

(** One member, then the rest of the object. *)
Lemma scan_members_step fuel name v text rest :
  plain name = true → scan_value (S fuel) text = Ok (v, String "," rest) →
  scan_members (S (S fuel)) (quoted name +:+ String ":" text) =
  (let? (ms, r) := scan_members (S fuel) rest in Ok ((name, v) :: ms, r)).
Proof.
  intros Hn Hv. unfold quoted. rewrite app_cons_s, app_assoc_s, app_cons_s.
  remember (S fuel) as f. cbn [scan_members skip_space]. change (is_space quote) with false.
  cbn [expect]. change (Ascii.eqb quote quote) with true. cbn beta iota.
  rewrite scan_string_plain by done. cbn [rbind]. change (skip_space ("" +:+ String ":" text)) with (String ":" text).
  cbn [expect]. change (Ascii.eqb ":" ":") with true. cbn beta iota. rewrite Hv. cbn [rbind].
  change (skip_space (String "," rest)) with (String "," rest).
  cbn [expect]. change (Ascii.eqb "," ",") with true. cbn beta iota. by rewrite unquote_plain.
Qed.

(** The last member. *)
Lemma scan_members_last fuel name v text rest :
  plain name = true → scan_value (S fuel) text = Ok (v, String "}" rest) →
  scan_members (S (S fuel)) (quoted name +:+ String ":" text) = Ok ([(name, v)], rest).
Proof.
  intros Hn Hv. unfold quoted. rewrite app_cons_s, app_assoc_s, app_cons_s.
  remember (S fuel) as f. cbn [scan_members skip_space]. change (is_space quote) with false.
  cbn [expect]. change (Ascii.eqb quote quote) with true. cbn beta iota.
  rewrite scan_string_plain by done. cbn [rbind]. change (skip_space ("" +:+ String ":" text)) with (String ":" text).
  cbn [expect]. change (Ascii.eqb ":" ":") with true. cbn beta iota. rewrite Hv. cbn [rbind].
  change (skip_space (String "}" rest)) with (String "}" rest).
  cbn [expect]. change (Ascii.eqb "}" ",") with false. change (Ascii.eqb "}" "}") with true.
  cbn beta iota. by rewrite unquote_plain.
Qed.

(** The members of a transfer. *)
Definition transfer_members (from to : string) (a : Z) (key : string) : list (string * json) :=
  [("from", JString from); ("to", JString to); ("amount_paise", JNumber (Itoa a));
   ("idempotency_key", JString key)].

Lemma scan_value_object fuel body ms rest :
  expect "}" (skip_space body) = None → scan_members fuel body = Ok (ms, rest) →
  scan_value (S fuel) (String "{" body) = Ok (JObject ms, rest).
Proof.
  intros He Hm. cbn [scan_value skip_space]. change (is_space "{") with false. cbn beta iota.
  change (Ascii.eqb "{" "{") with true. cbn beta iota. by rewrite He, Hm.
Qed.

(** The text of the members, associated to the right. *)
Definition members_text (from to : string) (a : Z) (key rest : string) : string :=
  quoted "from" +:+ String ":" (quoted from +:+ String "," (quoted "to" +:+ String ":" (quoted to +:+
  String "," (quoted "amount_paise" +:+ String ":" (Itoa a +:+ String "," (
  quoted "idempotency_key" +:+ String ":" (quoted key +:+ String "}" rest))))))).

Lemma transfer_text_members from to a key rest :
  transfer_text from to a key +:+ rest = String "{" (members_text from to a key rest).
Proof.
  unfold transfer_text, members_text.
  change ("," +:+ ?x) with (String "," x). change (":" +:+ ?x) with (String ":" x).
  change ("}" +:+ ?x) with (String "}" x).
  repeat (rewrite app_assoc_s || rewrite app_cons_s). done.
Qed.

Lemma scan_transfer_text from to a key rest :
  plain from = true → plain to = true → plain key = true → 0 < a →
  scan_document (transfer_text from to a key +:+ rest) = Ok (JObject (transfer_members from to a key), rest).
Proof.
  intros Hf Ht Hk Ha. rewrite transfer_text_members. unfold scan_document.
  change (skip_space (String "{" ?x)) with (String "{" x). cbn beta iota.
  set (s := String "{" _). rewrite <- (scan_value_fuel (6 + 2 * String.length s)) by lia. subst s.
  apply scan_value_object; [done|]. unfold members_text.
  erewrite scan_members_step; [|done|by apply scan_value_string].
  erewrite scan_members_step; [|done|by apply scan_value_string].
  erewrite scan_members_step; [|done|by apply scan_value_number].
  erewrite scan_members_last; [|done|by apply scan_value_string]. done.
Qed.

(** ** The decoder reads the text back *)

Lemma take_bytes_app n a b :
  (String.length a ≤ n)%nat → take_bytes n (a +:+ b) = a +:+ take_bytes (n - String.length a) b.
Proof.
  revert n. induction a as [|c a IH]; intros n Hn; [by rewrite Nat.sub_0_r|].
  destruct n as [|n]; [simpl in Hn; lia|]. rewrite app_cons_s. cbn [take_bytes String.length].
  rewrite IH by (simpl in Hn; lia). done.
Qed.

Lemma skip_space_take n s : skip_space s = "" → skip_space (take_bytes n s) = "".
Proof.
  revert n. induction s as [|c s IH]; intros [|n]; try done. simpl.
  destruct (is_space c); [apply IH|done].
Qed.

(** C34: A transfer is read as it was written: a body that spells the four
    fields as plain text and the amount in decimal, with any space after it,
    within the limit on the body, decodes to exactly those values. *)
Theorem decode_reads_back r from to a key tail :
  plain from = true → plain to = true → plain key = true → 0 < a ≤ int64_max →
  skip_space tail = "" → Z.of_nat (String.length (transfer_text from to a key)) ≤ maxBodyBytes →
  rq_body r = transfer_text from to a key +:+ tail →
  decode_transfer r = Ok (transferRequestBody.Mk from to (Some a) key).
Proof.
  intros Hf Ht Hk Ha Htail Hlen Hr. unfold decode_transfer, decodeJSON. rewrite Hr.
  rewrite take_bytes_app by lia. rewrite scan_transfer_text by (done || lia). cbn [rbind].
  assert (Hd : decode_struct transfer_names store_transfer (transferRequestBody.Mk "" "" None "")
    (JObject (transfer_members from to a key)) = Ok (transferRequestBody.Mk from to (Some a) key)).
  { cbn. by rewrite Atoi_Itoa. }
  rewrite Hd. cbn [rbind]. by rewrite skip_space_take.
Qed.

(** ** The decoder is strict *)

Lemma saved_stays {T} names (store : string → json → T → T * option decode_error) ms t e :
  (foldl (store_member names store) (t, Some e) ms).2 = Some e.
Proof.
  revert t. induction ms as [|[key v] ms IH]; intros t; [done|]. simpl.
  destruct (find_field names key); [destruct (store _ v t)|]; apply IH.
Qed.

(** Without an error every member was a known field and was stored without
    one. *)
Lemma members_stored {T} names (store : string → json → T → T * option decode_error) ms : ∀ t t',
  foldl (store_member names store) (t, None) ms = (t', None) →
  ∀ key v, (key, v) ∈ ms →
  ∃ name t0, find_field names key = Some name ∧ (store name v t0).2 = None.
Proof.
  induction ms as [|[key v] ms IH]; intros t t' Hf key' v' Hin; [by apply not_elem_of_nil in Hin|].
  simpl in Hf. destruct (find_field names key) as [name|] eqn:Hn.
  2:{ pose proof (saved_stays names store ms t (DUnknownField key)) as Hs. simpl in Hf. by rewrite Hf in Hs. }
  destruct (store name v t) as [t1 [e|]] eqn:Hst; simpl in Hf.
  { pose proof (saved_stays names store ms t1 e) as Hs. by rewrite Hf in Hs. }
  apply elem_of_cons in Hin as [[= -> ->]|Hin]; [exists name, t; by rewrite Hst|by eapply IH].
Qed.

(** The amount left is the one before, or a number of the members. *)
Definition amount_of (b : transferRequestBody.t) : option Z := transferRequestBody.AmountPaise b.

Lemma store_transfer_amount name v b n :
  (store_transfer name v b).2 = None → amount_of (store_transfer name v b).1 = Some n →
  amount_of b = Some n ∨ name = "amount_paise" ∧ ∃ lit, v = JNumber lit ∧ Atoi lit = Some n.
Proof.
  destruct b as [from to amount key]. unfold store_transfer.
  destruct (String.eqb_spec name "from"); [destruct (store_string _ _ _); eauto|].
  destruct (String.eqb_spec name "to"); [destruct (store_string _ _ _); eauto|].
  destruct (String.eqb_spec name "amount_paise"); [|destruct (store_string _ _ _); eauto].
  destruct v; simpl; try done. destruct (Atoi literal) eqn:Ha; [|done]. simpl. intros _ [= ->]. eauto.
Qed.

Lemma members_amount ms : ∀ b b' n,
  foldl (store_member transfer_names store_transfer) (b, None) ms = (b', None) →
  amount_of b' = Some n →
  amount_of b = Some n ∨
  ∃ key lit, (key, JNumber lit) ∈ ms ∧ find_field transfer_names key = Some "amount_paise" ∧ Atoi lit = Some n.
Proof.
  induction ms as [|[key v] ms IH]; intros b b' n Hf Hn; [by injection Hf as ->; left|].
  simpl in Hf. destruct (find_field transfer_names key) as [name|] eqn:Hname.
  2:{ pose proof (saved_stays transfer_names store_transfer ms b (DUnknownField key)) as Hs.
      simpl in Hf. by rewrite Hf in Hs. }
  destruct (store_transfer name v b) as [b1 [e|]] eqn:Hst; simpl in Hf.
  { pose proof (saved_stays transfer_names store_transfer ms b1 e) as Hs. by rewrite Hf in Hs. }
  destruct (IH _ _ _ Hf Hn) as [H1|(k & lit & Hin & Hk & Ha)].
  - pose proof (store_transfer_amount name v b n) as Ham. rewrite Hst in Ham.
    destruct (Ham eq_refl H1) as [|(-> & lit & -> & Ha)]; [by left|]. right. exists key, lit.
    split; [by left|done].
  - right. exists k, lit. split; [by right|done].
Qed.

(** C35: Decoding is strict: a body that is accepted is one JSON value with
    nothing but space after it, up to the limit; it is null, which leaves every
    field empty, or an object all of whose keys name a field; an amount that
    is present is an integer literal of the body, in range, as written -- a
    fraction, an exponent, a string or a number out of range is an error and
    is never rounded. *)
Theorem decode_strict r body :
  decode_transfer r = Ok body →
  ∃ v rest, scan_document (take_bytes (Z.to_nat maxBodyBytes) (rq_body r)) = Ok (v, rest) ∧
    skip_space rest = "" ∧
    ((v = JNull ∧ body = transferRequestBody.Mk "" "" None "") ∨
     ∃ ms, v = JObject ms ∧
       (∀ key x, (key, x) ∈ ms → is_Some (find_field transfer_names key)) ∧
       (∀ key x, (key, x) ∈ ms → find_field transfer_names key = Some "amount_paise" →
          x = JNull ∨ ∃ lit n, x = JNumber lit ∧ Atoi lit = Some n) ∧
       (∀ n, transferRequestBody.AmountPaise body = Some n →
          ∃ key lit, (key, JNumber lit) ∈ ms ∧ find_field transfer_names key = Some "amount_paise" ∧
            Atoi lit = Some n)).
Proof.
  unfold decode_transfer, decodeJSON. destruct (scan_document _) as [[v rest]|]; [|done]. cbn [rbind].
  destruct (decode_struct _ _ _ v) as [b|] eqn:Hd; [|done]. cbn [rbind].
  destruct (skip_space rest) eqn:Hrest; [|done]. intros [= <-]. exists v, rest. split; [done|]. split; [done|].
  destruct v as [|x|x|x|x|ms]; try done; [left; by injection Hd as <-|]. right. exists ms. split; [done|].
  simpl in Hd. destruct (foldl _ _ ms) as [b' [e|]] eqn:Hf; [done|]. injection Hd as ->.
  split_and!.
  - intros key x Hin. destruct (members_stored _ _ _ _ _ Hf key x Hin) as (name & _ & -> & _). done.
  - intros key x Hin Hk. destruct (members_stored _ _ _ _ _ Hf key x Hin) as (name & t0 & Hn & He).
    rewrite Hk in Hn. injection Hn as <-. destruct t0 as [from to amount k]. revert He.
    unfold store_transfer. cbn -[Atoi]. destruct x; simpl; try done; [by left|].
    destruct (Atoi literal) eqn:Ha; [|done]. eauto.
  - intros n Hn. destruct (members_amount _ _ _ _ Hf Hn) as [|]; done.
Qed.

(** ** At concrete inputs *)

(** A POST with a body. *)
Definition post_request (body : string) : request :=
  MkRequest Background "POST" "/transfers" "/transfers" "POST /transfers" (λ _, "") (λ _, "") "" body.

Definition sample_text : string := transfer_text "wallet-a" "wallet-b" 300 "key-1".

Lemma decode_reads_back_witness :
  decode_transfer (post_request (sample_text +:+ "  ")) =
  Ok (transferRequestBody.Mk "wallet-a" "wallet-b" (Some 300) "key-1").
Proof.
  apply (decode_reads_back _ "wallet-a" "wallet-b" 300 "key-1" "  "); done.
Defined.

Lemma decode_strict_witness :
  ∃ v rest, scan_document (take_bytes (Z.to_nat maxBodyBytes) (rq_body (post_request sample_text))) = Ok (v, rest) ∧
    skip_space rest = "" ∧
    ((v = JNull ∧ transferRequestBody.Mk "wallet-a" "wallet-b" (Some 300) "key-1" =
        transferRequestBody.Mk "" "" None "") ∨
     ∃ ms, v = JObject ms ∧
       (∀ key x, (key, x) ∈ ms → is_Some (find_field transfer_names key)) ∧
       (∀ key x, (key, x) ∈ ms → find_field transfer_names key = Some "amount_paise" →
          x = JNull ∨ ∃ lit n, x = JNumber lit ∧ Atoi lit = Some n) ∧
       (∀ n, Some 300 = Some n →
          ∃ key lit, (key, JNumber lit) ∈ ms ∧ find_field transfer_names key = Some "amount_paise" ∧
            Atoi lit = Some n)).
Proof.
  apply (decode_strict (post_request sample_text)
    (transferRequestBody.Mk "wallet-a" "wallet-b" (Some 300) "key-1")). by vm_compute.
Defined.

(** Bytes past the limit are never read: after an object and space up to the
    limit, anything goes. *)
Definition spaces (n : nat) : string := Nat.iter n (String " ") "".

Example beyond_the_limit :
  decode_transfer (post_request (sample_text +:+ spaces (Z.to_nat maxBodyBytes) +:+ "garbage")) =
  Ok (transferRequestBody.Mk "wallet-a" "wallet-b" (Some 300) "key-1").
Proof. vm_compute. reflexivity. Qed.

Example trailing_is_refused :
  decode_transfer (post_request (sample_text +:+ " {}")) = Err DTrailing.
Proof. vm_compute. reflexivity. Qed.

Example null_is_accepted :
  decode_transfer (post_request "null") = Ok (transferRequestBody.Mk "" "" None "").
Proof. vm_compute. reflexivity. Qed.

Example misspelt_is_refused :
  decode_transfer (post_request ("{" +:+ quoted "amount" +:+ ":1}")) = Err (DUnknownField "amount").
Proof. vm_compute. reflexivity. Qed.

Example case_is_ignored :
  decode_transfer (post_request ("{" +:+ quoted "AMOUNT_Paise" +:+ ":1}")) =
  Ok (transferRequestBody.Mk "" "" (Some 1) "").
Proof. vm_compute. reflexivity. Qed.

(** What the client is told of bodies that do not decode. *)
Definition told (body : string) : string :=
  match decode_transfer (post_request body) with
  | Ok _ => ""
  | Err e => decode_error_text latin_only "transferRequestBody" e
  end.

Example told_of_decode_errors :
  told <$> [""; "{"; "[]"; "{} {}"; "{from: 1}"; "{" +:+ quoted "from" +:+ ":1}"; "{" +:+ quoted "amount" +:+ ":1}";
            "{" +:+ quoted "amount_paise" +:+ ":0.5}"] =
  ["EOF"; "unexpected EOF"; "json: cannot unmarshal array into Go value of type api.transferRequestBody";
   "body must contain exactly one JSON object";
   "invalid character 'f' looking for beginning of object key string";
   "json: cannot unmarshal number into Go struct field transferRequestBody.from of type string";
   "json: unknown field " +:+ quoted "amount";
   "json: cannot unmarshal number 0.5 into Go struct field transferRequestBody.amount_paise of type int64"].
Proof. vm_compute. reflexivity. Qed.
