(* ===== verification/Routing.v ===== *)
(** * Routing (net/http's ServeMux as internal/api/server.go uses it)

    Patterns and their parsing, the cleaning of request paths, and the routing
    tree: at each segment the literal child is tried before the wildcard.  A
    tree is kept as the list of what is left of its patterns.  Of the patterns
    of net/http, those of the service: a method, literal segments, [{name}]
    for one segment, [{$}] for the end after a slash; no host. *)

From Stdlib Require Import Ascii String.
From S2P Require Import Prelude GoStrings Json.

#[local] Open Scope string_scope.
#[local] Open Scope Z_scope.

(** ** Paths *)

Definition slash : Ascii.ascii := "/"%char.

(** Split at every slash. *)
Fixpoint split_slash (s : string) : list string :=
  match s with
  | EmptyString => [""]
  | String c s =>
      if Ascii.eqb c slash then "" :: split_slash s
      else match split_slash s with x :: xs => String c x :: xs | [] => [String c ""] end
  end.

(** [url.PathUnescape], the input itself where an escape is malformed. *)
Fixpoint percent_decode (s : string) : option string :=
  match s with
  | EmptyString => Some ""
  | String c s' =>
      if Ascii.eqb c "%" then
        match s' with
        | String a (String b r) =>
            x ← hex_digit_value a; y ← hex_digit_value b; t ← percent_decode r;
            Some (String (byte (x * 16 + y)) t)
        | _ => None
        end
      else t ← percent_decode s'; Some (String c t)
  end.

Definition pathUnescape (s : string) : string := default s (percent_decode s).

(** The segments [firstSegment] yields one after the other: unescaped, a
    trailing slash as the segment ["/"]. *)
Fixpoint unescape_segments (l : list string) : list string :=
  match l with
  | [] => []
  | [x] => [if String.eqb x "" then "/" else pathUnescape x]
  | x :: xs => pathUnescape x :: unescape_segments xs
  end.

Definition path_segments (path : string) : list string :=
  match path with
  | String _ s => unescape_segments (split_slash s)
  | EmptyString => []
  end.

(** [path.Clean] of a rooted path. *)
Definition clean_segment (acc : list string) (x : string) : list string :=
  if String.eqb x "" || String.eqb x "." then acc
  else if String.eqb x ".." then tail acc
  else x :: acc.

Definition join_slash (l : list string) : string := foldr (λ x s, "/" +:+ x +:+ s) "" l.

Definition Clean (path : string) : string :=
  match foldl clean_segment [] (split_slash path) with
  | [] => "/"
  | l => join_slash (rev l)
  end.

Fixpoint last_is_slash (s : string) : bool :=
  match s with
  | EmptyString => false
  | String c EmptyString => Ascii.eqb c slash
  | String _ s => last_is_slash s
  end.

(** [cleanPath] *)
Definition cleanPath (p : string) : string :=
  match p with
  | EmptyString => "/"
  | String c _ =>
      let p := if Ascii.eqb c slash then p else String slash p in
      let np := Clean p in
      if last_is_slash p && negb (String.eqb np "/") then np +:+ "/" else np
  end.

(** ** Patterns *)

Inductive segment := Lit (s : string) | Wild (name : string).

#[global] Instance segment_eq_dec : EqDecision segment.
Proof. solve_decision. Defined.

Record pattern := MkPattern { pt_method : string; pt_segs : list segment }.

(** One segment of a pattern: [None] for what the service does not use. *)
Definition parse_segment (s : string) : option segment :=
  let n := String.length s in
  if String.eqb s "{$}" then Some (Lit "/")
  else if IndexByte s "{"%char =? -1 then
    if String.eqb s "" then None else Some (Lit (pathUnescape s))
  else if (IndexByte s "{"%char =? 0) && String.eqb (drop_bytes (n - 1) s) "}" then
    Some (Wild (take_bytes (n - 2) (drop_bytes 1 s)))
  else None.

(** [parsePattern] of a pattern with a method. *)
Definition parse_pattern (s : string) : option pattern :=
  let i := IndexByte s " "%char in
  if i <? 0 then None
  else
    match drop_bytes (Z.to_nat i + 1) s with
    | String c path =>
        if Ascii.eqb c slash then
          segs ← mapM parse_segment (split_slash path);
          Some (MkPattern (take_bytes (Z.to_nat i) s) segs)
        else None
    | EmptyString => None
    end.

(** Does a pattern match the segments of a path, and with which wildcards? *)
Fixpoint match_segs (ps : list segment) (xs : list string) : option (list string) :=
  match ps, xs with
  | [], [] => Some []
  | Lit s :: ps, x :: xs => if String.eqb x s then match_segs ps xs else None
  | Wild _ :: ps, x :: xs =>
      if String.eqb x "/" then None else m ← match_segs ps xs; Some (x :: m)
  | _, _ => None
  end.

(** Some path matches both. *)
Fixpoint overlap (ps qs : list segment) : bool :=
  match ps, qs with
  | [], [] => true
  | Lit a :: ps, Lit b :: qs => String.eqb a b && overlap ps qs
  | Lit a :: ps, Wild _ :: qs | Wild _ :: ps, Lit a :: qs => negb (String.eqb a "/") && overlap ps qs
  | Wild _ :: ps, Wild _ :: qs => overlap ps qs
  | _, _ => false
  end.

(** ** The routing tree *)

Section tree.
Context {E : Type}.

Abbreviation node := (list (list segment * E)) (only parsing).

(** [findChild] and [emptyChild]. *)
Definition literal_child (x : string) (n : node) : node :=
  omap (λ pe : list segment * E, match pe.1 with
    | Lit s :: ps => if String.eqb x s then Some (ps, pe.2) else None
    | _ => None end) n.

Definition wild_child (n : node) : node :=
  omap (λ pe : list segment * E, match pe.1 with Wild _ :: ps => Some (ps, pe.2) | _ => None end) n.

(** The pattern that ends at this node. *)
Definition leaf (n : node) : option E :=
  head (omap (λ pe : list segment * E, match pe.1 with [] => Some pe.2 | _ => None end) n).

(** [matchPath] *)
Fixpoint matchPath (n : node) (xs : list string) : option (E * list string) :=
  match xs with
  | [] => e ← leaf n; Some (e, [])
  | x :: xs =>
      match matchPath (literal_child x n) xs with
      | Some r => Some r
      | None =>
          if String.eqb x "/" then None
          else '(e, m) ← matchPath (wild_child n) xs; Some (e, x :: m)
      end
  end.

(** ** The table *)

Variable table : list (pattern * E).

(** The node of one method. *)
Definition method_node (method : string) : node :=
  omap (λ pe : pattern * E,
    if String.eqb (pt_method pe.1) method then Some (pt_segs pe.1, pe.2) else None) table.

(** [matchMethodAndPath]: GET matches HEAD too. *)
Definition matchMethodAndPath (method : string) (xs : list string) : option (E * list string) :=
  match matchPath (method_node method) xs with
  | Some r => Some r
  | None => if String.eqb method "HEAD" then matchPath (method_node "GET") xs else None
  end.

(** [matchingMethods]: the methods under which the path would match, with a
    slash added where it has none, sorted. *)
Definition methods_of (xs : list string) : list string :=
  filter (λ m, match matchPath (method_node m) xs with Some _ => true | None => false end = true)
    (remove_dups (pt_method <$> table.*1)).

Definition matchingMethods (path : string) : list string :=
  let ms := (methods_of (path_segments path) ++
             if last_is_slash path then [] else methods_of (path_segments (path +:+ "/")))%list in
  merge_sort String.le
    (remove_dups (ms ++ if decide ("GET" ∈ ms) then ["HEAD"] else [])%list).

(** ** findHandler *)

(** [FSlash] is the redirect to the path with a slash; [FClean] the one to the
    cleaned path, with the entry that path has. *)
Inductive found :=
| FHandler (e : E) (matches : list string)
| FSlash (path : string)
| FClean (path : string) (e : option E)
| FMethodNotAllowed (allowed : list string)
| FNotFound.

(** [matchOrRedirect]: no match, but one once a slash is added.  Without
    patterns for whole subtrees every match is exact. *)
Definition slash_redirect (method path : string) : bool :=
  match matchMethodAndPath method (path_segments path) with
  | Some _ => false
  | None =>
      negb (last_is_slash path) &&
      match matchMethodAndPath method (path_segments (path +:+ "/")) with Some _ => true | None => false end
  end.

Definition findHandler (method rawpath escaped : string) : found :=
  let connect := String.eqb method "CONNECT" in
  let path := if connect then escaped else cleanPath escaped in
  let n := matchMethodAndPath method (path_segments path) in
  if slash_redirect method path then FSlash (cleanPath rawpath +:+ "/")
  else if negb connect && negb (String.eqb path escaped) then FClean path (fst <$> n)
  else
    match n with
    | Some (e, m) => FHandler e m
    | None =>
        match matchingMethods path with
        | [] => FNotFound
        | ms => FMethodNotAllowed ms
        end
    end.
End tree.
Arguments found : clear implicits.
Arguments FSlash {E} _.
Arguments FMethodNotAllowed {E} _.
Arguments FNotFound {E}.

(** ** Lemmas *)

Section lemmas.
Context {E : Type}.
Implicit Types (n : list (list segment * E)).

Lemma literal_child_spec x n ps e :
  (ps, e) ∈ literal_child x n ↔ (Lit x :: ps, e) ∈ n.
Proof.
  unfold literal_child. rewrite list_elem_of_omap. split.
  - intros ([[|[s|w] qs] e'] & Hin & Hf); simpl in Hf; try done.
    destruct (String.eqb_spec x s) as [->|]; [|done]. by injection Hf as -> ->.
  - intros Hin. exists (Lit x :: ps, e). split; [done|]. simpl. by rewrite String.eqb_refl.
Qed.

Lemma wild_child_spec n ps e : (ps, e) ∈ wild_child n ↔ ∃ w, (Wild w :: ps, e) ∈ n.
Proof.
  unfold wild_child. rewrite list_elem_of_omap. split.
  - intros ([[|[s|w] qs] e'] & Hin & Hf); simpl in Hf; try done. injection Hf as -> ->. by exists w.
  - intros [w Hin]. by exists (Wild w :: ps, e).
Qed.

Lemma leaf_sound n e : leaf n = Some e → ([], e) ∈ n.
Proof.
  unfold leaf. intros Hl. apply head_Some_elem_of in Hl. apply list_elem_of_omap in Hl.
  destruct Hl as ([[|? ?] e'] & Hin & Hf); [|done]. by injection Hf as ->.
Qed.

Lemma leaf_complete n e : ([], e) ∈ n → is_Some (leaf n).
Proof.
  intros Hin. unfold leaf. destruct (omap _ n) as [|e' l] eqn:Ho; [|by eexists].
  exfalso. apply (not_elem_of_nil e). rewrite <- Ho. apply list_elem_of_omap. by exists ([], e).
Qed.

Lemma matchPath_sound n xs e m :
  matchPath n xs = Some (e, m) → ∃ ps, (ps, e) ∈ n ∧ match_segs ps xs = Some m.
Proof.
  revert n e m. induction xs as [|x xs IH]; intros n e m; simpl.
  - destruct (leaf n) as [e'|] eqn:Hl; [|done]. intros [= -> <-]. exists []. split; [|done].
    by apply leaf_sound.
  - destruct (matchPath (literal_child x n) xs) as [[e1 m1]|] eqn:Hl.
    { intros [= -> ->]. destruct (IH _ _ _ Hl) as (ps & Hin%literal_child_spec & Hm).
      exists (Lit x :: ps). split; [done|]. simpl. by rewrite String.eqb_refl. }
    destruct (String.eqb_spec x "/") as [|Hx]; [done|].
    destruct (matchPath (wild_child n) xs) as [[e1 m1]|] eqn:Hw; [|done]. intros [= -> <-].
    destruct (IH _ _ _ Hw) as (ps & [w Hin]%wild_child_spec & Hm). exists (Wild w :: ps). split; [done|].
    simpl. apply String.eqb_neq in Hx. by rewrite Hx, Hm.
Qed.

Lemma matchPath_complete n xs ps e m :
  (ps, e) ∈ n → match_segs ps xs = Some m → is_Some (matchPath n xs).
Proof.
  revert n ps m. induction xs as [|x xs IH]; intros n [|[s|w] ps] m Hin Hm; simpl in *; try done.
  - destruct (leaf_complete n e Hin) as [e' ->]. by eexists.
  - destruct (String.eqb_spec x s) as [->|]; [|done].
    destruct (IH (literal_child s n) ps m) as [r ->]; [by apply literal_child_spec|done|by eexists].
  - destruct (matchPath (literal_child x n) xs) as [r|]; [by eexists|].
    destruct (String.eqb x "/"); [done|]. destruct (match_segs ps xs) as [m'|] eqn:Hm'; [|done].
    destruct (IH (wild_child n) ps m') as [[e' m''] ->]; [apply wild_child_spec; by exists w|done|by eexists].
Qed.

Lemma match_overlap ps qs xs m m' :
  match_segs ps xs = Some m → match_segs qs xs = Some m' → overlap ps qs = true.
Proof.
  revert qs xs m m'. induction ps as [|p ps IH]; intros [|q qs] [|x xs] m m' Hp Hq; simpl in *;
    try done; try (by destruct p); try (by destruct q).
  destruct p as [a|w], q as [b|w'];
    repeat match goal with
    | H : (if String.eqb ?x ?y then _ else _) = _ |- _ => destruct (String.eqb_spec x y); [|try done]; try done
    end;
    repeat match goal with H : (_ ← match_segs ?ps ?xs; _) = Some _ |- _ =>
      destruct (match_segs ps xs) eqn:?; [|done] end; subst.
  - rewrite String.eqb_refl. by eapply IH.
  - apply andb_true_iff. split; [by apply negb_true_iff, String.eqb_neq|by eapply IH].
  - apply andb_true_iff. split; [by apply negb_true_iff, String.eqb_neq|by eapply IH].
  - by eapply IH.
Qed.

(** ** Tables without overlaps *)

Definition separate (p q : pattern) : bool :=
  negb (String.eqb (pt_method p) (pt_method q)) || negb (overlap (pt_segs p) (pt_segs q)).

Fixpoint disjoint_table (t : list (pattern * E)) : bool :=
  match t with
  | [] => true
  | (p, _) :: t => forallb (λ qe : pattern * E, separate p qe.1) t && disjoint_table t
  end.

Variable table : list (pattern * E).
Context (Hdis : disjoint_table table = true).

Lemma method_node_spec method ps e :
  (ps, e) ∈ method_node table method ↔ (MkPattern method ps, e) ∈ table.
Proof.
  unfold method_node. rewrite list_elem_of_omap. split.
  - intros ([[m qs] e'] & Hin & Hf). simpl in Hf. destruct (String.eqb_spec m method) as [->|]; [|done].
    by injection Hf as -> ->.
  - intros Hin. exists (MkPattern method ps, e). split; [done|]. simpl. by rewrite String.eqb_refl.
Qed.

(** One path, one entry. *)
Lemma one_entry method xs ps qs e e' m m' :
  (MkPattern method ps, e) ∈ table → (MkPattern method qs, e') ∈ table →
  match_segs ps xs = Some m → match_segs qs xs = Some m' → e = e' ∧ m = m'.
Proof.
  intros Hp Hq Hm Hm'. pose proof (match_overlap _ _ _ _ _ Hm Hm') as Ho.
  revert Hdis Hp Hq. induction table as [|[r f] t IH]; intros Hd Hp Hq; [by apply not_elem_of_nil in Hp|].
  simpl in Hd. apply andb_true_iff in Hd as [Hs Hd]. rewrite forallb_forall in Hs.
  assert (Hsep : ∀ pr g, (MkPattern method pr, g) ∈ t → separate r (MkPattern method pr) = true)
    by (intros pr g Hin; apply (Hs (MkPattern method pr, g)), list_elem_of_In, Hin).
  apply elem_of_cons in Hp as [[= <- <-]|Hp]; apply elem_of_cons in Hq as [Hq|Hq].
  - injection Hq as <- <-. rewrite Hm in Hm'. by injection Hm' as <-.
  - specialize (Hsep _ _ Hq). unfold separate in Hsep. simpl in Hsep. by rewrite String.eqb_refl, Ho in Hsep.
  - injection Hq as <- <-. specialize (Hsep _ _ Hp). unfold separate in Hsep. simpl in Hsep.
    rewrite String.eqb_refl in Hsep. simpl in Hsep. apply negb_true_iff in Hsep.
    by rewrite (match_overlap _ _ _ _ _ Hm' Hm) in Hsep.
  - by apply IH.
Qed.

(** The tree finds the one entry that matches. *)
Lemma matchPath_exact method xs e m :
  matchPath (method_node table method) xs = Some (e, m) ↔
  ∃ ps, (MkPattern method ps, e) ∈ table ∧ match_segs ps xs = Some m.
Proof.
  split.
  - intros (ps & Hin%method_node_spec & Hm)%matchPath_sound. by exists ps.
  - intros (ps & Hin & Hm).
    destruct (matchPath_complete (method_node table method) xs ps e m) as [[e' m'] He];
      [by apply method_node_spec|done|]. rewrite He.
    apply matchPath_sound in He as (qs & Hq%method_node_spec & Hm').
    by destruct (one_entry _ _ _ _ _ _ _ _ Hin Hq Hm Hm') as [-> ->].
Qed.

Lemma matchPath_none method xs :
  matchPath (method_node table method) xs = None ↔
  ∀ ps e, (MkPattern method ps, e) ∈ table → match_segs ps xs = None.
Proof.
  split.
  - intros Hn ps e Hin. destruct (match_segs ps xs) as [m|] eqn:Hm; [|done].
    assert (He : matchPath (method_node table method) xs = Some (e, m)) by (apply matchPath_exact; eauto).
    by rewrite He in Hn.
  - intros Hn. destruct (matchPath _ _) as [[e m]|] eqn:He; [|done].
    apply matchPath_exact in He as (ps & Hin & Hm). by rewrite (Hn ps e Hin) in Hm.
Qed.
End lemmas.
