(* ===== verification/Api.v ===== *)
(** * The HTTP server (internal/api/server.go, static.go)

    The health, index, log and page endpoints; the routing table; [New], the
    whole handler: every request goes through the observing wrapper, the
    router and the endpoint's own handler, and any log line on the way may
    panic. *)

From Stdlib Require Import String.
From S2P Require Import Prelude GoStrings Errors Database Obs Session Store Wallets Ring.
From S2P Require Import Http Middleware Handlers Routing.

#[local] Open Scope string_scope.
#[local] Open Scope Z_scope.

(** ** Health *)

Definition handleHealth (s : Server) (uptime_seconds : Z) (r : request) : list write_op :=
  writeJSON StatusOK (PHealth (sv_version s) uptime_seconds).

(** [ping] is what [Pool().Ping] answered. *)
Definition handleReady (ping : option error) (r : request) : list write_op :=
  match ping with
  | Some err => writeJSON StatusServiceUnavailable (PDegraded err)
  | None => writeJSON StatusOK PReady
  end.

Definition handleIndex (s : Server) (r : request) : list write_op :=
  writeJSON StatusOK (PIndex (sv_version s)).

(** ** Logs *)

(** The [n] of the query, if it is an integer of 1 .. 5000. *)
Definition recent_n (r : request) : Z :=
  let v := rq_query r "n" in
  if negb (String.eqb v "") then
    match Atoi v with
    | Some parsed => if (0 <? parsed) && (parsed <=? 5000) then parsed else 200
    | None => 200
    end
  else 200.

(** The ring may change between the snapshot and the count of subscribers:
    [ring] and [ring'] are the two states read. *)
Definition handleLogsRecent (ring ring' : Ring) (r : request) : list write_op :=
  let lines := Snapshot ring (recent_n r) in
  let out := List.filter Valid lines in
  writeJSON StatusOK (PLogs (Z.of_nat (length out)) (Subscribers ring') out).

(** What wakes the loop of the stream while it goes on, and what ends it. *)
Inductive wake := WLine (line : string) | WTick.
Inductive stream_end := EndDone | EndClosed.

Record stream_session := MkSession { ss_wakes : list wake; ss_end : stream_end }.

Definition stream_prelude (ring : Ring) : list write_op :=
  [SetHeader "Content-Type" "text/event-stream"; SetHeader "Cache-Control" "no-cache";
   SetHeader "Connection" "keep-alive"; SetHeader "X-Accel-Buffering" "no"; WriteHeader StatusOK] ++
  ((λ line, WriteBody (PData line)) <$> List.filter Valid (Snapshot ring 100)) ++ [Flush].

Definition stream_wake (w : wake) : list write_op :=
  match w with
  | WLine line => [WriteBody (PData line); Flush]
  | WTick => [WriteBody PHeartbeat; Flush]
  end.

(** A stream that ended: [flusher] is whether the writer is an
    [http.Flusher], which the status recorder is. *)
Definition handleLogStream (flusher : bool) (ring : Ring) (session : stream_session) (r : request)
    : list write_op :=
  if negb flusher then
    writeError r StatusInternalServerError "streaming_unsupported" "server cannot stream"
  else stream_prelude ring ++ mjoin (stream_wake <$> ss_wakes session).

(** ** Pages *)

Definition servePage (body : payload) : list write_op :=
  [SetHeader "Content-Type" "text/html; charset=utf-8"; SetHeader "Cache-Control" "no-store";
   WriteBody body].

Definition handleLogViewer (r : request) : list write_op := servePage (PPage "logs.html").
Definition handleDashboard (r : request) : list write_op := servePage (PPage "dashboard.html").

(** ** The router's own answers (net/http)

    A redirect's Location header, a rendering of the path and the query, is
    left out. *)

Definition http_Error (msg : string) (code : Z) : list write_op :=
  [SetHeader "Content-Type" "text/plain; charset=utf-8"; SetHeader "X-Content-Type-Options" "nosniff";
   WriteHeader code; WriteBody (PText msg)].

Definition http_Redirect (r : request) (path : string) : list write_op :=
  let get := String.eqb (rq_method r) "GET" in
  (if get || String.eqb (rq_method r) "HEAD"
   then [SetHeader "Content-Type" "text/html; charset=utf-8"] else []) ++
  [WriteHeader StatusMovedPermanently] ++
  (if get then [WriteBody (PMoved path)] else []).

(** ** The routing table *)

Inductive endpoint :=
| ECreateWallet | EGetWallet | ECreateTransfer | EGetTransfer | EMint
| EHealth | EReady | EInvariants | EMetrics | ELogStream | ELogsRecent | ELogViewer
| EDashboard | EIndex.

#[global] Instance endpoint_eq_dec : EqDecision endpoint.
Proof. solve_decision. Defined.

Definition routes : list (string * endpoint) :=
  [("POST /wallets", ECreateWallet);
   ("GET /wallets/{id}", EGetWallet);
   ("POST /transfers", ECreateTransfer);
   ("GET /transfers/{id}", EGetTransfer);
   ("POST /admin/mint", EMint);
   ("GET /healthz", EHealth);
   ("GET /readyz", EReady);
   ("GET /invariants", EInvariants);
   ("GET /metrics", EMetrics);
   ("GET /logs/stream", ELogStream);
   ("GET /logs/recent", ELogsRecent);
   ("GET /logs", ELogViewer);
   ("GET /dashboard", EDashboard);
   ("GET /{$}", EIndex)].

(** The mux: each pattern parsed, with its text. *)
Definition mux : list (pattern * (string * endpoint)) :=
  omap (λ te : string * endpoint, p ← parse_pattern te.1; Some (p, te)) routes.

Definition find_route (r : request) : found (string * endpoint) :=
  findHandler mux (rq_method r) (rq_path r) (rq_escaped r).

(** [r.Pattern] and the value of the wildcard, as the router sets them. *)
Definition route_pattern (f : found (string * endpoint)) : string :=
  match f with
  | FHandler (text, _) _ | FClean _ (Some (text, _)) => text
  | FSlash path => path
  | _ => ""
  end.

Definition route_id (f : found (string * endpoint)) : string :=
  match f with FHandler _ (id :: _) => id | _ => "" end.

Definition routed (r : request) : request :=
  let f := find_route r in
  MkRequest (rq_ctx r) (rq_method r) (rq_path r) (rq_escaped r) (route_pattern f) (rq_header r)
    (rq_query r) (route_id f) (rq_body r).

(** ** The whole handler *)

(** What the world outside the database shows one request: the seconds since
    the start, the ping, the ring as the log endpoints read it, the stream
    until it ends, the Prometheus handler, and which of its log lines panic:
    of the handler's, and of the wrapper's deferred function. *)
Record surroundings := MkSurroundings {
  sr_uptime : Z;
  sr_ping : option error;
  sr_ring : Ring;
  sr_ring' : Ring;
  sr_stream : stream_session;
  sr_promhttp : request → list write_op;
  sr_panics : nat → bool;
  sr_closing : nat → bool
}.

Section api.
Context `{PgText} (s : Server).

Definition endpoint_handler (sr : surroundings) (e : endpoint) : handler :=
  match e with
  | ECreateWallet => authenticate s (handleCreateWallet s)
  | EGetWallet => authenticate s (handleGetWallet s)
  | ECreateTransfer => authenticate s (handleCreateTransfer s)
  | EGetTransfer => authenticate s (handleGetTransfer s)
  | EMint => requireAdmin s (handleMint s)
  | EHealth => λ r, mret (handleHealth s (sr_uptime sr) r)
  | EReady => λ r, mret (handleReady (sr_ping sr) r)
  | EInvariants => handleInvariants
  | EMetrics => λ r, mret (sr_promhttp sr r)
  | ELogStream => λ r, mret (handleLogStream true (sr_ring sr) (sr_stream sr) r)
  | ELogsRecent => λ r, mret (handleLogsRecent (sr_ring sr) (sr_ring' sr) r)
  | ELogViewer => λ r, mret (handleLogViewer r)
  | EDashboard => λ r, mret (handleDashboard r)
  | EIndex => λ r, mret (handleIndex s r)
  end.

(** [mux.ServeHTTP] *)
Definition mux_ServeHTTP (sr : surroundings) : handler := λ r,
  match find_route r with
  | FHandler (_, e) _ => endpoint_handler sr e (routed r)
  | FSlash path | FClean path _ => mret (http_Redirect (routed r) path)
  | FMethodNotAllowed allowed =>
      mret (SetHeader "Allow" (String.concat ", " allowed) ::
            http_Error "Method Not Allowed" StatusMethodNotAllowed)
  | FNotFound => mret (http_Error "404 page not found" StatusNotFound)
  end.

(** [New]: the router writes the pattern through the pointer [observe] still
    holds, so what [observe] reads after the call is the routed request. *)
Definition New_handler (sr : surroundings) (random : option string) (nanos : Z) : handler := λ r,
  observe s (sr_closing sr) random nanos (recovered (sr_panics sr) (mux_ServeHTTP sr)) (routed r).
End api.
