(* ===== verification/LogLines.v ===== *)
(** * Log lines and the public log (internal/obs/log.go, [NewLogger]; internal/api/server.go, the log endpoints)

    The line slog's JSON handler makes of a record, what reaches the ring, the
    bytes of the event stream, and the reader of an event stream.  The time of a
    record is an argument; so are the values the model does not compute. *)

From Stdlib Require Import Ascii String.
From S2P Require Import Prelude GoStrings Json JsonText Encoding Errors Obs Ring Http Responses Api.

#[local] Open Scope string_scope.
#[local] Open Scope Z_scope.

Definition newline : Ascii.ascii := byte 10.

(** ** Lines *)

Definition level_string (l : Level) : string :=
  match l with LevelDebug => "DEBUG" | LevelInfo => "INFO" | LevelWarn => "WARN" | LevelError => "ERROR" end.

Section lines.
Context `{Texts} (opaque : string → json).

Definition attr_json (a : string * attr_value) : string * json :=
  (a.1, match a.2 with
        | AString s => JString s
        | AInt64 z => number z
        | ABool b => JBool b
        | AErrorText e => JString (error_out e)
        | AOpaque => opaque a.1
        end).

Definition record_json (time : string) (r : log_record) : json :=
  JObject ([("time", JString time); ("level", JString (level_string (r_level r))); ("msg", JString (r_msg r))] ++
           (attr_json <$> r_attrs r))%list.

(** One call of the logger, at a time.  [lc_stdout] is whether standard output
    took the line: the multi-writer comes to the ring only then. *)
Record log_call := MkCall { lc_time : string; lc_ctx : context; lc_record : log_record; lc_stdout : bool }.

(** The JSON of the record as it is handled, and its line. *)
Definition call_json (c : log_call) : json := record_json (lc_time c) (Handle (lc_ctx c) (lc_record c)).
Definition call_text (c : log_call) : string := encode Slog (call_json c).
Definition call_line (c : log_call) : string := call_text c +:+ String newline "".

(** [NewLogger]: the calls whose line comes to the ring. *)
Definition recorded (level : Level) (calls : list log_call) : list log_call :=
  List.filter (λ c, Enabled level (r_level (lc_record c)) && lc_stdout c) calls.

Definition NewLogger_ring (size : Z) (level : Level) (calls : list log_call) : Ring :=
  write_lines (NewRing size) (call_line <$> recorded level calls).

(** ** The event stream *)

(** What [fmt.Fprintf] writes of a payload of the stream. *)
Definition frame (p : payload) : string :=
  match p with
  | PData line => "data: " +:+ line +:+ String newline (String newline "")
  | PHeartbeat => ": heartbeat" +:+ String newline (String newline "")
  | _ => ""
  end.

Fixpoint stream_text (ops : list write_op) : string :=
  match ops with
  | [] => ""
  | WriteBody p :: ops => frame p +:+ stream_text ops
  | _ :: ops => stream_text ops
  end.

(** A reader of the stream: the complete lines; a blank line ends an event, a
    line that starts with a colon is a comment. *)
Fixpoint sse_lines (s : string) : list string :=
  match s with
  | EmptyString => []
  | String c s =>
      if Ascii.eqb c newline then "" :: sse_lines s
      else match sse_lines s with l :: ls => String c l :: ls | [] => [] end
  end.

Definition sse_data (line : string) : option string :=
  if String.prefix "data: " line then Some (drop_bytes 6 line)
  else if String.prefix "data:" line then Some (drop_bytes 5 line)
  else None.

Fixpoint sse_dispatch (data : list string) (lines : list string) : list string :=
  match lines with
  | [] => []
  | "" :: lines =>
      match data with
      | [] => sse_dispatch [] lines
      | _ => String.concat (String newline "") data :: sse_dispatch [] lines
      end
  | line :: lines =>
      match sse_data line with
      | Some v => sse_dispatch (data ++ [v])%list lines
      | None => sse_dispatch data lines
      end
  end.

Definition sse_events (s : string) : list string := sse_dispatch [] (sse_lines s).

(** ** Lines read back *)

Context (opaque_encodable : ∀ k, encodable (opaque k) = true).

Lemma record_encodable time r : encodable (record_json time r) = true.
Proof.
  unfold record_json. cbn [encodable]. rewrite forallb_app. cbn. rewrite forallb_forall.
  intros x Hx. rewrite <- list_elem_of_In in Hx. apply list_elem_of_fmap in Hx as ([k v] & -> & _).
  destruct v; cbn; try done. apply is_number_Itoa.
Qed.

Lemma read_call c : read_body (call_text c) = Some (sanitized (call_json c)).
Proof.
  unfold read_body, call_text. rewrite <- (app_nil_s (encode _ _)).
  rewrite scan_encode; [done|exact (record_encodable _ _)|exact I].
Qed.

Lemma Valid_call c : Valid (call_line c) = true.
Proof.
  unfold Valid, call_line, call_text.
  rewrite scan_encode; [done|exact (record_encodable _ _)|by apply delimited_byte].
Qed.

Lemma control_free_call c : control_free (call_text c) = true.
Proof. apply control_free_encode, record_encodable. Qed.

(** Every line the ring holds of the logger passes the filter of the endpoints. *)
Lemma Valid_calls cs : List.filter Valid (call_line <$> cs) = call_line <$> cs.
Proof. induction cs as [|c cs IH]; [done|]. cbn. by rewrite Valid_call, IH. Qed.

Lemma last_lines_map {A B} (f : A → B) n (l : list A) : last_lines n (f <$> l) = f <$> last_lines n l.
Proof. unfold last_lines. by rewrite length_fmap, fmap_drop. Qed.

Lemma window_map {A B} (f : A → B) size n (l : list A) : window size n (f <$> l) = window size n l.
Proof. unfold window, retained. by rewrite length_fmap. Qed.

Lemma snapshot_calls sz level calls n :
  Snapshot (NewLogger_ring sz level calls) n =
  call_line <$> last_lines (Z.to_nat (window (if sz <=? 0 then 1 else sz) n (recorded level calls))) (recorded level calls).
Proof. unfold NewLogger_ring. by rewrite snapshot_written, last_lines_map, window_map. Qed.

Lemma read_line c : read_body (call_line c) = Some (sanitized (call_json c)).
Proof.
  unfold read_body, call_line, call_text.
  by rewrite scan_encode by (exact (record_encodable _ _) || by apply delimited_byte).
Qed.

(** The body of the recent lines. *)
Lemma read_recent count subscribers cs :
  ∃ text, body_text (PLogs count subscribers (call_line <$> cs)) = Some text ∧
    read_body text = Some (logs_json count subscribers (List.map (λ c, sanitized (call_json c)) cs)).
Proof.
  destruct (read_logs count subscribers (call_line <$> cs)) as (text & vs & Ht & Hvs & Hr).
  { induction cs as [|c cs IH]; [done|]. cbn. by rewrite Valid_call. }
  exists text. split; [done|]. rewrite Hr. do 2 f_equal. clear -Hvs opaque_encodable.
  revert vs Hvs. induction cs as [|c cs IH]; intros vs Hvs; inversion Hvs as [|x v xs vs' Hv Hvs']; subst; [done|].
  rewrite read_line in Hv. injection Hv as <-. cbn [List.map]. f_equal. by apply IH.
Qed.

(** ** Streams read back *)

Lemma sse_lines_step line rest :
  control_free line = true → sse_lines (line +:+ String newline rest) = line :: sse_lines rest.
Proof.
  induction line as [|c line IH]; intros Hl; [done|]. cbn [control_free] in Hl.
  apply andb_true_iff in Hl as [Hc%Z.leb_le Hl]. rewrite app_cons_s. cbn [sse_lines]. rewrite IH by done.
  destruct (Ascii.eqb_spec c newline) as [->|]; [|done]. by vm_compute in Hc.
Qed.

(** An event frame is one event, a heartbeat is none. *)
Lemma events_data text rest :
  control_free text = true →
  sse_events (frame (PData (text +:+ String newline "")) +:+ rest) = text :: sse_events rest.
Proof.
  intros Ht. unfold sse_events, frame. rewrite !app_assoc_s.
  assert (Hs : ∀ x, "data: " +:+ text +:+ String newline "" +:+ x = ("data: " +:+ text) +:+ String newline x)
    by (intros x; by rewrite !app_assoc_s).
  rewrite Hs, sse_lines_step by (rewrite control_free_app; by rewrite Ht).
  rewrite !app_cons_s, !app_empty_s. by destruct text.
Qed.

Lemma events_heartbeat rest : sse_events (frame PHeartbeat +:+ rest) = sse_events rest.
Proof. reflexivity. Qed.

Lemma events_replay cs ops :
  sse_events (stream_text (((λ line, WriteBody (PData line)) <$> (call_line <$> cs)) ++ ops)%list) =
  ((call_text <$> cs) ++ sse_events (stream_text ops))%list.
Proof.
  induction cs as [|c cs IH]; [done|]. rewrite !fmap_cons, <- !app_comm_cons. cbn [stream_text].
  unfold call_line at 1. by rewrite events_data, IH by apply control_free_call.
Qed.

(** What a viewer was sent after the replay: lines of the logger, and ticks. *)
Definition heard (l : list (option log_call)) : list wake :=
  (λ o, match o with Some c => WLine (call_line c) | None => WTick end) <$> l.

Lemma events_heard l : sse_events (stream_text (mjoin (stream_wake <$> heard l))) = call_text <$> omap id l.
Proof.
  induction l as [|[c|] l IH]; [done|..].
  - unfold heard in *. rewrite !fmap_cons. cbn [stream_text stream_wake mjoin list_join app].
    unfold call_line at 1. rewrite events_data by apply control_free_call.
    change (omap id (Some c :: l)) with (c :: omap id l). rewrite fmap_cons. f_equal. exact IH.
  - exact IH.
Qed.
End lines.

(** ** Property *)

(** C18: The public log shows the service's log and nothing is lost to its filters.
    Whatever was logged, at any level, with any text in it: the recent-lines
    endpoint answers, with their exact count, the lines of the last n records
    the ring retains of those the logger let through, and its body, whatever
    markup is in them, reads back as exactly those records; a reader of the event
    stream gets one event per record, first the last hundred in order and then
    each line sent to it live, heartbeats apart, and no text in a record can
    split, end or forge an event; and every line reads back as the record, with
    the correlation id of its request. *)
Theorem public_log_faithful `{Texts} (opaque : string → json) sz level calls ring' r viewed e :
  (∀ k, encodable (opaque k) = true) →
  let ring := NewLogger_ring opaque sz level calls in
  let kept n := last_lines (Z.to_nat (window (if sz <=? 0 then 1 else sz) n (recorded level calls)))
                  (recorded level calls) in
  handleLogsRecent ring ring' r =
    writeJSON StatusOK (PLogs (Z.of_nat (length (kept (recent_n r)))) (Subscribers ring')
                          (call_line opaque <$> kept (recent_n r))) ∧
  sse_events (stream_text (handleLogStream true ring (MkSession (heard opaque viewed) e) r)) =
    call_text opaque <$> (kept 100 ++ omap id viewed)%list ∧
  (∀ c, read_body (call_text opaque c) = Some (sanitized (call_json opaque c))) ∧
  ∃ text,
    body_text (PLogs (Z.of_nat (length (kept (recent_n r)))) (Subscribers ring')
      (call_line opaque <$> kept (recent_n r))) = Some text ∧
    read_body text = Some (logs_json (Z.of_nat (length (kept (recent_n r)))) (Subscribers ring')
      (List.map (λ c, sanitized (call_json opaque c)) (kept (recent_n r)))).
Proof.
  intros Hop ring kept. split_and!.
  - unfold handleLogsRecent. subst ring. rewrite snapshot_calls, Valid_calls by done. by rewrite length_fmap.
  - unfold handleLogStream, stream_prelude. subst ring. rewrite snapshot_calls, Valid_calls by done.
    rewrite <- app_assoc. cbn [negb app stream_text ss_wakes]. rewrite <- app_assoc, events_replay by done.
    cbn [app stream_text]. by rewrite events_heard, fmap_app by done.
  - intros c. by apply read_call.
  - by apply read_recent.
Qed.

(** A ring of two lines; the second record quotes an event of its own. *)
Definition logged_calls : list log_call :=
  let forged := String quote ("}" +:+ String newline (String newline "data: {}")) in
  [MkCall "t1" Background (MkRecord LevelInfo "first" []) true;
   MkCall "t2" (WithCorrelationID Background forged) (MkRecord LevelError forged [("panic", AOpaque)]) true;
   MkCall "t3" Background (MkRecord LevelDebug "unseen" []) true;
   MkCall "t4" Background (MkRecord LevelWarn "last" [("attempt", AInt64 (-1)); ("error", AErrorText ErrNoRows)]) true].

Definition stream_request : request :=
  MkRequest Background "GET" "/logs/stream" "/logs/stream" "" (λ _, "") (λ _, "") "" "".

Lemma public_log_faithful_witness :
  let texts := utc_texts in
  let opaque := λ _, JArray [JNull; JNumber "-1.5e9"] in
  sse_events (stream_text (handleLogStream true (NewLogger_ring opaque 2 LevelInfo logged_calls)
    (MkSession (heard opaque [None; logged_calls !! 0%nat]) EndDone) stream_request)) =
  call_text opaque <$> omap id [logged_calls !! 1%nat; logged_calls !! 3%nat; logged_calls !! 0%nat].
Proof.
  intros texts opaque.
  destruct (public_log_faithful opaque 2 LevelInfo logged_calls (NewRing 2)
    stream_request [None; logged_calls !! 0%nat] EndDone) as (_ & Hs & _); [done|].
  exact Hs.
Defined.
