(* ===== verification/Stream.v ===== *)
(** * The log stream among the writers (handleLogStream and the ring)

    One viewer of /logs/stream, the goroutines that log, and the other viewers,
    interleaved.  slog's handler calls [Write] under a mutex of its own, so one
    [Write] is in progress at a time; its sends still interleave with what the
    viewers do.  [st_hist] is every line written, [st_lost] the lines that were
    not delivered to the viewer although it was subscribed. *)

From stdpp Require Import gmap.
From S2P Require Import Prelude GoStrings Errors Obs Ring RingProps Http Middleware Handlers Api.

(** ** State and steps *)

(** [VReplayed]: the snapshot was replayed; [VLive]: subscribed, with the
    wakes so far; [VGone]: returned, its subscription cancelled. *)
Inductive viewer :=
| VConnecting
| VReplayed (ring0 : Ring)
| VLive (ch : nat) (ring0 : Ring) (wakes : list wake)
| VGone (ring0 : Ring) (session : stream_session).

Record stream_state := MkStream {
  st_ring : Ring;
  st_heap : gmap nat chan;
  st_hist : list string;
  st_writer : option (string * list nat);
  st_viewer : viewer;
  st_lost : list string
}.

Definition viewer_channel (v : viewer) : option nat :=
  match v with VLive ch _ _ => Some ch | _ => None end.

(** The line the writer still owes a channel. *)
Definition owed (writer : option (string * list nat)) (c : nat) : list string :=
  match writer with
  | Some (line, cs) => if decide (c ∈ cs) then [line] else []
  | None => []
  end.

Definition owed_viewer (writer : option (string * list nat)) (v : viewer) : list string :=
  match viewer_channel v with Some c => owed writer c | None => [] end.

(** What a send of [line] to [c] fails to deliver to the viewer. *)
Definition missed (h : gmap nat chan) (v : viewer) (c : nat) (line : string) : list string :=
  if bool_decide (viewer_channel v = Some c) &&
     match h !! c with Some ch => (chan_cap <=? length (queue ch))%nat | None => true end
  then [line] else [].

Inductive stream_step : stream_state → stream_state → Prop :=
(* the writers *)
| ss_write r h hist v lost line :
    stream_step (MkStream r h hist None v lost)
      (MkStream (write_locked r line).1 h (hist ++ [line])
         (Some (line, (write_locked r line).2)) v lost)
| ss_send r h hist v lost line c cs h' :
    try_send h c line = Some h' →
    stream_step (MkStream r h hist (Some (line, c :: cs)) v lost)
      (MkStream r h' hist (Some (line, cs)) v (lost ++ missed h v c line))
| ss_panic r h hist v lost line c cs :
    try_send h c line = None →
    stream_step (MkStream r h hist (Some (line, c :: cs)) v lost)
      (MkStream r h hist None v (lost ++ owed_viewer (Some (line, c :: cs)) v))
| ss_written r h hist v lost line :
    stream_step (MkStream r h hist (Some (line, [])) v lost) (MkStream r h hist None v lost)
(* the other viewers *)
| ss_subscribe r h hist w v lost ch :
    h !! ch = None →
    stream_step (MkStream r h hist w v lost)
      (MkStream (Subscribe r h ch).1 (Subscribe r h ch).2 hist w v lost)
| ss_cancel r h hist w v lost ch :
    viewer_channel v ≠ Some ch →
    stream_step (MkStream r h hist w v lost)
      (MkStream (cancel r h ch).1 (cancel r h ch).2 hist w v lost)
| ss_receive r h hist w v lost ch x h' :
    viewer_channel v ≠ Some ch → receive h ch = Some (x, h') →
    stream_step (MkStream r h hist w v lost) (MkStream r h' hist w v lost)
(* the viewer *)
| ss_replay r h hist w lost :
    stream_step (MkStream r h hist w VConnecting lost) (MkStream r h hist w (VReplayed r) lost)
| ss_join r h hist w r0 lost ch :
    h !! ch = None →
    stream_step (MkStream r h hist w (VReplayed r0) lost)
      (MkStream (Subscribe r h ch).1 (Subscribe r h ch).2 hist w (VLive ch r0 []) lost)
| ss_line r h hist w ch r0 wakes lost line h' :
    receive h ch = Some (Some line, h') →
    stream_step (MkStream r h hist w (VLive ch r0 wakes) lost)
      (MkStream r h' hist w (VLive ch r0 (wakes ++ [WLine line])) lost)
| ss_closed r h hist w ch r0 wakes lost h' :
    receive h ch = Some (None, h') →
    stream_step (MkStream r h hist w (VLive ch r0 wakes) lost)
      (MkStream (cancel r h' ch).1 (cancel r h' ch).2 hist w (VGone r0 (MkSession wakes EndClosed)) lost)
| ss_tick r h hist w ch r0 wakes lost :
    stream_step (MkStream r h hist w (VLive ch r0 wakes) lost)
      (MkStream r h hist w (VLive ch r0 (wakes ++ [WTick])) lost)
| ss_done r h hist w ch r0 wakes lost :
    stream_step (MkStream r h hist w (VLive ch r0 wakes) lost)
      (MkStream (cancel r h ch).1 (cancel r h ch).2 hist w (VGone r0 (MkSession wakes EndDone)) lost).

Inductive stream_reachable (sz : Z) : stream_state → Prop :=
| sr_init : stream_reachable sz (MkStream (NewRing sz) ∅ [] None VConnecting [])
| sr_step st st' : stream_reachable sz st → stream_step st st' → stream_reachable sz st'.

(** ** What the viewer is shown *)

(** The lines of the data frames of a response. *)
Definition lines_of (ops : list write_op) : list string :=
  omap (λ op, match op with WriteBody (PData line) => Some line | _ => None end) ops.

Definition received (wakes : list wake) : list string :=
  omap (λ w, match w with WLine line => Some line | WTick => None end) wakes.

Lemma lines_of_app a b : lines_of (a ++ b) = lines_of a ++ lines_of b.
Proof. apply omap_app. Qed.

Lemma lines_of_session r0 wakes e r :
  lines_of (handleLogStream true r0 (MkSession wakes e) r) =
  List.filter Valid (Snapshot r0 100) ++ received wakes.
Proof.
  unfold handleLogStream. simpl negb. cbn iota. unfold stream_prelude.
  rewrite !lines_of_app. simpl. f_equal.
  - rewrite app_nil_r. induction (List.filter Valid (Snapshot r0 100)) as [|l ls IH]; [done|].
    cbn. by f_equal.
  - induction wakes as [|w wakes IH]; [done|]. 
    change (mjoin (stream_wake <$> w :: wakes)) with (stream_wake w ++ mjoin (stream_wake <$> wakes)).
    rewrite lines_of_app, IH. by destruct w.
Qed.

(** ** The invariant *)

(** [r0] was read after [n0] lines, the subscription made after [n1]. *)
Definition snapshot_of (sz : Z) (r0 : Ring) (hist : list string) (n0 : nat) : Prop :=
  (n0 ≤ length hist)%nat ∧ size r0 = sz ∧ holds_history r0 (take n0 hist).

Definition delivered (got rest : list string) (lost : list string) (hist : list string) (n1 : nat) : Prop :=
  (n1 ≤ length hist)%nat ∧ (got ++ rest) `sublist_of` drop n1 hist ∧
  (lost = [] → got ++ rest = drop n1 hist).

Definition view_ok (sz : Z) (st : stream_state) : Prop :=
  match st_viewer st with
  | VConnecting => st_lost st = []
  | VReplayed r0 => st_lost st = [] ∧ ∃ n0, snapshot_of sz r0 (st_hist st) n0
  | VLive ch r0 wakes =>
      ∃ n0 n1 q, (n0 ≤ n1)%nat ∧ snapshot_of sz r0 (st_hist st) n0 ∧
        ch ∈ subs (st_ring st) ∧ st_heap st !! ch = Some (MkChan q false) ∧
        delivered (received wakes) (q ++ owed (st_writer st) ch) (st_lost st) (st_hist st) n1
  | VGone r0 session =>
      ss_end session = EndDone ∧
      ∃ n0 n1, (n0 ≤ n1)%nat ∧ snapshot_of sz r0 (st_hist st) n0 ∧ (n1 ≤ length (st_hist st))%nat ∧
        received (ss_wakes session) `sublist_of` drop n1 (st_hist st)
  end.

Record stream_inv (sz : Z) (st : stream_state) : Prop := {
  sv_size : size (st_ring st) = sz;
  sv_hist : holds_history (st_ring st) (st_hist st);
  sv_open : subs_open (st_ring st) (st_heap st);
  sv_writer : ∀ line cs, st_writer st = Some (line, cs) →
    NoDup cs ∧ ∀ c, c ∈ cs → is_Some (st_heap st !! c);
  sv_view : view_ok sz st
}.

Lemma snapshot_grow sz r0 hist line n0 : snapshot_of sz r0 hist n0 → snapshot_of sz r0 (hist ++ [line]) n0.
Proof.
  intros (Hn & Hs & Hh). split; [rewrite length_app; simpl; lia|]. split; [done|].
  rewrite take_app_le by lia. done.
Qed.

Lemma drop_grow (hist : list string) line n : (n ≤ length hist)%nat → drop n (hist ++ [line]) = drop n hist ++ [line].
Proof. intros Hn. by rewrite drop_app_le. Qed.

(** The viewer's channel and the other operations. *)
Lemma try_send_other h c line h' x : try_send h c line = Some h' → x ≠ c → h' !! x = h !! x.
Proof.
  intros Hs Hx. destruct (try_send_Some _ _ _ _ Hs) as [->|(q & _ & ->)]; [done|]. by rewrite lookup_insert_ne.
Qed.

Lemma cancel_other r h c x : x ≠ c → (cancel r h c).2 !! x = h !! x ∧ (x ∈ subs r → x ∈ subs (cancel r h c).1).
Proof.
  intros Hx. unfold cancel. case_bool_decide; [|done]. simpl. rewrite lookup_alter_ne by done. set_solver.
Qed.

Lemma receive_other h c x h' y : receive h c = Some (x, h') → y ≠ c → h' !! y = h !! y.
Proof.
  unfold receive. intros Hr Hy. destruct (h !! c) as [[q b]|]; [|done]. simpl in Hr.
  destruct q; [by destruct b; simplify_eq|]. injection Hr as _ <-. by rewrite lookup_insert_ne.
Qed.

Lemma receive_dom h c x h' y : receive h c = Some (x, h') → is_Some (h !! y) → is_Some (h' !! y).
Proof.
  unfold receive. intros Hr Hy. destruct (h !! c) as [[q b]|]; [|done]. simpl in Hr.
  destruct q; [by destruct b; simplify_eq|]. injection Hr as _ <-. rewrite lookup_insert. by case_decide.
Qed.

Lemma receive_open r h c x h' : subs_open r h → receive h c = Some (x, h') → subs_open r h'.
Proof.
  unfold receive. intros Ho Hr y Hy. destruct (Ho y Hy) as [qy Hqy]. destruct (h !! c) as [[q b]|] eqn:Hc; [|done].
  simpl in Hr. destruct q as [|z q]; [destruct b; simplify_eq; by exists qy|]. injection Hr as _ <-.
  rewrite lookup_insert. case_decide; [|by exists qy]. subst. rewrite Hc in Hqy. injection Hqy as _ ->. by eexists.
Qed.

Lemma cancel_open r h c : subs_open r h → subs_open (cancel r h c).1 (cancel r h c).2.
Proof.
  intros Ho. unfold cancel. case_bool_decide; [|done]. intros x [Hx Hne%not_elem_of_singleton]%elem_of_difference.
  destruct (Ho x Hx) as [q Hq]. exists q. simpl. by rewrite lookup_alter_ne.
Qed.

Lemma cancel_dom r h c x : is_Some (h !! x) → is_Some ((cancel r h c).2 !! x).
Proof.
  unfold cancel. case_bool_decide; [|done]. simpl. rewrite lookup_alter. case_decide; [|done].
  subst. by intros [? ->].
Qed.

Lemma subscribe_open r h c : h !! c = None → subs_open r h → subs_open (Subscribe r h c).1 (Subscribe r h c).2.
Proof.
  intros Hc Ho x [->%elem_of_singleton|Hx]%elem_of_union; [eexists; apply lookup_insert_eq|].
  destruct (Ho x Hx) as [q Hq]. exists q. simpl. rewrite lookup_insert_ne by congruence. done.
Qed.

(** Rings with the same lines. *)
Lemma same_history r r' hist :
  buf r' = buf r → size r' = size r → next r' = next r → count r' = count r →
  holds_history r hist → holds_history r' hist.
Proof. intros H1 H2 H3 H4 [? ? ? ? ?]. split; rewrite ?H1, ?H2, ?H3, ?H4; done. Qed.

Lemma cancel_ring r h c :
  let r' := (cancel r h c).1 in buf r' = buf r ∧ size r' = size r ∧ next r' = next r ∧ count r' = count r.
Proof. unfold cancel. by case_bool_decide. Qed.
