(* ===== verification/StreamProps.v ===== *)
(** * The log stream: properties

    What a viewer of /logs/stream is shown, whatever the writers and the other
    viewers do. *)

From stdpp Require Import gmap.
From S2P Require Import Prelude GoStrings Errors Obs Ring RingProps Http Middleware Handlers Api Stream.

(** ** Every step keeps the invariant *)

(** Read off the fields of a state. *)
Ltac view_simpl :=
  cbn [st_viewer st_lost st_hist st_ring st_heap st_writer viewer_channel] in *.

Section steps.
Context (sz : Z).

(** What the writers do to a viewer's view. *)
Lemma view_write st line :
  stream_inv sz st → st_writer st = None →
  view_ok sz (MkStream (write_locked (st_ring st) line).1 (st_heap st) (st_hist st ++ [line])
    (Some (line, (write_locked (st_ring st) line).2)) (st_viewer st) (st_lost st)).
Proof.
  intros [_ _ _ _ Hv] Hw. unfold view_ok in *. cbn [st_viewer st_lost st_hist st_ring st_heap st_writer].
  rewrite Hw in Hv. destruct (st_viewer st) as [|r0|ch r0 wakes|r0 session]; [done| | |].
  - destruct Hv as (Hl & n0 & Hs). split; [done|]. exists n0. by apply snapshot_grow.
  - destruct Hv as (n0 & n1 & q & Hn & Hs & Hch & Hq & Hd1 & Hd2 & Hd3). exists n0, n1, q.
    split; [done|]. split; [by apply snapshot_grow|]. split; [done|]. split; [done|].
    unfold owed. rewrite decide_True by (by apply elem_of_elements). simpl in Hd2, Hd3. rewrite app_nil_r in Hd2, Hd3.
    split; [rewrite length_app; lia|]. rewrite drop_grow, app_assoc by done.
    split; [by apply sublist_app|]. intros Hl. by rewrite Hd3.
  - destruct Hv as (He & n0 & n1 & Hn & Hs & Hn1 & Hd). split; [done|]. exists n0, n1. split; [done|].
    split; [by apply snapshot_grow|]. split; [rewrite length_app; lia|].
    rewrite drop_grow by done. by apply sublist_inserts_r.
Qed.

Lemma delivered_less got rest rest' lost lost' hist n1 :
  rest' `sublist_of` rest → (lost' = [] → lost = [] ∧ rest' = rest) →
  delivered got rest lost hist n1 → delivered got rest' lost' hist n1.
Proof.
  intros Hs Hl (H1 & H2 & H3). split; [done|]. split; [etrans; [|exact H2]; by apply sublist_app|].
  intros H0. destruct (Hl H0) as [-> ->]. by apply H3.
Qed.

Lemma view_send r h hist v lost line c cs h' :
  NoDup (c :: cs) → try_send h c line = Some h' →
  view_ok sz (MkStream r h hist (Some (line, c :: cs)) v lost) →
  view_ok sz (MkStream r h' hist (Some (line, cs)) v (lost ++ missed h v c line)).
Proof.
  intros Hnd Hs Hv. apply NoDup_cons in Hnd as [Hc _]. unfold view_ok, missed, owed in *.
  destruct v as [|r0|ch r0 wakes|r0 session]; view_simpl; rewrite ?bool_decide_false by done; cbn [andb]; [by rewrite app_nil_r|by rewrite app_nil_r| |done].
  destruct Hv as (n0 & n1 & q & Hn & Hsn & Hch & Hq & Hd). exists n0, n1.
  destruct (decide (ch = c)) as [->|Hne].
  - rewrite decide_True in Hd by (by left). rewrite (decide_False (P := c ∈ cs)) by done.
    rewrite bool_decide_true, Hq by done. cbn [andb queue].
    exists (offer line q). split; [done|]. split; [done|]. split; [done|].
    rewrite (try_send_open _ _ _ _ Hq) in Hs. injection Hs as <-. split; [by rewrite lookup_insert_eq|].
    rewrite app_nil_r. unfold offer. destruct (Nat.ltb_spec (length q) chan_cap) as [Hlt|Hge].
    + rewrite (proj2 (Nat.leb_gt _ _) Hlt). eapply delivered_less; [|intros Hl|exact Hd]; [done|].
      by rewrite app_nil_r in Hl.
    + rewrite (proj2 (Nat.leb_le _ _) Hge). eapply delivered_less; [|intros Hl|exact Hd].
      * by apply sublist_inserts_r.
      * by destruct lost.
  - rewrite bool_decide_false by congruence. cbn [andb]. rewrite app_nil_r. exists q.
    rewrite (try_send_other _ _ _ _ _ Hs Hne). split_and!; try done.
    revert Hd. destruct (decide (ch ∈ cs)) as [Hin|Hin].
    + by rewrite decide_True by (by right).
    + rewrite decide_False; [done|]. by intros [?|?]%elem_of_cons.
Qed.

Lemma view_panic r h hist v lost w :
  view_ok sz (MkStream r h hist w v lost) → view_ok sz (MkStream r h hist None v (lost ++ owed_viewer w v)).
Proof.
  intros Hv. unfold view_ok, owed_viewer in *. view_simpl.
  destruct v as [|r0|ch r0 wakes|r0 session]; view_simpl; [by rewrite app_nil_r|by rewrite app_nil_r| |done].
  destruct Hv as (n0 & n1 & q & Hn & Hsn & Hch & Hq & Hd). exists n0, n1, q. split_and!; try done.
  eapply delivered_less; [|intros Hl|exact Hd]; [apply sublist_app; [done|apply sublist_nil_l]|].
  apply app_eq_nil in Hl as [-> Hl]. by rewrite Hl.
Qed.

(** The other viewers leave the view alone. *)
Lemma view_others r r' h h' hist w v lost :
  (∀ c, viewer_channel v = Some c → h' !! c = h !! c ∧ (c ∈ subs r → c ∈ subs r')) →
  view_ok sz (MkStream r h hist w v lost) → view_ok sz (MkStream r' h' hist w v lost).
Proof.
  intros Ho Hv. unfold view_ok in *. cbn in *. destruct v as [|r0|ch r0 wakes|r0 session]; try done.
  destruct Hv as (n0 & n1 & q & Hn & Hsn & Hch & Hq & Hd). destruct (Ho ch eq_refl) as [Hh Hs].
  exists n0, n1, q. rewrite Hh. split_and!; auto.
Qed.

(** The viewer itself. *)
Lemma view_join r h hist w r0 lost ch :
  h !! ch = None → (∀ line cs, w = Some (line, cs) → ∀ c, c ∈ cs → is_Some (h !! c)) →
  view_ok sz (MkStream r h hist w (VReplayed r0) lost) →
  view_ok sz (MkStream (Subscribe r h ch).1 (Subscribe r h ch).2 hist w (VLive ch r0 []) lost).
Proof.
  intros Hf Hw Hv. unfold view_ok in *. cbn in *. destruct Hv as (Hl & n0 & Hs).
  exists n0, (length hist), []. split; [by destruct Hs|]. split; [done|]. split; [set_solver|].
  split; [by rewrite lookup_insert_eq|].
  assert (Ho : owed w ch = []).
  { unfold owed. destruct w as [[line cs]|]; [|done]. rewrite decide_False; [done|]. intros Hin.
    destruct (Hw line cs eq_refl ch Hin) as [x Hx]. by rewrite Hx in Hf. }
  rewrite Ho. split; [done|]. rewrite drop_ge by lia. by split; [apply sublist_nil_l|].
Qed.

Lemma received_snoc wakes w : received (wakes ++ [w]) = received wakes ++ received [w].
Proof. apply omap_app. Qed.

Lemma view_line r h hist w ch r0 wakes lost line h' :
  receive h ch = Some (Some line, h') →
  view_ok sz (MkStream r h hist w (VLive ch r0 wakes) lost) →
  view_ok sz (MkStream r h' hist w (VLive ch r0 (wakes ++ [WLine line])) lost).
Proof.
  intros Hr Hv. unfold view_ok in *. cbn in *.
  destruct Hv as (n0 & n1 & q & Hn & Hsn & Hch & Hq & Hd). unfold receive in Hr. rewrite Hq in Hr. cbn in Hr.
  destruct q as [|x q]; [done|]. injection Hr as <- <-. exists n0, n1, q. rewrite lookup_insert_eq.
  split_and!; try done. rewrite received_snoc. unfold delivered in *. cbn [received omap list_omap].
  by rewrite <- app_assoc.
Qed.

Lemma view_tick r h hist w ch r0 wakes lost :
  view_ok sz (MkStream r h hist w (VLive ch r0 wakes) lost) →
  view_ok sz (MkStream r h hist w (VLive ch r0 (wakes ++ [WTick])) lost).
Proof. unfold view_ok. cbn. rewrite received_snoc. cbn [received omap list_omap]. by rewrite app_nil_r. Qed.

Lemma view_gone r r' h h' hist w ch r0 wakes lost :
  view_ok sz (MkStream r h hist w (VLive ch r0 wakes) lost) →
  view_ok sz (MkStream r' h' hist w (VGone r0 (MkSession wakes EndDone)) lost).
Proof.
  unfold view_ok. cbn. intros (n0 & n1 & q & Hn & Hsn & Hch & Hq & H1 & H2 & _). split; [done|].
  exists n0, n1. split_and!; try done. etrans; [|exact H2]. by apply sublist_inserts_r.
Qed.

(** An open channel is never reported closed. *)
Lemma live_not_closed r h hist w ch r0 wakes lost h' :
  view_ok sz (MkStream r h hist w (VLive ch r0 wakes) lost) → receive h ch = Some (None, h') → False.
Proof.
  unfold view_ok. cbn. intros (n0 & n1 & q & _ & _ & _ & Hq & _) Hr. unfold receive in Hr. rewrite Hq in Hr.
  cbn in Hr. by destruct q.
Qed.

(** What does not write keeps the log: it is enough to look at the channels and
    the viewer. *)
Lemma stream_keep r r' h h' hist w v v' lost lost' :
  stream_inv sz (MkStream r h hist w v lost) →
  buf r' = buf r ∧ size r' = size r ∧ next r' = next r ∧ count r' = count r →
  subs_open r' h' → (∀ c, is_Some (h !! c) → is_Some (h' !! c)) →
  view_ok sz (MkStream r' h' hist w v' lost') → stream_inv sz (MkStream r' h' hist w v' lost').
Proof.
  intros [Hsz Hh Ho Hw _] (? & Hs & ? & ?) Ho' Hd Hv. view_simpl. split; view_simpl; [congruence| |done| |done].
  - by eapply same_history; [..|exact Hh].
  - intros l cs Hwr. destruct (Hw l cs Hwr) as [Hnd Hdom]. split; [done|]. intros c Hc. by apply Hd, Hdom.
Qed.

Lemma subscribe_dom r h c x : is_Some (h !! x) → is_Some ((Subscribe r h c).2 !! x).
Proof. intros Hx. simpl. rewrite lookup_insert. by case_decide. Qed.

(** The steps of the writers. *)
Lemma stream_sent r h hist v lost line c cs h' :
  stream_inv sz (MkStream r h hist (Some (line, c :: cs)) v lost) → try_send h c line = Some h' →
  stream_inv sz (MkStream r h' hist (Some (line, cs)) v (lost ++ missed h v c line)).
Proof.
  intros [Hsz Hh Ho Hw Hv] Hsend. view_simpl. destruct (Hw line (c :: cs) eq_refl) as [Hnd Hdom].
  split; view_simpl; [done|done|by eapply subs_open_send| |by eapply view_send].
  intros l cs' [= <- <-]. split; [by apply NoDup_cons in Hnd as [_ ?]|]. intros x Hx.
  eapply try_send_dom; [done|]. apply Hdom. by right.
Qed.

Lemma stream_written r h hist v lost line :
  stream_inv sz (MkStream r h hist None v lost) →
  stream_inv sz (MkStream (write_locked r line).1 h (hist ++ [line])
    (Some (line, (write_locked r line).2)) v lost).
Proof.
  intros Hinv. pose proof Hinv as [Hsz Hh Ho Hw Hv]. view_simpl.
  split; view_simpl; [done|by apply write_history|exact Ho| |exact (view_write _ line Hinv eq_refl)].
  intros l cs [= <- <-]. split; [apply NoDup_elements|]. intros c Hc%elem_of_elements.
  destruct (Ho c Hc) as [q ->]. done.
Qed.

(** A subscription takes a channel the viewer does not have. *)
Lemma view_fresh r r' h hist w v lost ch :
  h !! ch = None → (∀ c, c ∈ subs r → c ∈ subs r') →
  view_ok sz (MkStream r h hist w v lost) → view_ok sz (MkStream r' (<[ch := MkChan [] false]> h) hist w v lost).
Proof.
  intros Hf Hs Hv. eapply view_others; [|exact Hv]. intros c Hc. split; [|apply Hs].
  rewrite lookup_insert_ne; [done|]. intros ->. unfold view_ok in Hv. cbn in Hv. destruct v; try done.
  injection Hc as ->. destruct Hv as (n0 & n1 & q & _ & _ & _ & Hq & _). congruence.
Qed.

Lemma step_stream_inv st st' : stream_inv sz st → stream_step st st' → stream_inv sz st'.
Proof.
  intros Hinv Hst. pose proof Hinv as [Hsz Hh Ho Hw Hv].
  destruct Hst; view_simpl; try (by exfalso; eapply live_not_closed);
    try (eapply stream_keep; [exact Hinv|by auto using cancel_ring|..]).
  - by apply stream_written.
  - by eapply stream_sent.
  - split; view_simpl; try done. by apply view_panic.
  - by split; view_simpl.
  - by apply subscribe_open.
  - intros c. apply subscribe_dom.
  - apply (view_fresh r); [done|set_solver|done].
  - by apply cancel_open.
  - intros c. apply cancel_dom.
  - eapply view_others; [|exact Hv]. intros c Hc. apply cancel_other. congruence.
  - by eapply receive_open.
  - intros c. by eapply receive_dom.
  - eapply view_others; [|exact Hv]. intros c Hc. split; [|done]. eapply receive_other; [done|congruence].
  - done.
  - done.
  - unfold view_ok in *. cbn in *. split; [done|]. exists (length hist). split; [done|]. split; [done|].
    by rewrite firstn_all.
  - by apply subscribe_open.
  - intros c. apply subscribe_dom.
  - apply view_join; [done| |done]. intros l cs Hwr. by destruct (Hw l cs Hwr).
  - by eapply receive_open.
  - intros c. by eapply receive_dom.
  - by eapply view_line.
  - done.
  - done.
  - by apply view_tick.
  - by apply cancel_open.
  - intros c. apply cancel_dom.
  - by eapply view_gone.
Qed.
End steps.

Definition ring_size (sz : Z) : Z := if sz <=? 0 then 1 else sz.

Lemma reachable_stream_inv sz st : stream_reachable sz st → stream_inv (ring_size sz) st.
Proof.
  induction 1 as [|st st' _ IH Hst]; [|by eapply step_stream_inv].
  split; cbn; [done|apply NewRing_history| |done|done].
  intros c Hc. unfold NewRing in Hc. simpl in Hc. by apply not_elem_of_empty in Hc.
Qed.

(** What a snapshot of a hundred lines, taken after the first [n] lines, has of
    them; the replay skips what is not JSON. *)
Definition replayed (sz : Z) (hist : list string) (n : nat) : list string :=
  List.filter Valid (last_lines (Z.to_nat (window (ring_size sz) 100 (take n hist))) (take n hist)).

(** C23: A viewer of the stream sees the log in order: at any moment of any
    interleaving with the writers and the other viewers, the data frames it
    was sent are the JSON lines among the last hundred (or all the ring
    retains) of some moment, then lines of the log that were written after a
    later moment, in order and none twice; together with the lines waiting in
    its queue and the one a writer is about to send they are all of those
    lines unless some was dropped because its queue was full or a writer
    panicked; and its stream ends only when the client goes away. *)
Theorem stream_faithful sz st r :
  stream_reachable sz st →
  match st_viewer st with
  | VLive ch r0 wakes =>
      ∃ n0 n1 q, (n0 ≤ n1)%nat ∧ (n1 ≤ length (st_hist st))%nat ∧
        lines_of (handleLogStream true r0 (MkSession wakes EndDone) r) =
          replayed sz (st_hist st) n0 ++ received wakes ∧
        st_heap st !! ch = Some (MkChan q false) ∧
        (received wakes ++ q ++ owed (st_writer st) ch) `sublist_of` drop n1 (st_hist st) ∧
        (st_lost st = [] → received wakes ++ q ++ owed (st_writer st) ch = drop n1 (st_hist st))
  | VGone r0 session =>
      ss_end session = EndDone ∧
      ∃ n0 n1, (n0 ≤ n1)%nat ∧
        lines_of (handleLogStream true r0 session r) =
          replayed sz (st_hist st) n0 ++ received (ss_wakes session) ∧
        received (ss_wakes session) `sublist_of` drop n1 (st_hist st)
  | _ => True
  end.
Proof.
  intros Hr. pose proof (sv_view _ _ (reachable_stream_inv sz st Hr)) as Hv. unfold view_ok in Hv.
  assert (Hsnap : ∀ r0 n0 wakes e, snapshot_of (ring_size sz) r0 (st_hist st) n0 →
    lines_of (handleLogStream true r0 (MkSession wakes e) r) = replayed sz (st_hist st) n0 ++ received wakes).
  { intros r0 n0 wakes e (_ & Hs & Hh). rewrite lines_of_session. unfold replayed.
    by rewrite (snapshot_history _ _ 100 Hh), Hs. }
  destruct (st_viewer st) as [|r0|ch r0 wakes|r0 [wakes e]]; [done|done| |].
  - destruct Hv as (n0 & n1 & q & Hn & Hs & _ & Hq & H1 & H2 & H3). exists n0, n1, q.
    split_and!; auto.
  - cbn [ss_end ss_wakes] in *. destruct Hv as (-> & n0 & n1 & Hn & Hs & H1 & H2).
    split; [done|]. exists n0, n1. split_and!; auto.
Qed.

(** A line written between the snapshot and the subscription is never shown to
    that viewer, though nothing was dropped. *)
Lemma stream_gap sz :
  ∃ st ch r0, stream_reachable sz st ∧ st_viewer st = VLive ch r0 [] ∧ st_hist st = ["{}"] ∧
    st_writer st = None ∧ st_heap st !! ch = Some (MkChan [] false) ∧ Snapshot r0 100 = [].
Proof.
  set (r1 := (write_locked (NewRing sz) "{}").1).
  exists (MkStream (Subscribe r1 ∅ 0).1 (Subscribe r1 ∅ 0).2 ["{}"] None (VLive 0 (NewRing sz) []) []),
    0%nat, (NewRing sz).
  split; [|split_and!; try done; by rewrite (snapshot_history _ _ 100 (NewRing_history sz))].
  assert (Hsub : (write_locked (NewRing sz) "{}").2 = []) by apply elements_empty.
  eapply sr_step; [|by apply ss_join]. eapply sr_step; [|apply (ss_written _ _ _ _ _ "{}")].
  rewrite <- Hsub. eapply sr_step; [|apply (ss_write _ _ [] _ _ "{}")].
  eapply sr_step; [|apply ss_replay]. apply sr_init.
Qed.

(** ** At concrete inputs *)

(** Any JSON value passes, not objects alone. *)
Example valid_scalar : Valid "1" = true ∧ Valid "{}{}" = false.
Proof. vm_compute. by split. Qed.

(** A line, a snapshot, a subscription, another line that is delivered and
    received. *)
Definition watching : stream_state :=
  let r1 := (write_locked (NewRing 3) "{}").1 in
  let '(r2, h2) := Subscribe r1 ∅ 7 in
  MkStream (write_locked r2 "[1]").1 (<[7%nat := MkChan [] false]> (<[7%nat := MkChan ["[1]"] false]> h2))
    ["{}"; "[1]"] None (VLive 7 r1 [WTick; WLine "[1]"]) [].

Lemma watching_reachable : stream_reachable 3 watching.
Proof.
  set (r1 := (write_locked (NewRing 3) "{}").1). set (r2 := (Subscribe r1 ∅ 7).1). set (h2 := (Subscribe r1 ∅ 7).2).
  assert (H1 : stream_reachable 3 (MkStream r2 h2 ["{}"] None (VLive 7 r1 []) [])).
  { assert (Hsub : (write_locked (NewRing 3) "{}").2 = []) by apply elements_empty.
    eapply sr_step; [|by apply ss_join]. eapply sr_step; [|apply ss_replay].
    eapply sr_step; [|apply (ss_written _ _ _ _ _ "{}")]. rewrite <- Hsub.
    eapply sr_step; [|apply (ss_write _ _ [] _ _ "{}")]. apply sr_init. }
  assert (H2 : stream_reachable 3 (MkStream (write_locked r2 "[1]").1 (<[7%nat := MkChan ["[1]"] false]> h2)
    ["{}"; "[1]"] None (VLive 7 r1 [WTick]) [])).
  { assert (Hsub : (write_locked r2 "[1]").2 = [7%nat]) by (vm_compute; reflexivity).
    eapply sr_step; [|apply (ss_written _ _ _ _ _ "[1]")].
    eapply sr_step; [|apply (ss_send _ h2 _ (VLive 7 r1 [WTick]) [] "[1]" 7 [])]; [|reflexivity]. rewrite <- Hsub.
    eapply sr_step; [|apply (ss_write _ _ ["{}"] _ _ "[1]")]. eapply sr_step; [|apply (ss_tick _ _ _ _ _ _ [])].
    exact H1. }
  refine (sr_step 3 _ _ H2 _). unfold watching. cbn [Subscribe]. fold r1.
  apply (ss_line _ _ _ _ _ _ [WTick] _ "[1]"). reflexivity.
Qed.

Lemma stream_faithful_witness :
  ∃ n0 n1 q, (n0 ≤ n1)%nat ∧ (n1 ≤ 2)%nat ∧
    lines_of (handleLogStream true (write_locked (NewRing 3) "{}").1
      (MkSession [WTick; WLine "[1]"] EndDone)
      (MkRequest Background "GET" "/logs/stream" "/logs/stream" "" (λ _, "") (λ _, "") "" "")) =
      replayed 3 ["{}"; "[1]"] n0 ++ ["[1]"] ∧
    st_heap watching !! 7%nat = Some (MkChan q false) ∧
    (["[1]"] ++ q ++ []) `sublist_of` drop n1 ["{}"; "[1]"] ∧
    (([] : list string) = [] → ["[1]"] ++ q ++ [] = drop n1 ["{}"; "[1]"]).
Proof.
  apply (stream_faithful 3 watching
    (MkRequest Background "GET" "/logs/stream" "/logs/stream" "" (λ _, "") (λ _, "") "" "")).
  apply watching_reachable.
Defined.
