(* ===== verification/RouteProps.v ===== *)
(** * Routing: properties

    Which requests reach which handler. *)

From Stdlib Require Import String.
From S2P Require Import Prelude GoStrings Errors Obs Http Routing Api.

#[local] Open Scope string_scope.
#[local] Open Scope Z_scope.
#[local] Open Scope list_scope.

(** ** The table *)

(** The entry [text] of the table serves [method] on [path]; GET serves HEAD. *)
Definition serves (method path text : string) (e : endpoint) (ids : list string) : Prop :=
  ∃ m ps, (text, e) ∈ routes ∧ parse_pattern text = Some (MkPattern m ps) ∧
    (method = m ∨ method = "HEAD" ∧ m = "GET") ∧ match_segs ps (path_segments path) = Some ids.

Lemma elem_of_mux p te : (p, te) ∈ mux ↔ te ∈ routes ∧ parse_pattern te.1 = Some p.
Proof.
  unfold mux. rewrite list_elem_of_omap. split.
  - intros (te' & Hin & Hp). destruct (parse_pattern te'.1) as [q|] eqn:Hq; [|done].
    injection Hp as <- <-. done.
  - intros [Hin Hp]. exists te. split; [done|]. by rewrite Hp.
Qed.

Lemma mux_disjoint : disjoint_table mux = true.
Proof. vm_compute. reflexivity. Qed.

(** A check of every entry. *)
Lemma mux_forall (P : pattern → bool) p te :
  forallb (λ pe : pattern * (string * endpoint), P pe.1) mux = true → (p, te) ∈ mux → P p = true.
Proof. rewrite forallb_forall. intros HP Hin. by apply (HP (p, te)), list_elem_of_In. Qed.

Lemma mux_methods m ps te : (MkPattern m ps, te) ∈ mux → m = "GET" ∨ m = "POST".
Proof.
  intros Hin. assert (HP : String.eqb m "GET" || String.eqb m "POST" = true).
  { refine (mux_forall (λ p, String.eqb (pt_method p) "GET" || String.eqb (pt_method p) "POST") _ _ _ Hin).
    by vm_compute. }
  apply orb_true_iff in HP as [->%String.eqb_eq| ->%String.eqb_eq]; auto.
Qed.

Lemma serves_match method path text e ids :
  matchMethodAndPath mux method (path_segments path) = Some ((text, e), ids) ↔
  serves method path text e ids.
Proof.
  assert (Hone : ∀ m, matchPath (method_node mux m) (path_segments path) = Some ((text, e), ids) ↔
    ∃ ps, (text, e) ∈ routes ∧ parse_pattern text = Some (MkPattern m ps) ∧
      match_segs ps (path_segments path) = Some ids).
  { intros m. rewrite (matchPath_exact mux mux_disjoint). setoid_rewrite elem_of_mux. simpl.
    split; intros (ps & Hps); exists ps; tauto. }
  unfold matchMethodAndPath, serves. split.
  - destruct (matchPath (method_node mux method) _) as [r|] eqn:Hm.
    + intros [= ->]. apply Hone in Hm as (ps & ? & ? & ?). exists method, ps. split_and!; auto.
    + destruct (String.eqb_spec method "HEAD") as [->|]; [|done].
      intros (ps & ? & ? & ?)%Hone. exists "GET", ps. split_and!; auto.
  - intros (m & ps & Hr & Hp & Hmeth & Hs).
    assert (HG : matchPath (method_node mux m) (path_segments path) = Some ((text, e), ids))
      by (apply Hone; eauto).
    destruct Hmeth as [->|[-> ->]]; [by rewrite HG|].
    rewrite (proj2 (matchPath_none mux mux_disjoint "HEAD" _)); [done|].
    intros qs te Hin. by destruct (mux_methods _ _ _ Hin).
Qed.

Lemma serves_one method path text e ids text' e' ids' :
  serves method path text e ids → serves method path text' e' ids' → text' = text ∧ e' = e ∧ ids' = ids.
Proof. rewrite <- !serves_match. intros H1 H2. rewrite H1 in H2. by injection H2 as <- <- <-. Qed.

(** ** A slash added never helps *)

Lemma match_segs_length ps xs m : match_segs ps xs = Some m → length ps = length xs.
Proof.
  revert xs m. induction ps as [|[s|w] ps IH]; intros [|x xs] m; simpl; try done.
  - destruct (String.eqb x s); [|done]. intros Hm. f_equal. by eapply IH.
  - destruct (String.eqb x "/"); [done|]. destruct (match_segs ps xs) eqn:Hm; [|done]. intros _.
    f_equal. by eapply IH.
Qed.

Lemma match_segs_slash ps xs m :
  match_segs ps xs = Some m → last xs = Some "/" → last ps = Some (Lit "/").
Proof.
  revert xs m. induction ps as [|[s|w] ps IH]; intros [|x xs] m; simpl; try done.
  - destruct (String.eqb_spec x s) as [->|]; [|done]. intros Hm Hl.
    pose proof (match_segs_length _ _ _ Hm) as Hlen. destruct xs as [|y xs], ps as [|p ps]; try done.
    + by injection Hl as ->.
    + by eapply (IH (y :: xs)).
  - destruct (String.eqb_spec x "/") as [|Hx]; [done|]. destruct (match_segs ps xs) eqn:Hm; [|done].
    intros _ Hl. pose proof (match_segs_length _ _ _ Hm) as Hlen.
    destruct xs as [|y xs], ps as [|p ps]; try done; [by injection Hl|by eapply (IH (y :: xs))].
Qed.

Lemma split_slash_ne s : split_slash s ≠ [].
Proof. destruct s as [|c s]; simpl; [done|]. destruct (Ascii.eqb c slash); [done|]. by destruct (split_slash s). Qed.

Lemma split_slash_snoc s : split_slash (s +:+ "/") = split_slash s ++ [""].
Proof.
  induction s as [|c s IH]; [done|]. change (String c s +:+ "/") with (String c (s +:+ "/")).
  cbn [split_slash]. rewrite IH. destruct (Ascii.eqb c slash); [done|].
  pose proof (split_slash_ne s). by destruct (split_slash s).
Qed.

Lemma unescape_snoc l : l ≠ [] → unescape_segments (l ++ [""]) = (pathUnescape <$> l) ++ ["/"].
Proof.
  induction l as [|x l IH]; [done|]. intros _. destruct l as [|y l]; [done|].
  change ((x :: y :: l) ++ [""]) with (x :: (y :: l) ++ [""]).
  assert (Hc : ∀ t, t ≠ [] → unescape_segments (x :: t) = pathUnescape x :: unescape_segments t) by (by intros []).
  rewrite Hc by done. by rewrite IH.
Qed.

(** No entry but the root's ends in a slash. *)
Lemma mux_slash p te : (p, te) ∈ mux → last (pt_segs p) = Some (Lit "/") → length (pt_segs p) = 1%nat.
Proof.
  intros Hin Hl. assert (HP : bool_decide (last (pt_segs p) = Some (Lit "/") → length (pt_segs p) = 1%nat) = true).
  { refine (mux_forall (λ p, bool_decide (last (pt_segs p) = Some (Lit "/") → length (pt_segs p) = 1%nat)) _ _ _ Hin).
    by vm_compute. }
  by apply bool_decide_eq_true in HP; apply HP.
Qed.

Lemma serves_slash method path text e ids : path ≠ "" → ¬ serves method (path +:+ "/") text e ids.
Proof.
  intros Hne (m & ps & Hr & Hp & _ & Hm). destruct path as [|c s]; [done|]. revert Hm.
  change (path_segments (String c s +:+ "/")) with (unescape_segments (split_slash (s +:+ "/"))).
  rewrite split_slash_snoc, unescape_snoc by apply split_slash_ne. intros Hm.
  pose proof (match_segs_slash _ _ _ Hm (last_snoc _ _)) as Hl.
  pose proof (mux_slash (MkPattern m ps) (text, e) (proj2 (elem_of_mux _ _) (conj Hr Hp)) Hl) as H1.
  apply match_segs_length in Hm. simpl in H1. rewrite H1, length_app, length_fmap in Hm. simpl in Hm.
  pose proof (split_slash_ne s). destruct (split_slash s); [done|simpl in Hm; lia].
Qed.

Lemma no_match method path :
  (∀ text e ids, ¬ serves method path text e ids) → matchMethodAndPath mux method (path_segments path) = None.
Proof.
  intros Hn. destruct (matchMethodAndPath _ _ _) as [[[text e] ids]|] eqn:Hm; [|done].
  apply serves_match in Hm. by apply Hn in Hm.
Qed.

Lemma mux_no_slash_redirect method path : path ≠ "" → slash_redirect mux method path = false.
Proof.
  intros Hne. unfold slash_redirect. destruct (matchMethodAndPath _ _ _); [done|].
  rewrite (no_match method (path +:+ "/")); [apply andb_false_r|]. intros text e ids. by apply serves_slash.
Qed.

(** ** The methods of a path *)

Lemma elem_of_methods m path :
  m ∈ methods_of mux (path_segments path) ↔
  m ≠ "HEAD" ∧ ∃ text e ids, serves m path text e ids.
Proof.
  unfold methods_of. rewrite list_elem_of_filter, elem_of_remove_dups, list_elem_of_fmap. split.
  - intros [Hm (p & -> & Hin)]. apply list_elem_of_fmap in Hin as ([[m ps] te] & -> & Hin).
    cbn [pt_method fst] in *.
    destruct (matchPath _ _) as [[[text e] ids]|] eqn:Hmp; [|done]. split.
    + by destruct (mux_methods _ _ _ Hin) as [->| ->].
    + exists text, e, ids. apply serves_match. unfold matchMethodAndPath. by rewrite Hmp.
  - intros [Hne (text & e & ids & Hs)]. pose proof Hs as (m' & ps & Hr & Hp & [<-|[? _]] & _); [|done].
    apply serves_match in Hs. unfold matchMethodAndPath in Hs. split.
    + destruct (matchPath _ _); [done|]. by destruct (String.eqb_spec m "HEAD").
    + exists (MkPattern m ps). split; [done|]. apply list_elem_of_fmap. exists (MkPattern m ps, (text, e)).
      split; [done|]. by apply elem_of_mux.
Qed.

Lemma elem_of_matchingMethods m path :
  path ≠ "" → m ∈ matchingMethods mux path ↔ ∃ text e ids, serves m path text e ids.
Proof.
  intros Hne. unfold matchingMethods. cbv zeta. rewrite merge_sort_Permutation.
  assert (Hsl : ∀ m, m ∉ (if last_is_slash path then [] else methods_of mux (path_segments (path +:+ "/")))).
  { intros m'. destruct (last_is_slash path); [apply not_elem_of_nil|].
    intros (_ & text & e & ids & Hs)%elem_of_methods. by apply serves_slash in Hs. }
  rewrite elem_of_remove_dups, !elem_of_app, elem_of_methods.
  assert (Hg : ("GET" ∈ methods_of mux (path_segments path) ++
     (if last_is_slash path then [] else methods_of mux (path_segments (path +:+ "/")))) ↔
     ∃ text e ids, serves "GET" path text e ids).
  { rewrite elem_of_app, elem_of_methods. split; [intros [[_ ?]|?%Hsl]; done|]. by left. }
  assert (Hhead : ∀ text e ids, serves "HEAD" path text e ids ↔ serves "GET" path text e ids).
  { intros. unfold serves. split.
    - intros (m' & ps & Hr & Hp & [<-|[_ ->]] & Hm); [|exists "GET", ps; split_and!; by auto].
      by destruct (mux_methods "HEAD" ps (text, e)) as [|]; [apply elem_of_mux|..].
    - intros (m' & ps & Hr & Hp & [<-|[? _]] & Hm); [exists "GET", ps; split_and!; by auto|done]. }
  split.
  - intros [[[_ ?]|?%Hsl]|Hd]; [done|done|]. destruct (decide _) as [Hget|]; [|by apply not_elem_of_nil in Hd].
    apply list_elem_of_singleton in Hd as ->. apply Hg in Hget as (text & e & ids & Hs).
    exists text, e, ids. by apply Hhead.
  - intros (text & e & ids & Hs). destruct (decide (m = "HEAD")) as [->|Hm]; [|left; left; eauto 6].
    right. rewrite decide_True; [by left|]. apply Hg. exists text, e, ids. by apply Hhead.
Qed.

Lemma cleanPath_ne p : cleanPath p ≠ "".
Proof.
  unfold cleanPath. destruct p as [|c s]; [done|]. cbv zeta.
  set (q := if Ascii.eqb c slash then _ else _). assert (Hc : Clean q ≠ "").
  { unfold Clean. destruct (foldl _ _ _) as [|x l]; [done|]. destruct (rev (x :: l)) eqn:Hr; [|done].
    apply (f_equal (@length _)) in Hr. rewrite length_rev in Hr. done. }
  destruct (_ && _); [|done]. by destruct (Clean q).
Qed.

(** C16: Routing is exact: a request is handed to a handler exactly when an
    entry of the table serves its method and path, and then to the one entry
    that does, with the text the wildcards matched -- the order of the table
    and the precedence rules never matter; when entries serve the path only
    under other methods the answer is 405 and lists exactly those methods (HEAD
    with GET); when none serves it at all, 404; a path that is not clean is
    redirected to its cleaned form. *)
Theorem routes_exact r :
  rq_method r ≠ "CONNECT" →
  let path := rq_escaped r in
  match find_route r with
  | FHandler (text, e) ids =>
      serves (rq_method r) path text e ids ∧
      ∀ text' e' ids', serves (rq_method r) path text' e' ids' → text' = text ∧ e' = e ∧ ids' = ids
  | FMethodNotAllowed allowed =>
      (∀ text e ids, ¬ serves (rq_method r) path text e ids) ∧ allowed ≠ [] ∧
      ∀ m, m ∈ allowed ↔ ∃ text e ids, serves m path text e ids
  | FNotFound => ∀ m text e ids, ¬ serves m path text e ids
  | FClean clean _ => clean = cleanPath path ∧ clean ≠ path
  | FSlash _ => False
  end.
Proof.
  intros Hc path. unfold find_route, findHandler. apply String.eqb_neq in Hc. rewrite Hc. cbv zeta.
  fold path. rewrite mux_no_slash_redirect by apply cleanPath_ne. simpl negb. simpl andb.
  destruct (String.eqb_spec (cleanPath path) path) as [Heq|Hne]; [|done].
  assert (Hp : path ≠ "") by (rewrite <- Heq; apply cleanPath_ne). rewrite Heq. simpl.
  destruct (matchMethodAndPath mux (rq_method r) (path_segments path)) as [[[text e] ids]|] eqn:Hm.
  { apply serves_match in Hm. split; [done|]. intros text' e' ids' Hs. by eapply serves_one. }
  assert (Hns : ∀ text e ids, ¬ serves (rq_method r) path text e ids).
  { intros text e ids Hs. apply serves_match in Hs. by rewrite Hm in Hs. }
  destruct (matchingMethods mux path) as [|a allowed] eqn:Hms.
  - intros m text e ids Hs. apply (not_elem_of_nil m). rewrite <- Hms. apply elem_of_matchingMethods; eauto.
  - split; [done|]. split; [done|]. intros m. rewrite <- Hms. by apply elem_of_matchingMethods.
Qed.

(** ** At concrete inputs *)

Definition a_get (method path : string) : request :=
  MkRequest Background method path path "" (λ _, "") (λ _, "") "" "".

Example route_wallet : find_route (a_get "HEAD" "/wallets/w1") = FHandler ("GET /wallets/{id}", EGetWallet) ["w1"].
Proof. vm_compute. reflexivity. Qed.
Example route_method : find_route (a_get "PUT" "/wallets/w1") = FMethodNotAllowed ["GET"; "HEAD"].
Proof. vm_compute. reflexivity. Qed.
Example route_nowhere : find_route (a_get "GET" "/wallets/") = FNotFound.
Proof. vm_compute. reflexivity. Qed.
Example route_unclean : find_route (a_get "GET" "//logs/../logs") = FClean "/logs" (Some ("GET /logs", ELogViewer)).
Proof. vm_compute. reflexivity. Qed.

(** An escaped slash alone is the index page. *)
Example route_escaped_slash : find_route (a_get "GET" "/%2F") = FHandler ("GET /{$}", EIndex) [].
Proof. vm_compute. reflexivity. Qed.

Lemma routes_exact_witness :
  serves "GET" "/transfers/t1" "GET /transfers/{id}" EGetTransfer ["t1"] ∧
  ∀ text' e' ids', serves "GET" "/transfers/t1" text' e' ids' →
    text' = "GET /transfers/{id}" ∧ e' = EGetTransfer ∧ ids' = ["t1"].
Proof. apply (routes_exact (a_get "GET" "/transfers/t1")). discriminate. Defined.
