(* ===== verification/Process.v ===== *)
(** * The process (cmd/wallet/main.go)

    The health probe, the connection loop, the retry observer installed on the
    store, the invariant sampler. *)

From Stdlib Require Import String.
From S2P Require Import Prelude GoStrings Errors Database Obs Session Store InvariantAudit Http.

#[local] Open Scope string_scope.
#[local] Open Scope Z_scope.

(** ** probe *)

Inductive probe_error := ProbeTransport (e : error) | ProbeStatus (code : Z).

Definition probe_url (port : string) : string :=
  let port := if String.eqb port "" then "8080" else port in
  "http://127.0.0.1:" +:+ port +:+ "/healthz".

(** [get] is the HTTP client: a status code or a transport error. *)
Definition probe (get : string → result error Z) (port : string) : option probe_error :=
  match get (probe_url port) with
  | Err e => Some (ProbeTransport e)
  | Ok code => if negb (code =? StatusOK) then Some (ProbeStatus code) else None
  end.

(** ** Log lines outside of requests *)

Definition log_line (level at_ : Level) (msg : string) (attrs : list (string * attr_value)) : list event :=
  if Enabled level at_ then [EvLog (Handle Background (MkRecord at_ msg attrs))] else [].

(** ** connectDB

    One turn of the loop: the ping, whether its failure is past the deadline
    or the context is done, and how the two-second wait ends. *)

Record turn := MkTurn { tn_ping : option error; tn_give_up : bool; tn_done : option error }.

Inductive connect_result := Connected | ConnectFailed (e : error) (closed : bool).

Fixpoint connectDB (level : Level) (turns : list turn) (attempt : Z) : option connect_result * list event :=
  match turns with
  | [] => (None, [])
  | t :: turns =>
      match tn_ping t with
      | None =>
          (Some Connected, log_line level LevelInfo "database connected" [("event", AString "db_connected")])
      | Some err =>
          if tn_give_up t then (Some (ConnectFailed err true), [])
          else
            let logged := log_line level LevelWarn "database not ready, retrying"
              [("event", AString "db_connect_retry"); ("attempt", AInt64 attempt); ("error", AErrorText err)] in
            match tn_done t with
            | Some e => (Some (ConnectFailed e true), logged)
            | None => let '(r, evs) := connectDB level turns (attempt + 1) in (r, (logged ++ evs)%list)
            end
      end
  end.

(** ** The retry observer *)

Definition observe_retry (level : Level) (sqlstate : string) : list event :=
  let sqlstate := if String.eqb sqlstate "" then "unknown" else sqlstate in
  EvMetric (DBRetriesInc sqlstate) ::
  log_line level LevelWarn "retrying transaction after transient postgres error"
    [("event", AString "db_tx_retry"); ("sqlstate", AString sqlstate)].

(** The store as [run] builds it. *)
Definition process_store (level : Level) : Store := OnRetry New (Some (observe_retry level)).

(** ** sampleInvariants *)

Section sample.
Context `{PgText}.

(** One tick. *)
Definition sample_tick (s : Server) : prog unit :=
  '(inv, err) ← CheckInvariants;
  match err with
  | Some _ => mret tt
  | None =>
      metric (TotalBalanceSet (float64_of_int64 (Invariants.TotalBalancePaise inv)));;
      metric (LedgerSumSet (float64_of_int64 (Invariants.LedgerSumPaise inv)));;
      if negb (Invariants.AllHold inv) then
        log_at s Background LevelError "INVARIANT VIOLATION"
          [("event", AString "invariant_violation"); ("conservation", ABool (Invariants.Conservation inv));
           ("no_overdraft", ABool (Invariants.NoOverdraft inv));
           ("total_balance_paise", AInt64 (Invariants.TotalBalancePaise inv));
           ("total_minted_paise", AInt64 (Invariants.TotalMintedPaise inv));
           ("ledger_sum_paise", AInt64 (Invariants.LedgerSumPaise inv));
           ("negative_balance_wallets", AInt64 (Invariants.NegativeBalances inv))]
      else mret tt
  end.

(** The loop: [ticks] ticks before the context is done; none when the period
    is not positive. *)
Fixpoint sample_loop (s : Server) (ticks : nat) : prog unit :=
  match ticks with O => mret tt | S n => sample_tick s;; sample_loop s n end.

Definition sampleInvariants (s : Server) (every : Z) (ticks : nat) : prog unit :=
  if every <=? 0 then mret tt else sample_loop s ticks.
End sample.
