(* ===== verification/Migrations.v ===== *)
(** * Schema migration (internal/store/migrate.go, schema.sql)

    The embedded script as a list of CREATE ... IF NOT EXISTS statements over
    a catalog of names, and [Migrate], which runs it in one transaction.  What
    the tables hold and promise is [Database]. *)

From stdpp Require Import gmap.
From S2P Require Import Prelude Errors.

(** The relations (and extensions) that exist. *)
Abbreviation catalog := (gset string) (only parsing).

Inductive ddl :=
| CreateExtension (name : string)
| CreateTable (name : string) (references : list string)
| CreateIndex (name table : string).

Definition schemaSQL : list ddl :=
  [CreateExtension "pgcrypto";
   CreateTable "users" [];
   CreateTable "wallets" ["users"];
   CreateTable "transfers" ["users"; "wallets"];
   CreateIndex "transfers_from_wallet_idx" "transfers";
   CreateIndex "transfers_to_wallet_idx" "transfers";
   CreateTable "ledger_entries" ["transfers"; "wallets"];
   CreateIndex "ledger_wallet_idx" "ledger_entries";
   CreateIndex "ledger_transfer_idx" "ledger_entries";
   CreateTable "mints" ["wallets"]].

Definition ddl_name (s : ddl) : string :=
  match s with CreateExtension n | CreateTable n _ | CreateIndex n _ => n end.

Definition ddl_needs (s : ddl) : list string :=
  match s with CreateExtension _ => [] | CreateTable _ refs => refs | CreateIndex _ t => [t] end.

Definition undefined_table : error := EPg (MkPgError "42P01" "").

(** One statement: nothing when the name is there, an error when it refers to
    a table that is not. *)
Definition exec_ddl (c : catalog) (s : ddl) : result error catalog :=
  if decide (ddl_name s ∈ c) then Ok c
  else if forallb (λ n, bool_decide (n ∈ c)) (ddl_needs s) then Ok ({[ddl_name s]} ∪ c)
  else Err undefined_table.

Fixpoint exec_script (c : catalog) (script : list ddl) : result error catalog :=
  match script with
  | [] => Ok c
  | s :: script => let? c := exec_ddl c s in exec_script c script
  end.

(** What the environment does to the three calls: an error of Begin, of Exec,
    of Commit -- a commit whose acknowledgement is lost may be applied. *)
Record migrate_env := MkMigrateEnv {
  me_begin : option error;
  me_exec : option error;
  me_commit : option (error * bool)
}.

Definition Migrate (e : migrate_env) (c : catalog) : option error * catalog :=
  match me_begin e with
  | Some err => (Some err, c)
  | None =>
      match me_exec e with
      | Some err => (Some err, c)
      | None =>
          match exec_script c schemaSQL with
          | Err err => (Some err, c)
          | Ok c' =>
              match me_commit e with
              | None => (None, c')
              | Some (err, applied) => (Some err, if (applied : bool) then c' else c)
              end
          end
      end
  end.

(** ** Lemmas *)

Definition schema_names : gset string := list_to_set (ddl_name <$> schemaSQL).

(** A script whose statements refer to what is there or came before. *)
Fixpoint closed_script (c : catalog) (script : list ddl) : bool :=
  match script with
  | [] => true
  | s :: script => forallb (λ n, bool_decide (n ∈ c)) (ddl_needs s) && closed_script ({[ddl_name s]} ∪ c) script
  end.

Lemma exec_closed script c0 c :
  c0 ⊆ c → closed_script c0 script = true →
  exec_script c script = Ok (list_to_set (ddl_name <$> script) ∪ c).
Proof.
  revert c0 c. induction script as [|s script IH]; intros c0 c Hc Hcl; simpl in *.
  { f_equal. set_solver. }
  apply andb_true_iff in Hcl as [Hn Hcl]. unfold exec_ddl.
  assert (Hneeds : forallb (λ n, bool_decide (n ∈ c)) (ddl_needs s) = true).
  { rewrite forallb_forall in Hn |- *. intros n Hin. specialize (Hn n Hin).
    apply bool_decide_eq_true in Hn. apply bool_decide_eq_true. set_solver. }
  destruct (decide (ddl_name s ∈ c)) as [Hin|Hin]; [|rewrite Hneeds]; cbn [rbind];
    rewrite (IH ({[ddl_name s]} ∪ c0)) by (done || set_solver); f_equal; set_solver.
Qed.

(** The script succeeds on any catalog and adds what is missing. *)
Lemma exec_schema c : exec_script c schemaSQL = Ok (schema_names ∪ c).
Proof. apply (exec_closed schemaSQL ∅); [set_solver|by vm_compute]. Qed.

(** What [Migrate] can do. *)
Lemma Migrate_cases e c :
  Migrate e c = (None, schema_names ∪ c) ∨
  ∃ err, Migrate e c = (Some err, c) ∨ Migrate e c = (Some err, schema_names ∪ c).
Proof.
  unfold Migrate. rewrite exec_schema. destruct (me_begin e) as [b|]; [right; eauto|].
  destruct (me_exec e) as [x|]; [right; eauto|]. destruct (me_commit e) as [[k []]|]; [right; eauto..|by left].
Qed.

(** Success leaves the schema in place, failure leaves everything or nothing,
    and a run over a complete catalog changes nothing. *)
Lemma migrate_atomic e c :
  let '(err, c') := Migrate e c in
  (err = None → c' = schema_names ∪ c) ∧ (c' = c ∨ c' = schema_names ∪ c).
Proof.
  destruct (Migrate_cases e c) as [->|(err & [->| ->])]; (split; [|auto]); done.
Qed.

Lemma migrate_again e c : schema_names ⊆ c → (Migrate e c).2 = c.
Proof.
  intros Hc. assert (Hu : schema_names ∪ c = c) by (by apply subseteq_union_1_L).
  destruct (Migrate_cases e c) as [->|(err & [->| ->])]; simpl; congruence.
Qed.
