(* ===== verification/Lifecycle.v ===== *)
(** * The life of the process (cmd/wallet/main.go: run, connectDB, main)

    [run] as a function of what the operating system, the database and the
    clients do, with the actions it takes on the pool, the server and the
    signals, in order; its deferred calls run on every return, and when it is
    unwound.  The goroutine that listens races with the rest of [run]:
    [race] interleaves the two as the scheduler of the environment says. *)

From Stdlib Require Import String.
From stdpp Require Import gmap.
From S2P Require Import Prelude GoStrings Errors Obs Config Migrations Process.

#[local] Open Scope string_scope.
#[local] Open Scope Z_scope.
#[local] Open Scope list_scope.

(** ** Actions *)

Inductive action :=
| ANotify
| AStop
| AOpenPool (max min : Z)
| AClosePool
| ALog (e : event)
| AMigrate
| AStartSampler (every : Z)
| AListen (addr : string)
| AShutdown (grace : Z).

Inductive run_error :=
| RConfig (e : config_error)
| RError (e : error).

(** How [run] ends: it returns, or a log line panics in it. *)
Inductive outcome := Returned (err : option run_error) | Panicked.

(** The case [select] takes: an error of ListenAndServe, or a signal. *)
Inductive serve_end := ListenFailed (e : error) | Signalled.

Record process_env := MkProcessEnv {
  pe_getenv : string → string;
  pe_parse : option error;
  pe_open : option error;
  pe_turns : list turn;
  pe_migrate : migrate_env;
  pe_serve : serve_end;
  pe_schedule : list bool;
  pe_shutdown : option error;
  pe_line_panics : bool;
  pe_fatal_panics : bool
}.

Definition info (level : Level) (msg : string) (attrs : list (string * attr_value)) : list action :=
  ALog <$> log_line level LevelInfo msg attrs.

(** ** connectDB, from the configuration on

    [None] while it is still looping after all the turns. *)
Definition connect (e : process_env) (cfg : Config.t) : option (option error) * list action :=
  match pe_parse e with
  | Some err => (Some (Some err), [])
  | None =>
      match pe_open e with
      | Some err => (Some (Some err), [])
      | None =>
          let '(r, evs) := connectDB (Config.LogLevel cfg) (pe_turns e) 1 in
          let opened := AOpenPool (Config.MaxDBConns cfg) (Config.MinDBConns cfg) :: (ALog <$> evs) in
          match r with
          | None => (None, opened)
          | Some Connected => (Some None, opened)
          | Some (ConnectFailed err closed) =>
              (Some (Some err), opened ++ (if (closed : bool) then [AClosePool] else []))
          end
      end
  end.

(** ** The listener and the rest of run

    [main] is what [run] has left to do after [select], [listener] what the
    goroutine has; a turn of the schedule is [true] for the goroutine.  It
    calls ListenAndServe unless Shutdown has begun ([shut]): then it gets
    ErrServerClosed, which it drops.  Whatever it has left when [run] is done
    dies with the process.  A log line of [run] can panic only with a viewer of
    the log there, so only if the server is [listening]; what is left of [run]
    are then its deferred calls.  The result is whether that happened, and the
    actions. *)

(** The calls deferred by then. *)
Definition deferred : list action := [AClosePool; AStop].

Definition after (a : action) (r : bool * list action) : bool * list action := (r.1, a :: r.2).

Fixpoint race (panics : bool) (schedule : list bool) (listening shut : bool) (main listener : list action)
    : bool * list action :=
  match main, schedule with
  | [], _ | _, [] => (false, [])
  | a :: main', false :: schedule =>
      match a with
      | ALog _ =>
          if panics && listening
          then (true, a :: (race false schedule listening shut deferred listener).2)
          else after a (race panics schedule listening shut main' listener)
      | AShutdown _ => after a (race panics schedule listening true main' listener)
      | _ => after a (race panics schedule listening shut main' listener)
      end
  | _, true :: schedule =>
      match listener with
      | [] => race panics schedule listening shut main []
      | AListen addr :: listener' =>
          if shut then race panics schedule listening shut main listener'
          else after (AListen addr) (race panics schedule true shut main listener')
      | a :: listener' => after a (race panics schedule listening shut main listener')
      end
  end.

(** A schedule that lets both finish, after any other. *)
Definition complete (schedule : list bool) (main listener : list action) : list bool :=
  schedule ++ repeat true (length listener) ++ repeat false (length main).

(** ** run

    The part after the migration: the sampler, the server, the shutdown. *)
Definition serve (e : process_env) (cfg : Config.t) : outcome * list action :=
  let addr := ":" +:+ Config.Port cfg in
  let listener :=
    info (Config.LogLevel cfg) "listening"
      [("event", AString "server_start"); ("addr", AString addr); ("version", AString (Config.Version cfg))] ++
    [AListen addr] in
  let '(out, acts) :=
    match pe_serve e with
    | ListenFailed err => (Returned (Some (RError err)), listener ++ deferred)
    | Signalled =>
        let main := info (Config.LogLevel cfg) "shutting down" [("event", AString "server_stop")] ++
          AShutdown (Config.ShutdownGrace cfg) :: deferred in
        let '(panicked, acts) :=
          race (pe_line_panics e) (complete (pe_schedule e) main listener) false false main listener in
        (if (panicked : bool) then Panicked else Returned (RError <$> pe_shutdown e), acts)
    end in
  (out, AStartSampler (Config.InvariantSample cfg) :: acts).

(** The part after the connection. *)
Definition run_connected (e : process_env) (cfg : Config.t) (c : gset string)
    : outcome * list action * gset string :=
  if (Config.MigrateOnStart cfg : bool) then
    let '(err, c) := Migrate (pe_migrate e) c in
    match err with
    | Some err => (Returned (Some (RError err)), AMigrate :: deferred, c)
    | None =>
        let '(out, acts) := serve e cfg in
        (out, AMigrate :: info (Config.LogLevel cfg) "schema applied" [("event", AString "migrate_ok")] ++ acts, c)
    end
  else let '(out, acts) := serve e cfg in (out, acts, c).

Definition run (e : process_env) (c : gset string) : option outcome * list action * gset string :=
  match Config.Load (pe_getenv e) with
  | Err err => (Some (Returned (Some (RConfig err))), [], c)
  | Ok cfg =>
      let '(connected, acts) := connect e cfg in
      match connected with
      | None => (None, ANotify :: acts, c)
      | Some (Some err) => (Some (Returned (Some (RError err))), ANotify :: acts ++ [AStop], c)
      | Some None =>
          let '(out, more, c) := run_connected e cfg c in (Some out, ANotify :: acts ++ more, c)
      end
  end.

(** ** main: the exit code

    Two after a panic: of [run], or of the line that reports its error, which a
    viewer can only meet if the server did listen. *)

Definition is_listen (a : action) : bool := match a with AListen _ => true | _ => false end.

Definition main (healthcheck : bool) (get : string → result error Z) (e : process_env) (c : gset string)
    : option Z :=
  if healthcheck then Some (match probe get (pe_getenv e "PORT") with Some _ => 1 | None => 0 end)
  else
    match run e c with
    | (None, _, _) => None
    | (Some Panicked, _, _) => Some 2
    | (Some (Returned (Some _)), acts, _) => Some (if pe_fatal_panics e && existsb is_listen acts then 2 else 1)
    | (Some (Returned None), _, _) => Some 0
    end.

(** ** Lemmas *)

(** Neither the pool nor the signals. *)
Definition pool_free (a : action) : bool :=
  match a with ANotify | AStop | AOpenPool _ _ | AClosePool => false | _ => true end.

Definition is_log (a : action) : bool := match a with ALog _ => true | _ => false end.

Lemma log_pool_free a : is_log a = true → pool_free a = true.
Proof. by destruct a. Qed.

Lemma logs_are_logs (evs : list event) : Forall is_log (ALog <$> evs).
Proof. apply Forall_fmap, Forall_forall. done. Qed.

Lemma info_logs level msg attrs : Forall is_log (info level msg attrs).
Proof. apply logs_are_logs. Qed.

Lemma logs_pool_free l : Forall is_log l → Forall pool_free l.
Proof. intros Hl. eapply Forall_impl; [exact Hl|]. by intros []. Qed.

Lemma not_in_logs l a : Forall is_log l → is_log a = false → a ∉ l.
Proof. rewrite Forall_forall. intros Hl Ha Hin. specialize (Hl a Hin). by rewrite Ha in Hl. Qed.

(** A failed connection always closed its pool. *)
Lemma connectDB_closes level turns n err closed :
  (connectDB level turns n).1 = Some (ConnectFailed err closed) → closed = true.
Proof.
  revert n. induction turns as [|t turns IH]; intros n; simpl; [done|].
  destruct (tn_ping t); [|done]. destruct (tn_give_up t); [by intros [= _ <-]|].
  destruct (tn_done t); [by intros [= _ <-]|]. specialize (IH (n + 1)). by destruct (connectDB level turns (n + 1)).
Qed.

(** The loop ends: after the deadline the first failing turn is the last. *)
Lemma connectDB_ends level turns n k :
  (k < length turns)%nat → (∀ i t, turns !! i = Some t → (k ≤ i)%nat → tn_give_up t = true) →
  is_Some (connectDB level turns n).1.
Proof.
  revert n k. induction turns as [|t turns IH]; intros n k Hk Hg; simpl in *; [lia|].
  destruct (tn_ping t); [|by eexists]. destruct (tn_give_up t) eqn:Ht; [by eexists|].
  destruct (tn_done t); [by eexists|]. destruct k as [|k].
  { by rewrite (Hg 0%nat t) in Ht by (done || lia). }
  destruct (IH (n + 1) k) as [r Hr]; [lia|intros i t' Hi Hki; apply (Hg (S i) t'); [done|lia]|].
  destruct (connectDB level turns (n + 1)). simpl in *. subst. by eexists.
Qed.

(** [connect] by cases: nothing opened; opened, failed and closed; connected;
    still looping. *)
Lemma connect_cases e cfg :
  (∃ err, connect e cfg = (Some (Some err), [])) ∨
  ∃ logs, Forall is_log logs ∧
    let opened := AOpenPool (Config.MaxDBConns cfg) (Config.MinDBConns cfg) :: logs in
    (∃ err, connect e cfg = (Some (Some err), opened ++ [AClosePool])) ∨
    connect e cfg = (Some None, opened) ∨
    connect e cfg = (None, opened) ∧ (connectDB (Config.LogLevel cfg) (pe_turns e) 1).1 = None.
Proof.
  unfold connect. destruct (pe_parse e) as [err|]; [left; eauto|]. destruct (pe_open e) as [err|]; [left; eauto|].
  pose proof (connectDB_closes (Config.LogLevel cfg) (pe_turns e) 1) as Hc. destruct (connectDB (Config.LogLevel cfg) (pe_turns e) 1) as [r evs].
  right. exists (ALog <$> evs). split; [apply logs_are_logs|]. destruct r as [[|err closed]|]; auto.
  left. exists err. by rewrite (Hc err closed eq_refl).
Qed.

(** ** Actions among log lines *)

(** [l] is [m] with log lines before its elements. *)
Inductive padded : list action → list action → Prop :=
| pad_nil : padded [] []
| pad_log a b m l : is_log a = true → padded (b :: m) l → padded (b :: m) (a :: l)
| pad_cons a m l : padded m l → padded (a :: m) (a :: l).

#[local] Hint Constructors padded : core.

Lemma padded_refl m : padded m m.
Proof. induction m; auto. Qed.

Lemma padded_log a m l : is_log a = true → m ≠ [] → padded m l → padded m (a :: l).
Proof. destruct m; [done|]. auto. Qed.

Lemma padded_logs_app ls b m l : Forall is_log ls → padded (b :: m) l → padded (b :: m) (ls ++ l).
Proof. induction 1 as [|a ls Ha _ IH]; simpl; [done|]. intros Hp. apply pad_log; [by destruct a|auto]. Qed.

Lemma padded_in m l a : padded m l → a ∈ l → is_log a = true ∨ a ∈ m.
Proof. induction 1; intros Ha; set_solver. Qed.

Lemma padded_elem m l a : padded m l → a ∈ m → a ∈ l.
Proof. induction 1; set_solver. Qed.

(** What comes before an element and after it. *)
Lemma padded_split m1 m2 a l :
  padded (m1 ++ a :: m2) l →
  ∃ l1 l2, l = l1 ++ a :: l2 ∧ padded m2 l2 ∧
    (∀ x, x ∈ l1 → is_log x = true ∨ x ∈ m1) ∧ (∀ x, x ∈ m1 → x ∈ l1).
Proof.
  intros Hp. remember (m1 ++ a :: m2) as m eqn:Hm. revert m1 Hm.
  induction Hp as [|x y m l Hx Hp IH|x m l Hp IH]; intros m1 Hm; [by destruct m1|..].
  - destruct (IH m1 Hm) as (l1 & l2 & -> & H2 & H1 & H1'). exists (x :: l1), l2. split; [done|]. set_solver.
  - destruct m1 as [|z m1]; simpl in Hm; injection Hm as -> ->; [exists [], l; set_solver|].
    destruct (IH m1 eq_refl) as (l1 & l2 & -> & H2 & H1 & H1'). exists (z :: l1), l2. split; [done|]. set_solver.
Qed.

Lemma padded_nil l : padded [] l → l = [].
Proof. by inversion 1. Qed.

(** ** The race *)

Definition falses (schedule : list bool) : nat := length (List.filter negb schedule).

Lemma falses_complete schedule m g : (length m ≤ falses (complete schedule m g))%nat.
Proof.
  unfold falses, complete. rewrite !List.filter_app, !length_app.
  assert (Hn : ∀ n, length (List.filter negb (repeat false n)) = n) by (induction n; simpl; congruence).
  rewrite Hn. lia.
Qed.

(** Where nothing of [main] can panic and the listener can do nothing but log. *)
Lemma race_settled panics schedule listening m g :
  Forall (λ a, a = AClosePool ∨ a = AStop) m → (length m ≤ falses schedule)%nat → ∀ shut : bool,
  Forall (λ a, is_log a || (shut && is_listen a)) g →
  ∃ l, race panics schedule listening shut m g = (false, l) ∧ padded m l.
Proof.
  intros Hm Hn shut. revert m g Hm Hn. induction schedule as [|[] schedule IH]; intros m g Hm Hn Hg.
  - destruct m; [by exists []|]. unfold falses in Hn. simpl in Hn. lia.
  - destruct Hm as [|a m Ha Hm]; [by exists []|]. assert (Ham : Forall (λ a, a = AClosePool ∨ a = AStop) (a :: m)) by by constructor.
    change (falses (true :: schedule)) with (falses schedule) in Hn. simpl.
    destruct Hg as [|b g Hb Hg]; [by apply (IH (a :: m))|].
    destruct (IH (a :: m) g Ham Hn Hg) as (l & Hl & Hp).
    destruct b; try (simpl in Hb; destruct shut; done); simpl in Hb.
    + rewrite Hl. exists (ALog e :: l). auto.
    + rewrite andb_true_r in Hb. destruct shut; [|done]. rewrite Hl. by exists l.
  - destruct Hm as [|a m Ha Hm]; [by exists []|].
    change (falses (false :: schedule)) with (S (falses schedule)) in Hn. simpl in Hn.
    destruct (IH m g Hm ltac:(lia) Hg) as (l & Hl & Hp). exists (a :: l). split; [|by constructor].
    destruct Ha as [-> | ->]; simpl; by rewrite Hl.
Qed.

Lemma deferred_settled : Forall (λ a, a = AClosePool ∨ a = AStop) deferred.
Proof. by repeat constructor; auto. Qed.

(** What the goroutine still has to do: its line and the call, or nothing. *)
Definition listener_left (listening : bool) (addr : string) (g : list action) : Prop :=
  if listening then g = [] else ∃ ls, g = ls ++ [AListen addr] ∧ Forall is_log ls.

Lemma race_spec panics schedule listening addr grace ls g :
  Forall is_log ls → listener_left listening addr g →
  (length ls + 3 ≤ falses schedule)%nat →
  let '(panicked, l) := race panics schedule listening false (ls ++ AShutdown grace :: deferred) g in
  ∃ opened : bool,
    padded ((if opened then [AListen addr] else []) ++ (if (panicked : bool) then [] else [AShutdown grace]) ++ deferred) l ∧
    (opened = true → listening = false) ∧ (panicked = true → listening = true ∨ opened = true).
Proof.
  revert listening ls g. induction schedule as [|[] schedule IH]; intros listening ls g Hls Hg Hn.
  - unfold falses in Hn. simpl in Hn. lia.
  - assert (Hne : ∃ a m, ls ++ AShutdown grace :: deferred = a :: m) by (destruct ls; eauto).
    destruct Hne as (a & m & Hm). change (falses (true :: schedule)) with (falses schedule) in Hn. destruct listening.
    + unfold listener_left in Hg. subst g.
      specialize (IH true ls [] Hls eq_refl Hn). rewrite Hm in IH. rewrite Hm. exact IH.
    + destruct Hg as (lines & -> & Hlines). destruct Hlines as [|b lines Hb Hlines].
      * specialize (IH true ls [] Hls eq_refl Hn). rewrite Hm in IH. rewrite Hm. simpl.
        destruct (race panics schedule true false (a :: m) []) as [p l]. destruct IH as (o & Hp & Ho & _).
        simpl. exists true. split; [|by auto]. destruct o; [by specialize (Ho eq_refl)|]. by apply pad_cons.
      * specialize (IH false ls (lines ++ [AListen addr]) Hls (ex_intro _ lines (conj eq_refl Hlines)) Hn).
        rewrite Hm in IH. rewrite Hm. destruct b; try done. simpl.
        destruct (race panics schedule false false (a :: m) (lines ++ [AListen addr])) as [p l].
        destruct IH as (o & Hp & Ho & Hpn). simpl. exists o. split; [by apply padded_log; [|destruct o, p|]|done].
  - change (falses (false :: schedule)) with (S (falses schedule)) in Hn. destruct Hls as [|b ls Hb Hls].
    + simpl app. cbn [race].
      destruct (race_settled panics schedule listening deferred g deferred_settled ltac:(simpl; simpl in Hn; lia) true) as (l & Hl & Hp).
      { unfold listener_left in Hg. destruct listening; [subst g; constructor|]. destruct Hg as (lines & -> & Hlines).
        apply Forall_app. split; [|by repeat constructor]. eapply Forall_impl; [exact Hlines|]. by intros []. }
      rewrite Hl. unfold after. simpl. exists false. split; [by apply pad_cons|done].
    + destruct b; try done. simpl app. cbn [race]. destruct (panics && listening) eqn:Hpl.
      * apply andb_true_iff in Hpl as [_ ->]. unfold listener_left in Hg. subst g.
        destruct (race_settled false schedule true deferred [] deferred_settled ltac:(simpl; simpl in Hn; lia) false) as (l & Hl & Hp); [constructor|].
        rewrite Hl. exists false. split; [by apply pad_log|]. by auto.
      * specialize (IH listening ls g Hls Hg ltac:(simpl in Hn; lia)).
        destruct (race panics schedule listening false (ls ++ AShutdown grace :: deferred) g) as [p l].
        destruct IH as (o & Hp & Ho & Hpn). simpl. exists o. split; [by apply padded_log; [|destruct o, p|]|done].
Qed.

(** ** How serving ends

    The actions between the start of the sampler and the deferred calls, the
    log lines left out. *)
Inductive serve_ends (e : process_env) (cfg : Config.t) : outcome → list action → Prop :=
| se_failed err :
    pe_serve e = ListenFailed err →
    serve_ends e cfg (Returned (Some (RError err))) [AListen (":" +:+ Config.Port cfg)]
| se_panicked :
    pe_serve e = Signalled → serve_ends e cfg Panicked [AListen (":" +:+ Config.Port cfg)]
| se_shutdown (opened : bool) :
    pe_serve e = Signalled →
    serve_ends e cfg (Returned (RError <$> pe_shutdown e))
      ((if opened then [AListen (":" +:+ Config.Port cfg)] else []) ++ [AShutdown (Config.ShutdownGrace cfg)]).

Lemma serve_spec e cfg :
  let '(out, acts) := serve e cfg in
  ∃ middle, padded (AStartSampler (Config.InvariantSample cfg) :: middle ++ deferred) acts ∧ serve_ends e cfg out middle.
Proof.
  unfold serve. set (addr := ":" +:+ Config.Port cfg). set (lines := info _ "listening" _).
  pose proof (info_logs _ _ _ : Forall is_log lines) as Hlines. destruct (pe_serve e) as [err|] eqn:Hs.
  - exists [AListen addr]. split; [|by apply se_failed]. apply pad_cons. rewrite <- app_assoc.
    by apply padded_logs_app, padded_refl.
  - set (ls := info _ "shutting down" _). pose proof (info_logs _ _ _ : Forall is_log ls) as Hls.
    pose proof (race_spec (pe_line_panics e)
      (complete (pe_schedule e) (ls ++ AShutdown (Config.ShutdownGrace cfg) :: deferred) (lines ++ [AListen addr]))
      false addr (Config.ShutdownGrace cfg) ls (lines ++ [AListen addr]) Hls (ex_intro _ lines (conj eq_refl Hlines)))
      as Hrace.
    destruct (race _ _ _ _ _ _) as [p l]. destruct Hrace as (opened & Hp & _ & Hpn).
    { etrans; [|apply falses_complete]. rewrite length_app. simpl. lia. }
    destruct p.
    + exists [AListen addr]. split; [|by apply se_panicked]. apply pad_cons.
      by destruct (Hpn eq_refl) as [| ->].
    + exists ((if opened then [AListen addr] else []) ++ [AShutdown (Config.ShutdownGrace cfg)]).
      split; [|by apply (se_shutdown e cfg opened)]. apply pad_cons. by destruct opened.
Qed.

(** The actions between the opening of the pool and the deferred calls. *)
Inductive run_middle (e : process_env) (cfg : Config.t) (c : gset string) : outcome → list action → Prop :=
| rm_database err : run_middle e cfg c (Returned (Some err)) []
| rm_migration err : run_middle e cfg c (Returned (Some err)) [AMigrate]
| rm_served out middle :
    serve_ends e cfg out middle → (Config.MigrateOnStart cfg = true → schema_names ⊆ c) →
    run_middle e cfg c out ((if Config.MigrateOnStart cfg then [AMigrate] else []) ++
      AStartSampler (Config.InvariantSample cfg) :: middle).

Lemma run_connected_spec e cfg c :
  let '(out, acts, c') := run_connected e cfg c in
  ∃ middle, padded (middle ++ deferred) acts ∧ run_middle e cfg c' out middle.
Proof.
  pose proof (serve_spec e cfg) as Hs. unfold run_connected.
  destruct (serve e cfg) as [out acts]. destruct Hs as (middle & Hp & Hs).
  destruct (Config.MigrateOnStart cfg) eqn:Hmig.
  - pose proof (migrate_atomic (pe_migrate e) c) as Hm. destruct (Migrate (pe_migrate e) c) as [[err|] c'].
    { exists [AMigrate]. split; [apply padded_refl|apply rm_migration]. }
    exists (AMigrate :: AStartSampler (Config.InvariantSample cfg) :: middle). split.
    + apply pad_cons, padded_logs_app; [apply info_logs|done].
    + pose proof (rm_served e cfg c' out middle Hs) as Hr. rewrite Hmig in Hr. apply Hr. intros _.
      destruct Hm as [Hm _]. rewrite (Hm eq_refl). apply union_subseteq_l.
  - exists (AStartSampler (Config.InvariantSample cfg) :: middle). split; [done|].
    pose proof (rm_served e cfg c out middle Hs) as Hr. rewrite Hmig in Hr. by apply Hr.
Qed.

(** The whole run, by cases: no configuration; no pool; a pool, and still
    looping on the database, or returned. *)
Lemma run_spec e c :
  let '(res, acts, c') := run e c in
  (acts = [] ∧ ∃ err, res = Some (Returned (Some err))) ∨
  (acts = [ANotify; AStop] ∧ ∃ err, res = Some (Returned (Some err))) ∨
  ∃ cfg max min rest, Config.Load (pe_getenv e) = Ok cfg ∧ acts = ANotify :: AOpenPool max min :: rest ∧
    ((res = None ∧ (connectDB (Config.LogLevel cfg) (pe_turns e) 1).1 = None ∧ Forall is_log rest) ∨
     ∃ out middle, res = Some out ∧ padded (middle ++ deferred) rest ∧ run_middle e cfg c' out middle).
Proof.
  unfold run. destruct (Config.Load (pe_getenv e)) as [cfg|err] eqn:Hcfg; [|left; eauto].
  destruct (connect_cases e cfg) as [[err ->]|(logs & Hlogs & Hc)]; [right; left; eauto|].
  pose proof (run_connected_spec e cfg c) as Hrun.
  cbv zeta in Hc. destruct Hc as [[err ->]|[->|[-> Hturns]]]; cbn beta iota.
  - right. right. eexists cfg, _, _, (logs ++ deferred). split; [done|].
    split; [simpl; by rewrite <- app_assoc|]. right. eexists _, []. split; [done|].
    split; [|apply rm_database]. by apply padded_logs_app, padded_refl.
  - destruct (run_connected e cfg c) as [[out more] c']. destruct Hrun as (middle & Hp & Hm).
    right. right. eexists cfg, _, _, (logs ++ more). split; [done|]. split; [done|]. right. eexists _, middle. split; [done|].
    split; [by destruct middle; apply padded_logs_app|done].
  - right. right. eexists cfg, _, _, _. split; [done|]. split; [done|]. by left.
Qed.

(** What can be told of the actions in the middle: the pool and the signals are
    left alone, the server listens at most once, after the migration and before
    the shutdown. *)
Lemma run_middle_pool_free e cfg c out middle : run_middle e cfg c out middle → Forall pool_free middle.
Proof.
  intros [| |out' m Hs _]; [by repeat constructor..|].
  destruct Hs as [| |[]]; destruct (Config.MigrateOnStart cfg); by repeat constructor.
Qed.

Lemma run_middle_listen e cfg c out middle addr :
  run_middle e cfg c out middle → AListen addr ∈ middle →
  addr = ":" +:+ Config.Port cfg ∧ ∃ before after, middle = before ++ AListen addr :: after ∧
    (∀ addr', AListen addr' ∉ before ++ after) ∧ (∀ grace, AShutdown grace ∉ before) ∧
    (Config.MigrateOnStart cfg = true → AMigrate ∈ before ∧ schema_names ⊆ c).
Proof.
  intros [| |out' m Hs Hmig] Hin; [set_solver..|].
  assert (Hm : ∃ after, m = AListen (":" +:+ Config.Port cfg) :: after ∧ ∀ addr', AListen addr' ∉ after).
  { destruct Hs as [| |[]]; [..|exfalso; destruct (Config.MigrateOnStart cfg); set_solver]; eexists;
      (split; [done|set_solver]). }
  destruct Hm as (after & -> & Ha). set (start := (if Config.MigrateOnStart cfg then [AMigrate] else []) ++ [AStartSampler (Config.InvariantSample cfg)]).
  assert (Hst : ∀ x, x ∈ start → x = AMigrate ∨ x = AStartSampler (Config.InvariantSample cfg)).
  { intros x. unfold start. destruct (Config.MigrateOnStart cfg); set_solver. }
  assert (addr = ":" +:+ Config.Port cfg) as ->.
  { destruct (Config.MigrateOnStart cfg); set_solver. }
  split; [done|]. exists start, after. split; [unfold start; by rewrite <- app_assoc|]. split; [|split].
  - intros addr' [Hx|Hx]%elem_of_app; [|by eapply Ha]. by destruct (Hst _ Hx).
  - intros grace Hx. by destruct (Hst _ Hx).
  - intros Ht. split; [|by apply Hmig]. unfold start. rewrite Ht. set_solver.
Qed.

Lemma run_middle_shutdown e cfg c out middle grace :
  run_middle e cfg c out middle → AShutdown grace ∈ middle →
  grace = Config.ShutdownGrace cfg ∧ pe_serve e = Signalled ∧ out = Returned (RError <$> pe_shutdown e).
Proof.
  intros [| |out' m Hs _] Hin; [set_solver..|]. destruct Hs as [| |[]]; destruct (Config.MigrateOnStart cfg); set_solver.
Qed.

Lemma run_middle_clean e cfg c middle :
  run_middle e cfg c (Returned None) middle → AShutdown (Config.ShutdownGrace cfg) ∈ middle ∧ pe_shutdown e = None.
Proof.
  intros Hm. inversion Hm as [| |out m Hs _]; subst. inversion Hs as [| |opened]; subst.
  split; [set_solver|by destruct (pe_shutdown e)].
Qed.

Lemma run_middle_panicked e cfg c middle :
  run_middle e cfg c Panicked middle → AListen (":" +:+ Config.Port cfg) ∈ middle ∧ ∀ grace, AShutdown grace ∉ middle.
Proof.
  intros Hm. inversion Hm as [| |out m Hs _]; subst. inversion Hs; subst.
  split; [set_solver|]. intros grace. destruct (Config.MigrateOnStart cfg); set_solver.
Qed.

(** From the middle to all the actions. *)
Lemma run_acts max min middle rest a :
  padded (middle ++ deferred) rest → is_log a = false → pool_free a = true →
  a ∈ ANotify :: AOpenPool max min :: rest ↔ a ∈ middle.
Proof.
  intros Hp Hlog Hfree. split; intros Hin.
  - apply elem_of_cons in Hin as [->|Hin]; [done|]. apply elem_of_cons in Hin as [->|Hin]; [done|].
    destruct (padded_in _ _ _ Hp Hin) as [|[|Hd]%elem_of_app]; [congruence|done|].
    apply elem_of_cons in Hd as [->|Hd]; [done|]. by apply list_elem_of_singleton in Hd as ->.
  - right. right. eapply padded_elem; [exact Hp|]. apply elem_of_app. by left.
Qed.

(** ** Property *)

(** C24: The life of the process is orderly, whatever the environment does and
    however the listening goroutine is scheduled against the rest of run: it
    does not hang on the database (once the deadline has passed the first
    failed ping is the last); every return, and a panic of its own log line
    too, has closed the pool exactly once if it was opened, after everything
    but a late log line, and then released the signals; it listens at most
    once, never before the schema is in place when it is asked to migrate and
    never after the shutdown began; it shuts down only on a signal, with the
    configured grace; it exits without an error exactly when it shut down and
    the graceful shutdown succeeded -- whether or not the goroutine had come
    to listen before the signal; and its line can only panic while it listens,
    before the shutdown. *)
Theorem run_lifecycle e c :
  let '(res, acts, c') := run e c in
  (∀ k, (k < length (pe_turns e))%nat →
     (∀ i t, pe_turns e !! i = Some t → (k ≤ i)%nat → tn_give_up t = true) → is_Some res) ∧
  (is_Some res →
     acts = [] ∨ acts = [ANotify; AStop] ∨
     ∃ max min middle late, acts = ANotify :: AOpenPool max min :: middle ++ AClosePool :: late ++ [AStop] ∧
       Forall pool_free middle ∧ Forall is_log late) ∧
  (∀ addr, AListen addr ∈ acts →
     ∃ cfg before after, Config.Load (pe_getenv e) = Ok cfg ∧ addr = ":" +:+ Config.Port cfg ∧
       acts = before ++ AListen addr :: after ∧ (∀ addr', AListen addr' ∉ before ++ after) ∧
       (∀ grace, AShutdown grace ∉ before) ∧
       (Config.MigrateOnStart cfg = true → AMigrate ∈ before ∧ schema_names ⊆ c')) ∧
  (∀ grace, AShutdown grace ∈ acts →
     pe_serve e = Signalled ∧ ∃ cfg, Config.Load (pe_getenv e) = Ok cfg ∧ grace = Config.ShutdownGrace cfg) ∧
  (res = Some (Returned None) ↔ (∃ grace, AShutdown grace ∈ acts) ∧ pe_shutdown e = None) ∧
  (res = Some Panicked → (∃ addr, AListen addr ∈ acts) ∧ ∀ grace, AShutdown grace ∉ acts).
Proof.
  pose proof (run_spec e c) as Hrun. destruct (run e c) as [[res acts] c'].
  destruct Hrun as [(-> & err & ->)|[(-> & err & ->)|(cfg & max & min & rest & Hcfg & -> & Hrun)]].
  { split_and!; [by eexists|by left|set_solver|set_solver|split; [done|set_solver]|done]. }
  { split_and!; [by eexists|by right; left|set_solver|set_solver|split; [done|set_solver]|done]. }
  destruct Hrun as [(-> & Hturns & Hp)|(out & middle & -> & Hp & Hm)].
  { assert (Hn : ∀ a, is_log a = false → pool_free a = true → a ∉ ANotify :: AOpenPool max min :: rest).
    { intros a Hl Hf. rewrite !elem_of_cons. intros [->|[->|Hin]]; [done..|].
      rewrite Forall_forall in Hp. specialize (Hp a Hin). by destruct a. }
    split_and!; [|by intros []|by intros addr ?%Hn|by intros grace ?%Hn| |done].
    - intros k Hk Hg. destruct (connectDB_ends (Config.LogLevel cfg) (pe_turns e) 1 k Hk Hg) as [r Hr]. congruence.
    - split; [done|]. by intros [[g ?%Hn] _]. }
  pose proof (λ a, run_acts max min middle rest a Hp) as Hin. split_and!.
  - by eexists.
  - intros _. right. right. destruct (padded_split _ _ _ _ Hp) as (l1 & l2 & -> & H2 & Hl1 & _).
    destruct (padded_split [] _ _ _ H2) as (l3 & l4 & -> & ->%padded_nil & Hl3 & _).
    exists max, min, l1, l3. apply run_middle_pool_free in Hm. rewrite Forall_forall in Hm.
    split_and!; [done|apply Forall_forall..].
    + intros x Hx. destruct (Hl1 x Hx) as [Hlog|Hmid]; [by destruct x|by apply Hm].
    + intros x Hx. destruct (Hl3 x Hx) as [Hlog|?%not_elem_of_nil]; [by destruct x|done].
  - intros addr Ha. apply Hin in Ha; [|done..]. destruct (run_middle_listen _ _ _ _ _ _ Hm Ha)
      as (-> & before & after & -> & Hn & Hs & Hmig). rewrite <- app_assoc in Hp.
    destruct (padded_split _ _ _ _ Hp) as (l1 & l2 & -> & H2 & Hl1 & Hl1').
    exists cfg, (ANotify :: AOpenPool max min :: l1), l2.
    assert (Hl2 : ∀ x, x ∈ l2 → is_log x = true ∨ x ∈ after ++ deferred) by (intros x; by apply padded_in).
    split_and!; [done|done|done| | |].
    + intros addr' Hx. simpl in Hx. apply elem_of_cons in Hx as [|[|[Hx|Hx]%elem_of_app]%elem_of_cons]; try done.
      * destruct (Hl1 _ Hx) as [|Hb]; [done|]. apply (Hn addr'), elem_of_app. by left.
      * destruct (Hl2 _ Hx) as [|[Ha'|Ha']%elem_of_app]; [done| |unfold deferred in Ha'; set_solver].
        apply (Hn addr'), elem_of_app. by right.
    + intros grace Hx. apply elem_of_cons in Hx as [|[|Hx]%elem_of_cons]; try done.
      destruct (Hl1 _ Hx) as [|Hb]; [done|by apply (Hs grace)].
    + intros Ht. destruct (Hmig Ht) as [Hb Hsub]. split; [|done]. right. right. by apply Hl1'.
  - intros grace Hg. apply Hin in Hg; [|done..]. destruct (run_middle_shutdown _ _ _ _ _ _ Hm Hg) as (-> & Hs & _).
    split; [done|]. by exists cfg.
  - split.
    + intros [= ->]. destruct (run_middle_clean _ _ _ _ Hm) as [Hs Hnone]. split; [|done].
      eexists. by apply Hin.
    + intros [[grace Hg] Hnone]. apply Hin in Hg; [|done..].
      destruct (run_middle_shutdown _ _ _ _ _ _ Hm Hg) as (_ & _ & ->). by rewrite Hnone.
  - intros [= ->]. destruct (run_middle_panicked _ _ _ _ Hm) as [Hl Hs].
    split; [eexists; by apply Hin|]. intros grace Hg. by apply (Hs grace), Hin.
Qed.

(** ** At a concrete input *)

(** A database that wakes at the second ping, then a signal; the turns of the
    goroutine and of run as [schedule] has them. *)
Definition signalled_env (config : string → string) (schedule : list bool) (panics : bool) : process_env :=
  MkProcessEnv config None None
    [MkTurn (Some (EPg (MkPgError "57P03" ""))) false None; MkTurn None true None]
    (MkMigrateEnv None None None) Signalled schedule None panics false.

Definition normal_env (config : string → string) : process_env := signalled_env config [] false.

Definition with_url (name : string) : string :=
  if String.eqb name "DATABASE_URL" then "postgres://db" else "".

(** What the process does, the log lines left out. *)
Definition deeds (e : process_env) : list action := List.filter (λ a, negb (is_log a)) (run e ∅).1.2.

Example normal_actions :
  (run (normal_env with_url) ∅).1.1 = Some (Returned None) ∧
  deeds (normal_env with_url) =
    [ANotify; AOpenPool 20 2; AMigrate; AStartSampler 15000000000; AListen ":8080";
     AShutdown 15000000000; AClosePool; AStop].
Proof. vm_compute. by split. Qed.

(** A signal that is there before the goroutine has its turn: the process exits
    with zero and has never listened. *)
Example early_signal :
  main false (λ _, Ok 200) (signalled_env with_url [false; false; true; true] false) ∅ = Some 0 ∧
  deeds (signalled_env with_url [false; false; true; true] false) =
    [ANotify; AOpenPool 20 2; AMigrate; AStartSampler 15000000000; AShutdown 15000000000; AClosePool; AStop].
Proof. vm_compute. by split. Qed.

(** A viewer leaves as the line of the shutdown is written: no graceful
    shutdown, and the process crashes. *)
Example crash_at_shutdown :
  main false (λ _, Ok 200) (signalled_env with_url [] true) ∅ = Some 2 ∧
  deeds (signalled_env with_url [] true) =
    [ANotify; AOpenPool 20 2; AMigrate; AStartSampler 15000000000; AListen ":8080"; AClosePool; AStop].
Proof. vm_compute. by split. Qed.

Example no_database : main false (λ _, Ok 200) (normal_env (λ _, "")) ∅ = Some 1.
Proof. vm_compute. reflexivity. Qed.

Lemma run_lifecycle_witness :
  (∃ cfg before after, Config.Load with_url = Ok cfg ∧ ":8080" = ":" +:+ Config.Port cfg ∧
     (run (normal_env with_url) ∅).1.2 = before ++ AListen ":8080" :: after ∧
     (∀ addr, AListen addr ∉ before ++ after) ∧ (∀ grace, AShutdown grace ∉ before) ∧
     (Config.MigrateOnStart cfg = true → AMigrate ∈ before ∧ schema_names ⊆ (run (normal_env with_url) ∅).2)) ∧
  (run (normal_env with_url) ∅).1.1 = Some (Returned None).
Proof.
  pose proof (run_lifecycle (normal_env with_url) ∅) as Hrun.
  assert (Hl : AListen ":8080" ∈ (run (normal_env with_url) ∅).1.2).
  { apply list_elem_of_In. apply (nth_error_In _ 8). vm_compute. reflexivity. }
  assert (Hs : AShutdown 15000000000 ∈ (run (normal_env with_url) ∅).1.2).
  { apply list_elem_of_In. apply (nth_error_In _ 10). vm_compute. reflexivity. }
  destruct (run (normal_env with_url) ∅) as [[res acts] c'] eqn:Heq.
  destruct Hrun as (_ & _ & Hlisten & _ & Hexit & _). simpl in *. split; [by apply Hlisten|].
  apply Hexit. split; [by eexists|done].
Defined.
