(* ===== verification/Accounting.v ===== *)
(** * The accounting specification of the database

    What the service promises of its tables, stated without the code: the
    well-formedness [wf_db] -- keys are unique, references resolve, no balance
    is negative, no committed transfer is pending, every wallet's balance is
    what was minted into it plus what the ledger moved, every succeeded
    transfer has exactly its two ledger entries and no other transfer has any
    -- and the atomic actions [spec_settle], [spec_decline], [spec_mint],
    [spec_wallet] and [spec_user] that a request may take.  Each action keeps
    [wf_db] and only appends ([grows]). *)

From S2P Require Import Prelude Errors Database.

(** ** Accounts *)

(** What was minted into wallet [i], what the ledger moved, and the ledger
    entries of transfer [t]. *)
Definition minted (d : db) (i : uuid) : Z :=
  map_sum (λ _ m, if bool_decide (m_wallet_id m = i) then m_amount_paise m else 0) (mints d).
Definition ledgered (d : db) (i : uuid) : Z :=
  list_sum (λ l, if bool_decide (l_wallet_id l = i) then l_delta_paise l else 0) (ledger_entries d).
Definition entries_of (d : db) (t : uuid) : list ledger_row :=
  filter (λ l, l_transfer_id l = t) (ledger_entries d).

(** The two entries of a succeeded transfer. *)
Definition debit_entry (i : uuid) (r : transfer_row) : ledger_row :=
  MkLedger i (t_from_wallet_id r) (- t_amount_paise r) (t_created_at r).
Definition credit_entry (i : uuid) (r : transfer_row) : ledger_row :=
  MkLedger i (t_to_wallet_id r) (t_amount_paise r) (t_created_at r).

Definition expected_entries (i : uuid) (r : transfer_row) : list ledger_row :=
  if String.eqb (t_status r) "succeeded" then [debit_entry i r; credit_entry i r] else [].

(** ** Well-formed tables *)

Record wf_transfer (d : db) (r : transfer_row) : Prop := {
  wft_check : check_transfer r = None;
  wft_terminal : t_status r ≠ "pending";
  wft_amount : in_int64 (t_amount_paise r) = true;
  wft_completed : t_completed_at r = Some (t_created_at r);
  wft_from : is_Some (wallets d !! t_from_wallet_id r);
  wft_to : is_Some (wallets d !! t_to_wallet_id r)
}.

Record wf_db (d : db) : Prop := {
  wf_user_hash : unique_by u_token_hash (users d);
  wf_wallet_user : unique_by w_user_id (wallets d);
  wf_transfer_key : unique_by transfer_key (transfers d);
  wf_mint_key : unique_by m_idempotency_key (mints d);
  wf_balance : ∀ i r, wallets d !! i = Some r → 0 ≤ w_balance_paise r ≤ int64_max;
  wf_account : ∀ i r, wallets d !! i = Some r → w_balance_paise r = minted d i + ledgered d i;
  wf_transfers : ∀ i r, transfers d !! i = Some r → wf_transfer d r;
  wf_entries : ∀ i r, transfers d !! i = Some r → entries_of d i = expected_entries i r;
  wf_ledger_transfer : ∀ l, l ∈ ledger_entries d → is_Some (transfers d !! l_transfer_id l);
  wf_ledger_wallet : ∀ l, l ∈ ledger_entries d → is_Some (wallets d !! l_wallet_id l);
  wf_mint_wallet : ∀ i m, mints d !! i = Some m → is_Some (wallets d !! m_wallet_id m);
  wf_mint_amount : ∀ i m, mints d !! i = Some m → 0 < m_amount_paise m
}.

(** ** What may change: rows are only added, and only balances move *)

Record grows (d d' : db) : Prop := {
  grows_users : users d ⊆ users d';
  grows_wallets : ∀ i r, wallets d !! i = Some r →
    ∃ r', wallets d' !! i = Some r' ∧ w_user_id r' = w_user_id r ∧ w_created_at r' = w_created_at r;
  grows_transfers : transfers d ⊆ transfers d';
  grows_ledger : ledger_entries d `prefix_of` ledger_entries d';
  grows_mints : mints d ⊆ mints d'
}.

(** ** The atomic actions *)

Definition add_balance (delta : Z) (now : timestamp) (r : wallet_row) : wallet_row :=
  MkWallet (w_user_id r) (w_balance_paise r + delta) (w_created_at r) now.

Definition spec_user (u : uuid) (h : string) (now : timestamp) (d : db) : db :=
  MkDb (<[u := MkUser h now]> (users d)) (wallets d) (transfers d) (ledger_entries d) (mints d).

Definition spec_wallet (u uid : uuid) (now : timestamp) (d : db) : db :=
  MkDb (users d) (<[u := MkWallet uid 0 now now]> (wallets d)) (transfers d)
    (ledger_entries d) (mints d).

Definition spec_mint (u : uuid) (m : mint_row) (d : db) : db :=
  MkDb (users d) (alter (add_balance (m_amount_paise m) (m_created_at m)) (m_wallet_id m) (wallets d))
    (transfers d) (ledger_entries d) (<[u := m]> (mints d)).

(** A terminal version of a freshly claimed transfer. *)
Definition succeeded (r : transfer_row) : transfer_row :=
  set_status (t_created_at r) r "succeeded" None.
Definition declined (r : transfer_row) : transfer_row :=
  set_status (t_created_at r) r "declined" (Some "insufficient_funds").

Definition spec_decline (u : uuid) (r : transfer_row) (d : db) : db :=
  MkDb (users d) (wallets d) (<[u := declined r]> (transfers d)) (ledger_entries d) (mints d).

Definition spec_settle (u : uuid) (r : transfer_row) (d : db) : db :=
  MkDb (users d)
    (alter (add_balance (t_amount_paise r) (t_created_at r)) (t_to_wallet_id r)
      (alter (add_balance (- t_amount_paise r) (t_created_at r)) (t_from_wallet_id r) (wallets d)))
    (<[u := succeeded r]> (transfers d))
    (ledger_entries d ++ [debit_entry u r; credit_entry u r])
    (mints d).

(** When the actions apply. *)
Record claimable (d : db) (u : uuid) (r : transfer_row) : Prop := {
  cl_id : transfers d !! u = None;
  cl_key : ∀ j r', transfers d !! j = Some r' → transfer_key r' ≠ transfer_key r;
  cl_wallets : t_from_wallet_id r ≠ t_to_wallet_id r;
  cl_amount : 0 < t_amount_paise r ≤ int64_max;
  cl_from : is_Some (wallets d !! t_from_wallet_id r);
  cl_to : is_Some (wallets d !! t_to_wallet_id r)
}.

Record payable (d : db) (r : transfer_row) (rf rt : wallet_row) : Prop := {
  pay_from : wallets d !! t_from_wallet_id r = Some rf;
  pay_to : wallets d !! t_to_wallet_id r = Some rt;
  pay_funds : t_amount_paise r ≤ w_balance_paise rf;
  pay_room : w_balance_paise rt + t_amount_paise r ≤ int64_max
}.

Record mintable (d : db) (u : uuid) (m : mint_row) (rw : wallet_row) : Prop := {
  mt_id : mints d !! u = None;
  mt_key : ∀ j m', mints d !! j = Some m' → m_idempotency_key m' ≠ m_idempotency_key m;
  mt_amount : 0 < m_amount_paise m;
  mt_wallet : wallets d !! m_wallet_id m = Some rw;
  mt_room : w_balance_paise rw + m_amount_paise m ≤ int64_max
}.

(** ** Growth is a preorder *)

#[global] Instance grows_preorder : PreOrder grows.
Proof.
  split.
  - intros d. split; naive_solver.
  - intros d1 d2 d3 [Hu Hw Ht Hl Hm] [Hu' Hw' Ht' Hl' Hm']. split; try by etrans.
    intros i r Hi. destruct (Hw i r Hi) as (r' & Hi' & ? & ?).
    destruct (Hw' i r' Hi') as (r'' & ? & ? & ?). exists r''. split_and!; congruence.
Qed.

Lemma grows_wallet_some d d' i :
  grows d d' → is_Some (wallets d !! i) → is_Some (wallets d' !! i).
Proof. intros Hg [r Hr]. destruct (grows_wallets _ _ Hg i r Hr) as (r' & -> & _). done. Qed.

(** A well-formed transfer stays so when the tables grow. *)
Lemma wf_transfer_grows d d' r : grows d d' → wf_transfer d r → wf_transfer d' r.
Proof. intros Hg []. split; eauto using grows_wallet_some. Qed.

(** The empty database is well-formed. *)
Lemma wf_empty : wf_db empty_db.
Proof.
  split; try (intros i j x y Hx; simpl in Hx; by rewrite lookup_empty in Hx);
    try (intros i x Hx; simpl in Hx; by rewrite lookup_empty in Hx);
    intros l Hl; simpl in Hl; by apply not_elem_of_nil in Hl.
Qed.

(** ** Conservation follows from well-formedness *)

Section conservation.
Context (d : db) (Hwf : wf_db d).

Lemma entries_sum_zero i r :
  transfers d !! i = Some r →
  list_sum (λ l, if bool_decide (l_transfer_id l = i) then l_delta_paise l else 0)
    (ledger_entries d) = 0.
Proof.
  intros Hi. assert (He : list_sum l_delta_paise (entries_of d i) = 0).
  { rewrite (wf_entries d Hwf i r Hi). unfold expected_entries. case_match; simpl; lia. }
  etrans; [|exact He]. unfold entries_of. clear He.
  induction (ledger_entries d) as [|l ls IH]; [done|]. simpl. rewrite filter_cons.
  case_decide as Hl.
  - rewrite bool_decide_eq_true_2 by done. simpl. by rewrite IH.
  - rewrite bool_decide_eq_false_2 by done. by rewrite IH.
Qed.

Lemma ledger_sum_zero : list_sum l_delta_paise (ledger_entries d) = 0.
Proof.
  rewrite <- (list_sum_group l_transfer_id l_delta_paise _ (transfers d))
    by apply (wf_ledger_transfer d Hwf).
  apply map_sum_zero. intros i r Hi. by apply (entries_sum_zero i r).
Qed.

Lemma balances_are_mints :
  map_sum (λ _, w_balance_paise) (wallets d) = map_sum (λ _, m_amount_paise) (mints d).
Proof.
  rewrite (map_sum_ext _ (λ i _, minted d i + ledgered d i))
    by (intros i r; apply (wf_account d Hwf)).
  rewrite map_sum_plus. unfold minted, ledgered.
  rewrite (map_sum_group m_wallet_id m_amount_paise) by apply (wf_mint_wallet d Hwf).
  rewrite (list_sum_group l_wallet_id l_delta_paise) by apply (wf_ledger_wallet d Hwf).
  rewrite ledger_sum_zero. by rewrite Z.add_0_r.
Qed.
End conservation.

(** ** The actions keep the tables well-formed *)

(** Sums after appending to a table. *)
Lemma ledgered_app d ls i : ∀ us ws ts ms,
  ledgered (MkDb us ws ts (ledger_entries d ++ ls) ms) i =
  ledgered d i + list_sum (λ l, if bool_decide (l_wallet_id l = i) then l_delta_paise l else 0) ls.
Proof. intros. unfold ledgered. simpl. by rewrite list_sum_app. Qed.

Lemma minted_insert d u m i : ∀ us ws ts ls,
  mints d !! u = None →
  minted (MkDb us ws ts ls (<[u := m]> (mints d))) i =
  (if bool_decide (m_wallet_id m = i) then m_amount_paise m else 0) + minted d i.
Proof. intros. unfold minted. simpl. by rewrite map_sum_insert. Qed.

(** No ledger entry refers to an unused transfer id. *)
Lemma entries_of_fresh d u : wf_db d → transfers d !! u = None → entries_of d u = [].
Proof.
  intros Hwf Hu. apply elem_of_nil_inv. intros l [Hl Hin]%list_elem_of_filter.
  destruct (wf_ledger_transfer d Hwf l Hin) as [x Hx]. congruence.
Qed.

(** A terminal row made from a claimed one. *)
Lemma wf_terminal_row d u r s reason :
  claimable d u r →
  (s = "succeeded" ∧ reason = None) ∨ (s = "declined" ∧ is_Some reason) →
  wf_transfer d (set_status (t_created_at r) r s reason).
Proof.
  intros [Hid Hkey Hne [Hpos Hmax] Hf Ht] Hs. split; try done.
  - assert (Hp : (0 <? t_amount_paise r) = true) by by apply Z.ltb_lt.
    unfold check_transfer, decline_reason_valid. simpl. rewrite Hp. simpl.
    rewrite (bool_decide_eq_false_2 _ Hne).
    destruct Hs as [[-> ->]|[-> [x ->]]]; reflexivity.
  - destruct Hs as [[-> _]|[-> _]]; done.
  - apply in_int64_spec. unfold int64_min, int64_max in *. simpl. lia.
Qed.

(** The part of [wf_db] about transfers, when one terminal row is added. *)
Lemma wf_transfers_insert d d' u r' :
  grows d d' → wf_db d → wf_transfer d' r' →
  ∀ i r, <[u := r']> (transfers d) !! i = Some r → wf_transfer d' r.
Proof.
  intros Hg Hwf Hr' i r. rewrite lookup_insert. case_decide; [by intros [= <-]|].
  intros Hi. eapply wf_transfer_grows, wf_transfers; eauto.
Qed.

Section decline.
Context (d : db) (u : uuid) (r : transfer_row) (Hwf : wf_db d) (Hcl : claimable d u r).

Lemma grows_decline : grows d (spec_decline u r d).
Proof.
  split; simpl; try done; [eauto|]. apply insert_subseteq, (cl_id _ _ _ Hcl).
Qed.

Lemma wf_decline : wf_db (spec_decline u r d).
Proof.
  pose proof grows_decline as Hg.
  assert (Hr : wf_transfer d (declined r))
    by (eapply wf_terminal_row; [done | right; eauto]).
  split; simpl; try apply Hwf.
  - apply unique_by_insert; [apply Hwf|]. intros j y Hj _. apply (cl_key _ _ _ Hcl j y Hj).
  - eapply wf_transfers_insert; eauto using wf_transfer_grows.
  - intros i x. rewrite lookup_insert. case_decide as Hi.
    + intros [= <-]. subst. apply (entries_of_fresh d); [done | apply Hcl].
    + apply (wf_entries d Hwf).
  - intros l Hl. destruct (wf_ledger_transfer d Hwf l Hl) as [x Hx].
    eapply lookup_weaken_is_Some; [by rewrite Hx|]. apply (grows_transfers _ _ Hg).
Qed.
End decline.

Section settle.
Context (d : db) (u : uuid) (r : transfer_row) (rf rt : wallet_row).
Context (Hwf : wf_db d) (Hcl : claimable d u r) (Hpay : payable d r rf rt).
Let d' := spec_settle u r d.

(** The two rows that move, and the others. *)
Lemma settle_lookup i :
  wallets d' !! i =
  if decide (i = t_to_wallet_id r) then Some (add_balance (t_amount_paise r) (t_created_at r) rt)
  else if decide (i = t_from_wallet_id r)
    then Some (add_balance (- t_amount_paise r) (t_created_at r) rf)
  else wallets d !! i.
Proof.
  pose proof (cl_wallets _ _ _ Hcl) as Hne. destruct Hpay as [Hf Ht _ _].
  subst d'. simpl. rewrite lookup_alter.
  destruct (decide (i = t_to_wallet_id r)) as [->|Hi].
  - rewrite decide_True by done. rewrite lookup_alter_ne, Ht by done. done.
  - rewrite decide_False by congruence. rewrite lookup_alter.
    destruct (decide (i = t_from_wallet_id r)) as [->|Hi'].
    + by rewrite decide_True, Hf by done.
    + by rewrite decide_False by congruence.
Qed.

(** A row of the settled table is a row of the old one with a new balance. *)
Lemma settle_row i x :
  wallets d' !! i = Some x → ∃ y, wallets d !! i = Some y ∧
    w_user_id x = w_user_id y ∧ w_created_at x = w_created_at y ∧
    w_balance_paise x = w_balance_paise y +
      list_sum (λ l, if bool_decide (l_wallet_id l = i) then l_delta_paise l else 0)
        [debit_entry u r; credit_entry u r].
Proof.
  pose proof (cl_wallets _ _ _ Hcl) as Hne. destruct Hpay as [Hf Ht _ _].
  rewrite settle_lookup. simpl.
  repeat case_decide; subst; (intros [= <-] || intros Hx); eexists; (split; [eassumption|]); simpl;
    repeat case_bool_decide; subst; try done; split_and!; try done; lia.
Qed.

Lemma settle_dom i : is_Some (wallets d !! i) → is_Some (wallets d' !! i).
Proof. rewrite settle_lookup. repeat case_decide; eauto. Qed.

Lemma grows_settle : grows d d'.
Proof.
  split; simpl; try done.
  - intros i y Hi. destruct (settle_dom i) as [x Hx]; [by rewrite Hi|].
    destruct (settle_row i x Hx) as (y' & Hy' & ? & ? & _). exists x.
    split; [done|]. split; congruence.
  - apply insert_subseteq, (cl_id _ _ _ Hcl).
  - by apply prefix_app_r.
Qed.

Lemma settle_balance i x : wallets d' !! i = Some x → 0 ≤ w_balance_paise x ≤ int64_max.
Proof.
  pose proof (wf_balance d Hwf) as Hb. destruct (cl_amount _ _ _ Hcl).
  destruct Hpay as [Hf Ht ? ?]. pose proof (Hb _ _ Hf). pose proof (Hb _ _ Ht).
  rewrite settle_lookup.
  repeat case_decide; [intros [= <-]; simpl; lia | intros [= <-]; simpl; lia | apply Hb].
Qed.

Lemma wf_settle : wf_db d'.
Proof.
  pose proof grows_settle as Hg.
  assert (Hr : wf_transfer d (succeeded r))
    by (eapply wf_terminal_row; [done | by left]).
  split; try apply Hwf.
  - intros i j x y Hi Hj. destruct (settle_row i x Hi) as (x' & Hx & -> & _).
    destruct (settle_row j y Hj) as (y' & Hy & -> & _). by apply (wf_wallet_user d Hwf).
  - apply unique_by_insert; [apply Hwf|]. intros j y Hj _. apply (cl_key _ _ _ Hcl j y Hj).
  - apply settle_balance.
  - intros i x Hi. destruct (settle_row i x Hi) as (y & Hy & _ & _ & ->).
    rewrite (wf_account d Hwf i y Hy). unfold d', spec_settle. rewrite ledgered_app.
    unfold minted. cbn [mints]. lia.
  - eapply wf_transfers_insert; eauto using wf_transfer_grows.
  - intros i x. simpl. rewrite lookup_insert. unfold entries_of. simpl. rewrite filter_app.
    case_decide as Hi.
    + intros [= <-]. subst. change (filter _ (ledger_entries d)) with (entries_of d i).
      rewrite entries_of_fresh by (done || apply Hcl).
      rewrite !filter_cons, !decide_True by done. done.
    + intros Hx. change (filter (λ l, l_transfer_id l = i) (ledger_entries d)) with (entries_of d i).
      rewrite (wf_entries d Hwf i x Hx). rewrite !filter_cons, !decide_False by done.
      by rewrite app_nil_r.
  - intros l. simpl. rewrite elem_of_app. intros [Hl|Hl].
    + destruct (wf_ledger_transfer d Hwf l Hl) as [x Hx].
      eapply lookup_weaken_is_Some; [by rewrite Hx|]. apply (grows_transfers _ _ Hg).
    + exists (succeeded r). rewrite !elem_of_cons in Hl.
      destruct Hl as [->|[->|Hl%not_elem_of_nil]]; [apply lookup_insert_eq..|done].
  - intros l. simpl. rewrite elem_of_app. intros [Hl|Hl]; apply settle_dom.
    + by apply (wf_ledger_wallet d Hwf).
    + rewrite !elem_of_cons in Hl.
      destruct Hl as [->|[->|Hl%not_elem_of_nil]]; [apply Hcl..|done].
  - intros i m Hm. apply settle_dom. by apply (wf_mint_wallet d Hwf i).
Qed.
End settle.

Section mint.
Context (d : db) (u : uuid) (m : mint_row) (rw : wallet_row).
Context (Hwf : wf_db d) (Hmt : mintable d u m rw).
Let d' := spec_mint u m d.

Lemma mint_lookup i :
  wallets d' !! i =
  if decide (i = m_wallet_id m) then Some (add_balance (m_amount_paise m) (m_created_at m) rw)
  else wallets d !! i.
Proof.
  subst d'. simpl. rewrite lookup_alter.
  destruct (decide (i = m_wallet_id m)) as [->|Hi].
  - by rewrite decide_True, (mt_wallet _ _ _ _ Hmt) by done.
  - by rewrite decide_False by congruence.
Qed.

Lemma mint_row_of i x :
  wallets d' !! i = Some x → ∃ y, wallets d !! i = Some y ∧
    w_user_id x = w_user_id y ∧ w_created_at x = w_created_at y ∧
    w_balance_paise x = (if bool_decide (m_wallet_id m = i) then m_amount_paise m else 0) +
      w_balance_paise y.
Proof.
  rewrite mint_lookup. case_decide.
  - intros [= <-]. subst. exists rw. rewrite bool_decide_eq_true_2 by done.
    split; [apply Hmt|]. simpl. split_and!; [done..|lia].
  - intros Hx. exists x. rewrite bool_decide_eq_false_2 by done. done.
Qed.

Lemma mint_dom i : is_Some (wallets d !! i) → is_Some (wallets d' !! i).
Proof. rewrite mint_lookup. case_decide; eauto. Qed.

Lemma grows_mint : grows d d'.
Proof.
  split; simpl; try done.
  - intros i y Hi. destruct (mint_dom i) as [x Hx]; [by rewrite Hi|].
    destruct (mint_row_of i x Hx) as (y' & Hy' & ? & ? & _). exists x.
    split; [done|]. split; congruence.
  - apply insert_subseteq, (mt_id _ _ _ _ Hmt).
Qed.

Lemma wf_mint : wf_db d'.
Proof.
  pose proof grows_mint as Hg. destruct Hmt as [Hid Hkey Hpos Hw Hroom].
  split; try apply Hwf.
  - intros i j x y Hi Hj. destruct (mint_row_of i x Hi) as (x' & Hx & -> & _).
    destruct (mint_row_of j y Hj) as (y' & Hy & -> & _). by apply (wf_wallet_user d Hwf).
  - apply unique_by_insert; [apply Hwf|]. intros j y Hj _. apply (Hkey j y Hj).
  - intros i x. rewrite mint_lookup. pose proof (wf_balance d Hwf) as Hb.
    pose proof (Hb _ _ Hw). case_decide; [intros [= <-]; simpl; lia | apply Hb].
  - intros i x Hi. destruct (mint_row_of i x Hi) as (y & Hy & _ & _ & ->).
    rewrite (wf_account d Hwf i y Hy). unfold d', spec_mint.
    rewrite minted_insert by done. unfold ledgered. simpl. lia.
  - intros i x Hx. eapply wf_transfer_grows, (wf_transfers d Hwf); eauto.
  - intros l Hl. apply mint_dom. by apply (wf_ledger_wallet d Hwf).
  - intros i x. simpl. rewrite lookup_insert. case_decide.
    + intros [= <-]. apply mint_dom. by rewrite Hw.
    + intros Hx. apply mint_dom. by apply (wf_mint_wallet d Hwf i).
  - intros i x. simpl. rewrite lookup_insert. case_decide; [by intros [= <-]|].
    apply (wf_mint_amount d Hwf).
Qed.
End mint.

Section provision.
Context (d : db) (Hwf : wf_db d).

Lemma grows_user u h now : users d !! u = None → grows d (spec_user u h now d).
Proof. intros Hu. split; simpl; try done; [by apply insert_subseteq | eauto]. Qed.

Lemma wf_user u h now :
  users d !! u = None → (∀ j r, users d !! j = Some r → u_token_hash r ≠ h) →
  wf_db (spec_user u h now d).
Proof.
  intros Hu Hh. split; simpl; try apply Hwf.
  - apply unique_by_insert; [apply Hwf|]. intros j y Hj _. by eapply Hh.
  - intros i x Hx. eapply wf_transfer_grows, (wf_transfers d Hwf); eauto.
    by apply grows_user.
Qed.

Lemma grows_wallet u uid now : wallets d !! u = None → grows d (spec_wallet u uid now d).
Proof.
  intros Hu. split; simpl; try done. intros i r Hi. exists r.
  rewrite lookup_insert_ne by congruence. done.
Qed.

Lemma wf_wallet u uid now :
  wallets d !! u = None → (∀ j r, wallets d !! j = Some r → w_user_id r ≠ uid) →
  wf_db (spec_wallet u uid now d).
Proof.
  intros Hu Huid. pose proof (grows_wallet u uid now Hu) as Hg.
  assert (Hz : minted d u = 0 ∧ ledgered d u = 0).
  { split.
    - apply map_sum_zero. intros i m Hm. rewrite bool_decide_eq_false_2; [done|].
      intros <-. destruct (wf_mint_wallet d Hwf i m Hm). congruence.
    - unfold ledgered. assert (Hl := wf_ledger_wallet d Hwf).
      induction (ledger_entries d) as [|l ls IH]; [done|]. simpl.
      rewrite bool_decide_eq_false_2, IH; [done| |].
      + intros l' Hl'. apply Hl. by right.
      + intros <-. destruct (Hl l); [by left|congruence]. }
  split; simpl; try apply Hwf.
  - apply unique_by_insert; [apply Hwf|]. intros j y Hj _. by eapply Huid.
  - intros i x. rewrite lookup_insert. case_decide; [intros [= <-]; simpl|apply (wf_balance d Hwf)].
    unfold int64_max. lia.
  - intros i x. rewrite lookup_insert. case_decide; [|apply (wf_account d Hwf)].
    intros [= <-]. subst. destruct Hz as [Hz1 Hz2]. unfold minted, ledgered in *. simpl. lia.
  - intros i x Hx. eapply wf_transfer_grows, (wf_transfers d Hwf); eauto.
  - intros l Hl. apply (grows_wallet_some _ _ _ Hg). by apply (wf_ledger_wallet d Hwf).
  - intros i m Hm. apply (grows_wallet_some _ _ _ Hg). by apply (wf_mint_wallet d Hwf i).
Qed.
End provision.
