(* ===== verification/Wp.v ===== *)
(** * A program logic with interference

    [wp C R p Q w]: every execution of [p] from [w] in which the environment's
    choices satisfy [C] and other sessions change the committed tables between
    our steps only as [R] allows -- given the locks we hold -- ends in a
    result and a world satisfying [Q], and each of our own steps changes the
    committed tables only as the guarantee [guar] allows, given our locks.

    [rely] and [guar] are the two sides of the lock protocol: what a lock
    forbids the others ([compatible] lock sets give one from the other), and
    what a session may only do under a lock.  [R] is [rely] for sessions that
    interleave and equality for a session that runs alone. *)

From S2P Require Import Prelude Errors Database Locks Obs Session Accounting.

(** ** The lock protocol *)

Definition exclusive (m : lock_mode) : bool :=
  match m with NoKeyUpdate | Update => true | _ => false end.

Record rely_holds (ls : list lock) (d d' : db) : Prop := {
  rely_wf : wf_db d';
  rely_grows : grows d d';
  rely_wallet : ∀ m i, LWallet m i ∈ ls → exclusive m = true → wallets d' !! i = wallets d !! i;
  rely_transfer : ∀ i, LTransfer Update i ∈ ls → transfers d' !! i = transfers d !! i;
  rely_transfer_key : ∀ u k j r, LTransferKey u k ∈ ls →
    transfers d' !! j = Some r → transfer_key r = (u, k) → transfers d !! j = Some r;
  rely_mint : ∀ i, LMint Update i ∈ ls → mints d' !! i = mints d !! i;
  rely_mint_key : ∀ k j r, LMintKey k ∈ ls →
    mints d' !! j = Some r → m_idempotency_key r = k → mints d !! j = Some r
}.

(** What the others may do while we hold [ls]. *)
Definition rely (ls : list lock) (d d' : db) : Prop := wf_db d → rely_holds ls d d'.

Record guar_holds (ls : list lock) (d d' : db) : Prop := {
  guar_wf : wf_db d';
  guar_grows : grows d d';
  guar_wallet : ∀ i, wallets d' !! i ≠ wallets d !! i →
    ∃ m, LWallet m i ∈ ls ∧ exclusive m = true;
  guar_transfer : ∀ i r, transfers d' !! i = Some r → transfers d !! i = None →
    LTransfer Update i ∈ ls ∧ LTransferKey (t_requester_user_id r) (t_idempotency_key r) ∈ ls;
  guar_mint : ∀ i r, mints d' !! i = Some r → mints d !! i = None →
    LMint Update i ∈ ls ∧ LMintKey (m_idempotency_key r) ∈ ls
}.

(** What we may do while we hold [ls]. *)
Definition guar (ls : list lock) (d d' : db) : Prop := wf_db d → guar_holds ls d d'.

(** The locks a session holds, and those a command takes.  A statement that a
    fault stops has taken none, so it needs none: it may be aborted while it
    waits, as the victim of a deadlock is. *)
Definition locks_of (w : world) : list lock := from_option tx_locks [] (session w).

Definition cmd_locks `{PgText} {R} (ch : choice) (w : world) (c : cmd R) : list lock :=
  match c with
  | TxStmt s =>
      match ch_fault ch with
      | Some _ => []
      | None => from_option (λ t, stmt_locks (ch_uuid ch) (view t (committed w)) s) [] (session w)
      end
  | PoolStmt s =>
      match ch_fault ch with
      | Some f => if ack_lost f && ch_applied ch then stmt_locks (ch_uuid ch) (committed w) s else []
      | None => stmt_locks (ch_uuid ch) (committed w) s
      end
  | _ => []
  end.

(** ** Weakest preconditions *)

Section wp.
Context `{PgText} (C : choice → Prop) (R : list lock → db → db → Prop).

Fixpoint wp {A} (p : prog A) (Q : A → world → Prop) (w : world) : Prop :=
  match p with
  | Ret a => Q a w
  | Do c k => ∀ d ch, C ch → R (locks_of w) (committed w) d →
      let w0 := with_committed w d in
      let r := (exec_cmd ch w0 c).1 in
      let w' := (exec_cmd ch w0 c).2 in
      guar (locks_of w0 ++ cmd_locks ch w0 c) d (committed w') ∧ wp (k r) Q w'
  end.

(** Some choice of the environment is a fault or a done context. *)
Definition infra : Prop :=
  ∃ ch, C ch ∧ (is_Some (ch_fault ch) ∨ is_Some (ch_done ch)).
End wp.

(** ** Interference lemmas *)

Lemma guar_refl ls d : guar ls d d.
Proof. intros Hwf. split; [done|done|congruence|congruence|congruence]. Qed.

Lemma rely_refl ls d : rely ls d d.
Proof. intros Hwf. split; done. Qed.

Lemma guar_mono ls ls' d d' : ls ⊆ ls' → guar ls d d' → guar ls' d d'.
Proof.
  intros Hs Hg Hwf. destruct (Hg Hwf) as [? ? H1 H2 H3]. split; [done|done|..].
  - intros i Hi. destruct (H1 i Hi) as (m & ? & ?). eauto.
  - intros i r Hi Hn. destruct (H2 i r Hi Hn). eauto.
  - intros i r Hi Hn. destruct (H3 i r Hi Hn). eauto.
Qed.

(** Exclusive modes conflict with each other. *)
Lemma exclusive_conflict m n : exclusive m = true → exclusive n = true → mode_conflict m n = true.
Proof. by destruct m, n. Qed.

(** The others' guarantee is our rely when the lock sets are compatible. *)
Lemma guar_rely ls ls' d d' :
  compatible ls ls' = true → guar ls' d d' → rely ls d d'.
Proof.
  intros Hc Hg Hwf. rewrite compatible_spec in Hc.
  destruct (Hg Hwf) as [Hwf' Hgr Hw Ht Hm]. split; [done|done|..].
  - intros m i Hi Hx. destruct (decide (wallets d' !! i = wallets d !! i)) as [|Hne]; [done|].
    destruct (Hw i Hne) as (n & Hn & Hxn). specialize (Hc _ _ Hi Hn). simpl in Hc.
    rewrite bool_decide_eq_true_2, exclusive_conflict in Hc by done. done.
  - intros i Hi. destruct (transfers d !! i) as [r|] eqn:Hd.
    + eapply lookup_weaken; [done|]. apply Hgr.
    + destruct (transfers d' !! i) as [r|] eqn:Hd'; [|done].
      destruct (Ht i r Hd' Hd) as [Hl _]. specialize (Hc _ _ Hi Hl). simpl in Hc.
      rewrite bool_decide_eq_true_2 in Hc by done. done.
  - intros u k j r Hl Hj Hk. destruct (transfers d !! j) as [r'|] eqn:Hd.
    + assert (transfers d' !! j = Some r') by (eapply lookup_weaken; [done|]; apply Hgr).
      congruence.
    + destruct (Ht j r Hj Hd) as [_ Hk']. specialize (Hc _ _ Hl Hk'). simpl in Hc.
      unfold transfer_key in Hk. injection Hk as <- <-.
      rewrite !bool_decide_eq_true_2 in Hc by done. done.
  - intros i Hi. destruct (mints d !! i) as [r|] eqn:Hd.
    + eapply lookup_weaken; [done|]. apply Hgr.
    + destruct (mints d' !! i) as [r|] eqn:Hd'; [|done].
      destruct (Hm i r Hd' Hd) as [Hl _]. specialize (Hc _ _ Hi Hl). simpl in Hc.
      rewrite bool_decide_eq_true_2 in Hc by done. done.
  - intros k j r Hl Hj Hk. destruct (mints d !! j) as [r'|] eqn:Hd.
    + assert (mints d' !! j = Some r') by (eapply lookup_weaken; [done|]; apply Hgr).
      congruence.
    + destruct (Hm j r Hj Hd) as [_ Hk']. specialize (Hc _ _ Hl Hk'). simpl in Hc.
      rewrite bool_decide_eq_true_2 in Hc by congruence. done.
Qed.

(** ** Structural rules *)

Section rules.
Context `{PgText} (C : choice → Prop) (R : list lock → db → db → Prop).
Abbreviation wp := (wp C R).

Lemma wp_ret {A} (a : A) Q w : Q a w → wp (Ret a) Q w.
Proof. done. Qed.

Lemma wp_mono {A} (p : prog A) (Q Q' : A → world → Prop) w :
  (∀ a w', Q a w' → Q' a w') → wp p Q w → wp p Q' w.
Proof.
  intros HQ. revert w. induction p as [a|B c k IH]; intros w; simpl; [auto|].
  intros Hp d ch Hch Hr. destruct (Hp d ch Hch Hr) as [Hg Hk]. split; [done|by apply IH].
Qed.

Lemma wp_bind {A B} (p : prog A) (f : A → prog B) Q w :
  wp p (λ a, wp (f a) Q) w → wp (p ≫= f) Q w.
Proof.
  unfold mbind, prog_bind. revert w. induction p as [a|D c k IH]; intros w; simpl; [done|].
  intros Hp d ch Hch Hr. destruct (Hp d ch Hch Hr) as [Hg Hk]. split; [done|by apply IH].
Qed.

(** A weaker environment: fewer choices, less interference. *)
Lemma wp_env {A} (C' : choice → Prop) (R' : list lock → db → db → Prop) (p : prog A) Q w :
  (∀ ch, C' ch → C ch) → (∀ ls d d', R' ls d d' → R ls d d') →
  wp p Q w → Wp.wp C' R' p Q w.
Proof.
  intros HC HR. revert w. induction p as [a|B c k IH]; intros w; simpl; [done|].
  intros Hp d ch Hch Hr. destruct (Hp d ch (HC _ Hch) (HR _ _ _ Hr)) as [Hg Hk].
  split; [done|by apply IH].
Qed.

(** ** Command rules

    A rule for each command: what the continuation must satisfy, in a world
    [w'] of which only the named components are known. *)

Definition world_is (w : world) (s : option txn) (d : db) (cs : list (db * db)) : Prop :=
  session w = s ∧ committed w = d ∧ commits w = cs.

Lemma wp_begin {B} (k : result error unit → prog B) Q w :
  session w = None →
  (∀ d w' now, R [] (committed w) d →
     world_is w' (Some (begin_txn now)) d (commits w) → wp (k (Ok tt)) Q w') →
  (∀ d w' f, R [] (committed w) d → infra C →
     world_is w' None d (commits w) → wp (k (Err (fault_error f))) Q w') →
  wp (call Begin ≫= k) Q w.
Proof.
  intros Hs Hok Hf. apply wp_bind. simpl. intros d ch Hch Hr.
  unfold locks_of in *. rewrite Hs in Hr. simpl in Hr.
  destruct (ch_fault ch) as [f|] eqn:Hfault; simpl.
  - split; [apply guar_refl|]. apply (Hf d); [done|exists ch; eauto|by repeat split].
  - split; [apply guar_refl|]. by apply (Hok d _ (ch_now ch)).
Qed.

Lemma wp_tx_stmt {A B} (s : stmt A) (k : result error A → prog B) Q w t :
  session w = Some t → tx_state t = TxActive →
  (∀ d w' u, R (tx_locks t) (committed w) d →
     match exec_stmt u (tx_now t) (view t d) s with
     | Ok (r, ws) =>
         world_is w' (Some (MkTxn (tx_now t) TxActive (tx_writes t ++ ws)
           (tx_locks t ++ stmt_locks u (view t d) s) (tx_saves t))) d (commits w) →
         (∃ ch, C ch ∧ ch_uuid ch = u) →
         wp (k (Ok r)) Q w'
     | Err e =>
         world_is w' (Some (MkTxn (tx_now t) TxAborted (tx_writes t)
           (tx_locks t ++ stmt_locks u (view t d) s) (tx_saves t))) d (commits w) →
         (∃ ch, C ch ∧ ch_uuid ch = u) →
         wp (k (Err (EPg e))) Q w'
     end) →
  (∀ d w' f, R (tx_locks t) (committed w) d → infra C →
     world_is w' (Some (set_state t (after_fault f))) d (commits w) →
     wp (k (Err (fault_error f))) Q w') →
  wp (call (TxStmt s) ≫= k) Q w.
Proof.
  intros Hs Ha Hok Hf. apply wp_bind. simpl. intros d ch Hch Hr.
  unfold locks_of in *. rewrite Hs in Hr. simpl in Hr.
  unfold exec_tx_stmt, in_tx. simpl. rewrite Hs, Ha.
  destruct (ch_fault ch) as [f|] eqn:Hfault; simpl.
  - split; [apply guar_refl|]. apply (Hf d); [done|exists ch; eauto|by repeat split].
  - specialize (Hok d).
    destruct (exec_stmt (ch_uuid ch) (tx_now t) (view t d) s) as [[r ws]|e] eqn:He; simpl;
      (split; [apply guar_refl|]).
    + specialize (Hok (with_session (with_committed w d) (Some (MkTxn (tx_now t) TxActive
        (tx_writes t ++ ws) (tx_locks t ++ stmt_locks (ch_uuid ch) (view t d) s) (tx_saves t))))
        (ch_uuid ch) Hr).
      rewrite He in Hok. apply Hok; [by repeat split | by exists ch].
    + specialize (Hok (with_session (with_committed w d) (Some (MkTxn (tx_now t) TxAborted
        (tx_writes t) (tx_locks t ++ stmt_locks (ch_uuid ch) (view t d) s) (tx_saves t))))
        (ch_uuid ch) Hr).
      rewrite He in Hok. apply Hok; [by repeat split | by exists ch].
Qed.

(** A command of the open transaction that only rewrites it. *)
Lemma wp_in_tx {B} (c : cmd (result error unit)) (f : txn → txn)
    (k : result error unit → prog B) Q w t :
  session w = Some t → tx_state t = TxActive →
  (∀ ch w0, exec_cmd ch w0 c = in_tx ch w0 (λ t, (Ok tt, f t))) →
  (∀ d w', R (tx_locks t) (committed w) d →
     world_is w' (Some (f t)) d (commits w) → wp (k (Ok tt)) Q w') →
  (∀ d w' fl, R (tx_locks t) (committed w) d → infra C →
     world_is w' (Some (set_state t (after_fault fl))) d (commits w) →
     wp (k (Err (fault_error fl))) Q w') →
  wp (call c ≫= k) Q w.
Proof.
  intros Hs Ha Hc Hok Hf. apply wp_bind. simpl. intros d ch Hch Hr.
  unfold locks_of in *. rewrite Hs in Hr. simpl in Hr.
  rewrite Hc. unfold in_tx. simpl. rewrite Hs, Ha.
  destruct (ch_fault ch) as [fl|] eqn:Hfault; simpl; (split; [apply guar_refl|]).
  - apply (Hf d); [done|exists ch; eauto|by repeat split].
  - by apply (Hok d).
Qed.

Lemma wp_batch_close {B} (k : result error unit → prog B) Q w t :
  session w = Some t → tx_state t = TxActive →
  (∀ d w', R (tx_locks t) (committed w) d →
     world_is w' (Some t) d (commits w) → wp (k (Ok tt)) Q w') →
  (∀ d w' fl, R (tx_locks t) (committed w) d → infra C →
     world_is w' (Some (set_state t (after_fault fl))) d (commits w) →
     wp (k (Err (fault_error fl))) Q w') →
  wp (call BatchClose ≫= k) Q w.
Proof. intros Hs Ha. by apply (wp_in_tx BatchClose id). Qed.

(** Closing the batch on the way out: whatever it answers, the transaction
    stays open. *)
Lemma wp_batch_close_any {B} (p : prog B) Q w t :
  session w = Some t →
  (∀ d w' t', R (tx_locks t) (committed w) d → tx_locks t' = tx_locks t →
     world_is w' (Some t') d (commits w) → wp p Q w') →
  wp (call BatchClose ≫= λ _, p) Q w.
Proof.
  intros Hs Hk. apply wp_bind. simpl. intros d ch Hch Hr.
  unfold locks_of in *. rewrite Hs in Hr. simpl in Hr.
  unfold in_tx. simpl. rewrite Hs.
  destruct (tx_state t) eqn:Ha, (ch_fault ch) as [fl|]; simpl; (split; [apply guar_refl|]);
    (eapply (Hk d); [done| |by repeat split]; done).
Qed.

Lemma wp_rollback {B} (p : prog B) Q w :
  (∀ d w', R (locks_of w) (committed w) d → world_is w' None d (commits w) → wp p Q w') →
  wp (call Rollback ≫= λ _, p) Q w.
Proof.
  intros Hk. apply wp_bind. simpl. intros d ch Hch Hr.
  split; [apply guar_refl|]. by apply (Hk d).
Qed.

Lemma wp_rollback_to {B} (p : prog B) Q w t :
  session w = Some t →
  (∀ d w', R (tx_locks t) (committed w) d →
     world_is w' (Some (exec_rollback_to t)) d (commits w) → wp p Q w') →
  wp (call RollbackToSavepoint ≫= λ _, p) Q w.
Proof.
  intros Hs Hk. apply wp_bind. simpl. intros d ch Hch Hr.
  unfold locks_of in *. rewrite Hs in Hr. simpl in Hr.
  split; [apply guar_refl|]. apply (Hk d); [done|]. split; [|done]. simpl. by rewrite Hs.
Qed.

(** Commit: applied, refused, or applied with the acknowledgement lost. *)
Lemma wp_commit {B} (k : result error unit → prog B) Q w t :
  session w = Some t → tx_state t = TxActive →
  (∀ d, R (tx_locks t) (committed w) d → guar (tx_locks t) d (view t d)) →
  (∀ d w', R (tx_locks t) (committed w) d →
     world_is w' None (view t d) ((d, view t d) :: commits w) → wp (k (Ok tt)) Q w') →
  (∀ d w' f, R (tx_locks t) (committed w) d → infra C →
     world_is w' None d (commits w) → wp (k (Err (fault_error f))) Q w') →
  (∀ d w' f, R (tx_locks t) (committed w) d → infra C → ack_lost f = true →
     world_is w' None (view t d) ((d, view t d) :: commits w) →
     wp (k (Err (fault_error f))) Q w') →
  wp (call Commit ≫= k) Q w.
Proof.
  intros Hs Ha Hg Hok Hf Hl. apply wp_bind. destruct w as [cw sw tw mw]. simpl in *. subst sw.
  intros d ch Hch Hr. unfold locks_of in *. simpl in *. rewrite app_nil_r.
  unfold exec_commit. simpl. rewrite Ha.
  destruct (ch_fault ch) as [f|] eqn:Hfault; simpl.
  - assert (infra C) by (exists ch; eauto).
    destruct (ack_lost f && ch_applied ch) eqn:Hack; simpl.
    + breflect. split; [by apply Hg|]. by apply (Hl d).
    + split; [apply guar_refl|]. by apply (Hf d).
  - split; [by apply Hg|]. by apply (Hok d).
Qed.

Lemma wp_backoff {B} ms (k : option error → prog B) Q w :
  (∀ d w', R (locks_of w) (committed w) d →
     world_is w' (session w) d (commits w) → wp (k None) Q w') →
  (∀ d w' m, R (locks_of w) (committed w) d → infra C →
     world_is w' (session w) d (commits w) → wp (k (Some (ECtx m))) Q w') →
  wp (call (Backoff ms) ≫= k) Q w.
Proof.
  intros Hok Hf. apply wp_bind. simpl. intros d ch Hch Hr. split; [apply guar_refl|].
  destruct (ch_done ch) as [m|] eqn:He.
  - apply (Hf d); [done|exists ch; eauto|by repeat split].
  - by apply (Hok d).
Qed.

Lemma wp_emit_trace {B} e (p : prog B) Q w :
  (∀ d w', R (locks_of w) (committed w) d →
     world_is w' (session w) d (commits w) → trace w' = trace w ++ [e] → wp p Q w') →
  wp (call (Emit e) ≫= λ _, p) Q w.
Proof.
  intros Hk. apply wp_bind. simpl. intros d ch Hch Hr. split; [apply guar_refl|].
  by apply (Hk d).
Qed.

Lemma wp_emit {B} e (p : prog B) Q w :
  (∀ d w', R (locks_of w) (committed w) d →
     world_is w' (session w) d (commits w) → wp p Q w') →
  wp (call (Emit e) ≫= λ _, p) Q w.
Proof. intros Hk. apply wp_emit_trace. eauto. Qed.

(** A statement on the pool, outside any transaction. *)
Lemma wp_pool_stmt {A B} (s : stmt A) (k : result error A → prog B) Q w :
  session w = None →
  (∀ d now u, R [] (committed w) d →
     match exec_stmt u now d s with
     | Ok (r, ws) => guar (stmt_locks u d s) d (apply_writes d ws)
     | Err _ => True
     end) →
  (∀ d w' now u, R [] (committed w) d → (∃ ch, C ch ∧ ch_uuid ch = u) →
     match exec_stmt u now d s with
     | Ok (r, ws) =>
         world_is w' None (apply_writes d ws)
           (match ws with [] => commits w | _ => (d, apply_writes d ws) :: commits w end) →
         wp (k (Ok r)) Q w'
     | Err e => world_is w' None d (commits w) → wp (k (Err (EPg e))) Q w'
     end) →
  (∀ d w' f, R [] (committed w) d → infra C →
     world_is w' None d (commits w) → wp (k (Err (fault_error f))) Q w') →
  (∀ d w' f now u r ws, R [] (committed w) d → infra C → (∃ ch, C ch ∧ ch_uuid ch = u) →
     exec_stmt u now d s = Ok (r, ws) → ws ≠ [] →
     world_is w' None (apply_writes d ws) ((d, apply_writes d ws) :: commits w) →
     wp (k (Err (fault_error f))) Q w') →
  wp (call (PoolStmt s) ≫= k) Q w.
Proof.
  intros Hs Hg Hok Hf Hl. apply wp_bind. destruct w as [cw sw tw mw]. simpl in *. subst sw.
  intros d ch Hch Hr. unfold locks_of in *. simpl in *. unfold exec_pool_stmt. simpl.
  specialize (Hg d (ch_now ch) (ch_uuid ch) Hr).
  assert (HC : ∃ ch', C ch' ∧ ch_uuid ch' = ch_uuid ch) by eauto.
  specialize (λ w', Hok d w' (ch_now ch) (ch_uuid ch) Hr HC).
  specialize (λ w' f, Hl d w' f (ch_now ch) (ch_uuid ch)).
  destruct (ch_fault ch) as [f|] eqn:Hfault; simpl.
  - assert (infra C) by (exists ch; eauto).
    destruct (exec_stmt _ _ d s) as [[r ws]|e] eqn:He; simpl.
    + destruct (ack_lost f && ch_applied ch); simpl; [|split; [apply guar_refl|by apply (Hf d)]].
      destruct ws as [|x ws]; simpl; [split; [apply guar_refl|by apply (Hf d)]|].
      split; [done|]. by apply (Hl _ f r (x :: ws)).
    + split; [apply guar_refl|]. by apply (Hf d).
  - destruct (exec_stmt _ _ d s) as [[r ws]|e] eqn:He; simpl.
    + destruct ws as [|x ws]; simpl; (split; [done || apply guar_refl|]); by apply Hok.
    + split; [apply guar_refl|]. by apply Hok.
Qed.
End rules.

(** ** A session that runs alone

    Nothing else changes the tables: [R] is equality. *)

Definition alone (_ : list lock) (d d' : db) : Prop := d' = d.

Lemma alone_rely ls d d' : alone ls d d' → rely ls d d'.
Proof. intros ->. apply rely_refl. Qed.

(** The commits of a world, from the tables [d0], lead to its tables. *)
Fixpoint chain (d0 : db) (cs : list (db * db)) (d : db) : Prop :=
  match cs with
  | [] => d = d0
  | (a, b) :: cs => d = b ∧ chain d0 cs a
  end.

Section adequacy.
Context `{PgText} (C : choice → Prop).

Lemma exec_cmd_chain {R} ch w (c : cmd R) d0 :
  chain d0 (commits w) (committed w) →
  chain d0 (commits (exec_cmd ch w c).2) (committed (exec_cmd ch w c).2).
Proof.
  intros Hc. destruct c; simpl; unfold exec_tx_stmt, exec_pool_stmt, exec_commit, in_tx;
    repeat case_match; simplify_eq/=; done.
Qed.

(** Every run under choices in [C] ends as [wp] says. *)
Lemma wp_run {A} (p : prog A) Q w env n a w' n' :
  (∀ i, C (env i)) → wp C alone p Q w → run env n p w = (a, w', n') → Q a w'.
Proof.
  intros HC. revert w n. induction p as [a0|B c k IH]; intros w n Hp Hrun; simpl in *.
  - by simplify_eq.
  - destruct (exec_cmd (env n) w c) as [r w1] eqn:He.
    destruct (Hp (committed w) (env n) (HC n) eq_refl) as [_ Hk].
    replace (with_committed w (committed w)) with w in Hk by (by destruct w).
    rewrite He in Hk. by eapply IH.
Qed.

Lemma run_chain {A} (p : prog A) w env n a w' n' d0 :
  run env n p w = (a, w', n') → chain d0 (commits w) (committed w) →
  chain d0 (commits w') (committed w').
Proof.
  revert w n. induction p as [a0|B c k IH]; intros w n Hrun Hc; simpl in *.
  - by simplify_eq.
  - destruct (exec_cmd (env n) w c) as [r w1] eqn:He.
    eapply IH; [exact Hrun|]. pose proof (exec_cmd_chain (env n) w c d0 Hc) as Hc'.
    by rewrite He in Hc'.
Qed.
End adequacy.
