(* ===== verification/TxLoop.v ===== *)
(** * The transaction wrapper, verified once ([inTx])

    For any transaction body that either leaves an open transaction ready to
    commit ([Good]) or returns an error and commits nothing ([Bad]), [inTx]
    commits at most once -- exactly once when it returns nil -- whatever
    faults, retries and interference it meets. *)

From S2P Require Import Prelude Errors Database Locks Obs Session Store Accounting Wp.

(** The errors the environment causes: a fault, a done context, or the
    exhaustion of the attempts on one of them. *)
Inductive env_error : error → Prop :=
| env_fault f : env_error (fault_error f)
| env_ctx m : env_error (ECtx m)
| env_wrap m e : env_error e → env_error (EWrap m e).

Section inTx.
Context `{PgText} (C : choice → Prop) (R : list lock → db → db → Prop).
Context (P : db → Prop) (HP : ∀ ls d d', P d → R ls d d' → P d').
Context {V : Type} (s : Store) (fn : V → prog (V * option error)).
Context (Vok : V → Prop) (Good : V → txn → db → Prop) (Bad : V → error → db → Prop).

(** What the body promises from a fresh transaction. *)
Definition body_post (w : world) (r : V * option error) (w' : world) : Prop :=
  P (committed w') ∧ commits w' = commits w ∧
  match r.2 with
  | None => ∃ t, session w' = Some t ∧ tx_state t = TxActive ∧ Good r.1 t (committed w')
  | Some e => Bad r.1 e (committed w')
  end.

Context (Hbody : ∀ vars now w, Vok vars → session w = Some (begin_txn now) → P (committed w) →
  wp C R (fn vars) (body_post w) w).
Context (Hgood_stable : ∀ v t d d', P d → Good v t d → R (tx_locks t) d d' → Good v t d').
Context (Hgood_guar : ∀ v t d, P d → Good v t d → guar (tx_locks t) d (view t d)).
Context (Hgood_vok : ∀ v t d, Good v t d → Vok v).
Context (Hbad_stable : ∀ ls v e d d', P d → Bad v e d → R ls d d' → Bad v e d').
Context (Hbad_transient : ∀ v e d, Bad v e d → isTransient e = true →
  infra C ∧ env_error e ∧ Vok v).

(** What [inTx] promises, having started with [cs] committed. *)
Definition committed_once (cs : list (db * db)) (v : V) (w' : world) : Prop :=
  ∃ t d, P d ∧ Good v t d ∧ commits w' = (d, view t d) :: cs.

Definition env_failed (e : error) (v : V) : Prop := infra C ∧ env_error e ∧ Vok v.

Definition inTx_post (cs : list (db * db)) (r : V * option error) (w' : world) : Prop :=
  session w' = None ∧
  match r.2 with
  | None => committed_once cs r.1 w'
  | Some e =>
      (commits w' = cs ∧ P (committed w') ∧
       (Bad r.1 e (committed w') ∨ env_failed e r.1)) ∨
      (env_failed e r.1 ∧ committed_once cs r.1 w')
  end.

(** The result of one attempt: [inl] is final, [inr] is to be retried. *)
Definition attempt_post (cs : list (db * db)) (r : V * (option error + error)) (w' : world) : Prop :=
  match r.2 with
  | inl res => inTx_post cs (r.1, res) w'
  | inr e => session w' = None ∧ commits w' = cs ∧ P (committed w') ∧ env_failed e r.1
  end.

Lemma attempt_failed cs v e w :
  session w = None → commits w = cs → P (committed w) →
  Bad v e (committed w) ∨ env_failed e v →
  attempt_post cs (v, if isTransient e then inr e else inl (Some e)) w.
Proof.
  intros Hs Hc HPw Hcause. unfold attempt_post. destruct (isTransient e) eqn:Ht; simpl.
  - destruct Hcause as [Hb|He]; [|done]. by destruct (Hbad_transient _ _ _ Hb Ht) as (? & ? & ?).
  - split; [done|]. by left.
Qed.

(** A lost acknowledgement is not transient. *)
Lemma ack_lost_final f : ack_lost f = true → isTransient (fault_error f) = false.
Proof. by destruct f. Qed.

Lemma wp_attempt vars w :
  Vok vars → session w = None → P (committed w) →
  wp C R (attempt_tx fn vars) (attempt_post (commits w)) w.
Proof.
  intros Hv Hs HPw. unfold attempt_tx. apply wp_begin; [done| |].
  2:{ intros d w' f Hr Hi (Hs' & Hd & Hc). apply wp_ret. subst d.
      apply attempt_failed; eauto. right. split_and!; [done|constructor|done]. }
  intros d w' now Hr (Hs' & Hd & Hc). subst d. apply wp_bind.
  eapply wp_mono, (Hbody vars now); eauto.
  intros [v [e|]] w1 (HP1 & Hc1 & Hres); cbn beta iota; simpl in Hres.
  - apply wp_rollback. intros d w2 Hr2 (Hs2 & Hd2 & Hc2). apply wp_ret. subst d.
    apply attempt_failed; [done|congruence|eauto|]. left. eauto.
  - destruct Hres as (t & Ht & Ha & Hg).
    eapply wp_commit; [done|done| | | |].
    + intros d Hr2. eapply Hgood_guar; [|eapply Hgood_stable]; eauto.
    + intros d w2 Hr2 (Hs2 & Hd2 & Hc2). apply wp_ret. split; [done|].
      exists t, d. split_and!; [eauto|eauto|]. rewrite Hc2. by rewrite Hc1, Hc.
    + intros d w2 f Hr2 Hi (Hs2 & Hd2 & Hc2). apply wp_ret. subst d.
      apply attempt_failed; [done|congruence|eauto|]. right.
      split_and!; [done|constructor|by eapply Hgood_vok].
    + intros d w2 f Hr2 Hi Hl (Hs2 & Hd2 & Hc2). apply wp_ret.
      rewrite ack_lost_final by done. simpl. split; [done|]. right.
      split; [split_and!; [done|constructor|by eapply Hgood_vok]|].
      exists t, d. split_and!; [eauto|eauto|]. rewrite Hc2. by rewrite Hc1, Hc.
Qed.

Lemma wp_emit_all es Q w :
  P (committed w) →
  (∀ w', P (committed w') → session w' = session w → commits w' = commits w → Q tt w') →
  wp C R (emit_all es) Q w.
Proof.
  revert w. induction es as [|e es IH]; intros w HPw Hk; [by apply wp_ret, Hk|].
  apply wp_emit. intros d w' Hr (Hs & Hd & Hc). subst d.
  apply IH; [eauto|]. intros w'' HP' Hs' Hc'. apply Hk; congruence.
Qed.

(** The loop, at the first attempt or after an environment error. *)
Lemma wp_inTx_loop n attempt err vars w :
  Vok vars → session w = None → P (committed w) →
  (attempt = 0 ∧ n ≠ O) ∨ (infra C ∧ from_option env_error False err) →
  wp C R (inTx_loop s fn n attempt err vars) (inTx_post (commits w)) w.
Proof.
  revert attempt err vars w.
  induction n as [|n IH]; intros attempt err vars w Hv Hs HPw Hcause.
  - apply wp_ret. split; [done|]. left. split_and!; [done|done|]. right.
    destruct Hcause as [[_ ?]|[Hi He]]; [done|]. destruct err as [e|]; [|done].
    split_and!; [done|by constructor|done].
  - assert (Htry : ∀ w', session w' = None → P (committed w') → commits w' = commits w →
      wp C R ('(vars, next) ← attempt_tx fn vars;
              match next with
              | inl r => mret (vars, r)
              | inr err => inTx_loop s fn n (attempt + 1) (Some err) vars
              end) (inTx_post (commits w)) w').
    { intros w' Hs' HP' Hc'. apply wp_bind. eapply wp_mono, wp_attempt; [|done..].
      intros [v [r|e]] w1 Hpost; unfold attempt_post in Hpost; cbn beta iota; simpl in Hpost.
      - apply wp_ret. by rewrite <- Hc'.
      - destruct Hpost as (Hs1 & Hc1 & HP1 & Hi & He & Hv1). rewrite <- Hc', <- Hc1.
        apply IH; try done. by right. }
    cbn [inTx_loop]. destruct (Z.ltb_spec 0 attempt) as [Hpos|]; [|by apply Htry].
    destruct Hcause as [[-> _]|[Hi He]]; [done|]. apply wp_bind.
    apply wp_emit_all; [done|]. intros w' HP' Hs' Hc'. apply wp_backoff.
    + intros d w1 Hr (Hs1 & Hd1 & Hc1). subst d. apply Htry; [congruence|eauto|congruence].
    + intros d w1 m Hr _ (Hs1 & Hd1 & Hc1). subst d. apply wp_ret.
      split; [simpl; congruence|]. left. split_and!; [simpl; congruence|eauto|]. right.
      split_and!; [done|constructor|done].
Qed.

Lemma wp_inTx vars w :
  Vok vars → session w = None → P (committed w) →
  wp C R (inTx s fn vars) (inTx_post (commits w)) w.
Proof. intros. apply wp_inTx_loop; [done..|]. by left. Qed.
End inTx.

(** ** Environment errors are none of the store's sentinels *)

Lemma env_error_not e t :
  env_error e → (∀ f, t ≠ fault_error f) → (∀ m, t ≠ ECtx m) → (∀ m e', t ≠ EWrap m e') →
  errors_Is e t = false.
Proof.
  intros He Hf Hc Hw. induction He as [f|m|m e He IH].
  - specialize (Hf f). destruct f; simpl in *; (rewrite bool_decide_eq_false_2; [done|congruence]).
  - simpl. rewrite bool_decide_eq_false_2; [done|]. specialize (Hc m). congruence.
  - simpl. rewrite IH, bool_decide_eq_false_2; [done|]. specialize (Hw m e). congruence.
Qed.

Lemma env_error_sqlstate e : env_error e →
  String.eqb (sqlstate e) sqlstateUniqueViolation = false ∧
  String.eqb (sqlstate e) sqlstateForeignKeyViolation = false ∧
  String.eqb (sqlstate e) "22P02" = false.
Proof.
  induction 1 as [f|m|m e He IH]; [|done|exact IH].
  destruct f as [| | | |c rest]; try done. by destruct c.
Qed.

(** The errors a [Transfer] caller can tell apart are not environment errors. *)
Ltac not_env_error :=
  apply env_error_not; [done | intros []; discriminate | discriminate | discriminate].
