(* ===== verification/Statements.v ===== *)
(** * Statement lemmas

    When a statement of the store succeeds, what it answers and writes, and
    when it fails; shared by the proofs of the calls. *)

From S2P Require Import Prelude Errors Database Accounting.

Lemma checked_Ok o x : checked o = Ok x → o = None.
Proof. by destruct o. Qed.

Lemma checked_Err o e : checked o = Err e → ∃ c, o = Some c ∧ e = check_violation c.
Proof. destruct o; naive_solver. Qed.

(** ** Updates of a balance, ledger entries, the final status *)

Section apply_statements.
Context `{PgText}.

(** A uuid parameter is read, or refused for its encoding or its syntax. *)
Lemma uuid_param_Ok s i : uuid_param s = Ok i ↔ uuid_in s = Some i.
Proof.
  unfold uuid_param, text_param. destruct (text_in s) eqn:Ht; simpl; [apply of_option_Ok|].
  split; [done|]. intros Hi. apply uuid_in_text in Hi. congruence.
Qed.

Lemma uuid_param_Err s e :
  uuid_param s = Err e →
  (text_in s = false ∧ e = invalid_encoding) ∨ (uuid_in s = None ∧ e = invalid_text).
Proof.
  unfold uuid_param, text_param. destruct (text_in s); simpl; [|by intros [= <-]; left].
  intros [? <-]%of_option_Err. by right.
Qed.

Lemma uuid_param_Some s i : uuid_in s = Some i → uuid_param s = Ok i.
Proof. apply uuid_param_Ok. Qed.

Lemma move_balance_Ok now i r delta :
  in_int64 (w_balance_paise r + delta) = true → 0 ≤ w_balance_paise r + delta →
  move_balance now i r delta = Ok (1, [PutWallet i (add_balance delta now r)]).
Proof.
  intros Hr Hp. unfold move_balance, bigint. rewrite Hr. simpl.
  unfold check_wallet. simpl. apply Z.leb_le in Hp. by rewrite Hp.
Qed.

Lemma debit_Ok u now d s i r amount :
  uuid_in s = Some i → wallets d !! i = Some r →
  0 ≤ amount ≤ w_balance_paise r → w_balance_paise r ≤ int64_max →
  exec_stmt u now d (DebitWallet amount s) = Ok (1, [PutWallet i (add_balance (- amount) now r)]).
Proof.
  intros Hs Hi Ha Hm. simpl. unfold debit_wallet. rewrite (uuid_param_Some _ _ Hs). simpl. rewrite Hi.
  rewrite (proj2 (Z.leb_le _ _)) by lia.
  apply move_balance_Ok; [|lia]. apply in_int64_spec. unfold int64_min, int64_max in *. lia.
Qed.

Lemma credit_Ok u now d s i r amount :
  uuid_in s = Some i → wallets d !! i = Some r → 0 ≤ w_balance_paise r → 0 ≤ amount →
  w_balance_paise r + amount ≤ int64_max →
  exec_stmt u now d (CreditWallet amount s) = Ok (1, [PutWallet i (add_balance amount now r)]).
Proof.
  intros Hs Hi Hr Ha Hm. simpl. unfold credit_wallet. rewrite (uuid_param_Some _ _ Hs). simpl. rewrite Hi.
  apply move_balance_Ok; [|lia]. apply in_int64_spec. unfold int64_min, int64_max in *. lia.
Qed.

Lemma credit_overflow u now d s i r amount :
  uuid_in s = Some i → wallets d !! i = Some r → int64_max < w_balance_paise r + amount →
  exec_stmt u now d (CreditWallet amount s) = Err out_of_range.
Proof.
  intros Hs Hi Hm. simpl. unfold credit_wallet. rewrite (uuid_param_Some _ _ Hs). simpl. rewrite Hi.
  unfold move_balance, bigint.
  assert (in_int64 (w_balance_paise r + amount) = false) as ->; [|done].
  apply not_true_is_false. rewrite in_int64_spec. lia.
Qed.

Lemma ledger_Ok u now d ts t s1 i1 d1 s2 i2 d2 :
  uuid_in ts = Some t → uuid_in s1 = Some i1 → uuid_in s2 = Some i2 →
  is_Some (transfers d !! t) → is_Some (wallets d !! i1) → is_Some (wallets d !! i2) →
  d1 ≠ 0 → d2 ≠ 0 →
  exec_stmt u now d (InsertLedger ts s1 d1 s2 d2) =
    Ok (2, [AddLedger (MkLedger t i1 d1 now); AddLedger (MkLedger t i2 d2 now)]).
Proof.
  intros Ht H1 H2 Htr Hw1 Hw2 Hd1 Hd2. simpl. unfold insert_ledger.
  rewrite (uuid_param_Some _ _ Ht), (uuid_param_Some _ _ H1), (uuid_param_Some _ _ H2). simpl. unfold check_ledger, ledger_refs. simpl.
  rewrite (proj2 (Z.eqb_neq _ _) Hd1), (proj2 (Z.eqb_neq _ _) Hd2).
  rewrite (bool_decide_eq_true_2 _ Htr), (bool_decide_eq_true_2 _ Hw1), (bool_decide_eq_true_2 _ Hw2).
  done.
Qed.

Lemma succeed_Ok u now d s i r :
  uuid_in s = Some i → transfers d !! i = Some r →
  check_transfer (set_status now r "succeeded" (t_decline_reason r)) = None →
  exec_stmt u now d (SucceedTransfer s) =
    Ok (1, [PutTransfer i (set_status now r "succeeded" (t_decline_reason r))]).
Proof.
  intros Hs Hi Hc. simpl. unfold succeed_transfer. rewrite (uuid_param_Some _ _ Hs). simpl. rewrite Hi.
  by rewrite Hc.
Qed.
End apply_statements.

(** An update of a present row, as an insertion. *)
Lemma alter_Some_insert {A} (f : A → A) (m : gmap uuid A) i x :
  m !! i = Some x → alter f i m = <[i := f x]> m.
Proof.
  intros Hi. apply map_eq. intros j. rewrite lookup_alter, lookup_insert.
  case_decide; [by subst; rewrite Hi | done].
Qed.
