(* ===== verification/TransferSpec.v ===== *)
(** * What a call of [Transfer] may do (specification)

    [transfer_outcome]: the results of a call together with the changes it
    made to the committed tables -- none, or exactly one of the accounting
    actions [spec_settle] and [spec_decline] -- and the state in which each
    result is justified. *)

From S2P Require Import Prelude Errors Database Locks Session Sha256 Store Accounting Wp TxLoop.
From S2P Require Import Transfers.
Import TransferRequest.

Section spec.
Context `{PgText}.

(** The row a request claims, its ids resolved. *)
Definition claim_row (req : TransferRequest.t) (ru fu tu : uuid) (now : timestamp) : transfer_row :=
  MkTransfer (IdempotencyKey req) ru fu tu (AmountPaise req) "pending" None
    (Fingerprint (FromWalletID req) (ToWalletID req) (AmountPaise req)) now None.

(** How the ids of a request read as uuids. *)
Record resolves (req : TransferRequest.t) (ru fu tu : uuid) : Prop := {
  res_key : text_in (IdempotencyKey req) = true;
  res_requester : uuid_in (RequesterUserID req) = Some ru;
  res_from : uuid_in (FromWalletID req) = Some fu;
  res_to : uuid_in (ToWalletID req) = Some tu
}.

(** A request that the INSERT has nothing against but its key, its id and the
    rows it refers to. *)
Definition sound_request (req : TransferRequest.t) : Prop :=
  ∃ ru fu tu, resolves req ru fu tu ∧ 0 < AmountPaise req ∧ fu ≠ tu.

(** The document returned by the call that does the work: the ids and the key
    as the request spells them. *)
Definition fresh_doc (req : TransferRequest.t) (u : uuid) (now : timestamp) (status : string)
    (reason : option string) : Transfer.t :=
  Transfer.Mk (uuid_out u) status reason (FromWalletID req) (ToWalletID req) (AmountPaise req)
    (IdempotencyKey req) now (Some now).

Definition settled_doc req u now : Transfer.t := fresh_doc req u now StatusSucceeded None.
Definition declined_doc req u now : Transfer.t :=
  fresh_doc req u now StatusDeclined (Some ReasonInsufficientFunds).

(** The balance the decision of step 3 reads: the row locked under the
    spelling of the source id that the server prints. *)
Definition decision_balance (req : TransferRequest.t) (fu : uuid) (rf : wallet_row) : Z :=
  if String.eqb (uuid_out fu) (FromWalletID req) then w_balance_paise rf else 0.

(** No transfer holds the key of the request. *)
Definition key_free (d : db) (req : TransferRequest.t) (ru : uuid) : Prop :=
  ∀ j r, transfers d !! j = Some r → transfer_key r ≠ (ru, IdempotencyKey req).

(** A request the server refuses, and the error the call returns. *)
Inductive rejected (C : choice → Prop) (d : db) (req : TransferRequest.t) : error → Prop :=
| rej_encoding :
    text_in (IdempotencyKey req) = false ∨ text_in (RequesterUserID req) = false ∨
    text_in (FromWalletID req) = false ∨ text_in (ToWalletID req) = false →
    rejected C d req (EPg invalid_encoding)
| rej_malformed :
    uuid_in (RequesterUserID req) = None ∨ uuid_in (FromWalletID req) = None ∨
    uuid_in (ToWalletID req) = None → rejected C d req ErrWalletNotFound
| rej_check ru fu tu now c :
    resolves req ru fu tu → check_transfer (claim_row req ru fu tu now) = Some c →
    rejected C d req (EPg (check_violation c))
| rej_id ch r :
    C ch → transfers d !! ch_uuid ch = Some r →
    rejected C d req (EPg (unique_violation "transfers_pkey"))
| rej_missing ru fu tu :
    resolves req ru fu tu → 0 < AmountPaise req → fu ≠ tu → key_free d req ru →
    users d !! ru = None ∨ wallets d !! fu = None ∨ wallets d !! tu = None →
    rejected C d req ErrWalletNotFound
| rej_overflow ru fu tu rf rt :
    resolves req ru fu tu → fu ≠ tu → key_free d req ru →
    wallets d !! fu = Some rf → wallets d !! tu = Some rt →
    AmountPaise req ≤ decision_balance req fu rf →
    int64_max < w_balance_paise rt + AmountPaise req →
    rejected C d req (EPg out_of_range).

(** The key of the request is taken by row [i], [r]. *)
Definition key_taken (d : db) (req : TransferRequest.t) (i : uuid) (r : transfer_row) : Prop :=
  ∃ ru, uuid_in (RequesterUserID req) = Some ru ∧ transfers d !! i = Some r ∧
        transfer_key r = (ru, IdempotencyKey req).

(** The two ways of doing the work, on tables [d]. *)
Inductive performs (d : db) (req : TransferRequest.t) : Transfer.t → db → Prop :=
| perf_settle u ru fu tu rf rt now :
    resolves req ru fu tu →
    claimable d u (claim_row req ru fu tu now) →
    payable d (claim_row req ru fu tu now) rf rt →
    AmountPaise req ≤ decision_balance req fu rf →
    performs d req (settled_doc req u now) (spec_settle u (claim_row req ru fu tu now) d)
| perf_decline u ru fu tu rf now :
    resolves req ru fu tu →
    claimable d u (claim_row req ru fu tu now) →
    wallets d !! fu = Some rf →
    decision_balance req fu rf < AmountPaise req →
    performs d req (declined_doc req u now) (spec_decline u (claim_row req ru fu tu now) d).

(** The outcome of a call: its result and the changes it committed, on tables
    that satisfy [P]. *)
Inductive transfer_outcome (C : choice → Prop) (P : db → Prop) (req : TransferRequest.t)
    : TransferResult.t * option error → list (db * db) → Prop :=
| out_same :
    FromWalletID req = ToWalletID req →
    transfer_outcome C P req (TransferResult.zero, Some ErrSameWallet) []
| out_rejected d e :
    P d → rejected C d req e → transfer_outcome C P req (TransferResult.zero, Some e) []
| out_env e :
    infra C → env_error e → transfer_outcome C P req (TransferResult.zero, Some e) []
| out_performed d doc d' :
    P d → performs d req doc d' →
    transfer_outcome C P req (TransferResult.Mk doc false, None) [(d, d')]
| out_lost d doc d' e :
    P d → performs d req doc d' → infra C → env_error e →
    transfer_outcome C P req (TransferResult.zero, Some e) [(d, d')]
| out_replayed d i r :
    P d → key_taken d req i r →
    t_request_fingerprint r = Fingerprint (FromWalletID req) (ToWalletID req) (AmountPaise req) →
    sound_request req →
    transfer_outcome C P req (TransferResult.Mk (scan_transfer i r) true, None) []
| out_conflict d i r :
    P d → key_taken d req i r →
    t_request_fingerprint r ≠ Fingerprint (FromWalletID req) (ToWalletID req) (AmountPaise req) →
    sound_request req →
    transfer_outcome C P req (TransferResult.zero, Some ErrIdempotencyConflict) [].
End spec.
