(* ===== verification/TransferProof.v ===== *)
(** * [Transfer] implements its specification *)

From S2P Require Import Prelude Errors Database Locks Obs Session Sha256 Store Accounting Wp.
From S2P Require Import TxLoop Transfers TransferSpec Statements.
Import TransferRequest.

Section statements.
Context `{PgText}.
Implicit Types (req : TransferRequest.t).

(** ** The statements of the body *)

Lemma check_claim_row_None req ru fu tu now :
  check_transfer (claim_row req ru fu tu now) = None ↔ 0 < AmountPaise req ∧ fu ≠ tu.
Proof.
  unfold check_transfer. simpl. destruct (Z.ltb_spec 0 (AmountPaise req)); simpl;
    [|split; [done | intros [? _]; lia]].
  case_bool_decide; split; intuition congruence.
Qed.

Lemma check_claim_row_Some req ru fu tu now c :
  check_transfer (claim_row req ru fu tu now) = Some c → AmountPaise req ≤ 0 ∨ fu = tu.
Proof.
  unfold check_transfer. simpl. destruct (Z.ltb_spec 0 (AmountPaise req)); simpl; [|by left].
  case_bool_decide; [by right | done].
Qed.

(** The INSERT of a request with its own fingerprint. *)
Definition claim_stmt req : stmt (option (uuid * timestamp)) :=
  InsertTransfer (IdempotencyKey req) (RequesterUserID req) (FromWalletID req) (ToWalletID req)
    (AmountPaise req) (Fingerprint (FromWalletID req) (ToWalletID req) (AmountPaise req)).

Lemma claim_Ok u now d req x ws :
  exec_stmt u now d (claim_stmt req) = Ok (x, ws) → in_int64 (AmountPaise req) = true →
  ∃ ru fu tu, resolves req ru fu tu ∧ x = Some (u, now) ∧
    ws = [PutTransfer u (claim_row req ru fu tu now)] ∧
    claimable d u (claim_row req ru fu tu now).
Proof.
  intros Hi Hr. simpl in Hi. unfold insert_transfer, text_param in Hi.
  cbv zeta in Hi. rinv Hi. rewrite ->uuid_param_Ok in *. breflect. injection Hi as <- <-. exists a0, a1, a2.
  apply checked_Ok, (check_claim_row_None req) in Hm3 as [Hpos Hne].
  apply in_int64_spec in Hr.
  split; [done|]. split; [done|]. split; [done|]. split; simpl; try done; [|lia].
  unfold transfer_by_key in Hm5. rewrite find_row_None in Hm5.
  intros j r' Hj Hk. specialize (Hm5 j r' Hj). by apply bool_decide_eq_false in Hm5.
Qed.

(** Why the INSERT of a request fails. *)
Lemma claim_Err (C : choice → Prop) ch now d req e :
  C ch → exec_stmt (ch_uuid ch) now d (claim_stmt req) = Err e →
  (e = unique_violation "transfers_idem_key" ∧ sound_request req ∧ ∃ i r, key_taken d req i r) ∨
  (rejected C d req (EPg e) ∧ Code e ≠ sqlstateForeignKeyViolation ∧ Code e ≠ "22P02" ∧
   (Code e = sqlstateUniqueViolation → ConstraintName e ≠ "transfers_idem_key")) ∨
  (rejected C d req ErrWalletNotFound ∧
   (Code e = sqlstateForeignKeyViolation ∨ Code e = "22P02")).
Proof.
  intros HC Hi. simpl in Hi. unfold insert_transfer, text_param in Hi.
  cbv zeta in Hi.
  assert (Hfree : ∀ ru, transfer_by_key d ru (IdempotencyKey req) = None → key_free d req ru).
  { unfold transfer_by_key. intros ru Hn j r Hj. rewrite find_row_None in Hn.
    specialize (Hn j r Hj). by apply bool_decide_eq_false in Hn. }
  assert (Hmiss : ∀ ru fu tu x, resolves req ru fu tu →
    checked (check_transfer (claim_row req ru fu tu now)) = Ok x →
    transfer_by_key d ru (IdempotencyKey req) = None →
    users d !! ru = None ∨ wallets d !! fu = None ∨ wallets d !! tu = None →
    rejected C d req ErrWalletNotFound).
  { intros ru fu tu x Hres Hc Hn Hm.
    apply checked_Ok, check_claim_row_None in Hc as [Hpos Hne].
    by eapply rej_missing; eauto. }
  assert (Hparam : ∀ s, uuid_param s = Err e →
    s = RequesterUserID req ∨ s = FromWalletID req ∨ s = ToWalletID req →
    (rejected C d req (EPg e) ∧ e = invalid_encoding) ∨
    (rejected C d req ErrWalletNotFound ∧ e = invalid_text)).
  { intros s0 [[Ht ->]|[Hn ->]]%uuid_param_Err Hs; [left|right]; (split; [|done]).
    - apply rej_encoding. destruct Hs as [-> | [-> | ->]]; auto.
    - apply rej_malformed. destruct Hs as [-> | [-> | ->]]; auto. }
  rerr Hi; rewrite ->?uuid_param_Ok in *; breflect;
    try (apply Hparam in Hi as [[Hrej ->]|[Hrej ->]]; [right; left; by split|right; right; auto|auto]).
  - right. left. split; [by apply rej_encoding; left | done].
  - right. left. apply checked_Err in Hi as (c & Hc & ->).
    split; [|done]. by eapply (rej_check _ _ _ a0 a1 a2 now).
  - right. left. apply not_eq_None_Some in Hb as [r Hr]. split; [by eapply rej_id|done].
  - left. split; [done|]. apply checked_Ok, check_claim_row_None in Hm3 as [Hpos Hne].
    split; [by exists a0, a1, a2|]. apply not_eq_None_Some in Hb as [[i r] Hf].
    apply find_row_Some in Hf as [Hi Hk]. breflect. exists i, r. by exists a0.
  - right. right. split; [|by left]. eapply (Hmiss a0 a1 a2); [done|exact Hm3|done|].
    left. by apply eq_None_not_Some.
  - right. right. split; [|by left]. eapply (Hmiss a0 a1 a2); [done|exact Hm3|done|].
    right. left. by apply eq_None_not_Some.
  - right. right. split; [|by left]. eapply (Hmiss a0 a1 a2); [done|exact Hm3|done|].
    right. right. by apply eq_None_not_Some.
Qed.
End statements.

(** ** Stability: what the locks of a claim protect *)

Lemma claimable_stable ls d d' u r :
  rely_holds ls d d' → LTransfer Update u ∈ ls →
  LTransferKey (t_requester_user_id r) (t_idempotency_key r) ∈ ls →
  claimable d u r → claimable d' u r.
Proof.
  intros Hr Hu Hk [Hid Hkey Hne Ham Hf Ht]. split; try done.
  - by rewrite (rely_transfer _ _ _ Hr).
  - intros j r' Hj Heq. eapply (Hkey j r'), Heq.
    eapply (rely_transfer_key _ _ _ Hr); [exact Hk|done|exact Heq].
  - eapply grows_wallet_some; [apply Hr|done].
  - eapply grows_wallet_some; [apply Hr|done].
Qed.

Lemma payable_stable ls d d' r rf rt m n :
  rely_holds ls d d' →
  LWallet m (t_from_wallet_id r) ∈ ls → exclusive m = true →
  LWallet n (t_to_wallet_id r) ∈ ls → exclusive n = true →
  payable d r rf rt → payable d' r rf rt.
Proof.
  intros Hr Hf Hm Ht Hn []. split; try done.
  - by rewrite (rely_wallet _ _ _ Hr m).
  - by rewrite (rely_wallet _ _ _ Hr n).
Qed.

(** The writes of a settled and of a declined transfer, and what they make of
    the tables. *)
Definition settle_writes (u : uuid) (r : transfer_row) (rf rt : wallet_row) : list write :=
  [ PutTransfer u r;
    PutWallet (t_from_wallet_id r) (add_balance (- t_amount_paise r) (t_created_at r) rf);
    PutWallet (t_to_wallet_id r) (add_balance (t_amount_paise r) (t_created_at r) rt);
    AddLedger (debit_entry u r); AddLedger (credit_entry u r);
    PutTransfer u (succeeded r) ].

Definition decline_writes (u : uuid) (r : transfer_row) : list write :=
  [PutTransfer u r; PutTransfer u (declined r)].

Lemma settle_writes_spec d u r rf rt :
  claimable d u r → payable d r rf rt →
  apply_writes d (settle_writes u r rf rt) = spec_settle u r d.
Proof.
  intros Hcl [Hf Ht _ _]. pose proof (cl_wallets _ _ _ Hcl) as Hne.
  unfold spec_settle. rewrite (alter_Some_insert _ _ _ rf Hf).
  rewrite (alter_Some_insert _ _ _ rt) by (rewrite lookup_insert_ne by done; done).
  unfold apply_writes, settle_writes. simpl. by rewrite insert_insert_eq, <- app_assoc.
Qed.

Lemma decline_writes_spec d u r : apply_writes d (decline_writes u r) = spec_decline u r d.
Proof. unfold apply_writes, spec_decline. simpl. by rewrite insert_insert_eq. Qed.

(** Both actions stay within the locks of the claim. *)
Lemma guar_settle ls d u r rf rt :
  claimable d u r → payable d r rf rt →
  LTransfer Update u ∈ ls →
  LTransferKey (t_requester_user_id r) (t_idempotency_key r) ∈ ls →
  LWallet NoKeyUpdate (t_from_wallet_id r) ∈ ls → LWallet NoKeyUpdate (t_to_wallet_id r) ∈ ls →
  guar ls d (spec_settle u r d).
Proof.
  intros Hcl Hpay Hu Hk Hf Ht Hwf. split.
  - by eapply wf_settle.
  - by eapply grows_settle.
  - intros i Hi. rewrite (settle_lookup d u r rf rt) in Hi by done.
    exists NoKeyUpdate. repeat case_decide; subst; done.
  - intros i x Hi Hn. simpl in Hi. rewrite lookup_insert in Hi. case_decide; [|congruence].
    injection Hi as <-. by subst.
  - simpl. congruence.
Qed.

Lemma guar_decline ls d u r :
  claimable d u r → LTransfer Update u ∈ ls →
  LTransferKey (t_requester_user_id r) (t_idempotency_key r) ∈ ls →
  guar ls d (spec_decline u r d).
Proof.
  intros Hcl Hu Hk Hwf. split.
  - by eapply wf_decline.
  - by eapply grows_decline.
  - simpl. congruence.
  - intros i x Hi Hn. simpl in Hi. rewrite lookup_insert in Hi. case_decide; [|congruence].
    injection Hi as <-. by subst.
  - simpl. congruence.
Qed.

Section body.
Context `{PgText} (C : choice → Prop) (R : list lock → db → db → Prop).
Context (P : db → Prop) (HP : ∀ ls d d', P d → R ls d d' → P d').
Context (HR : ∀ ls d d', R ls d d' → rely ls d d') (Hwf : ∀ d, P d → wf_db d).
Context (req : TransferRequest.t) (Hamount : in_int64 (AmountPaise req) = true).

(** A transaction that has claimed the key and written nothing else. *)
Record claimed_tx (u ru fu tu : uuid) (t : txn) (d : db) : Prop := {
  ct_active : tx_state t = TxActive;
  ct_resolves : resolves req ru fu tu;
  ct_claim : claimable d u (claim_row req ru fu tu (tx_now t));
  ct_writes : tx_writes t = [PutTransfer u (claim_row req ru fu tu (tx_now t))];
  ct_id_lock : LTransfer Update u ∈ tx_locks t;
  ct_key_lock : LTransferKey ru (IdempotencyKey req) ∈ tx_locks t
}.

Lemma claimed_tx_stable u ru fu tu t d d' :
  P d → R (tx_locks t) d d' → claimed_tx u ru fu tu t d → claimed_tx u ru fu tu t d'.
Proof.
  intros HPd Hr []. split; try done.
  eapply claimable_stable; [apply (HR _ _ _ Hr); eauto| |..]; done.
Qed.

(** More locks change nothing. *)
Lemma claimed_tx_locks u ru fu tu t d ls :
  claimed_tx u ru fu tu t d →
  claimed_tx u ru fu tu (MkTxn (tx_now t) TxActive (tx_writes t ++ []) (tx_locks t ++ ls) (tx_saves t)) d.
Proof. intros []. split; simpl; try done; [by rewrite app_nil_r|..]; rewrite elem_of_app; by left. Qed.

Lemma claimed_view u ru fu tu t d :
  claimed_tx u ru fu tu t d →
  view t d = MkDb (users d) (wallets d) (<[u := claim_row req ru fu tu (tx_now t)]> (transfers d))
               (ledger_entries d) (mints d).
Proof. intros []. unfold view. by rewrite ct_writes0. Qed.

(** A claimed transaction in a world. *)
Definition claimed_world (u ru fu tu : uuid) (now : timestamp) (t : txn) (w0 w : world) : Prop :=
  session w = Some t ∧ tx_now t = now ∧ claimed_tx u ru fu tu t (committed w) ∧ P (committed w) ∧
  commits w = commits w0.

(** What an error leaves behind. *)
Definition env_stop (w0 : world) (e : error) (w : world) : Prop :=
  P (committed w) ∧ commits w = commits w0 ∧ is_Some (session w) ∧ infra C ∧ env_error e.

(** Locking one wallet. *)
Lemma wp_lock_one {B} u ru fu tu now t w0 w s i (k : result error (option (uuid * Z)) → prog B) Q :
  claimed_world u ru fu tu now t w0 w →
  uuid_in s = Some i → is_Some (wallets (committed w) !! i) →
  (∀ t' w' r, claimed_world u ru fu tu now t' w0 w' → tx_locks t ⊆ tx_locks t' →
     R (tx_locks t) (committed w) (committed w') →
     LWallet NoKeyUpdate i ∈ tx_locks t' → wallets (committed w') !! i = Some r →
     wp C R (k (Ok (Some (i, w_balance_paise r)))) Q w') →
  (∀ e w', env_stop w0 e w' → wp C R (k (Err e)) Q w') →
  wp C R (call (TxStmt (SelectWalletForNoKeyUpdate s)) ≫= k) Q w.
Proof.
  intros (Hs & Hn & Hct & HPw & Hc) Hi Hex Hok Hf.
  eapply wp_tx_stmt; [done|by eapply ct_active| |].
  - intros d w' u' Hr. pose proof (claimed_tx_stable _ _ _ _ _ _ _ HPw Hr Hct) as Hct'.
    simpl. unfold select_wallet_for_no_key_update, lock_param. rewrite (uuid_param_Some _ _ Hi), Hi. simpl.
    rewrite (claimed_view _ _ _ _ _ _ Hct'). simpl.
    assert (Hex' : is_Some (wallets d !! i)).
    { eapply grows_wallet_some; [apply (HR _ _ _ Hr); eauto|done]. }
    destruct Hex' as [r Hri]. rewrite Hri. simpl. intros (Hs' & Hd' & Hc') _. subst d.
    assert (Hw' : claimed_world u ru fu tu now _ w0 w')
      by (split_and!; [exact Hs'|done|by apply claimed_tx_locks|eauto|congruence]).
    eapply Hok; [exact Hw'|simpl; set_solver|done|simpl; set_solver|done].
  - intros d w' f Hr Hi' (Hs' & Hd' & Hc'). subst d. apply Hf.
    split_and!; [eauto|congruence|by rewrite Hs'|done|constructor].
Qed.

(** ** Locking both wallets *)

(** Both wallet rows of [t] locked, in tables [d]. *)
Record both_locked (fu tu : uuid) (rf rt : wallet_row) (t : txn) (d : db) : Prop := {
  bl_from : wallets d !! fu = Some rf;
  bl_to : wallets d !! tu = Some rt;
  bl_from_lock : LWallet NoKeyUpdate fu ∈ tx_locks t;
  bl_to_lock : LWallet NoKeyUpdate tu ∈ tx_locks t
}.

Lemma both_locked_stable fu tu rf rt t d d' :
  P d → R (tx_locks t) d d' → both_locked fu tu rf rt t d → both_locked fu tu rf rt t d'.
Proof.
  intros HPd Hr []. assert (Hrely : rely_holds (tx_locks t) d d') by (apply HR; eauto).
  split; try done; by rewrite (rely_wallet _ _ _ Hrely NoKeyUpdate).
Qed.

Lemma both_locked_sym i j ri rj t d :
  both_locked i j ri rj t d → both_locked j i rj ri t d.
Proof. by intros []. Qed.

(** Two locks in the order given. *)
Lemma wp_lock_two u ru fu tu now t w0 w a b i j :
  claimed_world u ru fu tu now t w0 w →
  uuid_in a = Some i → uuid_in b = Some j →
  is_Some (wallets (committed w) !! i) → is_Some (wallets (committed w) !! j) →
  wp C R (SendBatch [SelectWalletForNoKeyUpdate a; SelectWalletForNoKeyUpdate b])
    (λ rs w',
      (∃ t' ri rj, claimed_world u ru fu tu now t' w0 w' ∧ both_locked i j ri rj t' (committed w') ∧
         rs = [Ok (Some (i, w_balance_paise ri)); Ok (Some (j, w_balance_paise rj))]) ∨
      (∃ e, env_stop w0 e w' ∧ read_balances rs 0 2 ∅ = Err e)) w.
Proof.
  intros Hw Hi Hj Hei Hej. rewrite SendBatch_cons. eapply wp_lock_one; [done..| |].
  2:{ intros e w' Hstop. apply wp_ret. right. by exists e. }
  intros t1 w1 ri Hw1 Hl1 Hr1 Hli Hri. cbn beta iota. apply wp_bind.
  assert (HPw : P (committed w)) by apply Hw.
  rewrite SendBatch_cons. eapply wp_lock_one; [done..| | |].
  - eapply grows_wallet_some; [apply (HR _ _ _ Hr1); eauto|done].
  - intros t2 w2 rj Hw2 Hl2 Hr2 Hlj Hrj. cbn beta iota. apply wp_bind, wp_ret, wp_ret.
    left. exists t2, ri, rj. split; [done|]. split; [|done]. split; [|done|by apply Hl2|done].
    assert (HPw1 : P (committed w1)) by apply Hw1.
    rewrite (rely_wallet _ _ _ (HR _ _ _ Hr2 (Hwf _ HPw1)) NoKeyUpdate); done.
  - intros e w' Hstop. cbn beta iota. apply wp_ret, wp_ret. right. by exists e.
Qed.

(** The balances read, under the spelling of the ids the server prints. *)
Definition balances_of (fu tu : uuid) (rf rt : wallet_row) (balances : gmap string Z) : Prop :=
  ∀ s, balances !! s = if decide (s = uuid_out fu) then Some (w_balance_paise rf)
                       else if decide (s = uuid_out tu) then Some (w_balance_paise rt) else None.

Lemma uuid_out_inj i j : uuid_out i = uuid_out j → i = j.
Proof. intros He. apply (f_equal uuid_in) in He. rewrite !uuid_out_in in He. congruence. Qed.

Lemma read_two i j ri rj :
  i ≠ j → ∃ balances,
    read_balances [Ok (Some (i, w_balance_paise ri)); Ok (Some (j, w_balance_paise rj))] 0 2 ∅ =
      Ok balances ∧
    balances_of i j ri rj balances ∧ balances_of j i rj ri balances.
Proof.
  intros Hne. eexists. split; [reflexivity|].
  assert (Hne' : uuid_out i ≠ uuid_out j) by (intros ?%uuid_out_inj; done).
  split; intros s; rewrite !lookup_insert, lookup_empty; repeat case_decide; congruence.
Qed.

(** The decision reads [decision_balance]. *)
Lemma balances_decision ru fu tu rf rt balances :
  resolves req ru fu tu → fu ≠ tu → balances_of fu tu rf rt balances →
  default 0 (balances !! FromWalletID req) = decision_balance req fu rf.
Proof.
  intros [_ _ Hf _] Hne Hb. rewrite Hb. unfold decision_balance.
  destruct (String.eqb_spec (uuid_out fu) (FromWalletID req)) as [He|He].
  - by rewrite decide_True.
  - rewrite decide_False by congruence. case_decide as Ht; [|done].
    rewrite Ht, uuid_out_in in Hf. congruence.
Qed.

Lemma wp_lock_wallets u ru fu tu now t w0 w :
  claimed_world u ru fu tu now t w0 w →
  wp C R (lock_wallets req)
    (λ res w', match res with
     | Ok balances => ∃ t' rf rt, claimed_world u ru fu tu now t' w0 w' ∧
         both_locked fu tu rf rt t' (committed w') ∧ balances_of fu tu rf rt balances
     | Err e => env_stop w0 e w'
     end) w.
Proof.
  intros Hw. pose proof Hw as (Hs & Hn & Hct & HPw & Hc).
  pose proof (ct_resolves _ _ _ _ _ _ Hct) as Hres. pose proof Hres as [_ _ Hf Ht].
  pose proof (ct_claim _ _ _ _ _ _ Hct) as Hcl.
  pose proof (cl_wallets _ _ _ Hcl) as Hne. simpl in Hne.
  assert (Hend : ∀ w1 rs,
    (∃ t' rf rt balances, claimed_world u ru fu tu now t' w0 w1 ∧
       both_locked fu tu rf rt t' (committed w1) ∧ balances_of fu tu rf rt balances ∧
       read_balances rs 0 2 ∅ = Ok balances) ∨
    (∃ e, env_stop w0 e w1 ∧ read_balances rs 0 2 ∅ = Err e) →
    wp C R (match read_balances rs 0 2 ∅ with
            | Err err => call BatchClose;;
                if errors_Is err ErrNoRows then mret (Err ErrWalletNotFound) else mret (Err err)
            | Ok balances =>
                c ← call BatchClose;
                match c with Err err => mret (Err err) | Ok _ => mret (Ok balances) end
            end)
      (λ res w', match res with
       | Ok balances => ∃ t' rf rt, claimed_world u ru fu tu now t' w0 w' ∧
           both_locked fu tu rf rt t' (committed w') ∧ balances_of fu tu rf rt balances
       | Err e => env_stop w0 e w'
       end) w1).
  { intros w1 rs [(t' & rf & rt & bal & (Hs1 & Hn1 & Hct1 & HP1 & Hc1) & Hbl & Hbal & ->)
                 |(e & (HP1 & Hc1 & [t1 Ht1] & Hi & He) & ->)].
    - eapply wp_batch_close; [done|by eapply ct_active| |].
      + intros d w2 Hr (Hs2 & Hd2 & Hc2). subst d. apply wp_ret. exists t', rf, rt.
        split; [|split; [by eapply both_locked_stable|done]].
        split_and!; [done|done|by eapply claimed_tx_stable|eauto|congruence].
      + intros d w2 f Hr Hi (Hs2 & Hd2 & Hc2). subst d. apply wp_ret.
        split_and!; [eauto|congruence|by rewrite Hs2|done|constructor].
    - eapply wp_batch_close_any; [done|]. intros d w2 t2 Hr _ (Hs2 & Hd2 & Hc2). subst d.
      assert (errors_Is e ErrNoRows = false) as -> by not_env_error.
      apply wp_ret. split_and!; [eauto|congruence|by rewrite Hs2|done|done]. }
  unfold lock_wallets, lock_order. destruct (String.ltb _ _); apply wp_bind.
  - eapply wp_mono; [|eapply wp_lock_two; [exact Hw|exact Ht|exact Hf|apply Hcl..]].
    intros rs w1 Hrs. apply Hend. destruct Hrs as [(t' & ri & rj & Hw1 & Hbl & ->)|He]; [|by right].
    left. destruct (read_two tu fu ri rj) as (bal & Hrd & _ & Hb2); [done|].
    exists t', rj, ri, bal. split_and!; try done. by apply both_locked_sym.
  - eapply wp_mono; [|eapply wp_lock_two; [exact Hw|exact Hf|exact Ht|apply Hcl..]].
    intros rs w1 Hrs. apply Hend. destruct Hrs as [(t' & ri & rj & Hw1 & Hbl & ->)|He]; [|by right].
    left. destruct (read_two fu tu ri rj) as (bal & Hrd & Hb1 & _); [done|].
    by exists t', ri, rj, bal.
Qed.

(** ** Deciding and applying *)

(** Everything the claim and the two row locks hold still. *)
Record held (u ru fu tu : uuid) (rf rt : wallet_row) (now : timestamp) (ls : list lock) (d : db)
    : Prop := {
  h_resolves : resolves req ru fu tu;
  h_claim : claimable d u (claim_row req ru fu tu now);
  h_id_lock : LTransfer Update u ∈ ls;
  h_key_lock : LTransferKey ru (IdempotencyKey req) ∈ ls;
  h_from : wallets d !! fu = Some rf;
  h_to : wallets d !! tu = Some rt;
  h_from_lock : LWallet NoKeyUpdate fu ∈ ls;
  h_to_lock : LWallet NoKeyUpdate tu ∈ ls
}.

Lemma held_intro u ru fu tu rf rt t d :
  claimed_tx u ru fu tu t d → both_locked fu tu rf rt t d →
  held u ru fu tu rf rt (tx_now t) (tx_locks t) d.
Proof. by intros [] []. Qed.

Lemma held_stable u ru fu tu rf rt now ls d d' :
  P d → R ls d d' → held u ru fu tu rf rt now ls d → held u ru fu tu rf rt now ls d'.
Proof.
  intros HPd Hr []. assert (Hrely : rely_holds ls d d') by (apply HR; eauto).
  split; try done; [by eapply claimable_stable|..];
    by rewrite (rely_wallet _ _ _ Hrely NoKeyUpdate).
Qed.

Lemma held_more_locks u ru fu tu rf rt now ls ls' d :
  held u ru fu tu rf rt now ls d → held u ru fu tu rf rt now (ls ++ ls') d.
Proof. intros []. split; try done; rewrite elem_of_app; by left. Qed.

(** What a body that stops with an error leaves. *)
Definition stop (w0 : world) (e : error) (w : world) : Prop :=
  P (committed w) ∧ commits w = commits w0 ∧
  ((infra C ∧ env_error e) ∨ ∃ d, P d ∧ rejected C d req e).

Lemma env_stop_stop w0 e w : env_stop w0 e w → stop w0 e w.
Proof. intros (? & ? & _ & ? & ?). split_and!; auto. Qed.

(** A statement whose answer the locks determine. *)
Lemma wp_tx_ok {A B} t w0 w (s : stmt A) x ws (k : result error A → prog B) Q :
  session w = Some t → tx_state t = TxActive → P (committed w) → commits w = commits w0 →
  (∀ d u', P d → R (tx_locks t) (committed w) d →
     exec_stmt u' (tx_now t) (view t d) s = Ok (x, ws)) →
  (∀ w' ls,
     session w' = Some (MkTxn (tx_now t) TxActive (tx_writes t ++ ws) (tx_locks t ++ ls) (tx_saves t)) →
     P (committed w') → R (tx_locks t) (committed w) (committed w') → commits w' = commits w0 →
     wp C R (k (Ok x)) Q w') →
  (∀ e w', env_stop w0 e w' → wp C R (k (Err e)) Q w') →
  wp C R (call (TxStmt s) ≫= k) Q w.
Proof.
  intros Hs Ha HPw Hc Hex Hok Hf. eapply wp_tx_stmt; [done|done| |].
  - intros d w' u' Hr. rewrite (Hex d u') by eauto. intros (Hs' & Hd' & Hc') _. subst d.
    eapply Hok; [done|eauto|done|congruence].
  - intros d w' f Hr Hi (Hs' & Hd' & Hc'). subst d. apply Hf.
    split_and!; [eauto|congruence|by rewrite Hs'|done|constructor].
Qed.

Lemma wp_batch_close_stop {A} w0 w e t (Q : result error A → world → Prop) :
  session w = Some t → stop w0 e w → (∀ w', stop w0 e w' → Q (Err e) w') →
  wp C R (call BatchClose;; mret (Err e)) Q w.
Proof.
  intros Hs (HPw & Hc & Hwhy) HQ. eapply wp_batch_close_any; [done|].
  intros d w' t' Hr _ (Hs' & Hd' & Hc'). subst d. apply wp_ret, HQ.
  split_and!; [eauto|congruence|done].
Qed.

(** The transaction is ready to commit the work of [doc]. *)
Definition ready (res : TransferResult.t) (t : txn) (d : db) : Prop :=
  tx_state t = TxActive ∧
  ∃ u ru fu tu rf rt now,
    held u ru fu tu rf rt now (tx_locks t) d ∧
    ((payable d (claim_row req ru fu tu now) rf rt ∧
      AmountPaise req ≤ decision_balance req fu rf ∧
      tx_writes t = settle_writes u (claim_row req ru fu tu now) rf rt ∧
      res = TransferResult.Mk (settled_doc req u now) false) ∨
     (decision_balance req fu rf < AmountPaise req ∧
      tx_writes t = decline_writes u (claim_row req ru fu tu now) ∧
      res = TransferResult.Mk (declined_doc req u now) false)).

Definition settled_post (w0 : world) (res : result error TransferResult.t) (w' : world) : Prop :=
  match res with
  | Ok r => ∃ t, session w' = Some t ∧ P (committed w') ∧ commits w' = commits w0 ∧
                 ready r t (committed w')
  | Err e => stop w0 e w'
  end.

(** The transfer as the body has it before the decision. *)
Definition claimed_doc (u : uuid) (now : timestamp) : Transfer.t :=
  Transfer.Mk (uuid_out u) "" None (FromWalletID req) (ToWalletID req) (AmountPaise req)
    (IdempotencyKey req) now None.

Lemma wp_decline u ru fu tu rf rt now t w0 w :
  claimed_world u ru fu tu now t w0 w → both_locked fu tu rf rt t (committed w) →
  decision_balance req fu rf < AmountPaise req →
  wp C R (decline (claimed_doc u now)) (settled_post w0) w.
Proof.
  intros (Hs & Hn & Hct & HPw & Hc) Hbl Hshort. subst now.
  pose proof (held_intro _ _ _ _ _ _ _ _ Hct Hbl) as Hh.
  unfold decline, tx_QueryRow. apply wp_bind.
  eapply (wp_tx_ok t w0 w _ (Some (tx_now t))
    [PutTransfer u (declined (claim_row req ru fu tu (tx_now t)))]);
    [done|by eapply ct_active|done|done| | |].
  - intros d u' HPd Hr. pose proof (claimed_tx_stable _ _ _ _ _ _ _ HPw Hr Hct) as Hct'.
    rewrite (claimed_view _ _ _ _ _ _ Hct'). simpl.
    unfold decline_transfer, text_param. rewrite (uuid_param_Some _ _ (uuid_out_in u)). simpl.
    rewrite text_in_ascii by done. simpl. rewrite lookup_insert_eq.
    pose proof (ct_claim _ _ _ _ _ _ Hct') as Hcl.
    pose proof (wft_check _ _ (wf_terminal_row d u _ "declined" (Some ReasonInsufficientFunds) Hcl
      (or_intror (conj eq_refl (ex_intro _ _ eq_refl))))) as Hck.
    simpl in Hck |- *. by rewrite Hck.
  - intros w' ls Hs' HP' Hr Hc'. apply wp_ret, wp_ret. eexists. split; [exact Hs'|].
    split; [done|]. split; [done|]. split; [done|]. exists u, ru, fu, tu, rf, rt, (tx_now t).
    split; [apply held_more_locks; exact (held_stable _ _ _ _ _ _ _ _ _ _ HPw Hr Hh)|]. right. split; [done|].
    split; [|done]. simpl. by rewrite (ct_writes _ _ _ _ _ _ Hct).
  - intros e w' Hstop. apply wp_ret. cbn beta iota.
    apply wp_ret. by apply env_stop_stop.
Qed.

(** ** The apply batch *)

(** The transaction after [ws] more writes, with the rows held. *)
Definition applying u ru fu tu rf rt now (ws : list write) (w0 w : world) (t : txn) : Prop :=
  session w = Some t ∧ tx_state t = TxActive ∧ tx_now t = now ∧
  tx_writes t = PutTransfer u (claim_row req ru fu tu now) :: ws ∧
  held u ru fu tu rf rt now (tx_locks t) (committed w) ∧
  P (committed w) ∧ commits w = commits w0.

(** One statement of the batch whose answer the held rows determine. *)
Lemma wp_apply_stmt {B} u ru fu tu rf rt now ws w0 w t (s : stmt Z) x ws'
    (k : result error Z → prog B) Q :
  applying u ru fu tu rf rt now ws w0 w t →
  (∀ d u', P d → held u ru fu tu rf rt now (tx_locks t) d →
     exec_stmt u' now (apply_writes d (PutTransfer u (claim_row req ru fu tu now) :: ws)) s =
     Ok (x, ws')) →
  (∀ w' t', applying u ru fu tu rf rt now (ws ++ ws') w0 w' t' → wp C R (k (Ok x)) Q w') →
  (∀ e w', env_stop w0 e w' → wp C R (k (Err e)) Q w') →
  wp C R (call (TxStmt s) ≫= k) Q w.
Proof.
  intros (Hs & Ha & Hn & Hw & Hh & HPw & Hc) Hex Hok Hf.
  eapply (wp_tx_ok t w0); [done|done|done|done| | |done].
  - intros d u' HPd Hr. unfold view. rewrite Hw, Hn. apply Hex; [done|].
    exact (held_stable _ _ _ _ _ _ _ _ _ _ HPw Hr Hh).
  - intros w' ls Hs' HP' Hr Hc'. eapply Hok. split; [exact Hs'|].
    split; [done|]. split; [done|]. split; [simpl; by rewrite Hw|].
    split; [|done]. apply held_more_locks. exact (held_stable _ _ _ _ _ _ _ _ _ _ HPw Hr Hh).
Qed.

Lemma wp_apply_read u ru fu tu rf rt now w0 w t :
  applying u ru fu tu rf rt now (tail (settle_writes u (claim_row req ru fu tu now) rf rt)) w0 w t →
  payable (committed w) (claim_row req ru fu tu now) rf rt →
  AmountPaise req ≤ decision_balance req fu rf →
  wp C R (c ← call BatchClose;
          match c with
          | Err err => mret (Err err)
          | Ok _ => mret (Ok (TransferResult.Mk (settled_doc req u now) false))
          end) (settled_post w0) w.
Proof.
  intros (Hs & Ha & Hn & Hw & Hh & HPw & Hc) Hpay Hfunds.
  eapply wp_batch_close; [done|done| |].
  - intros d w' Hr (Hs' & Hd' & Hc'). subst d. apply wp_ret.
    exists t. split; [done|]. split; [eauto|]. split; [congruence|]. split; [done|].
    pose proof (held_stable _ _ _ _ _ _ _ _ _ _ HPw Hr Hh) as Hh'.
    exists u, ru, fu, tu, rf, rt, now. split; [done|]. left.
    destruct Hpay as [_ _ Hpf Hpr]. split; [by split; [apply Hh'|apply Hh'| |]|]. done.
  - intros d w' f Hr Hi (Hs' & Hd' & Hc'). subst d. apply wp_ret.
    split_and!; [eauto|congruence|left; split; [done|constructor]].
Qed.

(** The credit that does not fit a bigint. *)
Lemma wp_credit_overflow {B} u ru fu tu rf rt now r0 w0 w t (k : result error Z → prog B) Q :
  applying u ru fu tu rf rt now [PutWallet fu r0] w0 w t →
  AmountPaise req ≤ decision_balance req fu rf →
  int64_max < w_balance_paise rt + AmountPaise req →
  (∀ e w', is_Some (session w') → stop w0 e w' → wp C R (k (Err e)) Q w') →
  wp C R (call (TxStmt (CreditWallet (AmountPaise req) (ToWalletID req))) ≫= k) Q w.
Proof.
  intros (Hs & Ha & Hn & Hw & Hh & HPw & Hc) Hfunds Hover Hk.
  pose proof (h_resolves _ _ _ _ _ _ _ _ _ Hh) as Hres. pose proof Hres as [_ _ _ Ht].
  pose proof (cl_wallets _ _ _ (h_claim _ _ _ _ _ _ _ _ _ Hh)) as Hne. simpl in Hne.
  eapply wp_tx_stmt; [done|done| |].
  - intros d w' u' Hr. pose proof (held_stable _ _ _ _ _ _ _ _ _ _ HPw Hr Hh) as Hh'.
    rewrite (credit_overflow u' (tx_now t) (view t d) _ tu rt);
      [|done|unfold view; rewrite Hw; simpl; rewrite lookup_insert_ne by done; apply Hh'|done].
    intros (Hs' & Hd' & Hc') _. subst d. apply Hk; [by rewrite Hs'|].
    split_and!; [eauto|congruence|]. right. exists (committed w'). split; [eauto|].
    eapply (rej_overflow _ _ _ ru fu tu rf rt); [exact Hres|done| |apply Hh'|apply Hh'|done|done].
    intros j r Hj. by apply (cl_key _ _ _ (h_claim _ _ _ _ _ _ _ _ _ Hh') j r Hj).
  - intros d w' f Hr Hi (Hs' & Hd' & Hc'). subst d. apply Hk; [by rewrite Hs'|].
    split_and!; [eauto|congruence|left; split; [done|constructor]].
Qed.

(** The batch before its first statement. *)
Lemma applying_start u ru fu tu rf rt now t w0 w :
  claimed_world u ru fu tu now t w0 w → both_locked fu tu rf rt t (committed w) →
  applying u ru fu tu rf rt now [] w0 w t.
Proof.
  intros (Hs & Hn & Hct & HPw & Hc) Hbl. subst now. pose proof (held_intro _ _ _ _ _ _ _ _ Hct Hbl).
  split; [done|]. split; [apply Hct|]. split; [done|]. by split; [apply Hct|].
Qed.

Lemma applying_bounds u ru fu tu rf rt now ws w0 w t :
  applying u ru fu tu rf rt now ws w0 w t → AmountPaise req ≤ decision_balance req fu rf →
  uuid_in (FromWalletID req) = Some fu ∧ uuid_in (ToWalletID req) = Some tu ∧ fu ≠ tu ∧
  0 < AmountPaise req ≤ w_balance_paise rf ∧
  w_balance_paise rf ≤ int64_max ∧ 0 ≤ w_balance_paise rt ≤ int64_max.
Proof.
  intros (_ & _ & _ & _ & Hh & HPw & _) Hfunds.
  pose proof (cl_amount _ _ _ (h_claim _ _ _ _ _ _ _ _ _ Hh)) as Ham.
  pose proof (cl_wallets _ _ _ (h_claim _ _ _ _ _ _ _ _ _ Hh)) as Hne.
  destruct (h_resolves _ _ _ _ _ _ _ _ _ Hh) as [_ _ Hf Ht].
  pose proof (wf_balance _ (Hwf _ HPw) _ _ (h_from _ _ _ _ _ _ _ _ _ Hh)).
  pose proof (wf_balance _ (Hwf _ HPw) _ _ (h_to _ _ _ _ _ _ _ _ _ Hh)).
  assert (AmountPaise req ≤ w_balance_paise rf)
    by (revert Hfunds; unfold decision_balance; case_match; simpl in Ham; [done|lia]).
  simpl in Ham, Hne. split_and!; done || lia.
Qed.

(** A statement of the batch that failed stops the transaction. *)
Lemma wp_apply_stop u now w0 e w' rs :
  is_Some (session w') → stop w0 e w' → read_apply rs = Err e →
  wp C R (match read_apply rs with
          | Err err => call BatchClose;; mret (Err err)
          | Ok _ =>
              c ← call BatchClose;
              match c with
              | Err err => mret (Err err)
              | Ok _ => mret (Ok (TransferResult.Mk (with_status (claimed_doc u now)
                  StatusSucceeded (Transfer.DeclineReason (claimed_doc u now))
                  (Some (Transfer.CreatedAt (claimed_doc u now)))) false))
              end
          end) (settled_post w0) w'.
Proof. intros [t' Ht'] Hstop ->. by eapply wp_batch_close_stop. Qed.

Lemma env_stop_both w0 e w' : env_stop w0 e w' → is_Some (session w') ∧ stop w0 e w'.
Proof. intros He. split; [apply He|by apply env_stop_stop]. Qed.

Lemma wp_apply u ru fu tu rf rt now t w0 w :
  claimed_world u ru fu tu now t w0 w → both_locked fu tu rf rt t (committed w) →
  AmountPaise req ≤ decision_balance req fu rf →
  wp C R (apply_transfer req (claimed_doc u now)) (settled_post w0) w.
Proof.
  intros Hw Hbl Hfunds. pose proof (applying_start _ _ _ _ _ _ _ _ _ _ Hw Hbl) as Happ. clear Hw Hbl.
  destruct (applying_bounds _ _ _ _ _ _ _ _ _ _ _ Happ Hfunds) as (Hf & Ht & Hne & Ham & Hbf & Hbt).
  unfold apply_transfer, apply_batch. cbv zeta.
  rewrite (wrap64_id (- AmountPaise req)) by (unfold int64_min, int64_max in *; lia).
  apply wp_bind. rewrite SendBatch_cons.
  eapply wp_apply_stmt; [exact Happ| | |].
  { intros d u' _ Hd. apply (debit_Ok _ _ _ _ fu rf); [done|apply Hd|lia|lia]. }
  2:{ intros e w' He. apply wp_ret. destruct (env_stop_both _ _ _ He). by eapply wp_apply_stop. }
  clear Happ w. intros w1 t1 Happ. cbn beta iota. apply wp_bind. rewrite SendBatch_cons.
  destruct (Z.le_gt_cases (w_balance_paise rt + AmountPaise req) int64_max) as [Hroom|Hover].
  2:{ eapply wp_credit_overflow; [exact Happ|done|done|].
      intros e w' Hs' Hst. apply wp_ret, wp_ret. by eapply wp_apply_stop. }
  eapply wp_apply_stmt; [exact Happ| | |].
  { intros d u' _ Hd. apply (credit_Ok _ _ _ _ tu rt); [done| |lia|lia|done].
    simpl. rewrite lookup_insert_ne by done. apply Hd. }
  2:{ intros e w' He. apply wp_ret, wp_ret. destruct (env_stop_both _ _ _ He). by eapply wp_apply_stop. }
  clear Happ w1 t1. intros w2 t2 Happ. cbn beta iota. apply wp_bind. rewrite SendBatch_cons.
  eapply wp_apply_stmt; [exact Happ| | |].
  { intros d u' _ Hd. eapply ledger_Ok; [apply uuid_out_in|done|done| | | |lia|lia].
    - simpl. rewrite lookup_insert_eq. eauto.
    - simpl. rewrite lookup_insert_ne, lookup_insert_eq by done. eauto.
    - simpl. rewrite lookup_insert_eq. eauto. }
  2:{ intros e w' He. apply wp_ret, wp_ret, wp_ret. destruct (env_stop_both _ _ _ He). by eapply wp_apply_stop. }
  clear Happ w2 t2. intros w3 t3 Happ. cbn beta iota. apply wp_bind. rewrite SendBatch_cons.
  eapply wp_apply_stmt; [exact Happ| | |].
  { intros d u' HPd Hd. eapply succeed_Ok; [apply uuid_out_in|simpl; apply lookup_insert_eq|].
    eapply (wft_check d), wf_terminal_row; [apply Hd|by left]. }
  2:{ intros e w' He. apply wp_ret, wp_ret, wp_ret, wp_ret. destruct (env_stop_both _ _ _ He).
      by eapply wp_apply_stop. }
  clear Happ w3 t3. intros w4 t4 Happ. apply wp_bind, wp_ret, wp_ret, wp_ret, wp_ret, wp_ret.
  eapply wp_apply_read; [exact Happ| |done].
  destruct Ham, Happ as (_ & _ & _ & _ & Hh & _ & _). by split; [apply Hh|apply Hh|simpl..].
Qed.

Lemma wp_settle_claimed u ru fu tu now t w0 w :
  claimed_world u ru fu tu now t w0 w →
  wp C R (settle_claimed req (claimed_doc u now)) (settled_post w0) w.
Proof.
  intros Hw. unfold settle_claimed. apply wp_bind.
  eapply wp_mono, wp_lock_wallets; [|exact Hw].
  intros [balances|e] w1; cbn beta iota.
  - intros (t1 & rf & rt & Hw1 & Hbl & Hbal). pose proof Hw1 as (_ & _ & Hct & _).
    pose proof (cl_wallets _ _ _ (ct_claim _ _ _ _ _ _ Hct)) as Hne.
    rewrite (balances_decision ru fu tu rf rt) by (done || apply Hct).
    destruct (Z.ltb_spec (decision_balance req fu rf) (AmountPaise req)).
    + by eapply wp_decline.
    + by eapply wp_apply.
  - intros Hstop. apply wp_ret. by apply env_stop_stop.
Qed.

(** ** The body *)

Definition transfer_good (v : transfer_vars) (t : txn) (d : db) : Prop :=
  tv_replayed v = false ∧ ready (tv_result v) t d.

Definition transfer_bad (v : transfer_vars) (e : error) (d : db) : Prop :=
  (tv_replayed v = true ∧ e = errReplay ∧ sound_request req ∧ ∃ i r, key_taken d req i r) ∨
  (tv_replayed v = false ∧
   ((infra C ∧ env_error e) ∨ ∃ d0, P d0 ∧ rejected C d0 req e)).

(** The locks of the claim. *)
Lemma claim_locks u d ru fu tu :
  resolves req ru fu tu →
  LTransfer Update u ∈ stmt_locks u d (claim_stmt req) ∧
  LTransferKey ru (IdempotencyKey req) ∈ stmt_locks u d (claim_stmt req).
Proof.
  intros [_ Hr _ _]. simpl. unfold lock_param. rewrite Hr. simpl.
  split; [right; left | left].
Qed.

(** The error the body returns for an INSERT that failed. *)
Definition claim_error (e : error) : transfer_vars * option error :=
  if String.eqb (sqlstate e) sqlstateUniqueViolation &&
     String.eqb (constraintName e) "transfers_idem_key"
  then (MkTransferVars TransferResult.zero false true, Some errReplay)
  else if String.eqb (sqlstate e) sqlstateForeignKeyViolation ||
          String.eqb (sqlstate e) "22P02"
  then (reset_vars, Some ErrWalletNotFound)
  else (reset_vars, Some e).

Lemma claim_error_env e : env_error e → claim_error e = (reset_vars, Some e).
Proof.
  intros He. unfold claim_error.
  destruct (env_error_sqlstate e He) as (-> & -> & ->). done.
Qed.

Lemma claim_error_bad ch now d e :
  C ch → P d → exec_stmt (ch_uuid ch) now d (claim_stmt req) = Err e →
  ∃ v e', claim_error (EPg e) = (v, Some e') ∧ transfer_bad v e' d.
Proof.
  intros HC HPd He.
  assert (Hs : sqlstate (EPg e) = Code e ∧ constraintName (EPg e) = ConstraintName e) by done.
  destruct Hs as [Hsq Hcn]. unfold claim_error. rewrite Hsq, Hcn.
  destruct (claim_Err C _ _ _ _ _ HC He) as [[-> Hk]|[(Hrej & Hfk & Ht & Hu)|[Hrej Hcode]]].
  - do 2 eexists. split; [reflexivity|]. by left.
  - apply String.eqb_neq in Hfk, Ht. rewrite Hfk, Ht.
    assert (String.eqb (Code e) sqlstateUniqueViolation &&
            String.eqb (ConstraintName e) "transfers_idem_key" = false) as ->.
    { apply andb_false_iff. destruct (String.eqb_spec (Code e) sqlstateUniqueViolation); [|by left].
      right. apply String.eqb_neq. auto. }
    do 2 eexists. split; [reflexivity|]. right. eauto.
  - assert (String.eqb (Code e) sqlstateUniqueViolation = false) as ->
      by (by destruct Hcode as [->| ->]).
    assert (String.eqb (Code e) sqlstateForeignKeyViolation || String.eqb (Code e) "22P02" = true)
      as -> by (by destruct Hcode as [->| ->]).
    do 2 eexists. split; [reflexivity|]. right. eauto.
Qed.

Lemma wp_transfer_body vars now w :
  session w = Some (begin_txn now) → P (committed w) →
  wp C R (transfer_body req (Fingerprint (FromWalletID req) (ToWalletID req) (AmountPaise req)) vars)
    (body_post P transfer_good transfer_bad w) w.
Proof.
  intros Hs HPw.
  assert (Hbad : ∀ w' e v e', P (committed w') → commits w' = commits w →
    claim_error e = (v, Some e') → transfer_bad v e' (committed w') →
    body_post P transfer_good transfer_bad w (claim_error e) w').
  { intros w' e v e' HP' Hc' -> Hb. by split. }
  unfold transfer_body, tx_QueryRow. apply wp_bind. fold (claim_stmt req).
  eapply wp_tx_stmt; [exact Hs|done| |].
  - intros d w' u Hr. simpl tx_now. change (view (begin_txn now) d) with d.
    destruct (exec_stmt u now d (claim_stmt req)) as [[x ws]|e] eqn:Hex.
    + intros (Hs' & Hd' & Hc') _. subst d. apply wp_ret.
      destruct (claim_Ok _ _ _ _ _ _ Hex Hamount) as (ru & fu & tu & Hres & -> & -> & Hcl).
      simpl scan_row. cbn beta iota. apply wp_bind.
      destruct (claim_locks u (committed w') ru fu tu Hres) as [Hl1 Hl2].
      eapply wp_mono, (wp_settle_claimed u ru fu tu now _ w w').
      2:{ split; [exact Hs'|]. split; [done|]. split; [by split|]. split; [eauto|done]. }
      intros [res|e] w1 Hpost; cbn beta iota; apply wp_ret.
      * destruct Hpost as (t & Ht & HP1 & Hc1 & Hready). split; [done|]. split; [done|].
        exists t. split; [done|]. split; [apply Hready|]. by split.
      * destruct Hpost as (HP1 & Hc1 & Hwhy). split; [done|]. split; [done|]. right. by split.
    + intros (Hs' & Hd' & Hc') (ch & HC & <-). subst d. apply wp_ret. simpl scan_row.
      destruct (claim_error_bad _ _ _ _ HC (HP _ _ _ HPw Hr) Hex) as (v & e' & He & Hb).
      specialize (Hbad w' (EPg e) v e' ltac:(eauto) Hc' He Hb).
      revert Hbad. unfold claim_error. cbn beta iota. repeat case_match; by intros Hbad; apply wp_ret.
  - intros d w' f Hr Hi (Hs' & Hd' & Hc'). subst d. apply wp_ret. simpl scan_row.
    pose proof (claim_error_env _ (env_fault f)) as He.
    specialize (Hbad w' (fault_error f) _ _ ltac:(eauto) Hc' He).
    assert (Hb : transfer_bad reset_vars (fault_error f) (committed w'))
      by (right; split; [done|left; split; [done|constructor]]).
    specialize (Hbad Hb). revert Hbad. unfold claim_error. cbn beta iota.
    repeat case_match; by intros Hbad; apply wp_ret.
Qed.

(** ** The call *)

Lemma ready_stable res t d d' :
  P d → ready res t d → R (tx_locks t) d d' → ready res t d'.
Proof.
  intros HPd (Ha & u & ru & fu & tu & rf & rt & now & Hh & Hcase) Hr. split; [done|].
  pose proof (held_stable _ _ _ _ _ _ _ _ _ _ HPd Hr Hh) as Hh'.
  exists u, ru, fu, tu, rf, rt, now. split; [done|].
  destruct Hcase as [(Hpay & Hrest)|Hdec]; [left|by right]. split; [|done].
  eapply (payable_stable (tx_locks t) d d' _ _ _ NoKeyUpdate NoKeyUpdate); simpl;
    try done; [apply HR; eauto|apply Hh..].
Qed.

Lemma ready_performs res t d :
  ready res t d → ∃ doc, res = TransferResult.Mk doc false ∧ performs d req doc (view t d).
Proof.
  intros (_ & u & ru & fu & tu & rf & rt & now & Hh & [(Hpay & Hf & Hw & ->)|(Hf & Hw & ->)]);
    eexists; (split; [reflexivity|]); unfold view; rewrite Hw.
  - rewrite settle_writes_spec by (done || apply Hh). by econstructor; try apply Hh.
  - rewrite decline_writes_spec. by econstructor; try apply Hh.
Qed.

Lemma ready_guar res t d : ready res t d → guar (tx_locks t) d (view t d).
Proof.
  intros (_ & u & ru & fu & tu & rf & rt & now & Hh & [(Hpay & Hf & Hw & ->)|(Hf & Hw & ->)]);
    unfold view; rewrite Hw.
  - rewrite settle_writes_spec by (done || apply Hh). by eapply guar_settle; try apply Hh.
  - rewrite decline_writes_spec. by eapply guar_decline; try apply Hh.
Qed.

Lemma key_taken_grows d d' i r : grows d d' → key_taken d req i r → key_taken d' req i r.
Proof.
  intros Hg (ru & Hru & Hi & Hk). exists ru. split; [done|]. split; [|done].
  eapply lookup_weaken; [done|apply Hg].
Qed.

Lemma rejected_not d e : rejected C d req e → isTransient e = false ∧ errors_Is e errReplay = false.
Proof. by intros []. Qed.

Lemma bad_stable ls v e d d' :
  P d → transfer_bad v e d → R ls d d' → transfer_bad v e d'.
Proof.
  intros HPd [(Hv & He & Hsd & i & r & Hk)|Hb] Hr; [left|by right]. split_and!; [done|done|done|].
  exists i, r. eapply key_taken_grows; [apply (HR _ _ _ Hr); eauto|done].
Qed.

Lemma bad_transient v e d :
  transfer_bad v e d → isTransient e = true → infra C ∧ env_error e ∧ tv_replayed v = false.
Proof.
  intros [(_ & -> & _)|(Hv & [[Hi He]|(d0 & _ & Hrej)])] Ht; [done|done|].
  apply rejected_not in Hrej as [Hn _]. congruence.
Qed.

(** The replay read finds the row that holds the key. *)
Lemma wp_replay w i r :
  session w = None → P (committed w) → sound_request req → key_taken (committed w) req i r →
  wp C R (replay req (Fingerprint (FromWalletID req) (ToWalletID req) (AmountPaise req)))
    (λ res w', session w' = None ∧ commits w' = commits w ∧ transfer_outcome C P req res []) w.
Proof.
  intros Hs HPw Hsd Hk. unfold replay, transferByKey, pool_QueryRow. apply wp_bind, wp_bind, wp_bind.
  eapply wp_pool_stmt; [done|..].
  - intros d now u Hr. simpl. unfold select_transfer_by_key, text_param.
    destruct (uuid_param _); simpl; [|done]. destruct (text_in _); simpl; [|done]. apply guar_refl.
  - intros d w' now u Hr _. simpl. unfold select_transfer_by_key, text_param.
    pose proof (key_taken_grows _ d i r ltac:(apply (HR _ _ _ Hr); eauto) Hk) as Hk'.
    pose proof Hk' as (ru & Hru & Hi & Hkey). rewrite (uuid_param_Some _ _ Hru). simpl.
    destruct (text_in (IdempotencyKey req)) eqn:Htext; simpl.
    + assert (transfer_by_key d ru (IdempotencyKey req) = Some (i, r)) as ->
        by (apply find_row_unique; [apply Hwf; eauto|done|done]).
      simpl. intros (Hs' & Hd' & Hc').
      destruct (String.eqb_spec (t_request_fingerprint r)
        (Fingerprint (FromWalletID req) (ToWalletID req) (AmountPaise req))) as [Hfp|Hfp];
        (split; [done|]; split; [done|]).
      * eapply out_replayed; [|exact Hk'|done|done]. eauto.
      * eapply out_conflict; [|exact Hk'|done|done]. eauto.
    + intros (Hs' & Hd' & Hc'). split; [done|]. split; [done|]. eapply (out_rejected _ _ _ d); [eauto|by apply rej_encoding; left].
  - intros d w' f Hr Hi (Hs' & Hd' & Hc').
    assert (Hnr : errors_Is (fault_error f) ErrNoRows = false) by (by destruct f).
    simpl. rewrite Hnr. simpl. split; [done|]. split; [done|].
    apply out_env; [done|constructor].
  - intros d w' f now u x ws Hr Hi _ Hex Hne. exfalso. revert Hex. simpl.
    unfold select_transfer_by_key, text_param.
    destruct (uuid_param _); simpl; [|done]. destruct (text_in _); simpl; [|done]. naive_solver.
Qed.

(** Every call of [Transfer] meets [transfer_outcome]. *)
Lemma wp_Transfer s w :
  session w = None → P (committed w) →
  wp C R (Transfer s req)
    (λ res w', session w' = None ∧
       ∃ cs, commits w' = cs ++ commits w ∧ transfer_outcome C P req res cs) w.
Proof.
  intros Hs HPw. unfold Transfer.
  destruct (String.eqb_spec (FromWalletID req) (ToWalletID req)) as [Heq|Hne].
  { apply wp_ret. split; [done|]. exists []. split; [done|]. by apply out_same. }
  cbv zeta. apply wp_bind.
  eapply wp_mono, (wp_inTx C R P HP s _ (λ v, tv_replayed v = false) transfer_good transfer_bad).
  - intros [v err] w1 [Hs1 Hpost]. simpl in Hs1, Hpost. cbn beta iota.
    destruct err as [e|]; simpl Is.
    + assert (Hcase : (tv_replayed v = true ∧ commits w1 = commits w ∧ P (committed w1) ∧ sound_request req ∧
                       ∃ i r, key_taken (committed w1) req i r) ∨
        (tv_replayed v || errors_Is e errReplay = false ∧
         ∃ cs, commits w1 = cs ++ commits w ∧
           transfer_outcome C P req (TransferResult.zero, Some e) cs)).
      { assert (Hnot : env_error e → errors_Is e errReplay = false)
          by (intros; not_env_error).
        destruct Hpost as [(Hc1 & HP1 & [[(Hv & -> & Hk)|(Hv & [[Hi He]|(d0 & HP0 & Hrej)])]
          |(Hi & He & Hv)])|((Hi & He & Hv) & t & d & HPd & [_ Hready] & Hc1)].
        - by left.
        - right. rewrite Hv, Hnot by done. split; [done|]. exists []. split; [done|]. by apply out_env.
        - right. rewrite Hv, (proj2 (rejected_not _ _ Hrej)). split; [done|].
          exists []. split; [done|]. by eapply out_rejected.
        - right. rewrite Hv, Hnot by done. split; [done|]. exists []. split; [done|]. by apply out_env.
        - right. rewrite Hv, Hnot by done. split; [done|].
          destruct (ready_performs _ _ _ Hready) as (doc & _ & Hperf).
          exists [(d, view t d)]. split; [done|]. by eapply out_lost. }
      destruct Hcase as [(Hv & Hc1 & HP1 & Hsd & i & r & Hk)|(Hv & cs & Hc1 & Hout)].
      * rewrite Hv. simpl orb. cbn beta iota. eapply wp_mono, (wp_replay w1 i r); try done.
        intros res w2 (Hs2 & Hc2 & Hout). split; [done|]. exists []. split; [|done].
        simpl. congruence.
      * rewrite Hv. apply wp_ret. split; [done|]. by exists cs.
    + destruct Hpost as (t & d & HPd & [Hv Hready] & Hc1). rewrite Hv. simpl orb. cbn beta iota.
      destruct (ready_performs _ _ _ Hready) as (doc & Hdoc & Hperf).
      apply wp_ret. split; [done|]. exists [(d, view t d)]. split; [done|].
      rewrite Hdoc. by eapply out_performed.
  - intros vars now w1 _ Hs1 HP1. by eapply wp_transfer_body.
  - intros v t d d' HPd [Hv Hg] Hr. split; [done|]. by eapply ready_stable.
  - intros v t d HPd [Hv Hg]. by eapply ready_guar.
  - by intros v t d [Hv _].
  - apply bad_stable.
  - apply bad_transient.
  - done.
  - done.
  - done.
Qed.
End body.
