(* ===== verification/WalletSpec.v ===== *)
(** * What the other calls of the store may do (specification)

    The outcomes of [UpsertUser], [GetOrCreateWallet], [GetWallet], [Mint],
    [GetTransfer] and [CheckInvariants]: each result with the changes the call
    committed -- none, an unchanged row rewritten, or one of [spec_user],
    [spec_wallet] and [spec_mint] -- and the tables that justify it. *)

From S2P Require Import Prelude Errors Database Session Sha256 Store Wallets Transfers InvariantAudit.
From S2P Require Import Accounting Wp TxLoop.

Section spec.
Context `{PgText} (C : choice → Prop) (P : db → Prop).

(** ** Users *)

(** The two ways of holding a user of token hash [h]: the row exists, or it is
    created. *)
Inductive holds_user (d : db) (h : string) : uuid → db → Prop :=
| user_found i r : users d !! i = Some r → u_token_hash r = h → holds_user d h i d
| user_created u now :
    users d !! u = None → (∀ j r, users d !! j = Some r → u_token_hash r ≠ h) →
    holds_user d h u (spec_user u h now d).

Inductive user_outcome (token : string) : User.t * option error → list (db * db) → Prop :=
| uo_ok d i d' :
    P d → holds_user d (TokenHash token) i d' →
    user_outcome token (User.Mk (uuid_out i), None) [(d, d')]
| uo_id d ch r :
    P d → C ch → users d !! ch_uuid ch = Some r →
    (∀ j r', users d !! j = Some r' → u_token_hash r' ≠ TokenHash token) →
    user_outcome token (User.zero, Some (EPg (unique_violation "users_pkey"))) []
| uo_env e : infra C → env_error e → user_outcome token (User.zero, Some e) []
| uo_lost d i d' e :
    P d → holds_user d (TokenHash token) i d' → infra C → env_error e →
    user_outcome token (User.zero, Some e) [(d, d')].

(** ** Wallets *)

(** The wallet of user [uid]: found as it is, or created empty. *)
Inductive holds_wallet (d : db) (uid : uuid) : uuid → wallet_row → bool → db → Prop :=
| wallet_found i r :
    wallets d !! i = Some r → w_user_id r = uid → holds_wallet d uid i r false d
| wallet_created u now :
    wallets d !! u = None → (∀ j r, wallets d !! j = Some r → w_user_id r ≠ uid) →
    is_Some (users d !! uid) →
    holds_wallet d uid u (MkWallet uid 0 now now) true (spec_wallet u uid now d).

Inductive wallet_rejected (d : db) (userID : string) : error → Prop :=
| wr_encoding : text_in userID = false → wallet_rejected d userID (EPg invalid_encoding)
| wr_malformed : uuid_in userID = None → wallet_rejected d userID (EPg invalid_text)
| wr_id ch r uid :
    C ch → wallets d !! ch_uuid ch = Some r →
    uuid_in userID = Some uid → (∀ j r', wallets d !! j = Some r' → w_user_id r' ≠ uid) →
    wallet_rejected d userID (EPg (unique_violation "wallets_pkey"))
| wr_user uid :
    uuid_in userID = Some uid → users d !! uid = None →
    (∀ j r', wallets d !! j = Some r' → w_user_id r' ≠ uid) →
    wallet_rejected d userID (EPg (fk_violation "wallets_user_id_fkey")).

Inductive wallet_outcome (userID : string)
    : Wallet.t * bool * option error → list (db * db) → Prop :=
| wo_ok d uid i r created d' :
    P d → uuid_in userID = Some uid → holds_wallet d uid i r created d' →
    wallet_outcome userID (scan_wallet i r, created, None) [(d, d')]
| wo_rejected d e :
    P d → wallet_rejected d userID e →
    wallet_outcome userID (Wallet.zero, false, Some e) []
| wo_env e : infra C → env_error e → wallet_outcome userID (Wallet.zero, false, Some e) []
| wo_lost d uid i r created d' e :
    P d → uuid_in userID = Some uid → holds_wallet d uid i r created d' → infra C → env_error e →
    wallet_outcome userID (Wallet.zero, false, Some e) [(d, d')].

(** ** Reads: a wallet, a transfer, the audit *)

Inductive get_wallet_outcome (id : string) : Wallet.t * option error → Prop :=
| gw_found d i r :
    P d → uuid_in id = Some i → wallets d !! i = Some r →
    get_wallet_outcome id (scan_wallet i r, None)
| gw_missing d :
    P d → uuid_in id ≫= (wallets d !!.) = None →
    get_wallet_outcome id (Wallet.zero, Some ErrWalletNotFound)
| gw_encoding : text_in id = false → get_wallet_outcome id (Wallet.zero, Some (EPg invalid_encoding))
| gw_env e : infra C → env_error e → get_wallet_outcome id (Wallet.zero, Some e).

Inductive get_transfer_outcome (id : string) : Transfer.t * option error → Prop :=
| gt_found d i r :
    P d → uuid_in id = Some i → transfers d !! i = Some r →
    get_transfer_outcome id (scan_transfer i r, None)
| gt_missing d :
    P d → uuid_in id ≫= (transfers d !!.) = None →
    get_transfer_outcome id (Transfer.zero, Some ErrTransferNotFound)
| gt_encoding :
    text_in id = false → get_transfer_outcome id (Transfer.zero, Some (EPg invalid_encoding))
| gt_env e : infra C → env_error e → get_transfer_outcome id (Transfer.zero, Some e).

(** The audit's numbers for tables [d]. *)
Definition audit_of (d : db) : Invariants.t :=
  judge (count_rows (λ _, true) (wallets d))
    (map_sum (λ _, w_balance_paise) (wallets d))
    (map_sum (λ _, m_amount_paise) (mints d))
    (list_sum l_delta_paise (ledger_entries d))
    (count_rows (λ r, w_balance_paise r <? 0) (wallets d))
    (count_rows (λ r, String.eqb (t_status r) "succeeded") (transfers d))
    (count_rows (λ r, String.eqb (t_status r) "declined") (transfers d))
    (count_rows (λ r, String.eqb (t_status r) "pending") (transfers d)).

(** The counts a [Scan] into int64 takes. *)
Definition audit_fits (d : db) : bool :=
  in_int64 (count_rows (λ _, true) (wallets d)) &&
  in_int64 (map_sum (λ _, w_balance_paise) (wallets d)) &&
  in_int64 (map_sum (λ _, m_amount_paise) (mints d)) &&
  in_int64 (list_sum l_delta_paise (ledger_entries d)) &&
  in_int64 (count_rows (λ r, w_balance_paise r <? 0) (wallets d)) &&
  in_int64 (count_rows (λ r, String.eqb (t_status r) "succeeded") (transfers d)) &&
  in_int64 (count_rows (λ r, String.eqb (t_status r) "declined") (transfers d)) &&
  in_int64 (count_rows (λ r, String.eqb (t_status r) "pending") (transfers d)).

Inductive audit_outcome : Invariants.t * option error → Prop :=
| ao_ok d : P d → audit_fits d = true → audit_outcome (audit_of d, None)
| ao_overflow d m :
    P d → audit_fits d = false → audit_outcome (Invariants.zero, Some (EScan m))
| ao_env e : infra C → env_error e → audit_outcome (Invariants.zero, Some e).

(** ** Mints *)

(** The row a mint inserts, its wallet id resolved. *)
Definition mint_claim (k : string) (wid : uuid) (amountPaise : Z) (now : timestamp) : mint_row :=
  MkMint k wid amountPaise now.

Inductive mint_rejected (d : db) (walletID k : string) (amountPaise : Z) : error → Prop :=
| mr_encoding :
    text_in k = false ∨ text_in walletID = false →
    mint_rejected d walletID k amountPaise (EPg invalid_encoding)
| mr_malformed :
    uuid_in walletID = None → mint_rejected d walletID k amountPaise ErrWalletNotFound
| mr_amount c :
    amountPaise ≤ 0 → mint_rejected d walletID k amountPaise (EPg (check_violation c))
| mr_missing wid :
    uuid_in walletID = Some wid → wallets d !! wid = None →
    mint_rejected d walletID k amountPaise ErrWalletNotFound
| mr_overflow wid r :
    uuid_in walletID = Some wid → wallets d !! wid = Some r →
    (∀ j m, mints d !! j = Some m → m_idempotency_key m ≠ k) →
    int64_max < w_balance_paise r + amountPaise →
    mint_rejected d walletID k amountPaise (EPg out_of_range).

(** A mint row that may be inserted, before the credit. *)
Record mint_claimable (d : db) (u : uuid) (m : mint_row) : Prop := {
  mc_id : mints d !! u = None;
  mc_key : ∀ j m', mints d !! j = Some m' → m_idempotency_key m' ≠ m_idempotency_key m;
  mc_amount : 0 < m_amount_paise m;
  mc_wallet : is_Some (wallets d !! m_wallet_id m)
}.

(** A unique violation of the insert: the key is taken, or the id is. *)
Definition mint_taken (d : db) (k : string) : Prop :=
  (∃ i m, mints d !! i = Some m ∧ m_idempotency_key m = k) ∨
  (∃ ch m, C ch ∧ mints d !! ch_uuid ch = Some m).

Definition mint_replays (k : string) : Prop := ∃ d, P d ∧ mint_taken d k.

(** The outcome of a mint: credited now, or found done and the wallet only
    read.  On an error the wallet and the flag are whatever the body left. *)
Inductive mint_outcome (walletID k : string) (amountPaise : Z)
    : Wallet.t * bool * option error → list (db * db) → Prop :=
| mo_applied d u wid rw now :
    P d → uuid_in walletID = Some wid → text_in k = true →
    mintable d u (mint_claim k wid amountPaise now) rw →
    mint_outcome walletID k amountPaise
      (scan_wallet wid (add_balance amountPaise now rw), true, None)
      [(d, spec_mint u (mint_claim k wid amountPaise now) d)]
| mo_replayed d d0 wid r :
    P d → P d0 → mint_replays k → uuid_in walletID = Some wid → wallets d0 !! wid = Some r →
    mint_outcome walletID k amountPaise (scan_wallet wid r, false, None) [(d, d)]
| mo_rejected d w applied e :
    P d → mint_rejected d walletID k amountPaise e →
    mint_outcome walletID k amountPaise (w, applied, Some e) []
| mo_env w applied e :
    infra C → env_error e → mint_outcome walletID k amountPaise (w, applied, Some e) []
| mo_lost d u wid rw now w applied e :
    P d → uuid_in walletID = Some wid → text_in k = true →
    mintable d u (mint_claim k wid amountPaise now) rw → infra C → env_error e →
    mint_outcome walletID k amountPaise (w, applied, Some e)
      [(d, spec_mint u (mint_claim k wid amountPaise now) d)]
| mo_lost_replay d w applied e :
    P d → mint_replays k → infra C → env_error e →
    mint_outcome walletID k amountPaise (w, applied, Some e) [(d, d)].
End spec.
