(* ===== verification/WalletProof.v ===== *)
(** * The wallet, mint and read calls implement their specification *)

From S2P Require Import Prelude Errors Database Locks Obs Session Sha256 Store Wallets.
From S2P Require Import Transfers InvariantAudit Accounting Wp TxLoop WalletSpec Statements.

(** ** Writes that change nothing *)

Lemma put_user_same d i r : users d !! i = Some r → apply_writes d [PutUser i r] = d.
Proof. intros Hi. destruct d. cbn in *. by rewrite insert_id. Qed.

Lemma put_wallet_same d i r : wallets d !! i = Some r → apply_writes d [PutWallet i r] = d.
Proof. intros Hi. destruct d. cbn in *. by rewrite insert_id. Qed.

(** ** The audit of well-formed tables *)

Lemma count_rows_zero_iff {A} (f : A → bool) (m : gmap uuid A) :
  count_rows f m = 0 ↔ ∀ i x, m !! i = Some x → f x = false.
Proof.
  split; [|intros Hf; apply map_sum_zero; intros i x Hi; by rewrite (Hf i x)].
  intros Hz i x Hi. unfold count_rows in Hz. rewrite (map_sum_delete _ m i x Hi) in Hz.
  assert (0 ≤ map_sum (λ _ r, if f r then 1 else 0) (delete i m))
    by (apply map_sum_nonneg; intros j y _; destruct (f y); lia).
  destruct (f x); [lia|done].
Qed.

Lemma audit_of_wf d :
  wf_db d →
  Invariants.AllHold (audit_of d) = true ∧ Invariants.LedgerSumPaise (audit_of d) = 0 ∧
  Invariants.TotalBalancePaise (audit_of d) = Invariants.TotalMintedPaise (audit_of d) ∧
  Invariants.PendingTransfers (audit_of d) = 0.
Proof.
  intros Hwf. unfold audit_of, judge. simpl.
  rewrite (balances_are_mints d Hwf), (ledger_sum_zero d Hwf), Z.eqb_refl.
  rewrite (proj2 (count_rows_zero_iff (λ r, w_balance_paise r <? 0) _)).
  2:{ intros i x Hi. apply Z.ltb_ge. by apply (wf_balance d Hwf i x). }
  rewrite (proj2 (count_rows_zero_iff (λ r, String.eqb (t_status r) "pending") _)); [done|].
  intros i x Hi. apply String.eqb_neq. apply (wft_terminal _ _ (wf_transfers d Hwf i x Hi)).
Qed.

Section calls.
Context `{PgText} (C : choice → Prop) (R : list lock → db → db → Prop).
Context (P : db → Prop) (HP : ∀ ls d d', P d → R ls d d' → P d').
Context (HR : ∀ ls d d', R ls d d' → rely ls d d') (Hwf : ∀ d, P d → wf_db d).

(** A read on the pool. *)
Lemma wp_pool_read {A B} (s : stmt A) (f : db → result PgError A) (k : result error A → prog B) Q w :
  (∀ u now d, exec_stmt u now d s = (let? x := f d in Ok (x, []))) →
  session w = None → P (committed w) →
  (∀ d w', P d → committed w' = d → session w' = None → commits w' = commits w →
     match f d with
     | Ok x => wp C R (k (Ok x)) Q w'
     | Err e => wp C R (k (Err (EPg e))) Q w'
     end) →
  (∀ w' fl, P (committed w') → session w' = None → commits w' = commits w → infra C →
     wp C R (k (Err (fault_error fl))) Q w') →
  wp C R (call (PoolStmt s) ≫= k) Q w.
Proof.
  intros Hs Hn HPw Hk Hf. eapply wp_pool_stmt; [done| | | |].
  - intros d now u Hr. rewrite Hs. destruct (f d); simpl; [apply guar_refl|done].
  - intros d w' now u Hr _. rewrite Hs. specialize (Hk d w' ltac:(eauto)).
    destruct (f d); simpl; intros (Hs' & Hd' & Hc'); by apply Hk.
  - intros d w' fl Hr Hi (Hs' & Hd' & Hc'). subst d. apply Hf; eauto.
  - intros d w' fl now u x ws Hr _ _ Hex Hne. rewrite Hs in Hex.
    destruct (f d); naive_solver.
Qed.

Lemma wp_GetWallet id w :
  session w = None → P (committed w) →
  wp C R (GetWallet id)
    (λ res w', session w' = None ∧ commits w' = commits w ∧ P (committed w') ∧
       get_wallet_outcome C (λ d, d = committed w') id res) w.
Proof.
  intros Hs HPw. unfold GetWallet, pool_QueryRow. apply wp_bind.
  eapply (wp_pool_read (SelectWallet id) (λ d, let? i := uuid_param id in
    Ok (pair i <$> wallets d !! i))); [|done|done| |].
  - intros. simpl. unfold select_wallet. by destruct (uuid_param id).
  - intros d w' HPd <- Hs' Hc'. destruct (uuid_param id) as [i|e] eqn:Hid.
    2:{ apply uuid_param_Err in Hid as [[Ht ->]|[Hn ->]]; simpl; (split; [done|]; split; [done|split; [done|]]).
        - by apply gw_encoding.
        - eapply gw_missing; [done|]. by rewrite Hn. }
    apply uuid_param_Ok in Hid. simpl.
    destruct (wallets (committed w') !! i) as [r|] eqn:Hi; simpl; (split; [done|]; split; [done|split; [done|]]).
    + by eapply gw_found.
    + eapply gw_missing; [done|]. by rewrite Hid.
  - intros w' fl HP' Hs' Hc' Hi. apply wp_ret. simpl scan_row. cbn beta iota.
    assert (errors_Is (fault_error fl) ErrNoRows = false) as -> by (by destruct fl).
    destruct (env_error_sqlstate _ (env_fault fl)) as (_ & _ & ->).
    apply wp_ret. split; [done|]. split; [done|]. split; [done|]. apply gw_env; [done|constructor].
Qed.

Lemma get_wallet_mono (Q : db → Prop) id res :
  (∀ d, Q d → P d) → get_wallet_outcome C Q id res → get_wallet_outcome C P id res.
Proof. intros HQ []; [eapply gw_found|eapply gw_missing|eapply gw_encoding|eapply gw_env]; eauto. Qed.

Lemma wp_GetTransfer id w :
  session w = None → P (committed w) →
  wp C R (GetTransfer id)
    (λ res w', session w' = None ∧ commits w' = commits w ∧ get_transfer_outcome C P id res) w.
Proof.
  intros Hs HPw. unfold GetTransfer, pool_QueryRow. apply wp_bind.
  eapply (wp_pool_read (SelectTransfer id) (λ d, let? i := uuid_param id in
    Ok (pair i <$> transfers d !! i))); [|done|done| |].
  - intros. simpl. unfold select_transfer. by destruct (uuid_param id).
  - intros d w' HPd _ Hs' Hc'. destruct (uuid_param id) as [i|e] eqn:Hid.
    2:{ apply uuid_param_Err in Hid as [[Ht ->]|[Hn ->]]; simpl; (split; [done|]; split; [done|]).
        - by apply gt_encoding.
        - eapply gt_missing; [done|]. by rewrite Hn. }
    apply uuid_param_Ok in Hid. simpl.
    destruct (transfers d !! i) as [r|] eqn:Hi; simpl; (split; [done|]; split; [done|]).
    + by eapply gt_found.
    + eapply gt_missing; [done|]. by rewrite Hid.
  - intros w' fl _ Hs' Hc' Hi. apply wp_ret. simpl scan_row. cbn beta iota.
    assert (errors_Is (fault_error fl) ErrNoRows = false) as -> by (by destruct fl).
    destruct (env_error_sqlstate _ (env_fault fl)) as (_ & _ & ->).
    apply wp_ret. split; [done|]. split; [done|]. apply gt_env; [done|constructor].
Qed.

(** ** The audit *)

Lemma scan_audit d :
  match select_invariants d with
  | Ok (Some cols, _) =>
      match scan_counts cols with
      | Ok [a; b; c; e; f; g; h; i] => audit_fits d = true ∧ judge a b c e f g h i = audit_of d
      | Ok _ => False
      | Err e => audit_fits d = false ∧ ∃ m, e = EScan m
      end
  | _ => False
  end.
Proof.
  unfold select_invariants, scan_counts, audit_fits, audit_of. cbn [foldr]. unfold scan_int64.
  repeat (match goal with |- context [in_int64 ?z] => destruct (in_int64 z) end; simpl; eauto).
Qed.

Lemma wp_CheckInvariants w :
  session w = None → P (committed w) →
  wp C R CheckInvariants
    (λ res w', session w' = None ∧ commits w' = commits w ∧ P (committed w') ∧ audit_outcome C P res) w.
Proof.
  intros Hs HPw. unfold CheckInvariants, pool_QueryRow. apply wp_bind.
  eapply (wp_pool_read _ (λ d, let? x := select_invariants d in Ok x.1)); [done|done|done| |].
  - intros d w' HPd <- Hs' Hc'. pose proof (scan_audit (committed w')) as Hsc.
    destruct (select_invariants (committed w')) as [[[cols|] ws]|e]; [|done|done]. simpl rbind. simpl fst.
    apply wp_ret. simpl scan_row. cbn beta iota.
    destruct (scan_counts cols) as [vs|e].
    + destruct vs as [|a [|b [|c [|e [|f [|g [|h [|i [|x xs]]]]]]]]]; try done.
      destruct Hsc as [Hfit ->]. apply wp_ret. split; [done|]. split; [done|]. split; [done|]. by apply ao_ok.
    + destruct Hsc as [Hfit [m ->]]. apply wp_ret. split; [done|]. split; [done|].
      split; [done|]. by apply (ao_overflow _ _ (committed w')).
  - intros w' fl HP' Hs' Hc' Hi. apply wp_ret. simpl scan_row. cbn beta iota.
    apply wp_ret. split; [done|]. split; [done|]. split; [done|]. apply ao_env; [done|constructor].
Qed.

(** What the last verdict says. *)
Lemma all_hold_iff d :
  Invariants.AllHold (audit_of d) = true ↔
  map_sum (λ _, w_balance_paise) (wallets d) = map_sum (λ _, m_amount_paise) (mints d) ∧
  list_sum l_delta_paise (ledger_entries d) = 0 ∧
  (∀ i r, wallets d !! i = Some r → 0 ≤ w_balance_paise r) ∧
  (∀ i r, transfers d !! i = Some r → t_status r ≠ "pending").
Proof.
  unfold audit_of, judge. simpl. rewrite !andb_true_iff, !Z.eqb_eq.
  rewrite !count_rows_zero_iff. split.
  - intros [[[Ht Hl] Hn] Hp]. split_and!; [done|done| |].
    + intros i x Hi. by apply Z.ltb_ge, (Hn i).
    + intros i x Hi. by apply String.eqb_neq, (Hp i).
  - intros (Ht & Hl & Hn & Hp). split_and!; [done|done| |].
    + intros i x Hi. by apply Z.ltb_ge, (Hn i).
    + intros i x Hi. by apply String.eqb_neq, (Hp i).
Qed.

(** ** Users *)

Lemma upsert_user_spec u now d h :
  wf_db d →
  match upsert_user u now d h with
  | Ok (Some i, ws) => ws ≠ [] ∧ holds_user d h i (apply_writes d ws)
  | Ok (None, _) => False
  | Err e => e = unique_violation "users_pkey" ∧ is_Some (users d !! u) ∧
      ∀ j r, users d !! j = Some r → u_token_hash r ≠ h
  end.
Proof.
  intros Hw. unfold upsert_user, user_by_hash.
  destruct (find_row _ (users d)) as [[i [h' c]]|] eqn:Hf.
  - apply find_row_Some in Hf as [Hi Hh]. breflect. simpl in Hh. subst h'. split; [done|].
    simpl u_created_at. rewrite put_user_same by done. by eapply user_found.
  - assert (Hn : ∀ j r, users d !! j = Some r → u_token_hash r ≠ h).
    { intros j r Hj. rewrite find_row_None in Hf. specialize (Hf j r Hj). by breflect. }
    case_bool_decide as Hu; simpl.
    + split; [done|]. by apply user_created.
    + split; [done|]. split; [by apply not_eq_None_Some|done].
Qed.

Lemma holds_user_wf d h i d' : wf_db d → holds_user d h i d' → wf_db d' ∧ grows d d' ∧
  wallets d' = wallets d ∧ transfers d' = transfers d ∧ mints d' = mints d.
Proof.
  intros Hw [? r Hr Hh|u now Hu Hh]; [done|].
  split_and!; [by apply wf_user|by apply grows_user|done..].
Qed.

(** What the call commits is what it leaves. *)
Lemma wp_UpsertUser_leaves token w :
  session w = None → P (committed w) →
  wp C R (UpsertUser token)
    (λ res w', session w' = None ∧
       ∃ cs, commits w' = cs ++ commits w ∧ user_outcome C P token res cs ∧
         ∀ d d', cs = [(d, d')] → committed w' = d') w.
Proof.
  intros Hs HPw. unfold UpsertUser, pool_QueryRow. apply wp_bind. eapply wp_pool_stmt; [done| | | |].
  - intros d now u Hr. pose proof (upsert_user_spec u now d (TokenHash token)) as Hsp. simpl.
    destruct (upsert_user _ _ _ _) as [[[i|] ws]|e]; [|done..].
    intros Hw. destruct (Hsp Hw) as [_ Hh].
    destruct (holds_user_wf _ _ _ _ Hw Hh) as (? & ? & Hwe & Hte & Hme).
    split; [done|done|by rewrite Hwe|rewrite Hte; congruence|rewrite Hme; congruence].
  - intros d w' now u Hr (ch & HC & <-).
    pose proof (upsert_user_spec (ch_uuid ch) now d (TokenHash token) ltac:(eauto)) as Hsp. simpl.
    destruct (upsert_user _ _ _ _) as [[[i|] ws]|e]; [|done|].
    + destruct Hsp as [Hne Hh]. intros (Hs' & Hd' & Hc'). split; [done|].
      exists [(d, apply_writes d ws)]. split_and!; [destruct ws; done|apply uo_ok; [eauto|done]|congruence].
    + destruct Hsp as (-> & [r Hu] & Hn). intros (Hs' & Hd' & Hc'). split; [done|].
      exists []. split_and!; [done| |done]. eapply uo_id; [|done|exact Hu|exact Hn]. by eauto.
  - intros d w' f Hr Hi (Hs' & Hd' & Hc'). split; [done|]. exists []. split_and!; [done| |done].
    apply uo_env; [done|constructor].
  - intros d w' f now u x ws Hr Hi _ Hex Hne (Hs' & Hd' & Hc'). split; [done|].
    exists [(d, apply_writes d ws)]. split_and!; [done| |congruence].
    pose proof (upsert_user_spec u now d (TokenHash token) ltac:(eauto)) as Hsp.
    simpl in Hex. rewrite Hex in Hsp. destruct x as [i|]; [|done]. destruct Hsp as [_ Hh].
    eapply uo_lost; [by eauto|done|done|constructor].
Qed.

Lemma wp_UpsertUser token w :
  session w = None → P (committed w) →
  wp C R (UpsertUser token)
    (λ res w', session w' = None ∧
       ∃ cs, commits w' = cs ++ commits w ∧ user_outcome C P token res cs) w.
Proof.
  intros Hs HPw. eapply wp_mono, wp_UpsertUser_leaves; [|done|done].
  intros res w' (Hs' & cs & Hc & Ho & _). eauto.
Qed.

(** ** Wallets *)

Lemma upsert_wallet_spec u now d userID :
  wf_db d →
  match upsert_wallet u now d userID with
  | Ok (Some (i, r, created), ws) =>
      ws ≠ [] ∧ ∃ uid, uuid_in userID = Some uid ∧
        holds_wallet d uid i r created (apply_writes d ws) ∧
        guar (stmt_locks u d (UpsertWalletStmt userID)) d (apply_writes d ws)
  | Ok (None, _) => False
  | Err e => ∀ C, (∃ ch, C ch ∧ ch_uuid ch = u) → wallet_rejected C d userID (EPg e)
  end.
Proof.
  intros Hw. unfold upsert_wallet. simpl stmt_locks.
  destruct (uuid_param userID) as [uid|e] eqn:Huid; simpl.
  2:{ intros C0 _. apply uuid_param_Err in Huid as [[Ht ->]|[Hn ->]];
        [by apply wr_encoding|by apply wr_malformed]. }
  apply uuid_param_Ok in Huid. rewrite Huid. simpl.
  unfold wallet_by_user. destruct (find_row _ (wallets d)) as [[i [uid' b c t]]|] eqn:Hf.
  - apply find_row_Some in Hf as [Hi Hh]. breflect. simpl in Hh. subst uid'. split; [done|].
    exists uid. split; [done|]. cbn [w_balance_paise w_created_at w_updated_at].
    rewrite put_wallet_same by done.
    split; [by apply wallet_found|apply guar_refl].
  - assert (Hnone : ∀ j r, wallets d !! j = Some r → w_user_id r ≠ uid).
    { intros j r Hj. rewrite find_row_None in Hf. specialize (Hf j r Hj). by breflect. }
    case_bool_decide as Hu; simpl.
    2:{ intros C0 (ch & HC & <-). apply not_eq_None_Some in Hu as [r Hu]. by eapply wr_id. }
    case_bool_decide as Hus; simpl.
    2:{ intros C0 _. eapply wr_user; [done|by apply eq_None_not_Some|done]. }
    split; [done|]. exists uid. split; [done|]. split; [by apply wallet_created|].
    intros _. split; simpl; try congruence; [by apply wf_wallet|by apply grows_wallet|].
    intros i Hi. exists Update. split; [|done]. rewrite elem_of_app. right.
    destruct (decide (i = u)) as [->|]; [by left|]. by rewrite lookup_insert_ne in Hi.
Qed.

Lemma holds_wallet_wf d uid i r created d' :
  wf_db d → holds_wallet d uid i r created d' → wf_db d' ∧ grows d d'.
Proof.
  intros Hw []; [done|]. split; [by apply wf_wallet|by apply grows_wallet].
Qed.

Lemma wp_GetOrCreateWallet userID w :
  session w = None → P (committed w) →
  wp C R (GetOrCreateWallet userID)
    (λ res w', session w' = None ∧
       ∃ cs, commits w' = cs ++ commits w ∧ wallet_outcome C P userID res cs) w.
Proof.
  intros Hs HPw. unfold GetOrCreateWallet, pool_QueryRow. apply wp_bind.
  eapply wp_pool_stmt; [done| | | |].
  - intros d now u Hr. pose proof (upsert_wallet_spec u now d userID ltac:(eauto)) as Hsp.
    simpl exec_stmt. destruct (upsert_wallet _ _ _ _) as [[[[[i r] b]|] ws]|e]; [|done..].
    by destruct Hsp as (_ & uid & _ & _ & Hg).
  - intros d w' now u Hr HC.
    pose proof (upsert_wallet_spec u now d userID ltac:(eauto)) as Hsp. simpl exec_stmt.
    destruct (upsert_wallet _ _ _ _) as [[[[[i r] b]|] ws]|e]; [|done|].
    + destruct Hsp as (Hne & uid & Hid & Hh & _). intros (Hs' & Hd' & Hc'). split; [done|].
      exists [(d, apply_writes d ws)]. split; [by destruct ws|]. eapply wo_ok; [by eauto|done|done].
    + intros (Hs' & Hd' & Hc'). split; [done|].
      exists []. split; [done|]. apply (wo_rejected _ _ _ d); [by eauto|by apply Hsp].
  - intros d w' f Hr Hi (Hs' & Hd' & Hc'). split; [done|]. exists []. split; [done|].
    apply wo_env; [done|constructor].
  - intros d w' f now u x ws Hr Hi _ Hex Hne (Hs' & Hd' & Hc'). split; [done|].
    exists [(d, apply_writes d ws)]. split; [done|].
    pose proof (upsert_wallet_spec u now d userID ltac:(eauto)) as Hsp.
    simpl in Hex. rewrite Hex in Hsp. destruct x as [[[i r] b]|]; [|done].
    destruct Hsp as (_ & uid & Hid & Hh & _). eapply wo_lost; [by eauto|done|done|done|constructor].
Qed.

(** ** Mints *)

Variables (walletID k : string) (amount : Z) (Hamount : in_int64 amount = true).
Abbreviation claim := (λ wid now, mint_claim k wid amount now).

Lemma insert_mint_spec u now d :
  match insert_mint u now d k walletID amount with
  | Ok (_, ws) => ∃ wid, uuid_in walletID = Some wid ∧ text_in k = true ∧
      ws = [PutMint u (claim wid now)] ∧ mint_claimable d u (claim wid now)
  | Err e =>
      (Code e = sqlstateUniqueViolation ∧ is_Some (uuid_in walletID) ∧
       ((∃ ch, C ch ∧ ch_uuid ch = u) → mint_taken C d k)) ∨
      ((Code e = sqlstateForeignKeyViolation ∨ Code e = "22P02") ∧
       mint_rejected d walletID k amount ErrWalletNotFound) ∨
      (Code e ≠ sqlstateUniqueViolation ∧ Code e ≠ sqlstateForeignKeyViolation ∧
       Code e ≠ "22P02" ∧ isTransient (EPg e) = false ∧
       mint_rejected d walletID k amount (EPg e))
  end.
Proof.
  destruct (insert_mint _ _ _ _ _ _) as [[n ws]|e] eqn:Hi;
    unfold insert_mint, text_param in Hi; cbv zeta in Hi.
  - rinv Hi. rewrite ->uuid_param_Ok in *. breflect. injection Hi as <- <-. exists a0. split_and!; try done.
    apply checked_Ok in Hm1. unfold check_mint in Hm1. simpl in Hm1.
    destruct (0 <? amount) eqn:Hpos; [|done]. breflect. split; try done.
    unfold mint_by_key in Hm3. rewrite find_row_None in Hm3.
    intros j m' Hj. specialize (Hm3 j m' Hj). by breflect.
  - rerr Hi; rewrite ->?uuid_param_Ok in *; breflect.
    + right. right. split_and!; try done. by apply mr_encoding; left.
    + apply uuid_param_Err in Hi as [[Ht ->]|[Hn ->]]; right.
      * right. split_and!; try done. by apply mr_encoding; right.
      * left. split; [by right|by apply mr_malformed].
    + right. right. apply checked_Err in Hi as (c & Hc & ->). split_and!; try done.
      apply mr_amount. unfold check_mint in Hc. simpl in Hc.
      destruct (Z.ltb_spec 0 amount); [done|lia].
    + left. split_and!; [done|eauto|]. intros (ch & HC & <-). right.
      apply not_eq_None_Some in Hb as [m Hm']. eauto.
    + left. split_and!; [done|eauto|]. intros _. left.
      apply not_eq_None_Some in Hb as [[i m] Hf]. apply find_row_Some in Hf as [Hf Hk].
      breflect. eauto.
    + right. left. split; [by left|]. eapply mr_missing; [done|by apply eq_None_not_Some].
Qed.

(** The transaction is ready to commit the mint, or its replay. *)
Definition mint_good (v : mint_vars) (t : txn) (d : db) : Prop :=
  (∃ u wid rw now, uuid_in walletID = Some wid ∧ text_in k = true ∧
     mintable d u (claim wid now) rw ∧
     LMintKey k ∈ tx_locks t ∧ LMint Update u ∈ tx_locks t ∧ LWallet NoKeyUpdate wid ∈ tx_locks t ∧
     tx_writes t = [PutMint u (claim wid now); PutWallet wid (add_balance amount now rw)] ∧
     v = MkMintVars (scan_wallet wid (add_balance amount now rw)) true) ∨
  (tx_writes t = [] ∧ ∃ d0 wid r, P d0 ∧ uuid_in walletID = Some wid ∧
     wallets d0 !! wid = Some r ∧ mint_replays C P k ∧ v = MkMintVars (scan_wallet wid r) false).

Definition mint_bad (v : mint_vars) (e : error) (d : db) : Prop :=
  (infra C ∧ env_error e) ∨
  ∃ d0, P d0 ∧ (mint_rejected d0 walletID k amount e ∨
    (e = ErrNoRows ∧ mint_rejected d0 walletID k amount ErrWalletNotFound)).

Lemma mint_claimable_stable ls d d' u m :
  rely_holds ls d d' → LMint Update u ∈ ls → LMintKey (m_idempotency_key m) ∈ ls →
  mint_claimable d u m → mint_claimable d' u m.
Proof.
  intros Hr Hu Hk [Hid Hkey Hpos Hw]. split; try done.
  - by rewrite (rely_mint _ _ _ Hr).
  - intros j m' Hj Heq. eapply (Hkey j m'), Heq.
    eapply (rely_mint_key _ _ _ Hr); [exact Hk|done|exact Heq].
  - eapply grows_wallet_some; [apply Hr|done].
Qed.

Lemma mint_good_stable v t d d' :
  P d → mint_good v t d → R (tx_locks t) d d' → mint_good v t d'.
Proof.
  intros HPd [(u & wid & rw & now & Hid & Htxt & Hmt & Hk & Hu & Hw & Hws & ->)|Hg] Hr; [left|by right].
  assert (Hrely : rely_holds (tx_locks t) d d') by (apply HR; eauto).
  exists u, wid, rw, now. split_and!; try done. destruct Hmt as [H1 H2 H3 H4 H5].
  assert (Hcl : mint_claimable d u (claim wid now)) by (split; [done..|by rewrite H4]).
  pose proof (mint_claimable_stable _ _ _ u (claim wid now) Hrely Hu Hk Hcl) as [? ? ? _].
  split; try done. by rewrite (rely_wallet _ _ _ Hrely NoKeyUpdate).
Qed.

Lemma mint_writes_spec d u m rw :
  mintable d u m rw →
  apply_writes d [PutMint u m; PutWallet (m_wallet_id m) (add_balance (m_amount_paise m) (m_created_at m) rw)] =
  spec_mint u m d.
Proof.
  intros Hmt. unfold spec_mint. simpl. f_equal. symmetry.
  by apply alter_Some_insert, Hmt.
Qed.

Lemma mint_good_guar v t d : P d → mint_good v t d → guar (tx_locks t) d (view t d).
Proof.
  intros HPd [(u & wid & rw & now & Hid & Htxt & Hmt & Hk & Hu & Hw & Hws & _)|[Hws _]]; unfold view;
    rewrite Hws; [|apply guar_refl].
  pose proof (mint_writes_spec d u (claim wid now) rw Hmt) as Heq. simpl in Heq |- *. rewrite Heq.
  intros Hwfd. split; [by eapply wf_mint|by eapply grows_mint|..].
  - intros i Hi. exists NoKeyUpdate. split; [|done]. rewrite (mint_lookup d u _ rw Hmt) in Hi.
    simpl in Hi. destruct (decide (i = wid)) as [->|]; done.
  - simpl. congruence.
  - intros i m. simpl. rewrite lookup_insert. case_decide; [by intros [= <-] _; subst|congruence].
Qed.

(** ** The mint body *)

Abbreviation mint_post := (body_post P mint_good mint_bad).

Lemma mint_stop w0 v e w t :
  session w = Some t → P (committed w) → commits w = commits w0 → mint_bad v e (committed w) →
  wp C R (mret (v, Some e)) (mint_post w0) w.
Proof. intros. by apply wp_ret. Qed.

(** Reading the wallet back, whatever the reason the transaction is ready. *)
Lemma wp_mint_read w0 w t vars :
  session w = Some t → tx_state t = TxActive → P (committed w) → commits w = commits w0 →
  (∀ d w' i r ls, P d → R (tx_locks t) (committed w) d → uuid_in walletID = Some i →
     wallets (view t d) !! i = Some r →
     session w' = Some (MkTxn (tx_now t) TxActive (tx_writes t ++ []) (tx_locks t ++ ls) (tx_saves t)) →
     committed w' = d → mint_good (MkMintVars (scan_wallet i r) (mv_applied vars))
       (MkTxn (tx_now t) TxActive (tx_writes t ++ []) (tx_locks t ++ ls) (tx_saves t)) d) →
  (∀ d, P d → R (tx_locks t) (committed w) d → uuid_in walletID ≫= (wallets (view t d) !!.) = None →
     ∃ d0, P d0 ∧ mint_rejected d0 walletID k amount ErrWalletNotFound) →
  is_Some (uuid_in walletID) →
  wp C R (r ← tx_QueryRow (SelectWallet walletID);
          match r with
          | Ok (i, row) => mret (MkMintVars (scan_wallet i row) (mv_applied vars), None)
          | Err err => mret (vars, Some err)
          end) (mint_post w0) w.
Proof.
  intros Hs Ha HPw Hc Hok Hnone [wid Hid]. unfold tx_QueryRow. apply wp_bind.
  eapply wp_tx_stmt; [done|done| |].
  - intros d w' u Hr. simpl exec_stmt. unfold select_wallet. rewrite (uuid_param_Some _ _ Hid).
    specialize (λ i r ls, Hok d w' i r ls ltac:(eauto) Hr). specialize (Hnone d ltac:(eauto) Hr).
    rewrite Hid in Hok, Hnone. simpl in Hnone. cbn [rbind].
    intros (Hs' & Hd' & Hc') _. apply wp_ret.
    destruct (wallets (view t d) !! wid) as [r|] eqn:Hi; simpl scan_row; cbn beta iota; apply wp_ret.
    + split; [rewrite Hd'; by eauto|]. split; [simpl; congruence|]. simpl.
      eexists. split; [exact Hs'|]. split; [done|]. rewrite Hd'. eapply Hok; done.
    + split; [rewrite Hd'; by eauto|]. split; [simpl; congruence|]. right.
      destruct (Hnone eq_refl) as (d0 & HP0 & Hrej). exists d0. split; [done|]. by right.
  - intros d w' f Hr Hi (Hs' & Hd' & Hc'). apply wp_ret. simpl scan_row. cbn beta iota.
    eapply mint_stop; [exact Hs'|rewrite Hd'; by eauto|congruence|].
    left. split; [done|constructor].
Qed.

(** The open transaction once the mint row is in. *)
Record minted_tx (u wid : uuid) (t : txn) (d : db) : Prop := {
  mx_active : tx_state t = TxActive;
  mx_claim : mint_claimable d u (claim wid (tx_now t));
  mx_writes : tx_writes t = [PutMint u (claim wid (tx_now t))];
  mx_key_lock : LMintKey k ∈ tx_locks t;
  mx_id_lock : LMint Update u ∈ tx_locks t
}.

Lemma minted_tx_stable u wid t d d' :
  P d → R (tx_locks t) d d' → minted_tx u wid t d → minted_tx u wid t d'.
Proof.
  intros HPd Hr []. split; try done.
  eapply (mint_claimable_stable (tx_locks t) d d' u (claim wid (tx_now t))); try done.
  apply HR; eauto.
Qed.

Lemma wp_mint_applied u wid w0 w t vw :
  session w = Some t → P (committed w) → commits w = commits w0 →
  uuid_in walletID = Some wid → text_in k = true → minted_tx u wid t (committed w) →
  wp C R (mint_finish walletID amount (MkMintVars vw true)) (mint_post w0) w.
Proof.
  intros Hs HPw Hc Hid Htxt Hmx. unfold mint_finish. cbn [mv_applied]. unfold tx_Exec.
  eapply wp_tx_stmt; [done|by eapply mx_active| |].
  - intros d w' u' Hr. pose proof (minted_tx_stable _ _ _ _ _ HPw Hr Hmx) as [Ha Hcl Hws Hkl Hil].
    pose proof Hcl as [_ _ Hpos [rw Hrw]]. simpl in Hrw, Hpos.
    assert (HPd : P d) by eauto. destruct (wf_balance _ (Hwf _ HPd) _ _ Hrw) as [Hb0 Hb1].
    assert (Hv : wallets (view t d) !! wid = Some rw) by (unfold view; by rewrite Hws).
    destruct (decide (w_balance_paise rw + amount ≤ int64_max)) as [Hroom|Hover].
    + rewrite (credit_Ok _ _ _ _ wid rw) by (done || lia).
      intros (Hs' & Hd' & Hc') _. cbn beta iota. simpl stmt_locks in Hs'.
      unfold lock_param in Hs'. rewrite Hid in Hs'.
      eapply (wp_mint_read _ _ _ (MkMintVars vw true));
        [exact Hs'|done|by rewrite Hd'|congruence| | |eauto].
      * intros d2 w2 i r ls HP2 Hr2 Hi Hr' Hs2 Hd2. rewrite Hid in Hi. injection Hi as <-.
        assert (Hm : mintable d u (claim wid (tx_now t)) rw).
        { destruct Hcl. by split. }
        assert (Hg : mint_good (MkMintVars (scan_wallet wid (add_balance amount (tx_now t) rw)) true)
          (MkTxn (tx_now t) TxActive (tx_writes t ++ [PutWallet wid (add_balance amount (tx_now t) rw)])
             (tx_locks t ++ [LWallet NoKeyUpdate wid]) (tx_saves t)) d).
        { left. exists u, wid, rw, (tx_now t). split_and!; try done; simpl;
            [set_solver|set_solver|set_solver|by rewrite Hws]. }
        rewrite Hd' in Hr2. pose proof (mint_good_stable _ _ _ _ HPd Hg Hr2) as Hg2.
        assert (r = add_balance amount (tx_now t) rw) as ->.
        { unfold view in Hr'. simpl in Hr'. rewrite Hws in Hr'. simpl in Hr'.
          rewrite lookup_insert_eq in Hr'. by injection Hr'. }
        destruct Hg2 as [(u2 & wid2 & rw2 & now2 & ? & ? & ? & ? & ? & ? & Hw2 & ?)|[Hw2 _]];
          simpl in Hw2; [left|rewrite Hws in Hw2; done].
        exists u2, wid2, rw2, now2. simpl. rewrite app_nil_r.
        split_and!; try done; apply elem_of_app; by left.
      * intros d2 HP2 Hr2. rewrite Hid. simpl. unfold view. simpl. rewrite Hws. simpl.
        by rewrite lookup_insert_eq.
    + rewrite (credit_overflow _ _ _ _ wid rw) by (done || lia).
      intros (Hs' & Hd' & Hc') _. cbn beta iota.
      eapply mint_stop; [exact Hs'|by rewrite Hd'|congruence|]. right. exists d. split; [done|].
      left. eapply mr_overflow; [done|done|apply Hcl|lia].
  - intros d w' f Hr Hi (Hs' & Hd' & Hc'). cbn beta iota.
    eapply mint_stop; [exact Hs'|rewrite Hd'; by eauto|congruence|].
    left. split; [done|constructor].
Qed.

(** The key was taken: only the wallet is read. *)
Lemma wp_mint_replay w0 w t vw :
  session w = Some t → tx_state t = TxActive → tx_writes t = [] → P (committed w) →
  commits w = commits w0 → is_Some (uuid_in walletID) → mint_replays C P k →
  wp C R (mint_finish walletID amount (MkMintVars vw false)) (mint_post w0) w.
Proof.
  intros Hs Ha Hws HPw Hc Hid Hrep. unfold mint_finish. cbn [mv_applied].
  eapply (wp_mint_read _ _ _ (MkMintVars vw false)); [done..| | |done].
  - intros d w' i r ls HPd Hr Hi Hi' Hs' Hd'. right. simpl. split; [by rewrite Hws|].
    unfold view in Hi'. rewrite Hws in Hi'. by exists d, i, r.
  - intros d HPd Hr. unfold view. rewrite Hws. destruct Hid as [i Hi]. rewrite Hi. simpl.
    intros Hn. exists d. split; [done|]. by eapply mr_missing.
Qed.

Lemma wp_mint_body vars now w :
  session w = Some (begin_txn now) → P (committed w) →
  wp C R (mint_body walletID k amount vars) (mint_post w) w.
Proof.
  intros Hs HPw. unfold mint_body. cbv zeta. destruct vars as [vw va]. simpl mv_w.
  assert (Hfault : ∀ v d w' t f, R (tx_locks t) (committed w) d → infra C →
    world_is w' (Some (set_state t (after_fault f))) d (commits w) →
    wp C R (mret (v, Some (fault_error f))) (mint_post w) w').
  { intros v d w' t f Hr Hi (Hs' & Hd' & Hc').
    eapply mint_stop; [exact Hs'|rewrite Hd'; by eauto|done|]. left. split; [done|constructor]. }
  eapply (wp_in_tx _ _ Savepoint); [exact Hs|done|done| |by intros; eapply (Hfault _ _ _ (begin_txn now))].
  intros d1 w1 Hr1 (Hs1 & Hd1 & Hc1). simpl in Hs1. cbn beta iota.
  assert (HP1 : P (committed w1)) by (rewrite Hd1; by eauto).
  unfold tx_Exec. eapply wp_tx_stmt; [exact Hs1|done| |].
  - intros d w2 u Hr2. simpl exec_stmt. pose proof (insert_mint_spec u now d) as Hsp.
    assert (HPd : P d) by eauto. change (view _ d) with d. cbn [tx_now].
    destruct (insert_mint u now d k walletID amount) as [[n ws]|e].
    + destruct Hsp as (wid & Hid & Htxt & -> & Hcl). intros (Hs2 & Hd2 & Hc2) _. cbn beta iota.
      eapply (wp_in_tx _ _ ReleaseSavepoint); [exact Hs2|done|done| |].
      * intros d3 w3 Hr3 (Hs3 & Hd3 & Hc3). cbn beta iota. simpl in Hs3.
        rewrite Hd2 in Hr3. eapply (wp_mint_applied u wid); [exact Hs3| |congruence|done|done|].
        { rewrite Hd3. by eauto. }
        rewrite Hd3. eapply (minted_tx_stable u wid (MkTxn now TxActive _ _ _) d); [done|exact Hr3|].
        split; try done; simpl; set_solver.
      * intros d3 w3 f Hr3 Hi (Hs3 & Hd3 & Hc3).
        eapply mint_stop; [exact Hs3|rewrite Hd3; eapply HP; [|exact Hr3]; by rewrite Hd2|congruence|].
        left. split; [done|constructor].
    + intros (Hs2 & Hd2 & Hc2) HC. cbn beta iota.
      eapply wp_rollback_to; [exact Hs2|]. intros d3 w3 Hr3 (Hs3 & Hd3 & Hc3). simpl in Hs3.
      rewrite Hd2 in Hr3. assert (HP3 : P (committed w3)) by (rewrite Hd3; eauto).
      change (sqlstate (EPg e)) with (Code e). destruct Hsp as [(-> & Hid & Ht)|[([He|He] & Hrej)|(H1 & H2 & H3 & Ht & Hrej)]].
      * simpl. eapply wp_mint_replay; [exact Hs3|done|done|done|congruence|done|].
        exists d. split; [done|]. by apply Ht.
      * rewrite He. simpl. split; [done|]. split; [simpl; congruence|]. right. exists d. eauto.
      * rewrite He. simpl. split; [done|]. split; [simpl; congruence|]. right. exists d. eauto.
      * apply String.eqb_neq in H1, H2, H3. rewrite H1, H2, H3. cbn beta iota delta [orb].
        eapply mint_stop; [exact Hs3|done|congruence|]. right. exists d. eauto.
  - intros d w2 f Hr2 Hi (Hs2 & Hd2 & Hc2). cbn beta iota.
    destruct (env_error_sqlstate _ (env_fault f)) as (H1 & H2 & H3).
    eapply wp_rollback_to; [exact Hs2|]. intros d3 w3 Hr3 (Hs3 & Hd3 & Hc3).
    rewrite H1, H2, H3. cbn beta iota delta [orb]. 
    eapply mint_stop; [exact Hs3| |congruence|left; split; [done|constructor]].
    rewrite Hd3. eapply HP; [|exact Hr3]. rewrite Hd2. by eauto.
Qed.

Lemma mint_rejected_not d e :
  mint_rejected d walletID k amount e → isTransient e = false ∧ errors_Is e ErrNoRows = false.
Proof. by intros []. Qed.

(** Every call of [Mint] meets [mint_outcome]. *)
Lemma wp_Mint s w :
  session w = None → P (committed w) →
  wp C R (Mint s walletID k amount)
    (λ res w', session w' = None ∧
       ∃ cs, commits w' = cs ++ commits w ∧ mint_outcome C P walletID k amount res cs) w.
Proof.
  intros Hs HPw. unfold Mint. apply wp_bind.
  eapply wp_mono, (wp_inTx C R P HP s _ (λ _, True) mint_good mint_bad).
  - intros [v [e|]] w1 [Hs1 Hpost]; cbn beta iota in *; simpl fst in Hpost; simpl snd in Hpost.
    + assert (Hnot : env_error e → errors_Is e ErrNoRows = false) by (intros; not_env_error).
      simpl Is. destruct Hpost as [(Hc1 & HP1 & [[[Hi He]|(d0 & HP0 & [Hrej|[-> Hrej]])]|(Hi & He & _)])
        |((Hi & He & _) & t & d & HPd & Hg & Hc1)].
      * rewrite Hnot by done. apply wp_ret. split; [done|]. exists []. split; [done|]. by apply mo_env.
      * rewrite (proj2 (mint_rejected_not _ _ Hrej)). apply wp_ret. split; [done|].
        exists []. split; [done|]. by eapply mo_rejected.
      * simpl. split; [done|]. exists []. split; [done|]. by eapply mo_rejected.
      * rewrite Hnot by done. apply wp_ret. split; [done|]. exists []. split; [done|]. by apply mo_env.
      * rewrite Hnot by done. apply wp_ret. split; [done|]. exists [(d, view t d)]. split; [done|].
        destruct Hg as [(u & wid & rw & now & Hid & Htxt & Hmt & _ & _ & _ & Hws & _)|
          (Hws & d0 & wid & r & ? & ? & ? & ? & _)]; unfold view; rewrite Hws.
        { pose proof (mint_writes_spec d u (claim wid now) rw Hmt) as Heq. simpl in Heq |- *.
          rewrite Heq. by eapply mo_lost. }
        by apply mo_lost_replay.
    + destruct Hpost as (t & d & HPd & Hg & Hc1). apply wp_ret. split; [done|].
      exists [(d, view t d)]. split; [done|].
      destruct Hg as [(u & wid & rw & now & Hid & Htxt & Hmt & _ & _ & _ & Hws & ->)|
          (Hws & d0 & wid & r & ? & ? & ? & ? & ->)]; unfold view; rewrite Hws; simpl mv_w; simpl mv_applied.
      { pose proof (mint_writes_spec d u (claim wid now) rw Hmt) as Heq. simpl in Heq |- *.
        rewrite Heq. by apply mo_applied. }
      by eapply mo_replayed.
  - intros vars now w1 _ Hs1 HP1. by eapply wp_mint_body.
  - apply mint_good_stable.
  - apply mint_good_guar.
  - done.
  - intros ls v e d d' HPd [Hb|Hb] Hr; [by left|by right].
  - intros v e d [[Hi He]|(d0 & _ & [Hrej|[-> _]])] Ht; [done| |done].
    apply mint_rejected_not in Hrej as [Hn _]. congruence.
  - done.
  - done.
  - done.
Qed.
End calls.
