(* ===== verification/Concurrent.v ===== *)
(** * Interleaved sessions

    Any number of programs run against one database, each on a connection of
    its own.  A step runs one command of one of them; a command that needs
    locks is enabled only when they are compatible with the locks every other
    open transaction holds.  [wp] with the interference [rely] is sound for
    this: whatever the interleaving, every finished program meets its
    postcondition and the tables stay well-formed and only grow.  A run keeps
    the tables it went through, and a program meets no others. *)

From S2P Require Import Prelude Errors Database Locks Obs Session Accounting Wp.

Section system.
Context `{PgText} (C : choice → Prop) {A : Type}.

(** A program with its connection: [th_world] has the open transaction, the
    events and the commits of the thread, and the tables it last saw. *)
Record thread := MkThread { th_prog : prog A; th_world : world }.

Record system := MkSystem { sys_db : db; sys_threads : list thread }.

Definition start (d : db) : world := MkWorld d None [] [].

Definition init (d : db) (ps : list (prog A)) : system :=
  MkSystem d ((λ p, MkThread p (start d)) <$> ps).

(** The lock manager grants [ls] to thread [i]. *)
Definition granted (ths : list thread) (i : nat) (ls : list lock) : Prop :=
  ∀ j t, j ≠ i → ths !! j = Some t → compatible (locks_of (th_world t)) ls = true.

Inductive step : system → system → Prop :=
| step_thread d ths i B (c : cmd B) k w ch :
    ths !! i = Some (MkThread (Do c k) w) → C ch →
    let w0 := with_committed w d in
    let r := (exec_cmd ch w0 c).1 in
    let w' := (exec_cmd ch w0 c).2 in
    granted ths i (locks_of w0 ++ cmd_locks ch w0 c) →
    step (MkSystem d ths) (MkSystem (committed w') (<[i := MkThread (k r) w']> ths)).

(** The states the programs [ps], started on tables [d], can reach. *)
Inductive reachable (d : db) (ps : list (prog A)) : system → Prop :=
| reach_init : reachable d ps (init d ps)
| reach_step σ σ' : reachable d ps σ → step σ σ' → reachable d ps σ'.

(** A run from a state on, with the tables that were there at one time or
    another, oldest first. *)
Inductive run_from (σ0 : system) : list db → system → Prop :=
| run_init : run_from σ0 [sys_db σ0] σ0
| run_step h σ σ' : run_from σ0 h σ → step σ σ' → run_from σ0 (h ++ [sys_db σ']) σ'.

(** A whole run. *)
Definition run_of (d : db) (ps : list (prog A)) : list db → system → Prop := run_from (init d ps).

Lemma run_from_reachable d ps σ0 h σ : reachable d ps σ0 → run_from σ0 h σ → reachable d ps σ.
Proof. intros Hr. induction 1; [done|by eapply reach_step]. Qed.

Lemma run_reachable d ps h σ : run_of d ps h σ → reachable d ps σ.
Proof. apply run_from_reachable, reach_init. Qed.

Lemma reachable_run d ps σ : reachable d ps σ → ∃ h, run_of d ps h σ.
Proof. induction 1 as [|σ σ' _ [h Hh] Hst]; [exists [d]; apply run_init|]. eexists. by eapply run_step. Qed.

Lemma run_first σ0 h σ : run_from σ0 h σ → sys_db σ0 ∈ h.
Proof. induction 1; [by left|]. apply elem_of_app. by left. Qed.

Lemma run_last σ0 h σ : run_from σ0 h σ → sys_db σ ∈ h.
Proof. destruct 1; [by left|]. apply elem_of_app. right. by left. Qed.

(** ** Transitivity of the interference *)

Lemma rely_holds_trans ls d1 d2 d3 :
  rely_holds ls d1 d2 → rely_holds ls d2 d3 → rely_holds ls d1 d3.
Proof.
  intros [W1 G1 Hw1 Ht1 Hk1 Hm1 Hn1] [W2 G2 Hw2 Ht2 Hk2 Hm2 Hn2]. split; [done|by etrans|..].
  - intros m i Hi Hx. by rewrite (Hw2 m i), (Hw1 m i).
  - intros i Hi. by rewrite (Ht2 i), (Ht1 i).
  - intros u k j r Hl Hj Hk. eapply Hk1; [exact Hl| |done]. by eapply Hk2.
  - intros i Hi. by rewrite (Hm2 i), (Hm1 i).
  - intros k j r Hl Hj Hk. eapply Hn1; [exact Hl| |done]. by eapply Hn2.
Qed.

(** A command that changes the tables records the change. *)
Lemma exec_cmd_commits {B} ch w (c : cmd B) :
  let w' := (exec_cmd ch w c).2 in
  (commits w' = commits w ∧ committed w' = committed w) ∨
  commits w' = (committed w, committed w') :: commits w.
Proof.
  destruct c; simpl; unfold exec_tx_stmt, exec_pool_stmt, exec_commit, in_tx;
    repeat case_match; simplify_eq/=; auto.
Qed.

(** What a thread committed it had committed before the run, or it is a change
    of the run: from one table of it to the next. *)
Lemma run_commits σ0 h σ i t a b :
  run_from σ0 h σ → sys_threads σ !! i = Some t → (a, b) ∈ commits (th_world t) →
  (∃ t0, sys_threads σ0 !! i = Some t0 ∧ (a, b) ∈ commits (th_world t0)) ∨ ∃ h1 h2, h = h1 ++ a :: b :: h2.
Proof.
  intros Hr. revert t. induction Hr as [|h σ σ' Hr IH Hst]; intros t Ht Hab; [left; by exists t|].
  assert (Hold : ∀ t', sys_threads σ !! i = Some t' → (a, b) ∈ commits (th_world t') →
    (∃ t0, sys_threads σ0 !! i = Some t0 ∧ (a, b) ∈ commits (th_world t0)) ∨
    ∃ h1 h2, h ++ [sys_db σ'] = h1 ++ a :: b :: h2).
  { intros t' Ht' Hab'. destruct (IH t' Ht' Hab') as [?|(h1 & h2 & ->)]; [by left|right].
    exists h1, (h2 ++ [sys_db σ']). by rewrite <- app_assoc. }
  assert (Hlast : ∃ h0, h = h0 ++ [sys_db σ]) by (destruct Hr; [by exists []|by eexists]).
  destruct Hst as [d ths j B c k w ch Hj HC w0 r w' Hgt]. cbn [sys_db sys_threads] in *.
  rewrite list_lookup_insert_Some in Ht. destruct Ht as [(-> & <- & _)|[Hne Ht]]; [|by eapply Hold].
  cbn [th_world] in Hab. destruct (exec_cmd_commits ch w0 c) as [[Hc _]|Hc]; fold w' in Hc; rewrite Hc in Hab.
  - by apply (Hold (MkThread (Do c k) w)).
  - apply elem_of_cons in Hab as [[= -> ->]|Hab]; [|by apply (Hold (MkThread (Do c k) w))].
    right. destruct Hlast as [h0 ->]. exists h0, []. by rewrite <- app_assoc.
Qed.

(** An event is appended to the trace. *)
Lemma exec_cmd_trace {B : Set} ch w (c : cmd B) :
  trace (exec_cmd ch w c).2 = trace w ++ match c with Emit e => [e] | _ => [] end.
Proof.
  destruct c; simpl; unfold exec_tx_stmt, exec_pool_stmt, exec_commit, in_tx;
    repeat case_match; simplify_eq/=; by rewrite ?app_nil_r.
Qed.

(** ** Completions

    Whatever a program did so far, it can still finish: some completion of it
    meets the postcondition, with everything committed and emitted until now. *)

Lemma wp_completes {B} (R : list lock → db → db → Prop) (p : prog B) Q w :
  (∃ ch, C ch) → (∀ ls d, R ls d d) → wp C R p Q w →
  ∃ b w', Q b w' ∧ (∃ cs, commits w' = cs ++ commits w) ∧ trace w `prefix_of` trace w'.
Proof.
  intros [ch HC] HR. revert w. induction p as [b|D c k IH]; intros w; simpl; intros Hp.
  { exists b, w. split_and!; [done|by exists []|done]. }
  destruct (Hp (committed w) ch HC (HR _ _)) as [_ Hk].
  replace (with_committed w (committed w)) with w in Hk by (by destruct w).
  destruct (IH _ _ Hk) as (b & w' & HQ & [cs Hcs] & Htr). exists b, w'. split; [done|]. split.
  - destruct (exec_cmd_commits ch w c) as [[Hc _]|Hc]; rewrite Hc in Hcs; [by exists cs|].
    eexists (cs ++ [_]). rewrite <- app_assoc. exact Hcs.
  - etrans; [|exact Htr]. rewrite exec_cmd_trace. by eexists.
Qed.

(** ** Soundness

    [E] holds of the tables that appear: a thread meets nothing else. *)

Definition rely_on (E : db → Prop) (ls : list lock) (d d' : db) : Prop := rely ls d d' ∧ E d'.

Section soundness.
Context (E : db → Prop) (d0 : db) (ps : list (prog A)) (Q : nat → A → world → Prop).
Context (Hwf0 : wf_db d0).
Context (Hps : ∀ i p, ps !! i = Some p → wp C (rely_on E) p (Q i) (start d0)).

Record thread_inv (d : db) (i : nat) (t : thread) : Prop := {
  ti_wf : wf_db (committed (th_world t));
  ti_rely : rely_holds (locks_of (th_world t)) (committed (th_world t)) d;
  ti_wp : wp C (rely_on E) (th_prog t) (Q i) (th_world t);
  ti_commits : ∀ a b, (a, b) ∈ commits (th_world t) → grows b d
}.

Record system_inv (σ : system) : Prop := {
  si_wf : wf_db (sys_db σ);
  si_grows : grows d0 (sys_db σ);
  si_threads : ∀ i t, sys_threads σ !! i = Some t → thread_inv (sys_db σ) i t;
  si_order : ∀ i j t t' a b a' b', i ≠ j → sys_threads σ !! i = Some t →
    sys_threads σ !! j = Some t' → (a, b) ∈ commits (th_world t) →
    (a', b') ∈ commits (th_world t') → grows b a' ∨ grows b' a
}.

Lemma init_inv : system_inv (init d0 ps).
Proof.
  split; [done|done| |].
  - intros i t. simpl. rewrite list_lookup_fmap. destruct (ps !! i) as [p|] eqn:Hp; [|done].
    intros [= <-]. split; cbn; [done|by apply rely_refl|by apply Hps|].
    intros a b Hab. by apply not_elem_of_nil in Hab.
  - intros i j t t' a b a' b' _. simpl. rewrite !list_lookup_fmap.
    destruct (ps !! i) as [p|]; [|done]. intros [= <-] _ Hab. by apply not_elem_of_nil in Hab.
Qed.

(** One step of thread [i] keeps another thread's invariant. *)
Lemma other_inv d d' ls j t :
  compatible (locks_of (th_world t)) ls = true → wf_db d → guar ls d d' →
  thread_inv d j t → thread_inv d' j t.
Proof.
  intros Hc Hwf Hg [H1 H2 H3 H4]. split; [done| |done|].
  - eapply rely_holds_trans; [done|]. by eapply guar_rely.
  - intros a b Hab. etrans; [by eapply H4|]. by apply Hg.
Qed.

Lemma step_inv σ σ' : system_inv σ → E (sys_db σ) → step σ σ' → system_inv σ'.
Proof.
  intros [Hwf Hgr Hths Hord] Hseen Hst. destruct Hst as [d ths i B c k w ch Hi HC w0 r w' Hgt].
  cbn [sys_db sys_threads] in *.
  destruct (Hths i _ Hi) as [Hw1 Hw2 Hwp Hcs]. cbn [th_world th_prog] in *.
  destruct (Hwp d ch HC (conj (λ _, Hw2) Hseen)) as [Hg Hk]. fold w0 in Hg, Hk. fold r w' in Hk. fold w' in Hg.
  destruct (Hg Hwf) as [Hwf' Hgr' _ _ _].
  assert (Hnew : ∀ a b, (a, b) ∈ commits w' →
    (a, b) ∈ commits w ∨ (a = d ∧ b = committed w')).
  { intros a b. destruct (exec_cmd_commits ch w0 c) as [[Hc _]|Hc]; fold w' in Hc; rewrite Hc; [by left|].
    rewrite elem_of_cons. intros [[= -> ->]|Hab]; [by right|by left]. }
  assert (Hold : ∀ j t, j ≠ i → ths !! j = Some t → thread_inv (committed w') j t).
  { intros j t Hj Ht. exact (other_inv _ _ _ _ _ (Hgt j t Hj Ht) Hwf Hg (Hths j t Ht)). }
  assert (Hinv : ∀ j t, <[i := MkThread (k r) w']> ths !! j = Some t → thread_inv (committed w') j t).
  { intros j t. rewrite list_lookup_insert_Some. intros [(-> & <- & _)|[Hj Ht]]; [|by apply Hold].
    split; cbn; [done|by apply rely_refl|done|].
    intros a b [Hab|[-> ->]]%Hnew; [|done]. etrans; [by eapply Hcs|done]. }
  split; simpl; [done|by etrans|done|].
  intros j l t t' a b a' b' Hjl. rewrite !list_lookup_insert_Some.
  intros [(-> & <- & _)|[Hj Ht]] [(-> & <- & _)|[Hl Ht']]; simpl; try done.
  - intros [Hab|[-> ->]]%Hnew Hab'; [exact (Hord j l _ _ _ _ _ _ Hjl Hi Ht' Hab Hab')|]. right.
    by eapply (ti_commits _ _ _ (Hths l t' Ht')).
  - intros Hab [Hab'|[-> ->]]%Hnew; [exact (Hord j l _ _ _ _ _ _ Hjl Ht Hi Hab Hab')|]. left.
    by eapply (ti_commits _ _ _ (Hths j t Ht)).
  - intros Hab Hab'. exact (Hord j l _ _ _ _ _ _ Hjl Ht Ht' Hab Hab').
Qed.

Lemma run_inv h σ : run_of d0 ps h σ → (∀ d, d ∈ h → E d) → system_inv σ.
Proof.
  induction 1 as [|h σ σ' Hr IH Hst]; intros Hh; [apply init_inv|].
  assert (Hh' : ∀ d, d ∈ h → E d) by (intros d Hd; apply Hh, elem_of_app; by left).
  eapply step_inv; [by apply IH| |exact Hst]. by eapply Hh', run_last.
Qed.

Lemma step_grows σ σ' : system_inv σ → E (sys_db σ) → step σ σ' → grows (sys_db σ) (sys_db σ').
Proof.
  intros [Hwf _ Hths _] Hseen Hst. destruct Hst as [d ths i B c k w ch Hi HC w0 r w' Hgt].
  cbn [sys_db sys_threads] in *.
  destruct (Hths i _ Hi) as [_ Hw2 Hwp _]. cbn [th_world th_prog] in *.
  destruct (Hwp d ch HC (conj (λ _, Hw2) Hseen)) as [Hg _]. by destruct (Hg Hwf).
Qed.

(** All the tables of a run led to the last. *)
Lemma run_grows h σ : run_of d0 ps h σ → (∀ d, d ∈ h → E d) → ∀ d, d ∈ h → grows d (sys_db σ).
Proof.
  induction 1 as [|h σ σ' Hr IH Hst]; intros Hh d.
  { by intros ->%list_elem_of_singleton. }
  assert (Hh' : ∀ d, d ∈ h → E d) by (intros x Hx; apply Hh, elem_of_app; by left).
  intros [Hd| ->%list_elem_of_singleton]%elem_of_app; [|done].
  etrans; [exact (IH Hh' d Hd)|]. apply step_grows; [by eapply run_inv|by eapply Hh', run_last|done].
Qed.

(** A finished thread. *)
Definition finished (σ : system) (i : nat) (a : A) (w : world) : Prop :=
  sys_threads σ !! i = Some (MkThread (Ret a) w).

Lemma run_finished h σ i a w :
  run_of d0 ps h σ → (∀ d, d ∈ h → E d) → finished σ i a w → Q i a w.
Proof.
  intros Hr Hh Hf. by destruct (si_threads _ (run_inv _ _ Hr Hh) i _ Hf) as [_ _ Hwp _].
Qed.
End soundness.

(** For threads that stand any interference. *)
Definition anything (d : db) : Prop := True.

Section reached.
Context (d0 : db) (ps : list (prog A)) (Q : nat → A → world → Prop).
Context (Hwf0 : wf_db d0).
Context (Hps : ∀ i p, ps !! i = Some p → wp C (rely_on anything) p (Q i) (start d0)).

Lemma reachable_inv σ : reachable d0 ps σ → system_inv anything d0 Q σ.
Proof.
  intros Hr. apply reachable_run in Hr as [h Hr]. by eapply run_inv.
Qed.

(** What a thread has done is the beginning of an execution that meets its
    postcondition. *)
Lemma reachable_completes σ i t :
  (∃ ch, C ch) → reachable d0 ps σ → sys_threads σ !! i = Some t →
  ∃ a w', Q i a w' ∧ (∃ cs, commits w' = cs ++ commits (th_world t)) ∧ trace (th_world t) `prefix_of` trace w'.
Proof.
  intros HC Hr Ht. apply (wp_completes (rely_on anything) (th_prog t)); [done|by split; [apply rely_refl|]|].
  by apply (si_threads _ _ _ _ (reachable_inv _ Hr) i t Ht).
Qed.

Lemma run_from_grows σ1 h σ d : reachable d0 ps σ1 → run_from σ1 h σ → d ∈ h → grows d (sys_db σ).
Proof.
  intros Hr1 Hrun. induction Hrun as [|h σ σ' Hrun IH Hst]; [by intros ->%list_elem_of_singleton|].
  intros [Hd| ->%list_elem_of_singleton]%elem_of_app; [|done]. etrans; [exact (IH Hd)|].
  eapply step_grows; [by eapply reachable_inv, run_from_reachable|done|done].
Qed.

Lemma reachable_finished σ i a w : reachable d0 ps σ → finished σ i a w → Q i a w.
Proof.
  intros Hr Hf. by destruct (si_threads _ _ _ _ (reachable_inv _ Hr) i _ Hf) as [_ _ Hwp _].
Qed.
End reached.

(** ** A program that starts later

    What a program guarantees it guarantees from the state it was started in:
    a thread that has not moved yet is as good as one started on the tables of
    that moment, and [E] need only hold of the tables from then on. *)

Section later.
Context (d0 : db) (ps : list (prog A)) (Q0 : nat → A → world → Prop).
Context (Hwf0 : wf_db d0).
Context (Hps : ∀ i p, ps !! i = Some p → wp C (rely_on anything) p (Q0 i) (start d0)).
Context (E : db → Prop) (Q : A → world → Prop) (i : nat) (p : prog A).

(** Thread [i] may take the tables it last saw to be [d]. *)
Record later_inv (σ : system) (t : thread) (d : db) : Prop := {
  li_thread : sys_threads σ !! i = Some t;
  li_wf : wf_db d;
  li_rely : rely_holds (locks_of (th_world t)) d (sys_db σ);
  li_wp : wp C (rely_on E) (th_prog t) Q (with_committed (th_world t) d)
}.

Lemma later_step σ σ' t d :
  reachable d0 ps σ → E (sys_db σ) → step σ σ' → later_inv σ t d → ∃ t' d', later_inv σ' t' d'.
Proof.
  intros Hr HE Hst [Hi Hwf Hrely Hwp].
  destruct (reachable_inv d0 ps Q0 Hwf0 Hps σ Hr) as [Hwfs _ Hths _].
  destruct Hst as [ds ths j B c k w ch Hj HC w0 r w' Hgt]. cbn [sys_db sys_threads] in *.
  destruct (decide (i = j)) as [<-|Hne].
  - rewrite Hi in Hj. injection Hj as ->. cbn [th_world th_prog] in *.
    destruct (Hwp ds ch HC (conj (λ _, Hrely) HE)) as [Hg Hk].
    change (with_committed (with_committed w d) ds) with w0 in Hg, Hk. fold r w' in Hk. fold w' in Hg.
    destruct (Hg Hwfs) as [Hwf' _ _ _ _]. exists (MkThread (k r) w'), (committed w').
    split; cbn; [by eapply list_lookup_insert_eq, lookup_lt_Some|done|by apply rely_refl|].
    by replace (with_committed w' (committed w')) with w' by (by destruct w').
  - destruct (Hths j _ Hj) as [_ Hrj Hwpj _]. cbn [th_world th_prog] in *.
    destruct (Hwpj ds ch HC (conj (λ _, Hrj) I)) as [Hg _]. fold w0 in Hg. fold w' in Hg.
    exists t, d. split; cbn; [by rewrite list_lookup_insert_ne|done| |done].
    eapply rely_holds_trans; [done|]. eapply guar_rely; [|exact Hg|done]. by apply (Hgt i t).
Qed.

Lemma later_finished σ1 h σ a w :
  reachable d0 ps σ1 → sys_threads σ1 !! i = Some (MkThread p (start d0)) →
  wp C (rely_on E) p Q (start (sys_db σ1)) →
  run_from σ1 h σ → (∀ d, d ∈ h → E d) → finished σ i a w → ∃ d, Q a (with_committed w d).
Proof.
  intros Hr1 Hi Hp Hrun HE Hf. assert (Hinv : ∃ t d, later_inv σ t d).
  { clear Hf. induction Hrun as [|h σ σ' Hrun IH Hst].
    - exists (MkThread p (start d0)), (sys_db σ1).
      destruct (reachable_inv d0 ps Q0 Hwf0 Hps σ1 Hr1) as [Hwfs _ _ _].
      split; cbn; [done|done|by apply rely_refl|exact Hp].
    - assert (HE' : ∀ d, d ∈ h → E d) by (intros d Hd; apply HE, elem_of_app; by left).
      destruct (IH HE') as (t & d & Hinv).
      eapply later_step; [by eapply run_from_reachable|by eapply HE', run_last|done|done]. }
  destruct Hinv as (t & d & [Ht _ _ Hwp]). unfold finished in Hf. rewrite Hf in Ht.
  injection Ht as <-. by exists d.
Qed.
End later.

(** ** An executable scheduler

    A schedule is a list of moves, each a thread and the choice its command
    gets; a move that is disabled -- the thread has finished, or is waiting for
    a lock -- is skipped. *)

Definition granted_b (ths : list thread) (i : nat) (ls : list lock) : bool :=
  forallb (λ j, bool_decide (j = i) ||
    match ths !! j with Some t => compatible (locks_of (th_world t)) ls | None => true end)
    (seq 0 (length ths)).

Definition advance (σ : system) (m : nat * choice) : option system :=
  let '(i, ch) := m in
  match sys_threads σ !! i with
  | Some (MkThread (Do c k) w) =>
      let w0 := with_committed w (sys_db σ) in
      if granted_b (sys_threads σ) i (locks_of w0 ++ cmd_locks ch w0 c) then
        let '(r, w') := exec_cmd ch w0 c in
        Some (MkSystem (committed w') (<[i := MkThread (k r) w']> (sys_threads σ)))
      else None
  | _ => None
  end.

Definition run_moves (σ : system) (ms : list (nat * choice)) : system :=
  foldl (λ σ m, default σ (advance σ m)) σ ms.

(** The result of a thread, once it has one. *)
Definition result_of (σ : system) (i : nat) : option (A * world) :=
  match sys_threads σ !! i with
  | Some (MkThread (Ret a) w) => Some (a, w)
  | _ => None
  end.

Lemma granted_b_sound ths i ls : granted_b ths i ls = true → granted ths i ls.
Proof.
  unfold granted_b. rewrite forallb_forall. intros Hall j t Hj Ht.
  specialize (Hall j). rewrite Ht, bool_decide_eq_false_2 in Hall by done. apply Hall.
  apply in_seq. apply lookup_lt_Some in Ht. lia.
Qed.

Lemma advance_step σ i ch σ' : C ch → advance σ (i, ch) = Some σ' → step σ σ'.
Proof.
  destruct σ as [d ths]. unfold advance. cbn [sys_db sys_threads].
  intros HC. destruct (ths !! i) as [[[a|B c k] w]|] eqn:Hi; try done.
  destruct (granted_b _ _ _) eqn:Hg; [|done].
  destruct (exec_cmd ch (with_committed w d) c) as [r w'] eqn:He. intros [= <-].
  pose proof (step_thread d ths i B c k w ch Hi HC (granted_b_sound _ _ _ Hg)) as Hs.
  by rewrite He in Hs.
Qed.

Lemma granted_b_complete ths i ls : granted ths i ls → granted_b ths i ls = true.
Proof.
  intros Hg. unfold granted_b. apply forallb_forall. intros j _. apply orb_true_iff.
  destruct (decide (j = i)) as [->|Hj]; [left; by apply bool_decide_eq_true_2|right].
  destruct (ths !! j) as [t|] eqn:Ht; [by apply (Hg j)|done].
Qed.

Lemma step_advance σ σ' : step σ σ' → ∃ i ch, C ch ∧ advance σ (i, ch) = Some σ'.
Proof.
  intros [d ths i B c k w ch Hi HC w0 r w' Hg]. exists i, ch. split; [done|].
  unfold advance. cbn [sys_threads sys_db]. rewrite Hi. fold w0. rewrite granted_b_complete by done.
  subst r w'. by destruct (exec_cmd ch w0 c).
Qed.

Lemma run_moves_from σ ms : Forall (λ m, C m.2) ms → ∃ h, run_from σ h (run_moves σ ms).
Proof.
  intros Hms. assert (Hr : run_from σ [sys_db σ] σ) by apply run_init.
  revert Hr. generalize [sys_db σ] as h. generalize σ at 2 4 as σ'.
  induction Hms as [|[i ch] ms Hch _ IH]; intros σ' h Hr; [by exists h|].
  cbn [run_moves foldl]. destruct (advance σ' (i, ch)) as [σ2|] eqn:Ha; [|exact (IH σ' h Hr)].
  eapply IH, run_step; [exact Hr|]. by eapply advance_step.
Qed.

Lemma run_moves_reachable d ps ms :
  Forall (λ m, C m.2) ms → reachable d ps (run_moves (init d ps) ms).
Proof. intros Hms. destruct (run_moves_from (init d ps) ms Hms) as [h Hr]. by eapply run_reachable. Qed.

(** The threads that are not scheduled wait. *)
Lemma run_moves_other σ ms i :
  Forall (λ m, m.1 ≠ i) ms → sys_threads (run_moves σ ms) !! i = sys_threads σ !! i.
Proof.
  intros Hms. revert σ. induction Hms as [|[j ch] ms Hj _ IH]; intros σ; [done|].
  cbn [run_moves foldl]. etrans; [apply IH|]. unfold advance.
  destruct (sys_threads σ !! j) as [[[a|B c k] w]|]; try done. destruct (granted_b _ _ _); [|done].
  destruct (exec_cmd _ _ _). simpl. by rewrite list_lookup_insert_ne.
Qed.

Lemma result_of_finished σ i a w : result_of σ i = Some (a, w) → finished σ i a w.
Proof.
  unfold result_of, finished. destruct (sys_threads σ !! i) as [[[]]|]; try done. by intros [= -> ->].
Qed.

(** A thread has committed or emitted something only if a choice was made. *)
Lemma reachable_chose d ps σ : reachable d ps σ → σ = init d ps ∨ ∃ ch, C ch.
Proof. intros [|σ1 σ2 _ Hst]; [by left|right]. destruct Hst. by eexists. Qed.

Lemma reachable_chose_commit d ps σ i t x :
  reachable d ps σ → sys_threads σ !! i = Some t → x ∈ commits (th_world t) → ∃ ch, C ch.
Proof.
  intros Hr Ht Hx. destruct (reachable_chose d ps σ Hr) as [->|]; [|done]. simpl in Ht.
  rewrite list_lookup_fmap in Ht. destruct (ps !! i); [|done]. injection Ht as <-.
  by apply not_elem_of_nil in Hx.
Qed.

Lemma reachable_chose_trace d ps σ i t e :
  reachable d ps σ → sys_threads σ !! i = Some t → e ∈ trace (th_world t) → ∃ ch, C ch.
Proof.
  intros Hr Ht Hx. destruct (reachable_chose d ps σ Hr) as [->|]; [|done]. simpl in Ht.
  rewrite list_lookup_fmap in Ht. destruct (ps !! i); [|done]. injection Ht as <-.
  by apply not_elem_of_nil in Hx.
Qed.
End system.
