(* ===== verification/LockOrder.v ===== *)
(** * Lock ordering

    [ordered p]: whatever the tables and the choices, every lock [p] asks for
    while it holds others is of higher rank than all of them, unless a lock it
    holds on the same object is at least as strong, or nobody could hold a
    conflicting one.  Index entries and the rows a session creates come before
    wallet rows, and wallet rows come in the order of their printed ids. *)

From Stdlib Require Import OrdersEx.
From S2P Require Import Prelude Errors Database Locks Obs Session Store Wp.

(** ** Ranks *)

Section ranks.
Context `{PgText}.

(** The locks a transaction of the store may hold. *)
Definition allowed (l : lock) : bool :=
  match l with
  | LUser KeyShare _ | LWallet KeyShare _ | LWallet NoKeyUpdate _ => true
  | LTransfer _ _ | LTransferKey _ _ | LMint _ _ | LMintKey _ => true
  | _ => false
  end.

Definition rank (l : lock) : nat * string :=
  match l with
  | LWallet NoKeyUpdate i | LWallet Share i => (2%nat, uuid_out i)
  | LWallet _ _ | LUser _ _ | LUserHash _ | LWalletUser _ => (0%nat, "")
  | _ => (1%nat, "")
  end.

Definition rank_lt (a b : nat * string) : Prop :=
  (a.1 < b.1)%nat ∨ a.1 = b.1 ∧ String.compare a.2 b.2 = Lt.

#[global] Instance rank_lt_dec a b : Decision (rank_lt a b).
Proof. unfold rank_lt. apply _. Defined.

Lemma compare_irrefl s : String.compare s s ≠ Lt.
Proof. destruct String_as_OT.lt_strorder as [Hi _]. apply (Hi s). Qed.

Lemma compare_trans a b c :
  String.compare a b = Lt → String.compare b c = Lt → String.compare a c = Lt.
Proof. destruct String_as_OT.lt_strorder as [_ Ht]. apply Ht. Qed.

#[global] Instance rank_lt_strict : StrictOrder rank_lt.
Proof.
  split.
  - intros a [Hl|[_ Hl]]; [lia|by apply compare_irrefl in Hl].
  - intros a b c [H1|[H1 H1']] [H2|[H2 H2']]; [left; lia..|]. right.
    split; [congruence|by eapply compare_trans].
Qed.

(** A lock somebody holds ranks no lower than one that conflicts with it. *)
Lemma conflict_rank a l :
  allowed a = true → conflict a l = true → rank l = rank a ∨ rank_lt (rank l) (rank a).
Proof.
  intros Ha Hc. destruct a as [[]|[] i|[]|[]| | | |], l as [[]|[] j|[]|[]| | | |]; simpl in *; try done;
    try (by left); try (left; by apply bool_decide_eq_true in Hc as ->); try (right; left; simpl; lia);
    rewrite andb_true_iff in Hc; destruct Hc as [Hij%bool_decide_eq_true Hm]; try done; left; by rewrite Hij.
Qed.

(** [h] is at least as strong as [l]. *)
Definition covers (h l : lock) : Prop := ∀ a, conflict a l = true → conflict a h = true.

Lemma covers_refl l : covers l l.
Proof. by intros a. Qed.

Lemma covers_transfer m i : covers (LTransfer Update i) (LTransfer m i).
Proof. intros [[]|[]|[]|[]| | | |]; simpl; try done; rewrite !andb_true_iff; intros [? ?]; by destruct m. Qed.

(** What a session that holds [held] may ask for. *)
Definition polite (held new : list lock) : Prop :=
  ∀ l a, l ∈ new → allowed a = true → conflict a l = true →
  (∃ h, h ∈ held ∧ covers h l) ∨ (∀ h, h ∈ held → rank_lt (rank h) (rank l)).

Lemma polite_nil_held new : polite [] new.
Proof. intros l a _ _ _. right. by intros h Hh%not_elem_of_nil. Qed.

Lemma polite_nil held : polite held [].
Proof. by intros l a Hl%not_elem_of_nil. Qed.

Lemma polite_app held n1 n2 : polite held n1 → polite held n2 → polite held (n1 ++ n2).
Proof. intros H1 H2 l a [Hl|Hl]%elem_of_app; eauto. Qed.

(** A lock nobody can hold against us. *)
Lemma polite_harmless held l : (∀ a, allowed a = true → conflict a l = false) → polite held [l].
Proof. intros Hl l' a ->%list_elem_of_singleton Ha Hc. by rewrite Hl in Hc. Qed.

Lemma polite_covered held h l : h ∈ held → covers h l → polite held [l].
Proof. intros Hh Hl l' a ->%list_elem_of_singleton _ _. left. eauto. Qed.

Lemma polite_above held l : (∀ h, h ∈ held → rank_lt (rank h) (rank l)) → polite held [l].
Proof. intros Hl l' a ->%list_elem_of_singleton _ _. by right. Qed.

Lemma key_share_harmless a i :
  allowed a = true → conflict a (LWallet KeyShare i) = false ∧ conflict a (LUser KeyShare i) = false.
Proof. destruct a as [[]|[]|[]|[]| | | |]; simpl; try done; rewrite !andb_false_r; done. Qed.

(** Locks named by a parameter. *)
Lemma polite_param held f s : (∀ i, uuid_in s = Some i → polite held [f i]) → polite held (lock_param f s).
Proof. unfold lock_param. destruct (uuid_in s); [auto|]. intros _. apply polite_nil. Qed.

Lemma allowed_param f s : (∀ i, allowed (f i) = true) → Forall (λ l, allowed l = true) (lock_param f s).
Proof. unfold lock_param. destruct (uuid_in s); by repeat constructor. Qed.
End ranks.

(** ** Ordered programs *)

Section ordered.
Context `{PgText} (C : choice → Prop).

(** A command asks politely, what a transaction comes to hold is allowed, and
    a line is logged outside transactions: the panic of one leaves no lock
    behind. *)
Definition admissible {R : Set} (ch : choice) (w : world) (c : cmd R) : Prop :=
  polite (locks_of w) (cmd_locks ch w c) ∧
  (is_Some (session w) → Forall (λ l, allowed l = true) (cmd_locks ch w c)) ∧
  (logs c = true → session w = None).

Fixpoint ordered {A} (p : prog A) (Q : A → world → Prop) (w : world) : Prop :=
  match p with
  | Ret a => Q a w
  | Do c k => ∀ d ch, C ch →
      let w0 := with_committed w d in
      admissible ch w0 c ∧ ordered (k (exec_cmd ch w0 c).1) Q (exec_cmd ch w0 c).2
  end.

Lemma ordered_mono {A} (p : prog A) (Q Q' : A → world → Prop) w :
  (∀ a w', Q a w' → Q' a w') → ordered p Q w → ordered p Q' w.
Proof.
  intros HQ. revert w. induction p as [a|B c k IH]; intros w; simpl; [auto|].
  intros Hp d ch Hch. destruct (Hp d ch Hch). split; [done|by apply IH].
Qed.

Lemma ordered_bind {A B} (p : prog A) (f : A → prog B) Q w :
  ordered p (λ a, ordered (f a) Q) w → ordered (p ≫= f) Q w.
Proof.
  unfold mbind, prog_bind. revert w. induction p as [a|D c k IH]; intros w; simpl; [done|].
  intros Hp d ch Hch. destruct (Hp d ch Hch). split; [done|by apply IH].
Qed.

(** Commands that take no lock. *)
Definition lockless {R : Set} (c : cmd R) : Prop := ∀ ch w, cmd_locks ch w c = [].

Lemma ordered_lockless {A} {R : Set} (c : cmd R) (k : R → prog A) Q w :
  lockless c → (logs c = true → session w = None) → (∀ d ch, C ch → ordered (k (exec_cmd ch (with_committed w d) c).1) Q
                                  (exec_cmd ch (with_committed w d) c).2) →
  ordered (call c ≫= k) Q w.
Proof.
  intros Hl Hs Hk. apply ordered_bind. simpl. intros d ch Hch. split; [|by apply Hk].
  unfold admissible. rewrite Hl. split; [apply polite_nil|by repeat constructor].
Qed.

(** A program that a log line unwinds. *)
Lemma ordered_unwind {A} panics (p : prog A) Q w :
  ordered p Q w →
  ordered (unwind panics p) (λ o w', match o with Some a => Q a w' | None => session w' = None end) w.
Proof.
  revert panics w. induction p as [a|B c k IH]; intros panics w; simpl; [done|].
  intros Hp d ch Hch. destruct (Hp d ch Hch) as [Hadm Hk]. split; [done|].
  destruct (logs c && panics 0%nat) eqn:Hl; [|by apply IH]. apply andb_true_iff in Hl as [Hl _].
  destruct Hadm as (_ & _ & Hs). specialize (Hs Hl). by destruct c.
Qed.

(** Any command that takes no lock, its effect forgotten but for the
    transaction. *)
Lemma ordered_begin {A} (k : result error unit → prog A) Q w :
  session w = None →
  (∀ w' now, session w' = Some (begin_txn now) → ordered (k (Ok tt)) Q w') →
  (∀ w' e, session w' = None → ordered (k (Err e)) Q w') →
  ordered (call Begin ≫= k) Q w.
Proof.
  intros Hs Hok Herr. apply ordered_lockless; [done|done|]. intros d ch _. simpl.
  destruct (ch_fault ch) as [f|]; simpl; [by apply Herr|]. by apply (Hok _ (ch_now ch)).
Qed.

Lemma ordered_rollback {A} (k : unit → prog A) Q w :
  (∀ w', session w' = None → ordered (k tt) Q w') → ordered (call Rollback ≫= k) Q w.
Proof. intros Hk. apply ordered_lockless; [done|done|]. intros d ch _. by apply Hk. Qed.

Lemma ordered_commit {A} (k : result error unit → prog A) Q w :
  (∀ w' r, session w' = None → ordered (k r) Q w') → ordered (call Commit ≫= k) Q w.
Proof.
  intros Hk. apply ordered_lockless; [done|done|]. intros d ch _. simpl. unfold exec_commit. simpl.
  destruct (session w) as [t|] eqn:Hs; [|by apply Hk].
  destruct (tx_state t); [|by apply Hk..]. destruct (ch_fault ch) as [f|]; [|by apply Hk].
  destruct (_ && _); by apply Hk.
Qed.

Lemma ordered_emit {A} e (p : prog A) Q w :
  session w = None → (∀ w', session w' = None → ordered p Q w') → ordered (call (Emit e);; p) Q w.
Proof. intros Hs Hk. apply ordered_lockless; [done|done|]. intros d ch _. by apply Hk. Qed.

Lemma ordered_backoff {A} ms (k : option error → prog A) Q w :
  (∀ w' r, session w' = session w → ordered (k r) Q w') → ordered (call (Backoff ms) ≫= k) Q w.
Proof. intros Hk. apply ordered_lockless; [done|done|]. intros d ch _. by apply Hk. Qed.

Lemma ordered_close {A} (k : result error unit → prog A) Q w :
  (∀ w' r, ordered (k r) Q w') → ordered (call BatchClose ≫= k) Q w.
Proof. intros Hk. apply ordered_lockless; [done|done|]. intros d ch _. apply Hk. Qed.

Lemma ordered_close_ok {A} (k : result error unit → prog A) Q w :
  (∀ w', session w' = session w → ordered (k (Ok tt)) Q w') →
  (∀ w' e, ordered (k (Err e)) Q w') → ordered (call BatchClose ≫= k) Q w.
Proof.
  intros Hok Herr. apply ordered_lockless; [done|done|]. intros d ch _. simpl. unfold in_tx. simpl.
  destruct (session w) as [t|] eqn:Hs; [|apply Herr]. destruct (tx_state t); [|apply Herr..].
  destruct (ch_fault ch); [apply Herr|]. by apply Hok.
Qed.

(** A statement on the pool holds nothing. *)
Lemma ordered_pool {A R} (s : stmt R) (k : result error R → prog A) Q w :
  session w = None → (∀ w' r, session w' = None → ordered (k r) Q w') →
  ordered (call (PoolStmt s) ≫= k) Q w.
Proof.
  intros Hs Hk. apply ordered_bind. simpl. intros d ch _. split.
  - unfold admissible, locks_of. simpl. rewrite Hs. split; [apply polite_nil_held|split; [by intros []|done]].
  - apply Hk. unfold exec_pool_stmt. simpl. repeat case_match; by simplify_eq/=.
Qed.

(** A statement in an active transaction: it takes its locks, whether it
    succeeds or fails; hit by a fault it takes none. *)
Lemma ordered_tx {A R} (s : stmt R) (k : result error R → prog A) Q w t :
  session w = Some t → tx_state t = TxActive →
  (∀ u v, polite (tx_locks t) (stmt_locks u v s) ∧ Forall (λ l, allowed l = true) (stmt_locks u v s)) →
  (∀ w' u v r ws, exec_stmt u (tx_now t) v s = Ok (r, ws) →
     session w' = Some (MkTxn (tx_now t) TxActive (tx_writes t ++ ws)
       (tx_locks t ++ stmt_locks u v s) (tx_saves t)) → ordered (k (Ok r)) Q w') →
  (∀ w' t' e, session w' = Some t' → tx_saves t' = tx_saves t → ordered (k (Err e)) Q w') →
  ordered (call (TxStmt s) ≫= k) Q w.
Proof.
  intros Hs Ha Hpol Hok Herr. apply ordered_bind. simpl. intros d ch _. split.
  - unfold admissible, locks_of. simpl. rewrite Hs.
    destruct (ch_fault ch); [split; [apply polite_nil|by repeat constructor]|].
    split; [apply Hpol|]. split; [intros _; apply Hpol|done].
  - unfold exec_tx_stmt, in_tx. simpl. rewrite Hs, Ha. destruct (ch_fault ch) as [f|].
    { by eapply Herr. }
    destruct (exec_stmt _ _ _ _) as [[r ws]|e] eqn:He; simpl.
    + eapply Hok; [exact He|]. done.
    + by eapply Herr.
Qed.

(** Savepoints move no lock up. *)
Lemma ordered_savepoint {A} (k : result error unit → prog A) Q w t :
  session w = Some t → tx_state t = TxActive →
  (∀ w', session w' = Some (MkTxn (tx_now t) TxActive (tx_writes t) (tx_locks t)
     ((tx_writes t, tx_locks t) :: tx_saves t)) → ordered (k (Ok tt)) Q w') →
  (∀ w' e, ordered (k (Err e)) Q w') →
  ordered (call Savepoint ≫= k) Q w.
Proof.
  intros Hs Ha Hok Herr. apply ordered_lockless; [done|done|]. intros d ch _. simpl. unfold in_tx. simpl.
  rewrite Hs, Ha. destruct (ch_fault ch); [apply Herr|]. by apply Hok.
Qed.

Lemma ordered_release {A} (k : result error unit → prog A) Q w t :
  session w = Some t → tx_state t = TxActive →
  (∀ w', session w' = Some (MkTxn (tx_now t) TxActive (tx_writes t) (tx_locks t) (tail (tx_saves t))) →
     ordered (k (Ok tt)) Q w') →
  (∀ w' e, ordered (k (Err e)) Q w') →
  ordered (call ReleaseSavepoint ≫= k) Q w.
Proof.
  intros Hs Ha Hok Herr. apply ordered_lockless; [done|done|]. intros d ch _. simpl. unfold in_tx. simpl.
  rewrite Hs, Ha. destruct (ch_fault ch); [apply Herr|]. by apply Hok.
Qed.

Lemma ordered_rollback_to {A} (k : unit → prog A) Q w :
  (∀ w', session w' = exec_rollback_to <$> session w → ordered (k tt) Q w') →
  ordered (call RollbackToSavepoint ≫= k) Q w.
Proof. intros Hk. apply ordered_lockless; [done|done|]. intros d ch _. by apply Hk. Qed.

(** A statement that takes no lock, in any session. *)
Lemma ordered_tx_lockless {A R} (s : stmt R) (k : result error R → prog A) Q w :
  (∀ u v, stmt_locks u v s = []) → (∀ w' r, ordered (k r) Q w') →
  ordered (call (TxStmt s) ≫= k) Q w.
Proof.
  intros Hl Hk. apply ordered_lockless; [|done|by intros].
  intros ch w0. simpl. destruct (ch_fault ch); [done|]. destruct (session w0); simpl; [apply Hl|done].
Qed.

(** ** The transaction wrapper *)

Section inTx.
Context {V : Type} (s : Store) (fn : V → prog (V * option error)).
Context (Hfn : ∀ vars w now, session w = Some (begin_txn now) → ordered (fn vars) (λ _ _, True) w).

Lemma ordered_attempt vars w :
  session w = None → ordered (attempt_tx fn vars) (λ _ w', session w' = None) w.
Proof.
  intros Hs. unfold attempt_tx. apply ordered_begin; [done| |].
  2:{ intros w' e Hs'. by destruct (isTransient e). }
  intros w' now Hs'. apply ordered_bind. eapply ordered_mono, Hfn; [|done].
  intros [v [e|]] w1 _; cbn beta iota.
  - apply ordered_rollback. intros w2 Hs2. by destruct (isTransient e).
  - apply ordered_commit. intros w2 [[]|e] Hs2; [done|]. by destruct (isTransient e).
Qed.

Lemma ordered_emit_all es Q w :
  session w = None → (∀ w', session w' = None → Q tt w') → ordered (emit_all es) Q w.
Proof.
  revert w. induction es as [|e es IH]; intros w Hs Hk; [by apply Hk|].
  apply ordered_emit; [done|]. intros w' Hs'. by apply IH.
Qed.

Lemma ordered_inTx_loop n attempt err vars w :
  session w = None → ordered (inTx_loop s fn n attempt err vars) (λ _ w', session w' = None) w.
Proof.
  revert attempt err vars w. induction n as [|n IH]; intros attempt err vars w Hs; [done|].
  assert (Htry : ∀ w', session w' = None →
    ordered ('(vars, next) ← attempt_tx fn vars;
             match next with
             | inl r => mret (vars, r)
             | inr err => inTx_loop s fn n (attempt + 1) (Some err) vars
             end) (λ _ w', session w' = None) w').
  { intros w' Hs'. apply ordered_bind. eapply ordered_mono, ordered_attempt; [|done].
    intros [v [r|e]] w1 Hs1; cbn beta iota; [done|by apply IH]. }
  cbn [inTx_loop]. destruct (0 <? attempt); [|by apply Htry].
  apply ordered_bind, ordered_emit_all; [done|]. intros w' Hs'. apply ordered_backoff.
  intros w1 [e|] Hs1; [simpl; congruence|apply Htry; congruence].
Qed.

Lemma ordered_inTx vars w :
  session w = None → ordered (inTx s fn vars) (λ _ w', session w' = None) w.
Proof. apply ordered_inTx_loop. Qed.
End inTx.
End ordered.
