(* ===== verification/Progress.v ===== *)
(** * Progress: ordered programs never deadlock *)

From S2P Require Import Prelude Errors Database Locks Obs Session Store Wp Concurrent LockOrder.

(** ** What a step does to the locks *)

(** Savepoints remember fewer and fewer locks. *)
Fixpoint nested (ls : list lock) (saves : list (list write * list lock)) : Prop :=
  match saves with
  | [] => True
  | (_, ls') :: saves => ls' ⊆ ls ∧ nested ls' saves
  end.

Definition saves_ok (w : world) : Prop :=
  from_option (λ t, nested (tx_locks t) (tx_saves t)) True (session w).

Lemma nested_mono ls ls' saves : ls ⊆ ls' → nested ls saves → nested ls' saves.
Proof. destruct saves as [|[ws l] saves]; [done|]. intros Hs [H1 H2]. split; [by etrans|done]. Qed.

Lemma pool_session `{PgText} {R} ch w (s : stmt R) : session (exec_pool_stmt ch w s).2 = session w.
Proof.
  unfold exec_pool_stmt.
  destruct (ch_fault ch); destruct (exec_stmt _ _ _ _) as [[r [|x ws]]|e]; simpl; try done;
    by destruct (_ && _).
Qed.

Lemma commit_session `{PgText} ch w : session (exec_commit ch w).2 = None.
Proof.
  unfold exec_commit. destruct (session w) as [t|] eqn:Hs; [|done].
  destruct (tx_state t); [|done..]. destruct (ch_fault ch); [|done]. by destruct (_ && _).
Qed.

Lemma exec_cmd_saves `{PgText} {R} ch w (c : cmd R) : saves_ok w → saves_ok (exec_cmd ch w c).2.
Proof.
  unfold saves_ok. intros Hw.
  assert (Hmore : ∀ t ls, session w = Some t → nested (tx_locks t ++ ls) (tx_saves t)).
  { intros t ls Ht. rewrite Ht in Hw. eapply nested_mono; [|exact Hw]. set_solver. }
  destruct c; simpl; try done.
  - by destruct (ch_fault ch).
  - unfold exec_tx_stmt, in_tx. destruct (session w) as [t|] eqn:Ht; simpl; [|by rewrite Ht].
    destruct (tx_state t); simpl; [|by rewrite Ht..]. destruct (ch_fault ch); [done|].
    specialize (Hmore t (stmt_locks (ch_uuid ch) (view t (committed w)) s) eq_refl).
    by destruct (exec_stmt _ _ _ _) as [[]|].
  - by rewrite pool_session.
  - unfold in_tx. destruct (session w) as [t|] eqn:Ht; simpl; [|by rewrite Ht].
    destruct (tx_state t); simpl; [|by rewrite Ht..]. by destruct (ch_fault ch).
  - by rewrite commit_session.
  - unfold in_tx. destruct (session w) as [t|] eqn:Ht; simpl; [|by rewrite Ht].
    destruct (tx_state t); simpl; [|by rewrite Ht..]. by destruct (ch_fault ch).
  - unfold in_tx. destruct (session w) as [t|] eqn:Ht; simpl; [|by rewrite Ht].
    destruct (tx_state t); simpl; [|by rewrite Ht..]. destruct (ch_fault ch); [done|]. simpl.
    simpl in Hw. destruct (tx_saves t) as [|[ws l] saves]; [done|]. simpl in *. destruct Hw. by eapply nested_mono.
  - destruct (session w) as [t|]; [|done]. simpl in *. unfold exec_rollback_to.
    destruct (tx_state t); try done; destruct (tx_saves t) as [|[ws l] saves] eqn:Hsv; simpl in *;
      rewrite ?Hsv; simpl; try exact I; destruct Hw; by split.
Qed.

(** A session holds what it held, and what a command in its transaction
    took. *)
Lemma exec_cmd_locks `{PgText} {R} ch w (c : cmd R) l :
  saves_ok w → l ∈ locks_of (exec_cmd ch w c).2 →
  l ∈ locks_of w ∨ (is_Some (session w) ∧ l ∈ cmd_locks ch w c).
Proof.
  unfold saves_ok. intros Hw.
  assert (Hin : ∀ B (f : txn → result error B * txn),
    (∀ t, session w = Some t → ch_fault ch = None → l ∈ tx_locks (f t).2 →
       l ∈ tx_locks t ∨ (is_Some (session w) ∧ l ∈ cmd_locks ch w c)) →
    l ∈ locks_of (in_tx ch w f).2 → l ∈ locks_of w ∨ (is_Some (session w) ∧ l ∈ cmd_locks ch w c)).
  { intros B f Hf. unfold in_tx, locks_of. destruct (session w) as [t|] eqn:Ht; [|simpl; rewrite Ht; by left].
    destruct (tx_state t); [|simpl; rewrite Ht; by left..]. destruct (ch_fault ch) eqn:Hfault; [by left|].
    specialize (Hf t eq_refl eq_refl). by destruct (f t). }
  destruct c; try (by left); try (apply Hin; by left).
  - unfold locks_of. simpl. destruct (ch_fault ch); [by left|]. by intros ?%not_elem_of_nil.
  - apply Hin. intros t Ht Hfault. simpl. rewrite Ht, Hfault. simpl.
    destruct (exec_stmt _ _ _ _) as [[]|]; simpl; intros [?|?]%elem_of_app; eauto.
  - unfold locks_of at 1. simpl. rewrite pool_session. by left.
  - unfold locks_of at 1. simpl. rewrite commit_session. by intros ?%not_elem_of_nil.
  - by intros ?%not_elem_of_nil.
  - unfold locks_of. simpl. destruct (session w) as [t|]; [|by left]. simpl in *. unfold exec_rollback_to.
    intros Hl. left. destruct (tx_state t); try done;
      (destruct (tx_saves t) as [|[ws ls] saves]; simpl in *; [done|]; destruct Hw as [Hsub _]; by apply Hsub).
Qed.

#[export] Instance rank_strict `{PgText} : StrictOrder (λ l l', rank_lt (rank l) (rank l')).
Proof.
  split.
  - intros l Hl. by apply (StrictOrder_Irreflexive (R := rank_lt)) in Hl.
  - intros l1 l2 l3 H1 H2. by transitivity (rank l2).
Qed.

(** ** No ascent in a finite list *)

Lemma no_ascent {A} (R : A → A → Prop) `{!StrictOrder R} `{∀ x y, Decision (R x y)} (X : list A)
    (W : A → Prop) :
  (∀ x, W x → ∃ y, y ∈ X ∧ W y ∧ R x y) → ∀ x, ¬ W x.
Proof.
  intros Hup. assert (Hn : ∀ n x, (length (filter (R x) X) < n)%nat → ¬ W x).
  { induction n as [|n IH]; intros x Hlen Hx; [lia|]. destruct (Hup x Hx) as (y & Hy & HWy & Hxy).
    apply (IH y); [|done]. enough (length (filter (R y) X) < length (filter (R x) X))%nat by lia.
    clear -Hxy Hy StrictOrder0. induction X as [|z X IHX]; [by apply not_elem_of_nil in Hy|].
    assert (Hle : (length (filter (R y) X) ≤ length (filter (R x) X))%nat).
    { clear -Hxy StrictOrder0. induction X as [|z X IHX]; [done|]. rewrite !filter_cons.
      repeat case_decide; simpl; try lia. exfalso.
      match goal with Hn : ¬ R x z |- _ => apply Hn end. by transitivity y. }
    rewrite !filter_cons. apply elem_of_cons in Hy as [<-|Hy].
    - rewrite (decide_True _ _ Hxy), decide_False by apply StrictOrder_Irreflexive. simpl. lia.
    - specialize (IHX Hy). repeat case_decide; simpl; try lia. exfalso.
      match goal with Hn : ¬ R x z |- _ => apply Hn end. by transitivity y. }
  intros x. apply (Hn (S (length (filter (R x) X)))). lia.
Qed.

(** ** Every schedule ends *)

Section termination.
Context `{PgText} (C : choice → Prop) {A : Type}.

(** What is left of a program after its next command. *)
Definition next_of (p' p : prog A) : Prop :=
  match p with
  | Ret _ => False
  | Do c k => ∃ r, p' = k r
  end.

Lemma next_of_wf p : Acc next_of p.
Proof. induction p as [a|B c k IH]; constructor; [done|]. by intros p' [r ->]. Qed.

(** One thread of the list moved on. *)
Definition moved (ths' ths : list (thread (A := A))) : Prop :=
  ∃ i t t', ths !! i = Some t ∧ next_of (th_prog t') (th_prog t) ∧ ths' = <[i := t']> ths.

Lemma moved_cons ths t : Acc moved ths → Acc moved (t :: ths).
Proof.
  intros Hths. remember (th_prog t) as p eqn:Hp. revert t Hp.
  induction (next_of_wf p) as [p _ IHp] in ths, Hths |- *. induction Hths as [ths Hacc IHths].
  intros t ->. constructor. intros ths' ([|i] & u & u' & Hi & Hn & ->); simpl in *.
  - injection Hi as ->. by apply (IHp _ Hn ths (Acc_intro ths Hacc)).
  - apply IHths; [|done]. by exists i, u, u'.
Qed.

Lemma moved_wf ths : Acc moved ths.
Proof.
  induction ths as [|t ths IH]; [|by apply moved_cons]. constructor. by intros ths' (i & t & t' & ? & _).
Qed.

(** No schedule of any programs runs forever. *)
Lemma step_wf (σ : system (A := A)) : Acc (λ σ' σ, step C σ σ') σ.
Proof.
  remember (sys_threads σ) as ths eqn:Hths. revert σ Hths.
  induction (moved_wf ths) as [ths _ IH]. intros σ ->. constructor. intros σ' Hst.
  apply (IH (sys_threads σ')); [|done]. destruct Hst as [d ths i B c k w ch Hi HC w0 r w' Hg].
  exists i, (MkThread (Do c k) w), (MkThread (k r) w'). split_and!; [done| |done]. by exists r.
Qed.
End termination.

(** ** Progress *)

Section progress.
Context `{PgText} (C : choice → Prop) {A : Type} (d0 : db) (ps : list (prog A)).
Context (Hps : ∀ i p, ps !! i = Some p → ordered C p (λ _ w, session w = None) (start d0)).

Record thread_ordered (t : thread (A := A)) : Prop := {
  to_prog : ordered C (th_prog t) (λ _ w, session w = None) (th_world t);
  to_allowed : ∀ l, l ∈ locks_of (th_world t) → allowed l = true;
  to_saves : saves_ok (th_world t)
}.

Record all_ordered (σ : system (A := A)) : Prop := {
  ao_thread : ∀ i t, sys_threads σ !! i = Some t → thread_ordered t;
  ao_apart : ∀ i j t t', i ≠ j → sys_threads σ !! i = Some t → sys_threads σ !! j = Some t' →
    compatible (locks_of (th_world t)) (locks_of (th_world t')) = true
}.

Lemma compatible_sym l1 l2 : compatible l1 l2 = true → compatible l2 l1 = true.
Proof. rewrite !compatible_spec. intros Hc a b Ha Hb. rewrite conflict_sym. auto. Qed.

Lemma not_compatible l1 l2 :
  compatible l1 l2 = false → ∃ a b, a ∈ l1 ∧ b ∈ l2 ∧ conflict a b = true.
Proof.
  unfold compatible. intros Hc. destruct (forallb_false _ _ Hc) as (a & Ha & Hf).
  destruct (forallb_false _ _ Hf) as (b & Hb & Hn). exists a, b. by apply negb_false_iff in Hn.
Qed.

Lemma init_ordered : all_ordered (init d0 ps).
Proof.
  split; simpl.
  - intros i t. rewrite list_lookup_fmap. destruct (ps !! i) as [p|] eqn:Hp; [|done]. intros [= <-].
    split; [by eapply Hps|by intros l ?%not_elem_of_nil|done].
  - intros i j t t' _. rewrite !list_lookup_fmap.
    destruct (ps !! i); [|done]. intros [= <-] _. by apply compatible_spec; intros a b ?%not_elem_of_nil.
Qed.

Lemma step_ordered σ σ' : all_ordered σ → step C σ σ' → all_ordered σ'.
Proof.
  intros [Hth Hap] Hst. destruct Hst as [d ths i B c k w ch Hi HC w0 r w' Hgt].
  cbn [sys_threads] in *. destruct (Hth i _ Hi) as [Hp Hal Hsv]. cbn [th_prog th_world] in *.
  destruct (Hp d ch HC) as [(_ & Hnew & _) Hk]. fold w0 in Hnew, Hk. fold w' r in Hk.
  assert (Hlocks : ∀ l, l ∈ locks_of w' → l ∈ locks_of w ∨ (is_Some (session w) ∧ l ∈ cmd_locks ch w0 c))
    by (intros l; exact (exec_cmd_locks ch w0 c l Hsv)).
  assert (Hother : ∀ j t, j ≠ i → ths !! j = Some t → compatible (locks_of (th_world t)) (locks_of w') = true).
  { intros j t Hj Ht. specialize (Hgt j t Hj Ht). rewrite compatible_spec in Hgt |- *.
    intros a b Ha Hb. apply Hgt; [done|]. apply elem_of_app.
    destruct (Hlocks b Hb) as [|[_ ?]]; [by left|by right]. }
  split; cbn [sys_threads].
  - intros j t. rewrite list_lookup_insert_Some. intros [(-> & <- & _)|[Hj Ht]]; [|by eapply Hth].
    split; cbn [th_prog th_world]; [done| |exact (exec_cmd_saves ch w0 c Hsv)].
    intros l Hl. destruct (Hlocks l Hl) as [|[Hs Hl']]; [by apply Hal|].
    specialize (Hnew Hs). rewrite Forall_forall in Hnew. by apply Hnew.
  - intros j l t t' Hjl. rewrite !list_lookup_insert_Some.
    intros [(-> & <- & _)|[Hj Ht]] [(-> & <- & _)|[Hl Ht']]; cbn [th_world]; [done| | |exact (Hap j l t t' Hjl Ht Ht')].
    + apply compatible_sym. by eapply Hother.
    + by eapply Hother.
Qed.

Lemma reachable_ordered σ : reachable C d0 ps σ → all_ordered σ.
Proof. induction 1; [apply init_ordered|by eapply step_ordered]. Qed.

(** The locks a thread asks for next, under the choice [ch]. *)
Definition wanted (ch : choice) (d : db) (t : thread (A := A)) : list lock :=
  match th_prog t with
  | Do c _ => cmd_locks ch (with_committed (th_world t) d) c
  | Ret _ => []
  end.

Definition unfinished (t : thread (A := A)) : bool :=
  match th_prog t with Do _ _ => true | Ret _ => false end.

(** Somebody waits for [l], having nothing that ranks as high. *)
Definition waits (ch : choice) (σ : system (A := A)) (l : lock) : Prop :=
  ∃ i t j t' a, sys_threads σ !! i = Some t ∧ l ∈ wanted ch (sys_db σ) t ∧
    sys_threads σ !! j = Some t' ∧ a ∈ locks_of (th_world t') ∧ conflict a l = true ∧
    ∀ h, h ∈ locks_of (th_world t) → rank_lt (rank h) (rank l).

Lemma blocked_waits ch σ i t :
  all_ordered σ → C ch → sys_threads σ !! i = Some t → unfinished t = true →
  granted_b (sys_threads σ) i (locks_of (th_world t) ++ wanted ch (sys_db σ) t) = false →
  ∃ l, l ∈ wanted ch (sys_db σ) t ∧ waits ch σ l ∧
    ∀ h, h ∈ locks_of (th_world t) → rank_lt (rank h) (rank l).
Proof.
  intros [Hth Hap] HC Hi Hu Hg. unfold granted_b in Hg.
  assert (Hex : ∃ j, j ≠ i ∧ ∃ t', sys_threads σ !! j = Some t' ∧
    compatible (locks_of (th_world t')) (locks_of (th_world t) ++ wanted ch (sys_db σ) t) = false).
  { destruct (forallb_false _ _ Hg) as (j & _ & Hj). apply orb_false_iff in Hj as [Hj Hc].
    apply bool_decide_eq_false in Hj. exists j. split; [done|].
    destruct (sys_threads σ !! j) as [t'|]; [by exists t'|done]. }
  destruct Hex as (j & Hj & t' & Ht' & Hc).
  destruct (Hth i t Hi) as [Hp Hal _]. destruct (Hth j t' Ht') as [_ Hal' _].
  destruct (not_compatible _ _ Hc) as (a & l & Ha & Hl & Hcf).
  apply elem_of_app in Hl as [Hl|Hl].
  { pose proof (Hap j i t' t Hj Ht' Hi) as Hcc. rewrite compatible_spec in Hcc. by rewrite (Hcc a l Ha Hl) in Hcf. }
  assert (Hpol : polite (locks_of (th_world t)) (wanted ch (sys_db σ) t)).
  { unfold wanted. destruct t as [[x|B c k] w]; [by apply polite_nil|]. cbn [th_prog th_world] in *.
    by destruct (Hp (sys_db σ) ch HC) as [[Hpol _] _]. }
  assert (Hrank : ∀ h, h ∈ locks_of (th_world t) → rank_lt (rank h) (rank l)).
  { destruct (Hpol l a Hl (Hal' a Ha) Hcf) as [(h & Hh & Hcov)|]; [|done]. exfalso.
    pose proof (Hap j i t' t Hj Ht' Hi) as Hcc. rewrite compatible_spec in Hcc.
    specialize (Hcc a h Ha Hh). by rewrite (Hcov a Hcf) in Hcc. }
  exists l. split; [done|]. split; [|done]. exists i, t, j, t', a. done.
Qed.

(** A choice is possible: some thread can run, or all have finished. *)
Lemma ordered_progress σ :
  (∃ ch, C ch) → reachable C d0 ps σ →
  (∀ i t, sys_threads σ !! i = Some t → unfinished t = false) ∨ ∃ σ', step C σ σ'.
Proof.
  intros [ch HC] Hr. apply reachable_ordered in Hr as Hao.
  set (free := λ i, match sys_threads σ !! i with
    | Some t => unfinished t && granted_b (sys_threads σ) i (locks_of (th_world t) ++ wanted ch (sys_db σ) t)
    | None => false end).
  destruct (existsb free (seq 0 (length (sys_threads σ)))) eqn:Hfree.
  { right. apply existsb_exists in Hfree as (i & _ & Hf). unfold free in Hf.
    destruct (sys_threads σ !! i) as [t|] eqn:Hi; [|done]. apply andb_true_iff in Hf as [Hu Hg].
    destruct t as [[x|B c k] w]; [done|]. destruct σ as [d ths]. eexists.
    eapply (step_thread C d ths i B c k w ch); [done|done|]. by apply granted_b_sound. }
  left. intros i t Hi. apply not_true_iff_false. intros Hu.
  assert (Hblocked : ∀ i t, sys_threads σ !! i = Some t → unfinished t = true →
    granted_b (sys_threads σ) i (locks_of (th_world t) ++ wanted ch (sys_db σ) t) = false).
  { clear i t Hi Hu. intros i t Hi Hu. apply not_true_iff_false. intros Hg.
    apply not_true_iff_false in Hfree. apply Hfree, existsb_exists. exists i. split.
    - apply in_seq. apply lookup_lt_Some in Hi. lia.
    - unfold free. by rewrite Hi, Hu, Hg. }
  destruct (blocked_waits ch σ i t Hao HC Hi Hu (Hblocked i t Hi Hu)) as (l & _ & Hw & _).
  revert Hw. refine (no_ascent (λ l l', rank_lt (rank l) (rank l'))
    (mjoin (wanted ch (sys_db σ) <$> sys_threads σ)) (waits ch σ) _ l).
  clear -Hao HC Hblocked. intros l (i & t & j & t' & a & Hi & Hl & Hj & Ha & Hcf & _).
  assert (Hu' : unfinished t' = true).
  { destruct (ao_thread _ Hao j t' Hj) as [Hp _ _]. destruct t' as [[x|B c k] w]; [|done].
    cbn [th_prog th_world] in *. unfold locks_of in Ha. simpl in Hp. rewrite Hp in Ha.
    by apply not_elem_of_nil in Ha. }
  destruct (blocked_waits ch σ j t' Hao HC Hj Hu' (Hblocked j t' Hj Hu')) as (l' & Hl' & Hw' & Hrank).
  exists l'. split; [|split; [done|]].
  - apply list_elem_of_join. exists (wanted ch (sys_db σ) t'). split; [done|].
    apply list_elem_of_fmap. exists t'. split; [done|]. by eapply list_elem_of_lookup_2.
  - assert (Hal : allowed a = true) by (by eapply (to_allowed _ (ao_thread _ Hao j t' Hj))).
    destruct (conflict_rank a l Hal Hcf) as [->|Hlt]; [by apply Hrank|]. etrans; [exact Hlt|by apply Hrank].
Qed.
End progress.
