(* ===== verification/Cmds.v ===== *)
(** * What a program can do at all

    [every K p Q]: whatever its commands are answered, [p] issues only commands
    that satisfy [K], and any result satisfies [Q].  It needs no tables, no
    choices and no other sessions, so it holds in every interleaving. *)

From S2P Require Import Prelude Errors Database Locks Obs Session Store Accounting Wp Concurrent Progress.

Definition command_pred : Type := ∀ R : Set, cmd R → Prop.

Section every.
Context (K : command_pred).

Fixpoint every {A} (p : prog A) (Q : A → Prop) : Prop :=
  match p with
  | Ret a => Q a
  | Do c k => K _ c ∧ ∀ r, every (k r) Q
  end.

Lemma every_ret {A} (a : A) (Q : A → Prop) : Q a → every (mret a) Q.
Proof. done. Qed.

Lemma every_mono {A} (p : prog A) (Q Q' : A → Prop) :
  (∀ a, Q a → Q' a) → every p Q → every p Q'.
Proof.
  intros HQ. induction p as [a|R c k IH]; simpl; [auto|]. intros [Hc Hk]. split; [done|].
  intros r. by apply IH.
Qed.

Lemma every_bind {A B} (p : prog A) (f : A → prog B) Q :
  every p (λ a, every (f a) Q) → every (p ≫= f) Q.
Proof.
  unfold mbind, prog_bind. induction p as [a|R c k IH]; simpl; [done|]. intros [Hc Hk].
  split; [done|]. intros r. by apply IH.
Qed.

Lemma every_call {A} {R : Set} (c : cmd R) (k : R → prog A) Q :
  K R c → (∀ r, every (k r) Q) → every (call c ≫= k) Q.
Proof. intros Hc Hk. apply every_bind. by split. Qed.

(** A subprogram whose result does not matter. *)
Lemma every_seq {A B} (p : prog A) (f : A → prog B) Q :
  every p (λ _, True) → (∀ a, every (f a) Q) → every (p ≫= f) Q.
Proof. intros Hp Hf. apply every_bind. eapply every_mono; [|exact Hp]. auto. Qed.

(** A program that may be unwound. *)
Lemma every_unwind {A} panics (p : prog A) (Q : A → Prop) :
  every p Q → every (unwind panics p) (λ o, match o with Some a => Q a | None => True end).
Proof.
  revert panics. induction p as [a|R c k IH]; intros panics; simpl; [done|]. intros [Hc Hk].
  split; [done|]. intros r. destruct (_ && _); [done|]. by apply IH.
Qed.

Lemma every_emit_all es (Q : unit → Prop) :
  (∀ e, e ∈ es → K _ (Emit e)) → Q tt → every (emit_all es) Q.
Proof.
  induction es as [|e es IH]; intros Hes HQ; [done|]. apply every_call; [apply Hes; by left|].
  intros _. apply IH; [|done]. intros e' He'. apply Hes. by right.
Qed.

Lemma every_SendBatch {R : Set} (queue : list (stmt R)) (Q : list (result error R) → Prop) :
  (∀ s, s ∈ queue → K _ (TxStmt s)) → (∀ rs, Q rs) → every (SendBatch queue) Q.
Proof.
  revert Q. induction queue as [|s queue IH]; intros Q Hq HQ; [apply HQ|]. rewrite SendBatch_cons.
  apply every_call; [apply Hq; by left|]. intros [r|e]; [|apply HQ].
  apply every_bind, IH; [intros s' Hs'; apply Hq; by right|]. intros rs. apply HQ.
Qed.

(** ** The transaction wrapper *)

Section inTx.
Context {V : Type} (s : Store) (fn : V → prog (V * option error)) (Good : V → Prop).
Context (Hbegin : K _ Begin) (Hcommit : K _ Commit) (Hrollback : K _ Rollback).
Context (Hbackoff : ∀ ms, K _ (Backoff ms)).
Context (Hretry : ∀ err e, isTransient err = true → e ∈ onRetry s (sqlstate err) → K _ (Emit e)).

(** Success leaves variables that are [Good]. *)
Definition good_result (r : V * option error) : Prop :=
  match r.2 with None => Good r.1 | Some _ => True end.

Context (Hfn : ∀ vars, every (fn vars) good_result).

Lemma every_attempt vars :
  every (attempt_tx fn vars) (λ r, match r.2 with
    | inl None => Good r.1 | inl (Some _) => True | inr err => isTransient err = true end).
Proof.
  assert (Hfail : ∀ (v : V) err, every
    (mret (v, if isTransient err then inr err else inl (Some err)) : prog (V * (option error + error)))
    (λ r, match r.2 with
    | inl None => Good r.1 | inl (Some _) => True | inr err => isTransient err = true end)).
  { intros v err. simpl. by destruct (isTransient err) eqn:Ht. }
  unfold attempt_tx. apply every_call; [done|]. intros [[]|err]; [|apply Hfail].
  apply every_bind. eapply every_mono; [|apply Hfn]. intros [v [err|]] Hg; cbn beta iota.
  - apply every_call; [done|]. intros _. apply Hfail.
  - apply every_call; [done|]. intros [[]|err]; [done|apply Hfail].
Qed.

Lemma every_inTx_loop n attempt err vars :
  (0 < attempt → ∃ e, err = Some e ∧ isTransient e = true) → 0 ≤ attempt →
  every (inTx_loop s fn n attempt err vars) good_result.
Proof.
  revert attempt err vars. induction n as [|n IH]; intros attempt err vars Herr Ha; [done|].
  assert (Htry : every ('(vars, next) ← attempt_tx fn vars;
    match next with
    | inl r => mret (vars, r)
    | inr err => inTx_loop s fn n (attempt + 1) (Some err) vars
    end) good_result).
  { apply every_bind. eapply every_mono; [|apply every_attempt].
    intros [v [[r|]|e]] Hr; cbn beta iota; [done|done|]. apply IH; [eauto|lia]. }
  cbn [inTx_loop]. destruct (Z.ltb_spec 0 attempt) as [Hlt|]; [|exact Htry].
  destruct (Herr Hlt) as (e & -> & He). apply every_seq.
  - apply every_emit_all; [|done]. intros ev Hev. by apply (Hretry e).
  - intros _. apply every_call; [done|]. intros [e'|]; [done|exact Htry].
Qed.

Lemma every_inTx vars : every (inTx s fn vars) good_result.
Proof. apply every_inTx_loop; lia. Qed.
End inTx.
End every.

(** Fewer commands. *)
Lemma every_weaken (K K' : command_pred) {A} (p : prog A) Q :
  (∀ R c, K R c → K' R c) → every K p Q → every K' p Q.
Proof.
  intros HK. induction p as [a|R c k IH]; simpl; [done|]. intros [Hc Hk]. split; [auto|].
  intros r. by apply IH.
Qed.

(** ** Interleavings

    A program of commands that outside a transaction change the tables only
    as [G] allows. *)

Section interleaved.
Context `{PgText} (C : choice → Prop) {A : Type} (K : command_pred) (G : db → db → Prop).

Definition tame : Prop := ∀ (R : Set) (c : cmd R) ch w, K R c → session w = None →
  let w' := (exec_cmd ch w c).2 in
  session w' = None ∧
  (commits w' = commits w ∨ (commits w' = (committed w, committed w') :: commits w ∧ G (committed w) (committed w'))).

(** What is left of a program, and what it committed. *)
Lemma reachable_rest d0 (ps : list (prog A)) σ i p t :
  tame → reachable C d0 ps σ → ps !! i = Some p → every K p (λ _, True) →
  sys_threads σ !! i = Some t →
  every K (th_prog t) (λ _, True) ∧ session (th_world t) = None ∧ ∀ a b, (a, b) ∈ commits (th_world t) → G a b.
Proof.
  intros Htame Hr Hp Hev Ht. revert t Ht. induction Hr as [|σ σ' Hr IH Hst]; intros t Ht.
  - simpl in Ht. rewrite list_lookup_fmap, Hp in Ht. injection Ht as <-. simpl.
    split_and!; [done|done|]. by intros a b ?%not_elem_of_nil.
  - destruct Hst as [d ths j B c k w ch Hj HC w0 r w' Hgt]. simpl in Ht.
    rewrite list_lookup_insert_Some in Ht. destruct Ht as [(-> & <- & _)|[_ Ht]]; [|by apply IH].
    destruct (IH _ Hj) as ([Hc Hk] & Hs & Hcs). cbn [th_prog th_world] in *.
    destruct (Htame B c ch w0 Hc Hs) as [Hs' Hcm]. fold w' in Hs', Hcm. split; [apply Hk|].
    split; [done|]. intros a b. destruct Hcm as [->|[-> HG]]; [by apply Hcs|].
    intros [[= -> ->]|Hab]%elem_of_cons; [done|by apply Hcs].
Qed.

Lemma reachable_every d0 (ps : list (prog A)) σ i p t :
  tame → reachable C d0 ps σ → ps !! i = Some p → every K p (λ _, True) →
  sys_threads σ !! i = Some t → ∀ a b, (a, b) ∈ commits (th_world t) → G a b.
Proof. intros Htame Hr Hp Hev Ht. by eapply reachable_rest. Qed.
End interleaved.

(** ** Events *)

(** Commands that emit only events that satisfy [P]. *)
Definition emits (P : event → Prop) : command_pred := λ R c,
  match c with Emit e => P e | _ => True end.

(** The events of a program that meets a postcondition. *)
Lemma wp_trace `{PgText} (C : choice → Prop) R {A} (P : event → Prop) (p : prog A) Q w :
  every (emits P) p (λ _, True) → Forall P (trace w) → wp C R p Q w →
  wp C R p (λ a w', Q a w' ∧ Forall P (trace w')) w.
Proof.
  revert w. induction p as [a|B c k IH]; intros w; simpl; [done|].
  intros [Hc Hk] Htr Hp d ch Hch Hr. destruct (Hp d ch Hch Hr) as [Hg Hw]. split; [done|].
  apply IH; [apply Hk| |done]. rewrite exec_cmd_trace. apply Forall_app. split; [done|].
  destruct c; by repeat constructor.
Qed.

Lemma reachable_trace `{PgText} (C : choice → Prop) {A} (P : event → Prop) d0 (ps : list (prog A)) σ i p t :
  reachable C d0 ps σ → ps !! i = Some p → every (emits P) p (λ _, True) →
  sys_threads σ !! i = Some t → ∀ e, e ∈ trace (th_world t) → P e.
Proof.
  intros Hr Hp Hev Ht.
  enough (every (emits P) (th_prog t) (λ _, True) ∧ ∀ e, e ∈ trace (th_world t) → P e) by tauto.
  revert t Ht. induction Hr as [|σ σ' Hr IH Hst]; intros t Ht.
  - simpl in Ht. rewrite list_lookup_fmap, Hp in Ht. injection Ht as <-. split; [done|].
    by intros e ?%not_elem_of_nil.
  - destruct Hst as [d ths j B c k w ch Hj HC w0 r w' Hgt]. simpl in Ht.
    rewrite list_lookup_insert_Some in Ht. destruct Ht as [(-> & <- & _)|[_ Ht]]; [|by apply IH].
    destruct (IH _ Hj) as [[Hc Hk] Htr]. cbn [th_prog th_world] in *. split; [apply Hk|].
    intros e. unfold w'. rewrite exec_cmd_trace, elem_of_app. intros [He|He]; [by apply Htr|].
    destruct c; try (by apply not_elem_of_nil in He). by apply list_elem_of_singleton in He as ->.
Qed.

(** ** Reading *)

Definition is_select {R} (s : stmt R) : bool :=
  match s with
  | SelectWallet _ | SelectTransfer _ | SelectTransferByKey _ _ | SelectInvariants => true
  | _ => false
  end.

(** Commands that change nothing. *)
Definition reads : command_pred := λ R c,
  match c with Emit _ => True | PoolStmt s => is_select s = true | _ => False end.

(** Those, and the upsert of a user. *)
Definition reads_or_user : command_pred := λ R c,
  match c with
  | Emit _ => True
  | PoolStmt s => is_select s = true ∨ match s with UpsertUserStmt _ => True | _ => False end
  | _ => False
  end.

(** Money and history are as they were. *)
Definition same_money (a b : db) : Prop :=
  wallets b = wallets a ∧ transfers b = transfers a ∧ ledger_entries b = ledger_entries a ∧
  mints b = mints a.

Section tame.
Context `{PgText}.

Lemma select_writes {R : Set} (st : stmt R) u now d r ws :
  is_select st = true → exec_stmt u now d st = Ok (r, ws) → ws = [].
Proof.
  destruct st; try done; intros _; simpl;
    unfold select_wallet, select_transfer, select_transfer_by_key, select_invariants;
    intros He; repeat (apply rbind_Ok in He as (? & _ & He)); by injection He.
Qed.

Lemma upsert_user_writes u now d h r ws :
  exec_stmt u now d (UpsertUserStmt h) = Ok (r, ws) → same_money d (apply_writes d ws).
Proof.
  simpl. unfold upsert_user. destruct (user_by_hash d h) as [[i row]|].
  - by intros [= <- <-].
  - intros He. apply rbind_Ok in He as (? & _ & He). by injection He as <- <-.
Qed.

(** Emitting and statements on the pool, one by one. *)
Lemma tame_pool (G : db → db → Prop) ch w {R : Set} (st : stmt R) :
  session w = None →
  (∀ r ws, exec_stmt (ch_uuid ch) (ch_now ch) (committed w) st = Ok (r, ws) →
     ws = [] ∨ G (committed w) (apply_writes (committed w) ws)) →
  let w' := (exec_cmd ch w (PoolStmt st)).2 in
  session w' = None ∧
  (commits w' = commits w ∨ (commits w' = (committed w, committed w') :: commits w ∧ G (committed w) (committed w'))).
Proof.
  intros Hs Hst. cbn [exec_cmd]. split; [by rewrite pool_session|]. unfold exec_pool_stmt.
  destruct (exec_stmt _ _ _ _) as [[r ws]|e] eqn:He; [|destruct (ch_fault ch); by left].
  specialize (Hst r ws eq_refl). destruct ws as [|x ws]; [destruct (ch_fault ch); simpl; [destruct (_ && _)|]; by left|].
  destruct Hst as [|HG]; [done|]. destruct (ch_fault ch); simpl; [destruct (_ && _); [|by left]|]; by right.
Qed.

Lemma tame_reads : tame reads (λ _ _, False).
Proof.
  intros R c ch w HK Hs. destruct c; try done; [|by split; [|left]].
  apply (tame_pool (λ _ _, False)); [done|]. intros r ws He. left. by eapply select_writes.
Qed.

(** A program that only reads can finish without meeting other tables than
    those of the moment, [d]. *)
Lemma wp_completes_reads (C : choice → Prop) (E : db → Prop) {A} (p : prog A) Q w d :
  (∃ ch, C ch) → every reads p (λ _, True) → session w = None → rely [] (committed w) d → E d →
  wp C (rely_on E) p Q w → ∃ a w', Q a w' ∧ commits w' = commits w ∧ trace w `prefix_of` trace w'.
Proof.
  intros [ch HC] Hev Hs Hr HE Hp. revert w Hev Hs Hr Hp.
  induction p as [a|D c k IH]; intros w Hev Hs Hr Hp; [by exists a, w|]. destruct Hev as [Hc Hev].
  assert (Hls : locks_of w = []) by (unfold locks_of; by rewrite Hs).
  destruct (Hp d ch HC) as [_ Hk]; [rewrite Hls; by split|].
  destruct (tame_reads D c ch (with_committed w d) Hc Hs) as [Hs' [Hcm|[_ []]]].
  assert (Hd : committed (exec_cmd ch (with_committed w d) c).2 = d).
  { destruct (exec_cmd_commits ch (with_committed w d) c) as [[_ Hd]|Hcm']; [done|].
    rewrite Hcm in Hcm'. apply (f_equal length) in Hcm'. simpl in Hcm'. lia. }
  destruct (IH _ _ (Hev _) Hs' ltac:(rewrite Hd; apply rely_refl) Hk) as (a & w' & HQ & Hcs & Htr).
  exists a, w'. split; [done|]. split; [by rewrite Hcs|]. etrans; [|exact Htr]. rewrite exec_cmd_trace. by eexists.
Qed.

(** So in a run, such a thread is on the way to its postcondition for the tables
    of the run. *)
Lemma run_completes_reads (C : choice → Prop) {A} d0 (ps : list (prog A)) Q h σ i p t :
  wf_db d0 → (∀ E j p, ps !! j = Some p → wp C (rely_on E) p (Q E j) (start d0)) →
  (∃ ch, C ch) → run_of C d0 ps h σ → ps !! i = Some p → every reads p (λ _, True) →
  sys_threads σ !! i = Some t →
  ∃ a w', Q (λ d, d ∈ h) i a w' ∧ commits w' = commits (th_world t) ∧ trace (th_world t) `prefix_of` trace w'.
Proof.
  intros Hwf Hps HC Hr Hp Hev Ht.
  destruct (reachable_rest C reads (λ _ _, False) d0 ps σ i p t tame_reads (run_reachable C _ _ _ _ Hr) Hp Hev Ht)
    as (Hrest & Hs & _).
  pose proof (run_inv C (λ d, d ∈ h) d0 ps _ Hwf (Hps _) h σ Hr (λ _ Hd, Hd)) as [_ _ Hths _].
  destruct (Hths i t Ht) as [_ Hrely Hwp _].
  eapply (wp_completes_reads C (λ d, d ∈ h) (th_prog t) _ (th_world t) (sys_db σ)); [done|done|done| | |done].
  - intros _. unfold locks_of in Hrely. by rewrite Hs in Hrely.
  - by eapply run_last.
Qed.

Lemma tame_reads_or_user : tame reads_or_user same_money.
Proof.
  intros R c ch w HK Hs. destruct c; try done; [|by split; [|left]].
  apply (tame_pool same_money); [done|]. intros r ws He. destruct HK as [Hsel|Hu]; [left; by eapply select_writes|].
  right. destruct s; try done. by eapply upsert_user_writes.
Qed.
End tame.
