(* ===== verification/Traces.v ===== *)
(** * The events of whole executions

    [emitting p Q]: however its commands are answered, [p] emits a list of
    events and returns a result that satisfy [Q] together.  Like [every] it
    looks at nothing but the program, so it holds of every finished session in
    every interleaving. *)

From S2P Require Import Prelude Errors Database Locks Obs Session Concurrent Cmds.

Definition events_of {R : Set} (c : cmd R) : list event := match c with Emit e => [e] | _ => [] end.

Fixpoint emitting {A} (p : prog A) (Q : list event → A → Prop) : Prop :=
  match p with
  | Ret a => Q [] a
  | Do c k => ∀ r, emitting (k r) (λ tr a, Q (events_of c ++ tr) a)
  end.

Lemma emitting_ret {A} (a : A) (Q : list event → A → Prop) : Q [] a → emitting (mret a) Q.
Proof. done. Qed.

Lemma emitting_mono {A} (p : prog A) (Q Q' : list event → A → Prop) :
  (∀ tr a, Q tr a → Q' tr a) → emitting p Q → emitting p Q'.
Proof.
  revert Q Q'. induction p as [a|R c k IH]; intros Q Q' HQ; simpl; [auto|]. intros Hk r.
  eapply IH; [|apply Hk]. auto.
Qed.

Lemma emitting_and {A} (p : prog A) (Q Q' : list event → A → Prop) :
  emitting p Q → emitting p Q' → emitting p (λ tr a, Q tr a ∧ Q' tr a).
Proof.
  revert Q Q'. induction p as [a|R c k IH]; intros Q Q'; simpl; [by split|]. intros H1 H2 r. by apply IH.
Qed.

Lemma emitting_bind {A B} (p : prog A) (f : A → prog B) Q :
  emitting p (λ tr a, emitting (f a) (λ tr' b, Q (tr ++ tr') b)) → emitting (p ≫= f) Q.
Proof.
  revert Q. unfold mbind, prog_bind. induction p as [a|R c k IH]; intros Q; simpl; [done|]. intros Hk r.
  apply IH. eapply emitting_mono; [|apply Hk]. intros tr a. apply emitting_mono. intros tr' b.
  by rewrite app_assoc.
Qed.

Lemma emitting_call {A} {R : Set} (c : cmd R) (k : R → prog A) Q :
  (∀ r, emitting (k r) (λ tr a, Q (events_of c ++ tr) a)) → emitting (call c ≫= k) Q.
Proof. done. Qed.

(** Every command can be answered, so every program can go on to its end. *)
Definition some_answer {R : Set} (c : cmd R) : R :=
  match c with
  | Begin | BatchClose | Commit | Savepoint | ReleaseSavepoint => Ok tt
  | TxStmt _ | PoolStmt _ => Err ErrNoRows
  | Rollback | RollbackToSavepoint | Emit _ => tt
  | Backoff _ => None
  end.

Lemma emitting_ends {A} (p : prog A) Q : emitting p Q → ∃ tr a, Q tr a.
Proof.
  revert Q. induction p as [a|R c k IH]; intros Q Hp; [by exists [], a|].
  destruct (IH (some_answer c) _ (Hp (some_answer c))) as (tr & a & HQ). by eexists _, a.
Qed.

(** Of a program that was unwound: what it emitted is the beginning of what it
    might have. *)
Lemma emitting_unwind {A} panics (p : prog A) Q :
  emitting p Q →
  emitting (unwind panics p) (λ tr o,
    match o with Some a => Q tr a | None => (∃ tr' a, Q (tr ++ tr') a) ∧ ∃ n, panics n = true end).
Proof.
  revert panics Q. induction p as [a|R c k IH]; intros panics Q; simpl; [done|]. intros Hk r.
  destruct (logs c && panics 0%nat) eqn:Hl.
  - destruct (emitting_ends (k r) _ (Hk r)) as (tr & a & HQ). apply andb_true_iff in Hl as [_ Hl].
    split; [|by eexists]. exists tr, a. by rewrite app_nil_r.
  - eapply emitting_mono; [|apply IH, Hk]. intros tr [a|]; [done|]. intros [(tr' & a & HQ) [n Hn]].
    split; [exists tr', a; by rewrite <- app_assoc|]. destruct (logs c); by eexists.
Qed.

(** What [every] says of the events, a list that satisfies [P] throughout. *)
Lemma emitting_every {A} P (p : prog A) Q :
  every (emits P) p Q → emitting p (λ tr a, Forall P tr ∧ Q a).
Proof.
  induction p as [a|R c k IH]; simpl; [by split|]. intros [Hc Hk] r.
  eapply emitting_mono; [|apply IH, Hk]. intros tr a [Htr HQ]. split; [|done].
  apply Forall_app. split; [|done]. destruct c; by repeat constructor.
Qed.

(** ** Interleavings *)

Lemma reachable_emitting `{PgText} (C : choice → Prop) {A} d0 (ps : list (prog A)) σ i p a w Q :
  reachable C d0 ps σ → ps !! i = Some p → emitting p Q → finished σ i a w → Q (trace w) a.
Proof.
  intros Hr Hp He Hf.
  enough (Hinv : ∀ t, sys_threads σ !! i = Some t →
    emitting (th_prog t) (λ tr b, Q (trace (th_world t) ++ tr) b)).
  { specialize (Hinv _ Hf). simpl in Hinv. by rewrite app_nil_r in Hinv. }
  clear Hf. induction Hr as [|σ σ' Hr IH Hst]; intros t Ht.
  - simpl in Ht. rewrite list_lookup_fmap, Hp in Ht. by injection Ht as <-.
  - destruct Hst as [d ths j B c k v ch Hj HC w0 r w' Hgt]. simpl in Ht.
    rewrite list_lookup_insert_Some in Ht. destruct Ht as [(-> & <- & _)|[_ Ht]]; [|by apply IH].
    specialize (IH _ Hj). cbn [th_prog th_world] in *. specialize (IH r).
    eapply emitting_mono; [|exact IH]. intros tr b. unfold w'. rewrite exec_cmd_trace.
    change (trace w0) with (trace v). by rewrite <- app_assoc.
Qed.
