(* ===== verification/Metrics.v ===== *)
(** * The metric set (internal/obs/metrics.go)

    The collectors [NewMetrics] and [RegisterPoolGauge] declare -- kind, name,
    label names -- and what each metric operation of the code calls on them.
    [well_typed] is the client library's contract for such a call: a
    registered collector, one value per label -- of ASCII, which is valid
    UTF-8 -- a method the kind has, and no counter lowered; outside of it the
    library panics. *)

From Stdlib Require Import Ascii String.
From S2P Require Import Prelude GoStrings Errors Database Obs Session Cmds.

#[local] Open Scope string_scope.
#[local] Open Scope Z_scope.

(** ** Collectors *)

Inductive metric_kind := KCounter | KHistogram | KGauge | KGaugeFunc.

#[global] Instance metric_kind_eq_dec : EqDecision metric_kind.
Proof. solve_decision. Defined.

Record collector := MkCollector {
  mc_kind : metric_kind;
  mc_name : string;
  mc_labels : list string
}.

#[global] Instance collector_eq_dec : EqDecision collector.
Proof. solve_decision. Defined.

(** [Metrics]: its fields in order; [Registry] is the list of what is
    registered. *)
Module Metrics.
Record t := Mk {
  Registry : list collector;
  HTTPRequests : collector;
  HTTPDuration : collector;
  HTTPInFlight : collector;
  Transfers : collector;
  TransferAmount : collector;
  WalletsCreated : collector;
  WalletsReused : collector;
  MintedPaise : collector;
  DBRetries : collector;
  TotalBalance : collector;
  LedgerSum : collector
}.
End Metrics.
Import Metrics.

Definition NewMetrics : Metrics.t :=
  let requests := MkCollector KCounter "http_requests_total" ["method"; "route"; "status"] in
  let duration := MkCollector KHistogram "http_request_duration_seconds" ["method"; "route"] in
  let in_flight := MkCollector KGauge "http_requests_in_flight" [] in
  let transfers := MkCollector KCounter "wallet_transfers_total" ["outcome"] in
  let amount := MkCollector KCounter "wallet_transferred_paise_total" [] in
  let created := MkCollector KCounter "wallet_wallets_created_total" [] in
  let reused := MkCollector KCounter "wallet_wallets_reused_total" [] in
  let minted := MkCollector KCounter "wallet_minted_paise_total" [] in
  let retries := MkCollector KCounter "wallet_db_retries_total" ["sqlstate"] in
  let balance := MkCollector KGauge "wallet_total_balance_paise" [] in
  let ledger := MkCollector KGauge "wallet_ledger_sum_paise" [] in
  Metrics.Mk
    [requests; duration; in_flight; transfers; amount; created; reused; minted; retries; balance; ledger]
    requests duration in_flight transfers amount created reused minted retries balance ledger.

Definition with_registry (m : Metrics.t) (reg : list collector) : Metrics.t :=
  Metrics.Mk reg (HTTPRequests m) (HTTPDuration m) (HTTPInFlight m) (Transfers m) (TransferAmount m)
    (WalletsCreated m) (WalletsReused m) (MintedPaise m) (DBRetries m) (TotalBalance m) (LedgerSum m).

Definition RegisterPoolGauge (m : Metrics.t) : Metrics.t :=
  with_registry m (Registry m ++
    [MkCollector KGaugeFunc "wallet_db_pool_acquired_conns" [];
     MkCollector KGaugeFunc "wallet_db_pool_total_conns" []])%list.

(** ** Operations *)

Inductive metric_method := MInc | MDec | MAdd (v : Z) | MSet (v : Z) | MObserve.

(** The collector, label values and method of an operation of the code. *)
Definition metric_call (m : Metrics.t) (op : metric_op) : collector * list string * metric_method :=
  match op with
  | HTTPRequestsInc method route status => (HTTPRequests m, [method; route; status], MInc)
  | HTTPDurationObserve method route => (HTTPDuration m, [method; route], MObserve)
  | HTTPInFlightInc => (HTTPInFlight m, [], MInc)
  | HTTPInFlightDec => (HTTPInFlight m, [], MDec)
  | TransfersInc outcome => (Transfers m, [outcome], MInc)
  | TransferAmountAdd v => (TransferAmount m, [], MAdd v)
  | WalletsCreatedInc => (WalletsCreated m, [], MInc)
  | WalletsReusedInc => (WalletsReused m, [], MInc)
  | MintedPaiseAdd v => (MintedPaise m, [], MAdd v)
  | DBRetriesInc sqlstate => (DBRetries m, [sqlstate], MInc)
  | TotalBalanceSet v => (TotalBalance m, [], MSet v)
  | LedgerSumSet v => (LedgerSum m, [], MSet v)
  end.

Definition method_fits (k : metric_kind) (f : metric_method) : bool :=
  match k, f with
  | KCounter, MInc | KGauge, (MInc | MDec | MSet _ | MAdd _) | KHistogram, MObserve => true
  | KCounter, MAdd v => 0 <=? v
  | _, _ => false
  end.

Definition well_typed (reg : list collector) (call : collector * list string * metric_method) : bool :=
  let '(c, labels, f) := call in
  bool_decide (c ∈ reg) && (length labels =? length (mc_labels c))%nat && forallb ascii7 labels &&
  method_fits (mc_kind c) f.

(** The metric set of the process. *)
Definition process_metrics : Metrics.t := RegisterPoolGauge NewMetrics.

Definition typed_op (op : metric_op) : bool :=
  well_typed (Registry process_metrics) (metric_call process_metrics op).

(** ** Lemmas *)

(** What an operation must satisfy, its collector being declared as it is. *)
Definition op_fits (op : metric_op) : bool :=
  match op with
  | HTTPRequestsInc method route status => ascii7 method && ascii7 route && ascii7 status
  | HTTPDurationObserve method route => ascii7 method && ascii7 route
  | TransfersInc s | DBRetriesInc s => ascii7 s
  | TransferAmountAdd v | MintedPaiseAdd v => 0 <=? v
  | _ => true
  end.

Lemma typed_op_fits op : typed_op op = op_fits op.
Proof.
  unfold typed_op, well_typed.
  assert (Hreg : bool_decide ((metric_call process_metrics op).1.1 ∈ Registry process_metrics) = true)
    by (destruct op; vm_compute; reflexivity).
  assert (Hmeth : ∀ v, method_fits KCounter (MAdd v) = (0 <=? v)) by done.
  destruct (metric_call process_metrics op) as [[c labels] f] eqn:Hc. cbn [fst] in Hreg. rewrite Hreg.
  destruct op; injection Hc as <- <- <-; cbn [mc_kind mc_labels op_fits]; rewrite ?Hmeth; simpl;
    by rewrite ?andb_true_r, ?andb_assoc.
Qed.

Lemma float64_nonneg n : 0 ≤ n → 0 ≤ float64_of_int64 n.
Proof.
  intros Hn. unfold float64_of_int64. destruct (_ <=? 0) eqn:He; [done|]. apply Z.leb_gt in He.
  set (p := 2 ^ (Z.log2 (Z.abs n) - 52)). assert (0 < p) by (apply Z.pow_pos_nonneg; lia).
  assert (0 ≤ Z.abs n / p) by (apply Z.div_pos; lia). assert (0 ≤ Z.sgn n) by lia.
  cbv zeta. repeat case_match; nia.
Qed.

Lemma pretty_N_ascii x s : ascii7 s = true → ascii7 (pretty_N_go x s) = true.
Proof.
  revert s. induction (N.lt_wf_0 x) as [x _ IH]; intros s Hs.
  destruct (decide (x = 0)%N) as [->|Hx]; [by rewrite pretty_N_go_0|].
  rewrite pretty_N_go_step by lia. apply IH; [apply N.div_lt; lia|]. cbn [ascii7].
  rewrite Hs, andb_true_r. by destruct (x `mod` 10)%N as [|[[[[]|[]|]|[[]|[]|]|]|[[[]|[]|]|[[]|[]|]|]|]].
Qed.

Lemma Itoa_ascii n : ascii7 (Itoa n) = true.
Proof.
  assert (HN : ∀ x, ascii7 (pretty (A := N) x) = true).
  { intros x. unfold pretty, pretty_N. case_decide; [done|by apply pretty_N_ascii]. }
  unfold Itoa. destruct n as [|p|p]; [done|apply HN|].
  change (pretty (Z.neg p)) with ("-" +:+ pretty (N.pos p)). rewrite ascii7_app. by rewrite HN.
Qed.

(** ** Events that use the metric set as declared *)

Definition typed_event (e : event) : Prop :=
  match e with EvMetric m => typed_op m = true | EvLog _ => True end.

(** Whose operations they are: the observing wrapper's, the transfer
    handler's, or the others'. *)
Definition http_metric (op : metric_op) : bool :=
  match op with
  | HTTPRequestsInc _ _ _ | HTTPDurationObserve _ _ | HTTPInFlightInc | HTTPInFlightDec => true
  | _ => false
  end.

Definition transfer_metric (op : metric_op) : bool :=
  match op with TransfersInc _ | TransferAmountAdd _ => true | _ => false end.

Definition other_fits (op : metric_op) : bool :=
  negb (http_metric op) && negb (transfer_metric op) && op_fits op.

(** What it takes for the events of the code to be allowed: those every part
    may emit, those of the transfer handler, the gauge of the wrapper. *)
Record allows_events (K : command_pred) : Prop := {
  ae_log : ∀ r, K _ (Emit (EvLog r));
  ae_other : ∀ m, other_fits m = true → K _ (Emit (EvMetric m))
}.

Definition allows_transfers (K : command_pred) : Prop :=
  ∀ m, transfer_metric m = true → op_fits m = true → K _ (Emit (EvMetric m)).

Definition allows_gauge (K : command_pred) : Prop :=
  K _ (Emit (EvMetric HTTPInFlightInc)) ∧ K _ (Emit (EvMetric HTTPInFlightDec)).
