(* ===== verification/ApiCmds.v ===== *)
(** * The commands of the handlers

    Each store call and each handler under [every], for any [K] that allows
    the events of the code and the statements the handler needs. *)

From S2P Require Import Prelude GoStrings Errors Database Obs Session Store Wallets Transfers.
From S2P Require Import InvariantAudit Ring Http Middleware Handlers Routing Api Process Cmds Metrics.

Section cmds.
Context `{PgText} (K : command_pred) (s : Server).
Context (Hev : allows_events K).

Lemma every_metric {A} m (p : prog A) Q : other_fits m = true → every K p Q → every K (metric m;; p) Q.
Proof. intros Hm Hp. apply every_call; [by apply Hev|done]. Qed.

Lemma every_transfer_metric {A} m (p : prog A) Q :
  allows_transfers K → transfer_metric m = true → op_fits m = true →
  every K p Q → every K (metric m;; p) Q.
Proof. intros Htr Hm Hf Hp. apply every_call; [by apply Htr|done]. Qed.

Lemma every_log {A} ctx lvl msg attrs (p : prog A) Q :
  every K p Q → every K (log_at s ctx lvl msg attrs;; p) Q.
Proof. intros Hp. unfold log_at. destruct (Enabled _ _); [|done]. by apply every_call; [apply Hev|]. Qed.

(** Walk through metrics, log lines, branches and returns. *)
Ltac walk :=
  repeat first
    [ apply every_log
    | apply every_metric; [reflexivity|]
    | apply every_transfer_metric; [assumption|reflexivity|reflexivity|]
    | match goal with
      | |- every _ (mret _) _ => apply every_ret; first [exact I | done | idtac]
      | |- every _ (Ret _) _ => apply every_ret; first [exact I | done | idtac]
      | |- every _ (if ?b then _ else _) _ => destruct b eqn:?
      | |- every _ (match ?x with _ => _ end) _ => destruct x eqn:?
      end ].

Lemma every_if {A} (b : bool) (p q : prog A) (Q : A → Prop) :
  every K p Q → every K q Q → every K (if b then p else q) Q.
Proof. by destruct b. Qed.

(** ** Reads *)

Section selects.
Context (Hsel : ∀ (R : Set) (st : stmt R), is_select st = true → K _ (PoolStmt st)).

Lemma every_query {A R} (st : stmt (option R)) (k : result error R → prog A) Q :
  K _ (PoolStmt st) → (∀ r, every K (k r) Q) → every K (pool_QueryRow st ≫= k) Q.
Proof. intros Hst Hk. apply every_bind. unfold pool_QueryRow. apply every_call; [done|]. intros r. apply Hk. Qed.

Lemma every_GetWallet id (Q : Wallet.t * option error → Prop) : (∀ r, Q r) → every K (GetWallet id) Q.
Proof. intros HQ. unfold GetWallet. apply every_query; [by apply Hsel|]. intros r. walk; apply HQ. Qed.

Lemma every_GetTransfer id (Q : Transfer.t * option error → Prop) : (∀ r, Q r) → every K (GetTransfer id) Q.
Proof. intros HQ. unfold GetTransfer. apply every_query; [by apply Hsel|]. intros r. walk; apply HQ. Qed.

Lemma every_CheckInvariants (Q : Invariants.t * option error → Prop) :
  (∀ r, Q r) → every K CheckInvariants Q.
Proof. intros HQ. unfold CheckInvariants. apply every_query; [by apply Hsel|]. intros r. walk; apply HQ. Qed.

Lemma every_handleGetWallet user r : every K (handleGetWallet s user r) (λ _, True).
Proof. unfold handleGetWallet. apply every_bind, every_GetWallet. intros [w e]. walk. Qed.

Lemma every_handleGetTransfer user r : every K (handleGetTransfer s user r) (λ _, True).
Proof. unfold handleGetTransfer. apply every_bind, every_GetTransfer. intros [w e]. walk. Qed.

Lemma every_handleInvariants r : every K (handleInvariants r) (λ _, True).
Proof. unfold handleInvariants. apply every_bind, every_CheckInvariants. intros [w e]. walk. Qed.

Lemma every_sample_tick : every K (sample_tick s) (λ _, True).
Proof.
  unfold sample_tick. apply every_bind, every_CheckInvariants. intros [inv [e|]]; walk.
  unfold log_at. walk. by split; [apply Hev|].
Qed.

Lemma every_sampleInvariants every_ns ticks : every K (sampleInvariants s every_ns ticks) (λ _, True).
Proof.
  unfold sampleInvariants. apply every_if; [done|]. induction ticks as [|n IH]; [done|].
  apply every_seq; [apply every_sample_tick|done].
Qed.

(** The transfer handler's own counts. *)
Section transfers.
Context (Htr : allows_transfers K).

Lemma every_stop_with r status code msg : every K (stop_with s r status code msg) (λ _, True).
Proof. unfold stop_with, rejectTransferStatus. apply every_seq; [walk|by intros]. Qed.

Lemma every_precheck_failed r err msg : every K (precheck_failed s r err msg) (λ _, True).
Proof. unfold precheck_failed. walk. Qed.

Lemma every_precheck user body r : every K (precheck s user body r) (λ _, True).
Proof.
  unfold precheck. apply every_bind, every_GetWallet. intros [fw [e|]]; cbn beta iota;
    [by apply every_if; [apply every_stop_with|apply every_precheck_failed]|].
  apply every_if; [apply every_stop_with|]. apply every_bind, every_GetWallet.
  intros [tw [e|]]; cbn beta iota; [|done]. apply every_if; [apply every_stop_with|apply every_precheck_failed].
Qed.
End transfers.
End selects.

(** ** Authentication and the observing wrapper *)

Lemma every_UpsertUser token (Q : User.t * option error → Prop) :
  (∀ h, K _ (PoolStmt (UpsertUserStmt h))) → (∀ r, Q r) → every K (UpsertUser token) Q.
Proof.
  intros Hu HQ. unfold UpsertUser. apply every_query; [done|]. intros [i|e]; apply every_ret, HQ.
Qed.

Lemma every_authenticate next r :
  (∀ h, K _ (PoolStmt (UpsertUserStmt h))) → (∀ user r, every K (next user r) (λ _, True)) →
  every K (authenticate s next r) (λ _, True).
Proof.
  intros Hu Hn. unfold authenticate. destruct (bearerToken r) as [tok|]; [|done].
  apply every_bind, every_UpsertUser; [done|]. intros [user [e|]]; cbn beta iota; [walk|apply Hn].
Qed.

Lemma every_log_if {A} (b : bool) ctx lvl msg attrs (p : prog A) Q :
  every K p Q → every K ((if b then log_at s ctx lvl msg attrs else mret tt);; p) Q.
Proof. intros Hp. destruct b; [by apply every_log|exact Hp]. Qed.

Lemma every_log_last (b : bool) ctx lvl msg attrs :
  every K (if b then log_at s ctx lvl msg attrs else mret tt) (λ _, True).
Proof. destruct b; [|done]. unfold log_at. by apply every_if; [split; [apply Hev|]|]. Qed.

Lemma every_observe closing random nanos next r :
  allows_gauge K →
  K _ (Emit (EvMetric (HTTPDurationObserve (rq_method r) (routeLabel r)))) →
  (∀ n, K _ (Emit (EvMetric (HTTPRequestsInc (rq_method r) (routeLabel r) (Itoa n))))) →
  (∀ ctx, every K (next (with_context r ctx)) (λ _, True)) →
  every K (observe s closing random nanos next r) (λ _, True).
Proof.
  intros [Hi Hdec] Hd Hq Hn. unfold observe. apply every_call; [exact Hi|]. intros _. apply every_seq; [apply Hn|].
  intros [ops panicked]. apply every_seq; [|intros o; by apply every_call].
  eapply every_mono, every_unwind; [done|]. unfold observe_deferred. apply (every_log_if panicked).
  apply every_call; [exact Hd|]. intros _. apply every_call; [apply Hq|]. intros _. apply every_log_last.
Qed.

(** ** Writes *)

Definition silent {R} (c : cmd R) : bool := match c with Emit _ => false | _ => true end.

(** The commands of a transaction's body. *)
Definition in_body {R} (c : cmd R) : bool :=
  match c with TxStmt _ | BatchClose | Savepoint | ReleaseSavepoint | RollbackToSavepoint => true | _ => false end.

Section bodies.
Context (Hbody : ∀ (R : Set) (c : cmd R), in_body c = true → K _ c).

Lemma every_inner {A} {R : Set} (c : cmd R) (k : R → prog A) Q :
  in_body c = true → (∀ r, every K (k r) Q) → every K (call c ≫= k) Q.
Proof. intros Hc. by apply every_call, Hbody. Qed.

Lemma every_tx_query {A R} (st : stmt (option R)) (k : result error R → prog A) Q :
  (∀ r, every K (k r) Q) → every K (tx_QueryRow st ≫= k) Q.
Proof. intros Hk. apply every_bind. unfold tx_QueryRow. apply every_inner; [done|]. intros r. apply Hk. Qed.

Lemma every_batch {A} {R : Set} (queue : list (stmt R)) (k : list (result error R) → prog A) Q :
  (∀ r, every K (k r) Q) → every K (SendBatch queue ≫= k) Q.
Proof. intros Hk. apply every_bind, every_SendBatch; [|done]. intros st _. by apply Hbody. Qed.

(** The document of a fresh transfer carries the amount of its request, or of
    the document it completes. *)
Definition settles (a : Z) (r : result error TransferResult.t) : Prop :=
  match r with Ok res => Transfer.AmountPaise (TransferResult.Transfer res) = a | Err _ => True end.

Lemma every_settle req t :
  Transfer.AmountPaise t = TransferRequest.AmountPaise req →
  every K (settle_claimed req t) (settles (TransferRequest.AmountPaise req)).
Proof.
  intros Ht. unfold settle_claimed. apply every_bind.
  apply (every_mono K _ (λ _, True)).
  - intros [bal|e] _; [|done]. apply every_if.
    + unfold decline. apply every_tx_query. intros [c|e]; done.
    + unfold apply_transfer. apply every_batch. intros abr. destruct (read_apply abr).
      * apply every_inner; [done|]. by intros [].
      * by apply every_inner.
  - unfold lock_wallets. destruct (lock_order _ _) as [lo hi]. apply every_batch. intros br.
    destruct (read_balances br 0 2 ∅); apply every_inner; try done; [by intros []|].
    intros _. by apply every_if.
Qed.

Lemma every_transfer_body req fp vars :
  every K (transfer_body req fp vars) (good_result (λ v,
    tv_replayed v = false →
    Transfer.AmountPaise (TransferResult.Transfer (tv_result v)) = TransferRequest.AmountPaise req)).
Proof.
  unfold transfer_body. apply every_tx_query. intros [[id created]|e].
  - apply every_bind. eapply every_mono; [|by apply every_settle].
    by intros [res|e] Hs; [intros _|].
  - by repeat apply every_if.
Qed.

Lemma every_mint_finish w a vars : every K (mint_finish w a vars) (good_result (λ _, True)).
Proof.
  assert (Hback : every K (r ← tx_QueryRow (SelectWallet w);
    match r with
    | Ok (i, row) => mret (MkMintVars (scan_wallet i row) (mv_applied vars), None)
    | Err err => mret (vars, Some err)
    end) (good_result (λ _, True))).
  { apply every_tx_query. by intros [[i row]|e]. }
  unfold mint_finish. apply every_if; [|done]. unfold tx_Exec. apply every_inner; [done|]. by intros [n|e].
Qed.

Lemma every_mint_body w k a vars : every K (mint_body w k a vars) (good_result (λ _, True)).
Proof.
  unfold mint_body. apply every_inner; [done|]. intros [[]|e]; [|done].
  unfold tx_Exec. apply every_inner; [done|]. intros [n|e].
  - apply every_inner; [done|]. intros [[]|e]; [apply every_mint_finish|done].
  - apply every_inner; [done|]. intros _. apply every_if; [apply every_mint_finish|by apply every_if].
Qed.
End bodies.

Section writes.
Context (Hall : ∀ (R : Set) (c : cmd R), silent c = true → K _ c).

Lemma inner_allowed (R : Set) (c : cmd R) : in_body c = true → K _ c.
Proof. intros Hc. apply Hall. by destruct c. Qed.

Context (Hretry : ∀ err e, isTransient err = true → e ∈ onRetry (sv_store s) (sqlstate err) → K _ (Emit e)).

Lemma every_silent {A} {R : Set} (c : cmd R) (k : R → prog A) Q :
  silent c = true → (∀ r, every K (k r) Q) → every K (call c ≫= k) Q.
Proof. intros Hc. by apply every_call, Hall. Qed.

Lemma every_replay req fp :
  every K (replay req fp) (λ r, r.2 = None → TransferResult.Replay r.1 = true).
Proof.
  unfold replay. apply every_bind. unfold transferByKey. apply every_query; [by apply Hall|].
  intros [[i row]|e]; [|apply every_if]; apply every_ret; cbn beta iota; [by apply every_if|done|done].
Qed.

Lemma every_Transfer req :
  every K (Transfer (sv_store s) req) (λ r,
    r.2 = None → TransferResult.Replay r.1 = false →
    Transfer.AmountPaise (TransferResult.Transfer r.1) = TransferRequest.AmountPaise req).
Proof.
  unfold Transfer. apply every_if; [done|]. apply every_bind.
  eapply every_mono; [|apply (every_inTx K (sv_store s) _ (λ v, tv_replayed v = false →
    Transfer.AmountPaise (TransferResult.Transfer (tv_result v)) = TransferRequest.AmountPaise req));
    [intros; by apply Hall..|done|by apply every_transfer_body, inner_allowed]].
  intros [v e] Hg. cbn beta iota. destruct (tv_replayed v || Is e errReplay) eqn:Hr.
  - eapply every_mono; [|apply every_replay]. intros r Hrep Hn Hf. by rewrite (Hrep Hn) in Hf.
  - apply orb_false_iff in Hr as [Hr _]. destruct e as [e|]; [done|]. intros _ _. by apply Hg.
Qed.

Lemma every_transfer_events {A} r res (p : prog A) Q :
  allows_transfers K →
  (TransferResult.Replay res = false → 0 ≤ Transfer.AmountPaise (TransferResult.Transfer res)) →
  every K p Q → every K (transfer_events s r res;; p) Q.
Proof.
  intros Htr Ha Hp. apply every_seq; [|done]. unfold transfer_events.
  destruct (TransferResult.Replay res); [|destruct (String.eqb _ _)]; apply every_transfer_metric; try done.
  2: apply every_transfer_metric; [done|done|by apply Z.leb_le, float64_nonneg, Ha|].
  all: unfold log_at; apply every_if; [by split; [apply Hev|]|done].
Qed.

Lemma every_handleCreateTransfer user r :
  allows_transfers K → every K (handleCreateTransfer s user r) (λ _, True).
Proof.
  intros Htr. assert (Hsel : ∀ (R : Set) (st : stmt R), is_select st = true → K _ (PoolStmt st)) by (intros; by apply Hall).
  unfold handleCreateTransfer, rejectTransfer, rejectTransferStatus.
  destruct (decode_transfer r) as [body|e]; [|by walk].
  destruct (validate body) as [a|[code msg]] eqn:Hv; [|by walk].
  apply every_seq; [by apply every_precheck|]. intros [ops|]; [done|].
  apply every_log, every_bind. eapply every_mono; [|apply every_Transfer].
  intros [res [e|]] Hres; cbn beta iota.
  - unfold transfer_failed, rejectTransfer, rejectTransferStatus. walk.
  - apply every_transfer_events; [done| |done]. intros Hrep. simpl in Hres. rewrite Hres by done.
    revert Hv. unfold validate. destruct body. repeat case_match; try done. intros [= <-].
    match goal with Hle : (_ <=? 0) = false |- _ => apply Z.leb_gt in Hle end. by apply Z.lt_le_incl.
Qed.

Lemma every_Mint w k a : every K (Mint (sv_store s) w k a) (λ _, True).
Proof.
  unfold Mint. apply every_seq; [|intros [v e]; by apply every_if].
  eapply every_mono; [|apply (every_inTx K (sv_store s) _ (λ _, True)); [intros; by apply Hall..|done|]]; [done|].
  intros vars. apply every_mint_body, inner_allowed.
Qed.

Lemma every_handleMint r : every K (handleMint s r) (λ _, True).
Proof.
  unfold handleMint. destruct (decode_mint r) as [[w amount k]|e]; [|done].
  destruct amount as [a|]; [|done]. destruct (String.eqb w "" || (a <=? 0)) eqn:Hg; [done|].
  apply every_if; [done|]. apply every_seq; [apply every_Mint|]. intros [[wallet applied] [e|]]; cbn beta iota.
  - walk.
  - apply every_seq; [|intros _; walk]. destruct applied; [|done]. unfold metric. split; [|done].
    apply Hev. cbn [other_fits http_metric transfer_metric op_fits negb andb]. apply orb_false_iff in Hg as [_ Hg]. apply Z.leb_gt in Hg.
    apply Z.leb_le, float64_nonneg. lia.
Qed.

Lemma every_handleCreateWallet user r : every K (handleCreateWallet s user r) (λ _, True).
Proof.
  unfold handleCreateWallet. apply every_bind. unfold GetOrCreateWallet. apply every_query; [by apply Hall|].
  intros [[[i row] created]|e]; apply every_ret; cbn beta iota; [|walk].
  apply every_metric; [by destruct created|]. walk.
Qed.

End writes.
End cmds.
