(* ===== verification/Counting.v ===== *)
(** * What is counted: the events of requests

    The events of the observing wrapper around any handler, and the transfer
    metrics of POST /transfers as a function of its response. *)

From Stdlib Require Import String.
From S2P Require Import Prelude GoStrings Errors Database Obs Session Store Wallets Transfers.
From S2P Require Import InvariantAudit Ring Http Middleware Handlers Routing Api Process Cmds Traces Metrics ApiCmds.

#[local] Open Scope string_scope.
#[local] Open Scope Z_scope.
#[local] Open Scope list_scope.

(** ** The observing wrapper *)

(** The event of a log call, if the level is enabled. *)
Definition logged (s : Server) (ctx : context) (level : Level) (msg : string) (attrs : list (string * attr_value))
    : list event :=
  if Enabled (sv_level s) level then [EvLog (Handle ctx (MkRecord level msg attrs))] else [].

(** The lines of the wrapper: of a panic it recovered, and of the request. *)
Definition panic_line (s : Server) (ctx : context) (r : request) (panicked : bool) : list event :=
  if panicked
  then logged s ctx LevelError "panic recovered" [("panic", AOpaque); ("path", AString (rq_path r))]
  else [].

Definition access_line (s : Server) (ctx : context) (r : request) (status : Z) : list event :=
  if negb (isNoisyRoute (routeLabel r))
  then logged s ctx LevelInfo "http_request"
    [("event", AString "http_request"); ("method", AString (rq_method r));
     ("route", AString (routeLabel r)); ("path", AString (rq_path r)); ("status", AInt64 status);
     ("duration_ms", AOpaque); ("bytes", AOpaque)]
  else [].

(** What counts a request: its latency, and one more with its status. *)
Definition request_counts (r : request) (status : Z) : list event :=
  [EvMetric (HTTPDurationObserve (rq_method r) (routeLabel r));
   EvMetric (HTTPRequestsInc (rq_method r) (routeLabel r) (Itoa status))].

Definition has_line (es : list event) : bool := match es with [] => false | _ => true end.

(** The line of the recovered panic panics itself, before anything is counted;
    the line of the request does, once everything is. *)
Definition uncounted (s : Server) (closing : nat → bool) (ctx : context) (r : request) (panicked : bool) : bool :=
  has_line (panic_line s ctx r panicked) && closing 0%nat.

Definition unlogged (s : Server) (closing : nat → bool) (ctx : context) (r : request) (panicked : bool) (status : Z)
    : bool :=
  has_line (access_line s ctx r status) && closing (length (panic_line s ctx r panicked)).

(** What the deferred functions emit, and whether a panic escapes them. *)
Definition deferred_events (s : Server) (closing : nat → bool) (ctx : context) (r : request) (panicked : bool)
    (status : Z) : list event :=
  panic_line s ctx r panicked ++
  (if uncounted s closing ctx r panicked then [] else request_counts r status ++ access_line s ctx r status) ++
  [EvMetric HTTPInFlightDec].

Definition escapes (s : Server) (closing : nat → bool) (ctx : context) (r : request) (panicked : bool) (status : Z)
    : bool :=
  uncounted s closing ctx r panicked || unlogged s closing ctx r panicked status.

Definition http_event (e : event) : bool := match e with EvMetric m => http_metric m | EvLog _ => false end.

Section wrapper.
Context `{PgText} (s : Server).

Lemma emitting_metric {A} m (p : prog A) Q :
  emitting p (λ tr a, Q (EvMetric m :: tr) a) → emitting (metric m;; p) Q.
Proof. intros Hp. by apply emitting_call. Qed.

Lemma emitting_log {A} ctx lvl msg attrs (p : prog A) Q :
  emitting p (λ tr a, Q (logged s ctx lvl msg attrs ++ tr) a) → emitting (log_at s ctx lvl msg attrs;; p) Q.
Proof. unfold log_at, logged. destruct (Enabled _ _); intros Hp; [by apply emitting_call|done]. Qed.

Lemma emitting_deferred closing ctx r panicked status :
  let code := if status =? 0 then StatusOK else status in
  emitting (unwind closing (observe_deferred s ctx r panicked status)) (λ tr o,
    tr ++ [EvMetric HTTPInFlightDec] = deferred_events s closing ctx r panicked code ∧
    escapes s closing ctx r panicked code = match o with Some _ => false | None => true end).
Proof.
  intros code. unfold observe_deferred, escapes, deferred_events, unlogged, uncounted, panic_line, access_line, logged.
  fold code. unfold log_at. destruct panicked, (Enabled (sv_level s) LevelError), (isNoisyRoute (routeLabel r)),
    (Enabled (sv_level s) LevelInfo); cbn; repeat (destruct (closing _); cbn); done.
Qed.

(** Whatever the handler emits and answers, the wrapper adds the same. *)
Lemma emitting_observe closing random nanos next r Q :
  let id := if String.eqb (rq_header r correlationHeader) "" then newCorrelationID random nanos
            else rq_header r correlationHeader in
  let r' := with_context r (WithCorrelationID (rq_ctx r) id) in
  emitting (next r') Q →
  emitting (observe s closing random nanos next r) (λ tr ops, ∃ inner panicked m,
    let unanswered := panicked && (status_of inner =? 0) in
    let status := if unanswered then StatusInternalServerError
                  else if status_of inner =? 0 then StatusOK else status_of inner in
    Q m (inner, panicked) ∧
    ops = SetHeader correlationHeader id :: inner ++
      (if unanswered then writeError r' StatusInternalServerError "internal_error" "unexpected server error" else []) ++
      (if escapes s closing (rq_ctx r') r' panicked status then [Abort] else []) ∧
    tr = EvMetric HTTPInFlightInc :: m ++ deferred_events s closing (rq_ctx r') r' panicked status).
Proof.
  intros id r' Hn. unfold observe. fold id. fold r'. apply emitting_metric, emitting_bind.
  eapply emitting_mono; [|exact Hn]. intros m [inner panicked] HQ. cbn beta iota.
  apply emitting_bind. eapply emitting_mono; [|apply emitting_deferred]. intros tr o [Htr Ho].
  apply emitting_metric, emitting_ret. exists inner, panicked, m. cbv zeta.
  change (rq_ctx r') with (WithCorrelationID (rq_ctx r) id).
  destruct (panicked && _) eqn:Hp;
    [change (if StatusInternalServerError =? 0 then StatusOK else StatusInternalServerError)
       with StatusInternalServerError in Ho, Htr|];
    (split; [done|]); rewrite Ho, <- Htr; by destruct o.
Qed.
End wrapper.

(** ** The transfer metrics *)

Definition transfer_metrics (tr : list event) : list metric_op :=
  omap (λ e, match e with EvMetric m => if transfer_metric m then Some m else None | EvLog _ => None end) tr.

Definition quiet_event (e : event) : Prop := transfer_metrics [e] = [].

(** The document of a response, and whether it is marked as a replay. *)
Definition document (ops : list write_op) : option Transfer.t :=
  head (omap (λ op, match op with WriteBody (PTransfer t) => Some t | _ => None end) ops).

Definition replay_header (ops : list write_op) : bool :=
  existsb (λ op, match op with SetHeader k _ => String.eqb k "Idempotent-Replay" | _ => false end) ops.

(** What a response to POST /transfers is counted as: a document by its
    status or as a replay, a conflict, a rejection, and a 500 or a 401 as
    nothing. *)
Definition counted (ops : list write_op) : list metric_op :=
  let status := status_of ops in
  match document ops with
  | Some t =>
      if replay_header ops then [TransfersInc OutcomeReplay]
      else if String.eqb (Transfer.Status t) StatusSucceeded then
        [TransfersInc OutcomeSucceeded; TransferAmountAdd (float64_of_int64 (Transfer.AmountPaise t))]
      else [TransfersInc OutcomeInsufficient]
  | None =>
      if status =? StatusConflict then [TransfersInc OutcomeConflict]
      else if existsb (Z.eqb status)
                [StatusBadRequest; StatusForbidden; StatusNotFound; StatusUnprocessableEntity]
      then [TransfersInc OutcomeInvalid] else []
  end.

Section counting.
Context `{PgText} (s : Server).

(** [emitting], of the transfer metrics alone. *)
Definition counting {A} (p : prog A) (Q : list metric_op → A → Prop) : Prop :=
  emitting p (λ tr a, Q (transfer_metrics tr) a).

Lemma transfer_metrics_app a b : transfer_metrics (a ++ b) = transfer_metrics a ++ transfer_metrics b.
Proof. apply omap_app. Qed.

Lemma quiet_metrics tr : Forall quiet_event tr → transfer_metrics tr = [].
Proof.
  induction 1 as [|e tr He _ IH]; [done|]. change (e :: tr) with ([e] ++ tr).
  by rewrite transfer_metrics_app, He, IH.
Qed.

Lemma logged_quiet ctx lvl msg attrs : transfer_metrics (logged s ctx lvl msg attrs) = [].
Proof. unfold logged. by destruct (Enabled _ _). Qed.

Lemma counting_log {A} ctx lvl msg attrs (p : prog A) Q :
  counting p Q → counting (log_at s ctx lvl msg attrs;; p) Q.
Proof.
  intros Hp. apply emitting_log. eapply emitting_mono; [|exact Hp]. intros tr a.
  by rewrite transfer_metrics_app, logged_quiet.
Qed.

Lemma counting_log_last ctx lvl msg attrs (Q : list metric_op → unit → Prop) :
  Q [] tt → counting (log_at s ctx lvl msg attrs) Q.
Proof. intros HQ. unfold log_at. destruct (Enabled _ _); [intros []|]; exact HQ. Qed.

Lemma counting_metric {A} m (p : prog A) Q :
  transfer_metric m = true → counting p (λ ms a, Q (m :: ms) a) → counting (metric m;; p) Q.
Proof.
  intros Hm Hp. apply emitting_metric. eapply emitting_mono; [|exact Hp]. intros tr a.
  unfold transfer_metrics. cbn. by rewrite Hm.
Qed.

Lemma counting_quiet {A B} (p : prog A) (f : A → prog B) R Q :
  every (emits quiet_event) p R → (∀ a, R a → counting (f a) Q) → counting (p ≫= f) Q.
Proof.
  intros Hp Hf. apply emitting_bind. eapply emitting_mono; [|by apply emitting_every].
  intros tr a [Htr HR]. eapply emitting_mono; [|by apply Hf]. intros tr' b.
  by rewrite transfer_metrics_app, (quiet_metrics tr Htr).
Qed.

Lemma counting_bind {A B} (p : prog A) (f : A → prog B) Q :
  counting p (λ ms a, counting (f a) (λ ms' b, Q (ms ++ ms') b)) → counting (p ≫= f) Q.
Proof.
  intros Hp. apply emitting_bind. eapply emitting_mono; [|exact Hp]. intros tr a Hf.
  eapply emitting_mono; [|exact Hf]. intros tr' b. by rewrite transfer_metrics_app.
Qed.

Lemma counting_mono {A} (p : prog A) (Q Q' : list metric_op → A → Prop) :
  (∀ ms a, Q ms a → Q' ms a) → counting p Q → counting p Q'.
Proof. intros HQ. apply emitting_mono. auto. Qed.

(** What is emitted elsewhere is quiet. *)
Lemma quiet_events : allows_events (emits quiet_event).
Proof. split; [done|]. intros m Hm. unfold emits, quiet_event. revert Hm. by destruct m. Qed.

Lemma quiet_select (R : Set) (st : stmt R) : is_select st = true → emits quiet_event _ (PoolStmt st).
Proof. done. Qed.

Lemma quiet_silent (R : Set) (c : cmd R) : silent c = true → emits quiet_event _ c.
Proof. by destruct c. Qed.

(** ** POST /transfers *)

Lemma counting_reject r status (code msg : string) Q :
  Q [TransfersInc OutcomeInvalid] (writeError r status code msg) →
  counting (rejectTransferStatus s r status code msg) Q.
Proof. intros HQ. unfold rejectTransferStatus. apply counting_metric; [done|]. by apply counting_log. Qed.

Definition stopped (ms : list metric_op) (o : option (list write_op)) : Prop :=
  match o with Some ops => ms = counted ops | None => ms = [] end.

Lemma counting_stop_with r status (code msg : string) :
  [TransfersInc OutcomeInvalid] = counted (writeError r status code msg) →
  counting (stop_with s r status code msg) stopped.
Proof. intros Hc. unfold stop_with. apply counting_bind, counting_reject. exact Hc. Qed.

Lemma counting_precheck_failed r err (msg : string) : counting (precheck_failed s r err msg) stopped.
Proof. unfold precheck_failed. by apply counting_log. Qed.

Lemma counting_precheck user body r : counting (precheck s user body r) stopped.
Proof.
  assert (Hget : ∀ id, every (emits quiet_event) (GetWallet id) (λ _, True))
    by (intros; by apply every_GetWallet; [exact quiet_select|]).
  unfold precheck. eapply counting_quiet; [apply Hget|]. intros [fw [e|]] _; cbn beta iota.
  { destruct (errors_Is _ _); [by apply counting_stop_with|apply counting_precheck_failed]. }
  destruct (negb _); [by apply counting_stop_with|].
  eapply counting_quiet; [apply Hget|]. intros [tw [e|]] _; cbn beta iota; [|done].
  destruct (errors_Is _ _); [by apply counting_stop_with|apply counting_precheck_failed].
Qed.

Lemma counting_transfer_failed r key err :
  counting (transfer_failed s r key err) (λ ms ops, ms = counted ops).
Proof.
  unfold transfer_failed. destruct (errors_Is _ _); [apply counting_metric; [done|]; by apply counting_log|].
  destruct (errors_Is _ _); [by apply counting_reject|]. destruct (errors_Is _ _); [by apply counting_reject|].
  by apply counting_log.
Qed.

Context (Hretry : ∀ err e, isTransient err = true → e ∈ onRetry (sv_store s) (sqlstate err) → quiet_event e).

Lemma counting_handleCreateTransfer user r :
  counting (handleCreateTransfer s user r) (λ ms ops, ms = counted ops).
Proof.
  unfold handleCreateTransfer. destruct (decode_transfer r) as [body|err]; [|by apply counting_metric].
  destruct (validate body) as [a|[code msg]]; [|by apply counting_reject].
  apply counting_bind. eapply counting_mono; [|apply counting_precheck]. intros ms [ops|] Hs; cbn beta iota.
  { apply emitting_ret. by rewrite app_nil_r. }
  simpl in Hs. subst ms. apply counting_log.
  eapply counting_quiet; [apply every_Transfer; [exact quiet_silent|exact Hretry]|].
  intros [res [e|]] _; cbn beta iota; [apply counting_transfer_failed|].
  unfold transfer_events. apply counting_bind.
  destruct (TransferResult.Replay res); [|destruct (String.eqb _ _) eqn:Hst]; apply counting_metric; try done;
    [|apply counting_metric; [done|]|]; apply counting_log_last, emitting_ret;
    unfold counted, document; simpl; by rewrite ?Hst.
Qed.

(** Behind the authentication: no credentials and failures are not counted. *)
Lemma counting_authenticate r :
  counting (authenticate s (handleCreateTransfer s) r) (λ ms ops, ms = counted ops).
Proof.
  unfold authenticate. destruct (bearerToken r) as [token|]; [|done].
  eapply counting_quiet; [by apply (every_UpsertUser _ token (λ _, True))|].
  intros [user [e|]] _; cbn beta iota; [by apply counting_log|apply counting_handleCreateTransfer].
Qed.
End counting.
