(* ===== verification/Panics.v ===== *)
(** * Programs that may be unwound

    [wpp p Q N] is [wp p Q] with a second postcondition, for panics: [N] holds
    whenever a log line of [p] was written, so it holds of what is left when
    that line unwinds the program.  The store logs in one place, the observer
    of a retry, where no transaction is open and nothing was committed. *)

From S2P Require Import Prelude Errors Database Locks Obs Session Store Wallets Transfers InvariantAudit.
From S2P Require Import Http Accounting Wp TxLoop Cmds ApiCmds.

Section wpp.
Context `{PgText} (C : choice → Prop) (R : list lock → db → db → Prop).

Fixpoint wpp {A} (p : prog A) (Q : A → world → Prop) (N : world → Prop) (w : world) : Prop :=
  match p with
  | Ret a => Q a w
  | Do c k => ∀ d ch, C ch → R (locks_of w) (committed w) d →
      let w0 := with_committed w d in
      let r := (exec_cmd ch w0 c).1 in
      let w' := (exec_cmd ch w0 c).2 in
      guar (locks_of w0 ++ cmd_locks ch w0 c) d (committed w') ∧
      (logs c = true → N w') ∧ wpp (k r) Q N w'
  end.

(** ** Structural rules *)

Lemma wpp_ret {A} (a : A) (Q : A → world → Prop) N w : Q a w → wpp (Ret a) Q N w.
Proof. done. Qed.

Lemma wpp_mono {A} (p : prog A) (Q Q' : A → world → Prop) (N N' : world → Prop) w :
  (∀ a w', Q a w' → Q' a w') → (∀ w', N w' → N' w') → wpp p Q N w → wpp p Q' N' w.
Proof.
  intros HQ HN. revert w. induction p as [a|B c k IH]; intros w; simpl; [auto|].
  intros Hp d ch Hch Hr. destruct (Hp d ch Hch Hr) as (Hg & Hl & Hk). split_and!; auto.
Qed.

Lemma wpp_bind {A B} (p : prog A) (f : A → prog B) Q N w :
  wpp p (λ a, wpp (f a) Q N) N w → wpp (p ≫= f) Q N w.
Proof.
  unfold mbind, prog_bind. revert w. induction p as [a|D c k IH]; intros w; simpl; [done|].
  intros Hp d ch Hch Hr. destruct (Hp d ch Hch Hr) as (Hg & Hl & Hk). split_and!; auto.
Qed.

Lemma wpp_wp {A} (p : prog A) Q N w : wpp p Q N w → wp C R p Q w.
Proof.
  revert w. induction p as [a|B c k IH]; intros w; simpl; [done|].
  intros Hp d ch Hch Hr. destruct (Hp d ch Hch Hr) as (Hg & Hl & Hk). split; auto.
Qed.

(** What the program promises under a recover. *)
Lemma wpp_unwind {A} panics (p : prog A) Q N w :
  wpp p Q N w →
  wp C R (unwind panics p) (λ o w', match o with
    | Some a => Q a w'
    | None => N w' ∧ ∃ n, panics n = true
    end) w.
Proof.
  revert panics w. induction p as [a|B c k IH]; intros panics w; simpl; [done|].
  intros Hp d ch Hch Hr. destruct (Hp d ch Hch Hr) as (Hg & Hl & Hk). split; [done|].
  destruct (logs c) eqn:Hlogs; simpl; [|by apply IH]. destruct (panics 0%nat) eqn:H0; simpl; [by eauto|].
  eapply wp_mono, (IH _ (λ n, panics (S n))); [|exact Hk]. intros [b|] w1; [done|]. intros [HN [n Hn]]. by eauto.
Qed.

Lemma wpp_emit {A} e (p : prog A) Q N w :
  (∀ d w', R (locks_of w) (committed w) d →
     world_is w' (session w) d (commits w) →
     (logs (Emit e) = true → N w') ∧ wpp p Q N w') →
  wpp (call (Emit e) ≫= λ _, p) Q N w.
Proof.
  intros Hk. apply wpp_bind. simpl. intros d ch Hch Hr. split; [apply guar_refl|].
  by apply (Hk d).
Qed.

(** ** Where lines are logged

    [logging p Q N]: whatever it is answered, [p] ends as [Q] says, and [N]
    holds whenever it logs. *)

Fixpoint logging {A} (p : prog A) (Q : A → world → Prop) (N : world → Prop) (w : world) : Prop :=
  match p with
  | Ret a => Q a w
  | Do c k => ∀ d ch,
      let w0 := with_committed w d in
      let w' := (exec_cmd ch w0 c).2 in
      (logs c = true → N w') ∧ logging (k (exec_cmd ch w0 c).1) Q N w'
  end.

Lemma logging_mono {A} (p : prog A) (Q Q' : A → world → Prop) N w :
  (∀ a w', Q a w' → Q' a w') → logging p Q N w → logging p Q' N w.
Proof.
  intros HQ. revert w. induction p as [a|B c k IH]; intros w; simpl; [auto|].
  intros Hp d ch. destruct (Hp d ch). split; auto.
Qed.

Lemma logging_bind {A B} (p : prog A) (f : A → prog B) Q N w :
  logging p (λ a, logging (f a) Q N) N w → logging (p ≫= f) Q N w.
Proof.
  unfold mbind, prog_bind. revert w. induction p as [a|D c k IH]; intros w; simpl; [done|].
  intros Hp d ch. destruct (Hp d ch). split; auto.
Qed.

(** One command that logs nothing. *)
Lemma logging_call {A} {B : Set} (c : cmd B) (k : B → prog A) Q N w :
  logs c = false →
  (∀ d ch, let o := exec_cmd ch (with_committed w d) c in logging (k o.1) Q N o.2) →
  logging (call c ≫= k) Q N w.
Proof. intros Hc Hk. apply logging_bind. intros d ch. split; [by rewrite Hc|]. apply Hk. Qed.

Lemma wpp_logging {A} (p : prog A) Q Q' N w : wp C R p Q w → logging p Q' N w → wpp p Q N w.
Proof.
  revert w. induction p as [a|B c k IH]; intros w; simpl; [done|].
  intros Hp Hl d ch Hch Hr. destruct (Hp d ch Hch Hr) as [Hg Hk]. destruct (Hl d ch). split_and!; auto.
Qed.

(** Programs that log nothing. *)
Definition mute : command_pred := λ _ c, logs c = false.

Lemma logging_mute {A} (p : prog A) N w : every mute p (λ _, True) → logging p (λ _ _, True) N w.
Proof.
  revert w. induction p as [a|B c k IH]; intros w; simpl; [done|]. unfold mute. intros [Hc Hk] d ch.
  split; [by rewrite Hc|by apply IH].
Qed.

Lemma wpp_mute {A} (p : prog A) Q N w : every mute p (λ _, True) → wp C R p Q w → wpp p Q N w.
Proof. intros Hm Hp. eapply wpp_logging; [done|by apply logging_mute]. Qed.

(** ** The retry observer *)

Definition untouched (cs : list (db * db)) (w : world) : Prop := session w = None ∧ commits w = cs.

Section inTx.
Context {V : Type} (s : Store) (fn : V → prog (V * option error)).
Context (Hfn : ∀ v, every (λ _ c, in_body c = true) (fn v) (λ _, True)).

Lemma logging_body cs v w N : commits w = cs → logging (fn v) (λ _ w', commits w' = cs) N w.
Proof.
  intros Hc. specialize (Hfn v). revert w Hc. induction (fn v) as [a|B c k IH]; intros w Hc; [done|].
  destruct Hfn as [Hb Hk]. intros d ch. split; [by destruct c|]. apply IH; [apply Hk|].
  destruct c; try done; simpl; unfold exec_tx_stmt, in_tx; repeat case_match; by simplify_eq/=.
Qed.

(** An attempt that is to be retried has left nothing. *)
Lemma logging_attempt cs v w :
  untouched cs w →
  logging (attempt_tx fn v) (λ r w', match r.2 with inl _ => True | inr _ => untouched cs w' end) (untouched cs) w.
Proof.
  intros [Hs Hc]. unfold attempt_tx.
  assert (Hfail : ∀ (u : V) err w', untouched cs w' →
    logging (mret (u, if isTransient err then inr err else inl (Some err)) : prog (V * (option error + error)))
      (λ r w', match r.2 with inl _ => True | inr _ => untouched cs w' end) (untouched cs) w').
  { intros u err w' Hw. simpl. by destruct (isTransient err). }
  apply logging_call; [done|]. intros d ch. cbn [exec_cmd]. destruct (ch_fault ch); cbn [fst snd]; [by apply Hfail|].
  apply logging_bind. eapply logging_mono, (logging_body cs); [|exact Hc].
  intros [u [err|]] w1 Hc1; cbn beta iota; (apply logging_call; [done|]); intros d1 ch1; [by apply Hfail|].
  cbn [exec_cmd]. unfold exec_commit. cbn [session with_committed]. destruct (session w1) as [t|]; [|by simpl].
  destruct (tx_state t); [|by simpl..]. destruct (ch_fault ch1) as [f|]; [|by simpl].
  cbn [fst snd]. destruct (ack_lost f) eqn:Hack; [by rewrite ack_lost_final by done|]. by apply Hfail.
Qed.

Lemma logging_emit_all es cs (Q : unit → world → Prop) w :
  untouched cs w → (∀ w', untouched cs w' → Q tt w') → logging (emit_all es) Q (untouched cs) w.
Proof.
  revert w. induction es as [|e es IH]; intros w Hw HQ; [by apply HQ|]. intros d ch. split; [done|]. by apply IH.
Qed.

Lemma logging_inTx_loop n attempt err vars cs w :
  untouched cs w → logging (inTx_loop s fn n attempt err vars) (λ _ _, True) (untouched cs) w.
Proof.
  revert attempt err vars w. induction n as [|n IH]; intros attempt err vars w Hw; [done|].
  assert (Htry : ∀ w', untouched cs w' →
    logging ('(vars, next) ← attempt_tx fn vars;
             match next with
             | inl r => mret (vars, r)
             | inr err => inTx_loop s fn n (attempt + 1) (Some err) vars
             end) (λ _ _, True) (untouched cs) w').
  { intros w' Hw'. apply logging_bind. eapply logging_mono, logging_attempt; [|done].
    intros [v [r|e]] w1 Hpost; cbn beta iota; [done|by apply IH]. }
  cbn [inTx_loop]. destruct (0 <? attempt); [|by apply Htry].
  apply logging_bind, logging_emit_all; [done|]. intros w' Hw'. apply logging_call; [done|]. intros d ch. cbn [exec_cmd fst snd].
  destruct (ch_done ch); [done|]. by apply Htry.
Qed.

Lemma logging_inTx vars w : session w = None → logging (inTx s fn vars) (λ _ _, True) (untouched (commits w)) w.
Proof. intros Hs. by apply logging_inTx_loop. Qed.
End inTx.

(** ** The calls of the store *)

Section store.
Context (s : Store).

Lemma mute_silent (B : Set) (c : cmd B) : silent c = true → mute B c.
Proof. by destruct c. Qed.

Lemma mute_select (B : Set) (st : stmt B) : is_select st = true → mute _ (PoolStmt st).
Proof. done. Qed.

Lemma wpp_GetWallet id Q N w : wp C R (GetWallet id) Q w → wpp (GetWallet id) Q N w.
Proof. apply wpp_mute. by apply every_GetWallet; [exact mute_select|]. Qed.

Lemma wpp_GetTransfer id Q N w : wp C R (GetTransfer id) Q w → wpp (GetTransfer id) Q N w.
Proof. apply wpp_mute. by apply every_GetTransfer; [exact mute_select|]. Qed.

Lemma wpp_CheckInvariants Q N w : wp C R CheckInvariants Q w → wpp CheckInvariants Q N w.
Proof. apply wpp_mute. by apply every_CheckInvariants; [exact mute_select|]. Qed.

Lemma wpp_UpsertUser token Q N w : wp C R (UpsertUser token) Q w → wpp (UpsertUser token) Q N w.
Proof. apply wpp_mute. by apply every_UpsertUser. Qed.

Lemma wpp_GetOrCreateWallet id Q N w : wp C R (GetOrCreateWallet id) Q w → wpp (GetOrCreateWallet id) Q N w.
Proof. apply wpp_mute. unfold GetOrCreateWallet. apply every_query; [done|]. by intros [[[i row] created]|e]. Qed.

Lemma wpp_Mint i k a Q N w :
  (∀ w', untouched (commits w) w' → N w') → session w = None →
  wp C R (Mint s i k a) Q w → wpp (Mint s i k a) Q N w.
Proof.
  intros HN Hs Hp. eapply wpp_mono; [done|exact HN|]. eapply wpp_logging; [exact Hp|].
  unfold Mint. apply logging_bind. eapply logging_mono, logging_inTx; [|intros v; eapply every_mono; [|by apply every_mint_body]; done|done].
  intros [v e] w' _. instantiate (1 := λ _ _, True). by destruct (Is _ _).
Qed.

Lemma wpp_Transfer req Q N w :
  (∀ w', untouched (commits w) w' → N w') → session w = None →
  wp C R (Transfer s req) Q w → wpp (Transfer s req) Q N w.
Proof.
  intros HN Hs Hp. eapply wpp_mono; [done|exact HN|]. eapply wpp_logging; [exact Hp|].
  instantiate (1 := λ _ _, True). unfold Transfer. destruct (String.eqb _ _); [done|].
  apply logging_bind. eapply logging_mono, logging_inTx; [|intros v; eapply every_mono; [|by apply every_transfer_body]; done|done].
  intros [v e] w' _. cbn beta iota. destruct (_ || _); [|by destruct e]. apply logging_mute.
  eapply every_mono, every_replay; [done|exact mute_silent].
Qed.
End store.
End wpp.
