(* ===== verification/HandlerProof.v ===== *)
(** * The transfer handler implements its specification

    [handled]: what POST /transfers may answer and commit, in terms of the
    outcome of the store calls it makes. *)

From S2P Require Import Prelude GoStrings Json Errors Database Locks Obs Session Store Wallets.
From S2P Require Import Transfers InvariantAudit Http Middleware Handlers Accounting Wp TxLoop.
From S2P Require Import TransferSpec TransferProof WalletSpec WalletProof Panics.

(** The status of each result of [Transfer]. *)
Definition transfer_status (res : TransferResult.t * option error) : Z :=
  match res.2 with
  | None => StatusCreated
  | Some err =>
      if errors_Is err ErrIdempotencyConflict then StatusConflict
      else if errors_Is err ErrWalletNotFound then StatusNotFound
      else if errors_Is err ErrSameWallet then StatusUnprocessableEntity
      else StatusInternalServerError
  end.

(** A program that leaves no transaction open, with what it answered and
    committed since [w0]; one that was unwound, with some answer it was on the
    way to. *)
Definition ends (w0 : world) (B : list write_op → list (db * db) → Prop) (ops : list write_op) (w : world) : Prop :=
  session w = None ∧ ∃ cs, commits w = cs ++ commits w0 ∧ B ops cs.

Definition abandoned (w0 : world) (B : list write_op → list (db * db) → Prop) (w : world) : Prop :=
  ∃ ops, ends w0 B ops w.

Section handler.
Context `{PgText} (C : choice → Prop) (R : list lock → db → db → Prop).
Context (P : db → Prop) (HP : ∀ ls d d', P d → R ls d d' → P d').
Context (HR : ∀ ls d d', R ls d d' → rely ls d d') (Hwf : ∀ d, P d → wf_db d).
Context (s : Server) (user : User.t).

(** ** Events *)

(** Only events happened between two worlds. *)
Record quiet (w w' : world) : Prop := {
  q_session : session w' = session w;
  q_commits : commits w' = commits w;
  q_tables : P (committed w) → P (committed w') ∧ grows (committed w) (committed w')
}.

Lemma wp_metric {A} m (p : prog A) Q w :
  (∀ w', quiet w w' → wp C R p Q w') → wp C R (metric m;; p) Q w.
Proof.
  intros Hk. apply wp_emit. intros d w' Hr (Hs & Hd & Hc). subst d. apply Hk. split; [done|done|].
  intros HPw. split; [eauto|]. by destruct (HR _ _ _ Hr (Hwf _ HPw)).
Qed.

Lemma wpp_event {A} e (p : prog A) Q N w :
  (∀ w', quiet w w' → (logs (Emit e) = true → N w') ∧ wpp C R p Q N w') → wpp C R (call (Emit e);; p) Q N w.
Proof.
  intros Hk. apply wpp_emit. intros d w' Hr (Hs & Hd & Hc). subst d. apply Hk. split; [done|done|].
  intros HPw. split; [eauto|]. by destruct (HR _ _ _ Hr (Hwf _ HPw)).
Qed.

Lemma wpp_metric {A} m (p : prog A) Q N w :
  (∀ w', quiet w w' → wpp C R p Q N w') → wpp C R (metric m;; p) Q N w.
Proof. intros Hk. apply wpp_event. intros w' Hq. split; [done|by apply Hk]. Qed.

Lemma wpp_log {A} ctx lvl msg attrs (p : prog A) Q N w :
  (∀ w', quiet w w' → N w') → (∀ w', quiet w w' → wpp C R p Q N w') →
  wpp C R (log_at s ctx lvl msg attrs;; p) Q N w.
Proof.
  intros HN Hk. unfold log_at. destruct (Enabled _ _); [|by apply Hk].
  apply wpp_event. intros w' Hq. split; [intros _; by apply HN|by apply Hk].
Qed.

Lemma quiet_refl w : quiet w w.
Proof. by split. Qed.

Lemma quiet_trans w1 w2 w3 : quiet w1 w2 → quiet w2 w3 → quiet w1 w3.
Proof.
  intros [H1 H2 H3] [H4 H5 H6]. split; [congruence|congruence|].
  intros HPw. destruct (H3 HPw) as [HP2 ?]. destruct (H6 HP2). split; [done|by etrans].
Qed.

(** A log line, or none, in tail position. *)
Lemma wpp_log_last (b : bool) ctx lvl msg attrs (Q : unit → world → Prop) N w :
  (∀ w', quiet w w' → N w') → (∀ w', quiet w w' → Q tt w') →
  wpp C R (if b then log_at s ctx lvl msg attrs else mret tt) Q N w.
Proof.
  intros HN HQ. unfold log_at. destruct b; [destruct (Enabled _ _)|]; [|by apply wpp_ret, HQ, quiet_refl..].
  intros d ch Hch Hr. split; [apply guar_refl|].
  assert (Hq : quiet w (emit_event (with_committed w d) (EvLog (Handle ctx (MkRecord lvl msg attrs))))).
  { split; [done|done|]. intros HPw. split; [by eapply HP|]. by destruct (HR _ _ _ Hr (Hwf _ HPw)). }
  split; [intros _; by apply HN|]. by apply wpp_ret, HQ.
Qed.

Lemma ends_quiet w0 B ops cs w w' :
  session w = None → commits w = cs ++ commits w0 → B ops cs → quiet w w' → ends w0 B ops w'.
Proof. intros Hs Hc HB [Hs' Hc' _]. split; [congruence|]. exists cs. by rewrite Hc'. Qed.

(** ** The specification *)

Variable r : request.

(** The bearer owns the source wallet, on tables [d]. *)
Definition owns (d : db) (body : transferRequestBody.t) : Prop :=
  ∃ fu row, uuid_in (transferRequestBody.From body) = Some fu ∧ wallets d !! fu = Some row ∧
    uuid_out (w_user_id row) = User.ID user.

(** The destination exists, on tables [d]. *)
Definition names_destination (d : db) (body : transferRequestBody.t) : Prop :=
  is_Some (uuid_in (transferRequestBody.To body) ≫= (wallets d !!.)).

(** An owner stays the owner. *)
Lemma owns_grows d d' body : grows d d' → owns d body → owns d' body.
Proof.
  intros Hg (fu & row & Hin & Hrow & Hu). destruct (grows_wallets _ _ Hg fu row Hrow) as (row' & Hr & Ho & _).
  exists fu, row'. by rewrite Ho.
Qed.

(** Why the reads before the transaction refuse a request. *)
Inductive refusal (body : transferRequestBody.t) : list write_op → Prop :=
| ref_source d msg :
    P d → uuid_in (transferRequestBody.From body) ≫= (wallets d !!.) = None →
    refusal body (writeError r StatusNotFound "wallet_not_found" msg)
| ref_owner d i row msg :
    P d → uuid_in (transferRequestBody.From body) = Some i → wallets d !! i = Some row →
    uuid_out (w_user_id row) ≠ User.ID user →
    refusal body (writeError r StatusForbidden "not_wallet_owner" msg)
| ref_destination d msg :
    P d → uuid_in (transferRequestBody.To body) ≫= (wallets d !!.) = None →
    refusal body (writeError r StatusNotFound "wallet_not_found" msg)
| ref_encoding msg :
    text_in (transferRequestBody.From body) = false ∨ text_in (transferRequestBody.To body) = false →
    refusal body (writeError r StatusInternalServerError "internal_error" msg)
| ref_env msg : infra C → refusal body (writeError r StatusInternalServerError "internal_error" msg).

Definition transfer_req (body : transferRequestBody.t) (a : Z) : TransferRequest.t :=
  TransferRequest.Mk (User.ID user) (transferRequestBody.From body) (transferRequestBody.To body) a
    (transferRequestBody.IdempotencyKey body).

(** The response to a result of [Transfer]. *)
Definition answers (res : TransferResult.t * option error) (ops : list write_op) : Prop :=
  match res with
  | (t, None) =>
      ops = (if TransferResult.Replay t then [SetHeader "Idempotent-Replay" "true"] else []) ++
            writeJSON StatusCreated (PTransfer (TransferResult.Transfer t))
  | (_, Some _) => ∃ code (msg : message), ops = writeError r (transfer_status res) code msg
  end.

Inductive handled : list write_op → list (db * db) → Prop :=
| h_body err :
    decode_transfer r = Err err →
    handled (writeError r StatusBadRequest "invalid_body" (MDecodeError "could not parse request: " "transferRequestBody" err)) []
| h_invalid body code (msg : string) :
    decode_transfer r = Ok body → validate body = Err (code, msg) →
    handled (writeError r StatusUnprocessableEntity code msg) []
| h_refused body a ops :
    decode_transfer r = Ok body → validate body = Ok a → refusal body ops → handled ops []
| h_called body a d0 res ops cs :
    decode_transfer r = Ok body → validate body = Ok a → P d0 → owns d0 body → names_destination d0 body →
    transfer_outcome C (λ d, P d ∧ grows d0 d) (transfer_req body a) res cs →
    answers res ops → handled ops cs.

(** ** The proof *)

(** What POST /transfers did if it was unwound: what it answers for, or nothing
    yet. *)
Definition begun (ops : list write_op) (cs : list (db * db)) : Prop := handled ops cs ∨ cs = [].

Lemma wpp_rejectTransferStatus status code (msg : string) (Q : list write_op → world → Prop) N w :
  (∀ w', quiet w w' → N w') →
  (∀ w', quiet w w' → Q (writeError r status code msg) w') →
  wpp C R (rejectTransferStatus s r status code msg) Q N w.
Proof.
  intros HN HQ. unfold rejectTransferStatus. apply wpp_metric. intros w1 Hq1.
  apply wpp_log; intros w2 Hq2; [apply HN; by eapply quiet_trans|]. apply wpp_ret, HQ. by eapply quiet_trans.
Qed.

Definition precheck_post (body : transferRequestBody.t) (w0 : world) (stop : option (list write_op))
    (w : world) : Prop :=
  P (committed w) ∧ session w = None ∧ commits w = commits w0 ∧
  match stop with Some ops => refusal body ops | None => owns (committed w) body ∧ names_destination (committed w) body end.

Lemma untouched_quiet cs w w' : untouched cs w → quiet w w' → untouched cs w'.
Proof. intros [Hs Hc] [Hs' Hc' _]. split; congruence. Qed.

Lemma wpp_stop_with body status code (msg : string) w0 w :
  P (committed w) → session w = None → commits w = commits w0 →
  refusal body (writeError r status code msg) →
  wpp C R (stop_with s r status code msg) (precheck_post body w0) (untouched (commits w0)) w.
Proof.
  intros HPw Hs Hc Hr. unfold stop_with.
  apply wpp_bind, wpp_rejectTransferStatus; intros w' Hq; [by eapply untouched_quiet|].
  destruct Hq as [Hs' Hc' Ht']. apply wpp_ret. split_and!; [by apply Ht'|congruence|congruence|done].
Qed.

Lemma wpp_precheck_failed body err (msg : string) w0 w :
  P (committed w) → session w = None → commits w = commits w0 →
  refusal body (writeError r StatusInternalServerError "internal_error" msg) →
  wpp C R (precheck_failed s r err msg) (precheck_post body w0) (untouched (commits w0)) w.
Proof.
  intros HPw Hs Hc Hr. unfold precheck_failed. apply wpp_log; intros w' Hq; [by eapply untouched_quiet|].
  destruct Hq as [Hs' Hc' Ht']. apply wpp_ret. split_and!; [by apply Ht'|congruence|congruence|done].
Qed.

Lemma wpp_precheck body w :
  P (committed w) → session w = None →
  wpp C R (precheck s user body r) (precheck_post body w) (untouched (commits w)) w.
Proof.
  intros HPw Hs. unfold precheck. apply wpp_bind, wpp_GetWallet.
  eapply wp_mono, (wp_GetWallet C R P HP (transferRequestBody.From body)); [|done|done].
  intros [fw err] w1 (Hs1 & Hc1 & HP1 & Hout). cbn beta iota.
  inversion Hout as [d i row Hd Hi Hrow|d Hd Hn|Ht|e Hi He]; subst; clear Hout.
  - destruct (String.eqb_spec (Wallet.UserID (scan_wallet i row)) (User.ID user)) as [Hown|Hown]; simpl negb; cbn beta iota.
    2:{ apply wpp_stop_with; [done|done|done|]. by eapply (ref_owner body (committed w1) i row). }
    assert (Howns : owns (committed w1) body) by (by exists i, row).
    apply wpp_bind, wpp_GetWallet.
    eapply wp_mono, (wp_GetWallet C R (λ d, P d ∧ grows (committed w1) d)); [| |done|done].
    2:{ intros ls d d' [HPd Hg] Hr. split; [eauto|]. etrans; [exact Hg|].
        by destruct (HR _ _ _ Hr (Hwf _ HPd)). }
    intros [tw err] w2 (Hs2 & Hc2 & [HP2 Hg2] & Hout). cbn beta iota.
    inversion Hout as [d j row' Hd Hj Hrow'|d Hd Hn|Ht|e Hi' He]; subst; clear Hout.
    + apply wpp_ret. split_and!; [done|done|congruence|by eapply owns_grows|].
      unfold names_destination. rewrite Hj. by exists row'.
    + simpl. apply wpp_stop_with; [done|done|congruence|]. by eapply ref_destination.
    + simpl. apply wpp_precheck_failed; [done|done|congruence|]. apply ref_encoding. by right.
    + assert (errors_Is e ErrWalletNotFound = false) as -> by not_env_error.
      apply wpp_precheck_failed; [done|done|congruence|]. by apply ref_env.
  - simpl. apply wpp_stop_with; [done|done|done|]. by eapply ref_source.
  - simpl. apply wpp_precheck_failed; [done|done|done|]. apply ref_encoding. by left.
  - assert (errors_Is e ErrWalletNotFound = false) as -> by not_env_error.
    apply wpp_precheck_failed; [done|done|done|]. by apply ref_env.
Qed.

Lemma wpp_transfer_failed key err res (Q : list write_op → world → Prop) N w :
  (∀ w', quiet w w' → N w') →
  (∀ w' ops, quiet w w' → answers (res, Some err) ops → Q ops w') →
  wpp C R (transfer_failed s r key err) Q N w.
Proof.
  intros HN HQ. unfold transfer_failed.
  assert (Hans : ∀ code (msg : message) w', quiet w w' →
    Q (writeError r (transfer_status (res, Some err)) code msg) w')
    by (intros code msg w' Hq; apply HQ; [done|by exists code, msg]).
  unfold transfer_status in Hans. simpl in Hans.
  destruct (errors_Is err ErrIdempotencyConflict).
  { apply wpp_metric. intros w1 Hq1. apply wpp_log; intros w2 Hq2; [apply HN; by eapply quiet_trans|].
    apply wpp_ret, Hans. by eapply quiet_trans. }
  destruct (errors_Is err ErrWalletNotFound); [apply wpp_rejectTransferStatus; auto|].
  destruct (errors_Is err ErrSameWallet); [apply wpp_rejectTransferStatus; auto|].
  apply wpp_log; intros w1 Hq1; [by apply HN|]. by apply wpp_ret, Hans.
Qed.

Lemma wpp_transfer_events {A} res (p : prog A) Q N w :
  (∀ w', quiet w w' → N w') →
  (∀ w', quiet w w' → wpp C R p Q N w') → wpp C R (transfer_events s r res;; p) Q N w.
Proof.
  intros HN Hk. unfold transfer_events. apply wpp_bind.
  destruct (TransferResult.Replay res); [|destruct (String.eqb _ _)];
    apply wpp_metric; intros w1 Hq1; [|apply wpp_metric; intros w2 Hq2|];
    apply (wpp_log_last true); intros w3 Hq3; (apply HN || apply Hk); eauto using quiet_trans.
Qed.

(** Every request to POST /transfers is [handled]. *)
Lemma wpp_handleCreateTransfer w :
  P (committed w) → session w = None →
  wpp C R (handleCreateTransfer s user r) (ends w handled) (abandoned w begun) w.
Proof.
  intros HPw Hs. unfold handleCreateTransfer.
  assert (Hnil : ∀ ops w', handled ops [] → session w' = None → commits w' = commits w → ends w handled ops w')
    by (intros ops w' ???; split; [done|by exists []]).
  assert (Hcut : ∀ w', untouched (commits w) w' → abandoned w begun w')
    by (intros w' [Hs' Hc']; exists []; split; [done|]; exists []; split; [done|by right]).
  destruct (decode_transfer r) as [body|err] eqn:Hdec.
  2:{ apply wpp_metric. intros w1 [Hs1 Hc1 _]. apply wpp_ret. apply Hnil; [by apply h_body|congruence|done]. }
  destruct (validate body) as [a|[code msg]] eqn:Hval.
  2:{ apply wpp_rejectTransferStatus; intros w1 Hq; [by apply Hcut, (untouched_quiet _ w)|]. destruct Hq as [Hs1 Hc1 _].
      apply Hnil; [by eapply h_invalid|congruence|done]. }
  apply wpp_bind. eapply wpp_mono, wpp_precheck; [|exact Hcut|done|done].
  intros [ops|] w1 (HP1 & Hs1 & Hc1 & Hstop); cbn beta iota.
  { apply wpp_ret. apply Hnil; [by eapply h_refused|done|done]. }
  destruct Hstop as [Hown Hdest]. set (d0 := committed w1) in *.
  apply wpp_log; intros w2 Hq2; [by apply Hcut, (untouched_quiet _ w1)|].
  destruct Hq2 as [Hs2 Hc2 Ht2]. destruct (Ht2 HP1) as [HP2 Hg2].
  apply wpp_bind, wpp_Transfer; [intros w' Hw'; apply Hcut; by rewrite Hc2, Hc1 in Hw'|congruence|].
  eapply wp_mono, (wp_Transfer C R (λ d, P d ∧ grows d0 d)).
  - intros [res err] w3 (Hs3 & cs & Hc3 & Hout). cbn beta iota. rewrite Hc2, Hc1 in Hc3.
    assert (Hh : ∀ ops w', quiet w3 w' → answers (res, err) ops → ends w handled ops w').
    { intros ops w' [Hs' Hc' _] Hans. split; [congruence|]. exists cs. rewrite Hc', Hc3. split; [done|].
      by apply (h_called body a d0 (res, err)). }
    assert (HN : ∀ w', quiet w3 w' → abandoned w begun w').
    { intros w' Hq. assert (Hans : ∃ ops, answers (res, err) ops) by (destruct err; [by eexists; exists ""%string, ""%string|by eexists]).
      destruct Hans as [ops Hans]. exists ops. destruct (Hh ops w' Hq Hans) as (Hs' & cs' & Hc' & Hh').
      split; [done|]. exists cs'. split; [done|by left]. }
    destruct err as [err|].
    + apply (wpp_transfer_failed _ err res); eauto.
    + apply wpp_transfer_events; [done|]. intros w4 Hq4. by apply wpp_ret, Hh.
  - intros ls d d' [HPd Hg] Hr. split; [eauto|]. etrans; [exact Hg|]. by destruct (HR _ _ _ Hr (Hwf _ HPd)).
  - done.
  - intros d [HPd _]. eauto.
  - simpl. eapply decode_transfer_amount; [done|]. revert Hval. unfold validate. destruct body. simpl.
    repeat case_match; congruence.
  - congruence.
  - by split.
Qed.
End handler.
