(* ===== verification/Service.v ===== *)
(** * The store as one service

    The seven calls of the store as one type, each with its outcome relation,
    and the two settings their correctness is stated in: a session alone on
    tables [d], and any number of sessions interleaved. *)

From S2P Require Import Prelude Errors Database Locks Obs Session Store Wallets Transfers InvariantAudit.
From S2P Require Import Accounting Wp TxLoop TransferSpec TransferProof WalletSpec WalletProof.
From S2P Require Import Concurrent.

Inductive call :=
| CUpsertUser (token : string)
| CGetOrCreateWallet (userID : string)
| CGetWallet (id : string)
| CMint (walletID idemKey : string) (amountPaise : Z)
| CTransfer (req : TransferRequest.t)
| CGetTransfer (id : string)
| CCheckInvariants.

Inductive reply :=
| RUser (r : User.t * option error)
| RWallet (r : Wallet.t * bool * option error)
| RGetWallet (r : Wallet.t * option error)
| RMint (r : Wallet.t * bool * option error)
| RTransfer (r : TransferResult.t * option error)
| RGetTransfer (r : Transfer.t * option error)
| RInvariants (r : Invariants.t * option error).

(** Amounts are Go [int64] values. *)
Definition call_amount_ok (c : call) : bool :=
  match c with
  | CMint _ _ a => in_int64 a
  | CTransfer req => in_int64 (TransferRequest.AmountPaise req)
  | _ => true
  end.

Section service.
Context `{PgText}.

Definition perform (s : Store) (c : call) : prog reply :=
  match c with
  | CUpsertUser token => r ← UpsertUser token; mret (RUser r)
  | CGetOrCreateWallet uid => r ← GetOrCreateWallet uid; mret (RWallet r)
  | CGetWallet id => r ← GetWallet id; mret (RGetWallet r)
  | CMint w k a => r ← Mint s w k a; mret (RMint r)
  | CTransfer req => r ← Transfer s req; mret (RTransfer r)
  | CGetTransfer id => r ← GetTransfer id; mret (RGetTransfer r)
  | CCheckInvariants => r ← CheckInvariants; mret (RInvariants r)
  end.

(** What each call promises: its reply and its commits. *)
Definition call_outcome (C : choice → Prop) (P : db → Prop) (c : call) (r : reply)
    (cs : list (db * db)) : Prop :=
  match c, r with
  | CUpsertUser token, RUser r => user_outcome C P token r cs
  | CGetOrCreateWallet uid, RWallet r => wallet_outcome C P uid r cs
  | CGetWallet id, RGetWallet r => get_wallet_outcome C P id r ∧ cs = []
  | CMint w k a, RMint r => mint_outcome C P w k a r cs
  | CTransfer req, RTransfer r => transfer_outcome C P req r cs
  | CGetTransfer id, RGetTransfer r => get_transfer_outcome C P id r ∧ cs = []
  | CCheckInvariants, RInvariants r => audit_outcome C P r ∧ cs = []
  | _, _ => False
  end.

(** ** One proof for all settings *)

Section setting.
Context (C : choice → Prop) (R : list lock → db → db → Prop).
Context (P : db → Prop) (HP : ∀ ls d d', P d → R ls d d' → P d').
Context (HR : ∀ ls d d', R ls d d' → rely ls d d') (Hwf : ∀ d, P d → wf_db d).

Lemma wp_perform s c w :
  call_amount_ok c = true → session w = None → P (committed w) →
  wp C R (perform s c)
    (λ r w', session w' = None ∧
       ∃ cs, commits w' = cs ++ commits w ∧ call_outcome C P c r cs) w.
Proof.
  intros Hc Hs HPw.
  destruct c; unfold perform; apply wp_bind.
  - eapply wp_mono, wp_UpsertUser; [intros r w' Hr; exact Hr|by eauto..].
  - eapply wp_mono, wp_GetOrCreateWallet; [intros r w' Hr; exact Hr|by eauto..].
  - eapply wp_mono, wp_GetWallet; [|by eauto..]. intros r w' (Hs' & Hc' & HP' & Hr).
    apply wp_ret. split; [done|]. exists []. split; [done|]. split; [|done].
    eapply get_wallet_mono; [|exact Hr]. by intros ? ->.
  - eapply wp_mono, wp_Mint; [intros r w' Hr; exact Hr|by eauto..].
  - eapply wp_mono, wp_Transfer; [intros r w' Hr; exact Hr|by eauto..].
  - eapply wp_mono, wp_GetTransfer; [|by eauto..]. intros r w' (Hs' & Hc' & Hr).
    apply wp_ret. split; [done|]. by exists [].
  - eapply wp_mono, wp_CheckInvariants; [|by eauto..]. intros r w' (Hs' & Hc' & _ & Hr).
    apply wp_ret. split; [done|]. by exists [].
Qed.
End setting.

(** ** Alone *)

(** A program alone on tables [d]: its result, the tables it leaves, its
    commits. *)
Definition alone_on (d : db) {A} (env : nat → choice) (p : prog A) : A * db * list (db * db) :=
  let '(a, w, _) := run env 0 p (start d) in (a, committed w, commits w).

Definition env_choice (env : nat → choice) (ch : choice) : Prop := ∃ n, ch = env n.

Lemma alone_spec {A} env (p : prog A) d Q :
  wp (env_choice env) alone p (λ a w', session w' = None ∧ ∃ cs, commits w' = cs ++ [] ∧ Q a cs) (start d) →
  let '(a, d', cs) := alone_on d env p in Q a cs ∧ chain d cs d'.
Proof.
  intros Hp. unfold alone_on. destruct (run env 0 p (start d)) as [[a w'] n'] eqn:Hr.
  pose proof (run_chain p (start d) env 0 a w' n' d Hr eq_refl) as Hch.
  pose proof (wp_run (env_choice env) p _ _ env 0 a w' n' (λ i, ex_intro _ i eq_refl) Hp Hr)
    as (_ & cs & Hcs & HQ).
  rewrite app_nil_r in Hcs. by rewrite Hcs in Hch |- *.
Qed.

Lemma alone_call env s c d :
  wf_db d → call_amount_ok c = true →
  let '(r, d', cs) := alone_on d env (perform s c) in
  call_outcome (env_choice env) (λ x, x = d) c r cs ∧ chain d cs d'.
Proof.
  intros Hwf Hc.
  apply (alone_spec env (perform s c) d (call_outcome (env_choice env) (λ x, x = d) c)).
  apply (wp_perform (env_choice env) alone (λ x, x = d)) with (w := start d); try done.
  - by intros ls d1 d2 -> ->.
  - intros ls d1 d2. apply alone_rely.
  - by intros ? ->.
Qed.

(** ** Interleaved *)

(** The tables a call may observe, having started after [d0]. *)
Definition since (d0 d : db) : Prop := wf_db d ∧ grows d0 d.

Lemma since_stable d0 ls d d' : since d0 d → rely ls d d' → since d0 d'.
Proof. intros [Hwf Hg] Hr. destruct (Hr Hwf) as [? ? _ _ _ _ _]. split; [done|by etrans]. Qed.

(** Of them, those that were there: [E] holds of the tables of a run. *)
Definition seen (E : db → Prop) (d0 d : db) : Prop := since d0 d ∧ (E d ∨ d = d0).

Lemma seen_stable E d0 ls d d' : seen E d0 d → rely_on E ls d d' → seen E d0 d'.
Proof. intros [Hs _] [Hr He]. split; [by eapply since_stable|by left]. Qed.

Lemma seen_wf E d0 d : seen E d0 d → wf_db d.
Proof. by intros [[? _] _]. Qed.

Lemma seen_refl E d : wf_db d → seen E d d.
Proof. intros Hwf. split; [by split|by right]. Qed.

(** The calls [cs], one thread each, on tables [d0]. *)
Definition service (s : Store) (cs : list call) : list (prog reply) := perform s <$> cs.

Definition call_post (E : db → Prop) C d0 (cs : list call) (i : nat) (r : reply) (w : world) : Prop :=
  ∃ c, cs !! i = Some c ∧ call_outcome C (seen E d0) c r (commits w).

Lemma service_threads E C d0 s cs :
  wf_db d0 → forallb call_amount_ok cs = true →
  ∀ i p, service s cs !! i = Some p → wp C (rely_on E) p (call_post E C d0 cs i) (start d0).
Proof.
  intros Hwf Hok i p. unfold service. rewrite list_lookup_fmap.
  destruct (cs !! i) as [c|] eqn:Hi; [|done]. intros [= <-].
  assert (Hc : call_amount_ok c = true).
  { rewrite forallb_forall in Hok. apply Hok. by eapply list_elem_of_In, list_elem_of_lookup_2. }
  eapply wp_mono, (wp_perform C (rely_on E) (seen E d0)) with (w := start d0); try done.
  - intros r w' (_ & cs' & Hcs & Hr). exists c. split; [done|]. rewrite Hcs. by rewrite app_nil_r.
  - intros. by eapply seen_stable.
  - by intros ls d d' [? _].
  - intros d. apply seen_wf.
  - by apply seen_refl.
Qed.

(** Every state of a run of the service, and the outcome of its calls on the
    tables of the run. *)
Lemma service_run C d0 s cs h σ :
  wf_db d0 → forallb call_amount_ok cs = true → run_of C d0 (service s cs) h σ →
  system_inv C (λ d, d ∈ h) d0 (call_post (λ d, d ∈ h) C d0 cs) σ.
Proof. intros Hwf Hok Hr. eapply run_inv; [done| |exact Hr|done]. by apply service_threads. Qed.

Lemma service_reachable C d0 s cs σ :
  wf_db d0 → forallb call_amount_ok cs = true → reachable C d0 (service s cs) σ →
  system_inv C anything d0 (call_post anything C d0 cs) σ.
Proof.
  intros Hwf Hok Hr. eapply reachable_inv; [done| |exact Hr]. by apply service_threads.
Qed.
End service.
