(* ===== verification/ServerSpec.v ===== *)
(** * What a request may do (specification)

    The service as a client and the tables see it: for each endpoint, the
    answers it may give together with the changes it may commit, in terms of
    the accounting actions and of the tables that justify them.  [served] is
    the relation for a whole request, through the wrapper, the router and the
    authentication, whether its log lines panic or not.  The errors of the
    store do not appear: a refusal is stated by its reason. *)

From Stdlib Require Import String.
From S2P Require Import Prelude GoStrings Json Errors Database Obs Session Store Wallets Transfers.
From S2P Require Import InvariantAudit Ring Http Middleware Handlers Routing Api Process.
From S2P Require Import Accounting TxLoop Wp TransferSpec WalletSpec HandlerProof Service.

#[local] Open Scope string_scope.
#[local] Open Scope Z_scope.
#[local] Open Scope list_scope.

(** ** Requests to the server *)

(** A request with what the world outside the database shows it. *)
Record incoming := MkIncoming {
  in_request : request;
  in_surroundings : surroundings;
  in_random : option string;
  in_nanos : Z
}.

(** The token a request carries. *)
Definition token_of (q : incoming) : option string := bearerToken (in_request q).

(** The correlation id it is answered with. *)
Definition request_id (q : incoming) : string :=
  let header := rq_header (in_request q) correlationHeader in
  if String.eqb header "" then newCorrelationID (in_random q) (in_nanos q) else header.

(** The request as the router hands it on. *)
Definition inner_request (q : incoming) : request :=
  routed (with_context (routed (in_request q)) (WithCorrelationID (rq_ctx (in_request q)) (request_id q))).

Definition routes_to (q : incoming) (e : endpoint) : Prop :=
  ∃ text ids, find_route (in_request q) = FHandler (text, e) ids.

(** The server's processes: requests, and the invariant sampler. *)
Section server.
Context `{PgText} (s : Server).

Definition serve_one (q : incoming) : prog (list write_op) :=
  New_handler s (in_surroundings q) (in_random q) (in_nanos q) (in_request q).

Definition serving (l : list incoming) : list (prog (list write_op)) := serve_one <$> l.

Definition process (l : list incoming) (every_ns : Z) (ticks : nat) : list (prog (list write_op)) :=
  serving l ++ [sampleInvariants s every_ns ticks;; mret []].
End server.

(** [E] holds of the tables that were there while the server ran. *)
Section spec.
Context `{PgText} (C : choice → Prop) (s : Server) (E : db → Prop).

(** A response and the changes its request committed. *)
Abbreviation behaviour := (list write_op → list (db * db) → Prop).

Section endpoints.
Context (P : db → Prop) (r : request).

(** ** POST /wallets *)

Inductive wallet_served (uid : uuid) : behaviour :=
| ws_ok d i row created d' :
    P d → holds_wallet d uid i row created d' →
    wallet_served uid (writeJSON (if created then StatusCreated else StatusOK) (PWallet (scan_wallet i row)))
      [(d, d')]
| ws_id d ch row :
    P d → C ch → wallets d !! ch_uuid ch = Some row →
    (∀ j row', wallets d !! j = Some row' → w_user_id row' ≠ uid) →
    wallet_served uid (internal_error r "could not provision wallet") []
| ws_env : infra C → wallet_served uid (internal_error r "could not provision wallet") []
| ws_lost d i row created d' :
    P d → holds_wallet d uid i row created d' → infra C →
    wallet_served uid (internal_error r "could not provision wallet") [(d, d')].

(** ** Reads: GET /wallets/{id}, GET /transfers/{id}, GET /invariants *)

Inductive wallet_shown : list write_op → Prop :=
| sh_wallet d i row :
    P d → uuid_in (rq_id r) = Some i → wallets d !! i = Some row →
    wallet_shown (writeJSON StatusOK (PWallet (scan_wallet i row)))
| sh_no_wallet d :
    P d → uuid_in (rq_id r) ≫= (wallets d !!.) = None →
    wallet_shown (writeError r StatusNotFound "wallet_not_found" "no wallet with that id")
| sh_wallet_failed :
    text_in (rq_id r) = false ∨ infra C → wallet_shown (internal_error r "could not read wallet").

Inductive transfer_shown : list write_op → Prop :=
| sh_transfer d i row :
    P d → uuid_in (rq_id r) = Some i → transfers d !! i = Some row →
    transfer_shown (writeJSON StatusOK (PTransfer (scan_transfer i row)))
| sh_no_transfer d :
    P d → uuid_in (rq_id r) ≫= (transfers d !!.) = None →
    transfer_shown (writeError r StatusNotFound "transfer_not_found" "no transfer with that id")
| sh_transfer_failed :
    text_in (rq_id r) = false ∨ infra C → transfer_shown (internal_error r "could not read transfer").

(** The audit holds on the tables it was computed from. *)
Inductive audit_shown : list write_op → Prop :=
| sh_audit d :
    P d → audit_fits d = true → Invariants.AllHold (audit_of d) = true →
    audit_shown (writeJSON StatusOK (PInvariants (audit_of d)))
| sh_audit_failed :
    (∃ d, P d ∧ audit_fits d = false) ∨ infra C →
    audit_shown (internal_error r "could not compute invariants").

(** ** POST /admin/mint *)

(** A body that asks for a mint. *)
Definition mint_asked (walletID key : string) (a : Z) : Prop :=
  decode_mint r = Ok (mintRequestBody.Mk walletID (Some a) key) ∧
  walletID ≠ "" ∧ 0 < a ∧ TrimSpace key ≠ "".

Inductive mint_served : behaviour :=
| ms_body err :
    decode_mint r = Err err →
    mint_served (writeError r StatusBadRequest "invalid_body" (MDecodeError "" "mintRequestBody" err)) []
| ms_invalid body code (msg : string) :
    decode_mint r = Ok body → (∀ walletID key a, ¬ mint_asked walletID key a) →
    mint_served (writeError r StatusUnprocessableEntity code msg) []
| ms_credited walletID key a d u wid rw now :
    mint_asked walletID key a → P d → uuid_in walletID = Some wid →
    mintable d u (mint_claim key wid a now) rw →
    mint_served (writeJSON StatusOK (PWallet (scan_wallet wid (add_balance a now rw))))
      [(d, spec_mint u (mint_claim key wid a now) d)]
| ms_replayed walletID key a d d0 wid row :
    mint_asked walletID key a → P d → P d0 → mint_replays C P key →
    uuid_in walletID = Some wid → wallets d0 !! wid = Some row →
    mint_served (SetHeader "Idempotent-Replay" "true" :: writeJSON StatusOK (PWallet (scan_wallet wid row)))
      [(d, d)]
| ms_no_wallet walletID key a d :
    mint_asked walletID key a → P d → uuid_in walletID ≫= (wallets d !!.) = None →
    mint_served (writeError r StatusNotFound "wallet_not_found" "no wallet with that id") []
| ms_refused walletID key a d e :
    mint_asked walletID key a → P d → mint_rejected d walletID key a (EPg e) →
    mint_served (internal_error r "could not mint") []
| ms_env : infra C → mint_served (internal_error r "could not mint") []
| ms_lost walletID key a d u wid rw now :
    mint_asked walletID key a → P d → uuid_in walletID = Some wid →
    mintable d u (mint_claim key wid a now) rw → infra C →
    mint_served (internal_error r "could not mint") [(d, spec_mint u (mint_claim key wid a now) d)]
| ms_lost_replay d : P d → infra C → mint_served (internal_error r "could not mint") [(d, d)].
End endpoints.

(** ** Authentication *)

(** The request the endpoint sees behind [authenticate]. *)
Definition authenticated_request (r : request) : request :=
  with_context r (WithCorrelationID (rq_ctx r) (CorrelationID (rq_ctx r))).

(** [next] is the endpoint's behaviour for the bearer's user, on tables since
    the user was there. *)
Inductive authenticated (d0 : db) (r : request) (next : db → uuid → request → behaviour) : behaviour :=
| au_anonymous :
    bearerToken r = None →
    authenticated d0 r next (writeError r StatusUnauthorized "unauthorized"
      "provide a bearer token: Authorization: Bearer <token>") []
| au_user token d uid d' ops cs :
    bearerToken r = Some token → seen E d0 d → holds_user d (TokenHash token) uid d' →
    next d' uid (authenticated_request r) ops cs →
    authenticated d0 r next ops (cs ++ [(d, d')])
| au_id token d ch row :
    bearerToken r = Some token → seen E d0 d → C ch → users d !! ch_uuid ch = Some row →
    (∀ j row', users d !! j = Some row' → u_token_hash row' ≠ TokenHash token) →
    authenticated d0 r next (internal_error r "could not resolve caller") []
| au_env : infra C → authenticated d0 r next (internal_error r "could not resolve caller") []
| au_lost token d uid d' :
    bearerToken r = Some token → seen E d0 d → holds_user d (TokenHash token) uid d' → infra C →
    authenticated d0 r next (internal_error r "could not resolve caller") [(d, d')].

Lemma authenticated_mono d0 r (next next' : db → uuid → request → behaviour) ops cs :
  (∀ d uid r ops cs, next d uid r ops cs → next' d uid r ops cs) →
  authenticated d0 r next ops cs → authenticated d0 r next' ops cs.
Proof.
  intros Hn [Ht|token d uid d1 ops1 cs1 Ht Hd Hh Hb|token d ch row Ht Hd HC Hu|Hi|token d uid d1 Ht Hd Hh Hi].
  - by apply au_anonymous.
  - by eapply au_user; [..|apply Hn].
  - by eapply au_id.
  - by apply au_env.
  - by eapply au_lost.
Qed.

(** The admin's endpoint. *)
Inductive admin_only (r : request) (next : request → behaviour) : behaviour :=
| ao_refused :
    bearerToken r ≠ Some (sv_adminToken s) →
    admin_only r next (writeError r StatusForbidden "forbidden" "admin token required") []
| ao_admin ops cs :
    bearerToken r = Some (sv_adminToken s) → next r ops cs → admin_only r next ops cs.

(** ** The endpoints *)

Definition endpoint_served (d0 : db) (sr : surroundings) (e : endpoint) (r : request) : behaviour :=
  match e with
  | ECreateWallet => authenticated d0 r (λ d uid r, wallet_served (seen E d) r uid)
  | EGetWallet => authenticated d0 r (λ d _ r ops cs, wallet_shown (seen E d) r ops ∧ cs = [])
  | ECreateTransfer => authenticated d0 r (λ d uid r, handled C (seen E d) (User.Mk (uuid_out uid)) r)
  | EGetTransfer => authenticated d0 r (λ d _ r ops cs, transfer_shown (seen E d) r ops ∧ cs = [])
  | EMint => admin_only r (mint_served (seen E d0))
  | EInvariants => λ ops cs, audit_shown (seen E d0) r ops ∧ cs = []
  | EHealth => λ ops cs, ops = handleHealth s (sr_uptime sr) r ∧ cs = []
  | EReady => λ ops cs, ops = handleReady (sr_ping sr) r ∧ cs = []
  | EMetrics => λ ops cs, ops = sr_promhttp sr r ∧ cs = []
  | ELogStream => λ ops cs, ops = handleLogStream true (sr_ring sr) (sr_stream sr) r ∧ cs = []
  | ELogsRecent => λ ops cs, ops = handleLogsRecent (sr_ring sr) (sr_ring' sr) r ∧ cs = []
  | ELogViewer => λ ops cs, ops = handleLogViewer r ∧ cs = []
  | EDashboard => λ ops cs, ops = handleDashboard r ∧ cs = []
  | EIndex => λ ops cs, ops = handleIndex s r ∧ cs = []
  end.

Definition route_served (d0 : db) (q : incoming) : behaviour := λ ops cs,
  match find_route (in_request q) with
  | FHandler (_, e) _ => endpoint_served d0 (in_surroundings q) e (inner_request q) ops cs
  | FSlash path | FClean path _ => ops = http_Redirect (inner_request q) path ∧ cs = []
  | FMethodNotAllowed allowed =>
      ops = SetHeader "Allow" (String.concat ", " allowed) ::
            http_Error "Method Not Allowed" StatusMethodNotAllowed ∧ cs = []
  | FNotFound => ops = http_Error "404 page not found" StatusNotFound ∧ cs = []
  end.

(** ** Panics

    What a request had done when one of its log lines panicked: all that goes
    with some answer it was on the way to, or, if the line came before the
    money transaction or from a retry of it, nothing of that.  The reads log
    failures alone, the other endpoints nothing. *)

Definition endpoint_cut (d0 : db) (e : endpoint) (r : request) : behaviour :=
  match e with
  | ECreateWallet => authenticated d0 r (λ d uid r, wallet_served (seen E d) r uid)
  | EGetWallet => authenticated d0 r (λ d _ r ops cs, wallet_shown (seen E d) r ops ∧ cs = [])
  | ECreateTransfer => authenticated d0 r (λ d uid r, begun C (seen E d) (User.Mk (uuid_out uid)) r)
  | EGetTransfer => authenticated d0 r (λ d _ r ops cs, transfer_shown (seen E d) r ops ∧ cs = [])
  | EMint => admin_only r (λ r ops cs, mint_served (seen E d0) r ops cs ∨ cs = [])
  | _ => λ _ _, False
  end.

Definition may_log (e : endpoint) (ops : list write_op) : Prop :=
  match e with
  | EGetWallet | EGetTransfer => status_of ops = StatusInternalServerError
  | _ => True
  end.

Definition route_cut (d0 : db) (q : incoming) (cs : list (db * db)) : Prop :=
  match find_route (in_request q) with
  | FHandler (_, e) _ => ∃ would, may_log e would ∧ endpoint_cut d0 e (inner_request q) would cs
  | _ => False
  end.

(** A line of the request panics: of its handler, or of the wrapper when it
    counts it. *)
Definition line_panics (q : incoming) : Prop := ∃ n, sr_panics (in_surroundings q) n = true.
Definition closing_panics (q : incoming) : Prop := ∃ n, sr_closing (in_surroundings q) n = true.

(** The answer to a request that panicked. *)
Definition panic_answer (q : incoming) : list write_op :=
  writeError (inner_request q) StatusInternalServerError "internal_error" "unexpected server error".

(** How the response ends. *)
Definition ending (q : incoming) (tail : list write_op) : Prop :=
  tail = [] ∨ (tail = [Abort] ∧ closing_panics q).

Lemma ending_tail q tail : ending q tail → tail = [] ∨ tail = [Abort].
Proof. intros [->|[-> _]]; auto. Qed.

(** ** The whole request, served on tables that evolve from [d0] *)

Inductive served (d0 : db) (q : incoming) : behaviour :=
| sv_answered inner tail cs :
    ending q tail → route_served d0 q inner cs →
    served d0 q (SetHeader correlationHeader (request_id q) :: inner ++ tail) cs
| sv_panicked tail cs :
    ending q tail → line_panics q → route_cut d0 q cs →
    served d0 q (SetHeader correlationHeader (request_id q) :: panic_answer q ++ tail) cs.

(** The answer [ops] is that of a request that panicked: an unexpected server
    error. *)
Definition panicked (q : incoming) (ops : list write_op) : Prop :=
  line_panics q ∧ ∃ tail, ending q tail ∧
    ops = SetHeader correlationHeader (request_id q) :: panic_answer q ++ tail.

(** An answer that is no error is the handler's: so is one whose body is no
    error document, or whose status is not 500. *)
Lemma served_body d0 q ops cs p :
  served d0 q ops cs → WriteBody p ∈ ops → (∀ code msg id, p ≠ PError code msg id) →
  ∃ inner, route_served d0 q inner cs ∧ WriteBody p ∈ inner.
Proof.
  intros Hs Hin Hp.
  assert (Htail : ∀ tail, ending q tail → WriteBody p ∉ tail) by (intros tail [-> | ->]%ending_tail; set_solver).
  destruct Hs as [inner tail cs' Ht Hr|tail cs' Ht _ _]; apply elem_of_cons in Hin as [|Hin]; try done;
    (apply elem_of_app in Hin as [Hin|Hin]; [|by destruct (Htail tail Ht)]).
  - by exists inner.
  - exfalso. revert Hin. unfold panic_answer, writeError, writeJSON. rewrite !elem_of_cons.
    intros [|[|[[= ->]|?%not_elem_of_nil]]]; [done|done|by eapply Hp|done].
Qed.

Lemma served_status d0 q ops cs :
  served d0 q ops cs → status_of ops ≠ StatusInternalServerError →
  ∃ inner tail, ops = SetHeader correlationHeader (request_id q) :: inner ++ tail ∧ ending q tail ∧
    status_of ops = status_of inner ∧ route_served d0 q inner cs.
Proof.
  intros [inner tail cs' Ht Hr|tail cs' Ht _ _] Hst; [|by rewrite status_of_wrapped in Hst by by eapply ending_tail].
  exists inner, tail. by rewrite status_of_wrapped by by eapply ending_tail.
Qed.
End spec.
