(* ===== verification/ServerProof.v ===== *)
(** * The server implements its specification

    Every request, through the whole handler, is [served]: one lemma per
    endpoint, one per layer around them. *)

From Stdlib Require Import String.
From S2P Require Import Prelude GoStrings Json Errors Database Locks Obs Session Store Wallets Transfers.
From S2P Require Import InvariantAudit Ring Http Middleware Handlers Routing Api Process.
From S2P Require Import Accounting Wp TxLoop TransferSpec TransferProof WalletSpec WalletProof Panics HandlerProof.
From S2P Require Import Concurrent Cmds ApiCmds Service ServerSpec.

Section endpoints.
Context `{PgText} (C : choice → Prop) (R : list lock → db → db → Prop).
Context (P : db → Prop) (HP : ∀ ls d d', P d → R ls d d' → P d').
Context (HR : ∀ ls d d', R ls d d' → rely ls d d') (Hwf : ∀ d, P d → wf_db d).
Context (s : Server) (r : request).

(** A metric, a log line, and the end. *)
Lemma metric_step {A} m (p : prog A) Q N w :
  (∀ w', quiet P w w' → wpp C R p Q N w') → wpp C R (metric m;; p) Q N w.
Proof. by apply wpp_metric. Qed.

(** A line before the answer it goes with: [B'] is what is told of the
    request if the line panics. *)
Lemma log_answer w0 (B B' : list write_op → list (db * db) → Prop) ops cs ctx lvl msg attrs w :
  session w = None → commits w = cs ++ commits w0 → B ops cs → B' ops cs →
  wpp C R (log_at s ctx lvl msg attrs;; mret ops) (ends w0 B) (abandoned w0 B') w.
Proof.
  intros Hs Hc HB HB'. apply (wpp_log C R P HP HR Hwf); intros w' Hq; [|apply wpp_ret; by eapply (ends_quiet P)].
  exists ops. by eapply (ends_quiet P).
Qed.

Lemma wpp_handleCreateWallet uid w :
  (∀ d, P d → is_Some (users d !! uid)) → session w = None → P (committed w) →
  wpp C R (handleCreateWallet s (User.Mk (uuid_out uid)) r) (ends w (wallet_served C P r uid))
    (abandoned w (wallet_served C P r uid)) w.
Proof.
  intros Huser Hs HPw. unfold handleCreateWallet. apply wpp_bind, wpp_GetOrCreateWallet.
  eapply wp_mono, (wp_GetOrCreateWallet C R P HP Hwf); [|done|done].
  intros [[wallet created] err] w1 (Hs1 & cs & Hc1 & Hout). cbn beta iota.
  assert (Hin : uuid_in (User.ID (User.Mk (uuid_out uid))) = Some uid) by apply uuid_out_in.
  assert (Hfail : err ≠ None → wallet_served C P r uid (internal_error r "could not provision wallet") cs).
  { inversion Hout as [d uid' i row cr d' HPd Hi Hh|d e HPd Hrej|e Hi He|d uid' i row cr d' e HPd Hi' Hh Hi He]; subst;
      intros Hne; [done| |by apply ws_env|].
    - destruct Hrej as [Ht|Hn|ch row uid' HC Hu Hi Hnone|uid' Hi Hn Hnone].
      + by rewrite (uuid_in_text _ _ Hin) in Ht.
      + by rewrite Hin in Hn.
      + rewrite Hin in Hi. injection Hi as <-. by eapply ws_id.
      + rewrite Hin in Hi. injection Hi as <-. destruct (Huser d HPd) as [x Hx]. by rewrite Hx in Hn.
    - rewrite Hin in Hi'. injection Hi' as <-. by eapply ws_lost. }
  destruct err as [err|].
  { apply (log_answer _ _ _ _ cs); [done|exact Hc1|by apply Hfail..]. }
  inversion Hout as [d uid' i row cr d' HPd Hi Hh| | |]; subst. rewrite Hin in Hi. injection Hi as <-.
  apply metric_step. intros w2 [Hs2 Hc2 _].
  apply (log_answer _ _ _ _ [(d, d')]); [congruence|by rewrite Hc2, Hc1|by eapply ws_ok..].
Qed.

(** An endpoint that only reads. *)
Lemma ends_reading w (B : list write_op → Prop) ops w1 w2 :
  session w1 = None → commits w1 = commits w → B ops → quiet P w1 w2 → ends w (λ ops cs, B ops ∧ cs = []) ops w2.
Proof. intros Hs Hc HB Hq. by apply (ends_quiet P w _ ops [] w1). Qed.

(** What a read does when its line panics: it was about to fail. *)
Definition failed_read (B : list write_op → Prop) (ops : list write_op) (cs : list (db * db)) : Prop :=
  status_of ops = StatusInternalServerError ∧ B ops ∧ cs = [].

Lemma read_failed w0 (B : list write_op → Prop) ctx attrs (lmsg msg : string) w :
  session w = None → commits w = commits w0 → B (internal_error r msg) →
  wpp C R (log_at s ctx LevelError lmsg attrs;; mret (internal_error r msg))
    (ends w0 (λ ops cs, B ops ∧ cs = [])) (abandoned w0 (failed_read B)) w.
Proof.
  intros Hs Hc HB. apply (log_answer _ _ _ _ []); [done|done|done|]. split_and!; [by apply status_of_writeError|done|done].
Qed.

Lemma wpp_handleGetWallet user w :
  session w = None → P (committed w) →
  wpp C R (handleGetWallet s user r) (ends w (λ ops cs, wallet_shown C P r ops ∧ cs = []))
    (abandoned w (failed_read (wallet_shown C P r))) w.
Proof.
  intros Hs HPw. unfold handleGetWallet. apply wpp_bind, wpp_GetWallet.
  eapply wp_mono, (wp_GetWallet C R P HP); [|done|done].
  intros [wallet err] w1 (Hs1 & Hc1 & HP1 & Hout). cbn beta iota.
  apply (get_wallet_mono C P _ _ _ (λ d (Hd : d = committed w1), eq_ind_r P HP1 Hd)) in Hout.
  inversion Hout as [d i row Hd Hi Hrow|d Hd Hn|Ht|e Hi He]; subst; clear Hout.
  - apply wpp_ret. apply (ends_reading w _ _ w1); [done|done|by eapply sh_wallet|apply quiet_refl].
  - change (errors_Is ErrWalletNotFound ErrWalletNotFound) with true. apply wpp_ret. apply (ends_reading w _ _ w1); [done|done|by eapply sh_no_wallet|apply quiet_refl].
  - change (errors_Is (EPg invalid_encoding) ErrWalletNotFound) with false.
    apply read_failed; [done|done|]. apply sh_wallet_failed. by left.
  - assert (errors_Is e ErrWalletNotFound = false) as -> by not_env_error.
    apply read_failed; [done|done|]. apply sh_wallet_failed. by right.
Qed.

Lemma wpp_handleGetTransfer user w :
  session w = None → P (committed w) →
  wpp C R (handleGetTransfer s user r) (ends w (λ ops cs, transfer_shown C P r ops ∧ cs = []))
    (abandoned w (failed_read (transfer_shown C P r))) w.
Proof.
  intros Hs HPw. unfold handleGetTransfer. apply wpp_bind, wpp_GetTransfer.
  eapply wp_mono, (wp_GetTransfer C R P HP); [|done|done].
  intros [t err] w1 (Hs1 & Hc1 & Hout). cbn beta iota.
  inversion Hout as [d i row Hd Hi Hrow|d Hd Hn|Ht|e Hi He]; subst; clear Hout.
  - apply wpp_ret. apply (ends_reading w _ _ w1); [done|done|by eapply sh_transfer|apply quiet_refl].
  - change (errors_Is ErrTransferNotFound ErrTransferNotFound) with true. apply wpp_ret. apply (ends_reading w _ _ w1); [done|done|by eapply sh_no_transfer|apply quiet_refl].
  - change (errors_Is (EPg invalid_encoding) ErrTransferNotFound) with false.
    apply read_failed; [done|done|]. apply sh_transfer_failed. by left.
  - assert (errors_Is e ErrTransferNotFound = false) as -> by not_env_error.
    apply read_failed; [done|done|]. apply sh_transfer_failed. by right.
Qed.

(** The audit logs nothing. *)
Lemma wpp_handleInvariants N w :
  session w = None → P (committed w) →
  wpp C R (handleInvariants r) (ends w (λ ops cs, audit_shown C P r ops ∧ cs = [])) N w.
Proof.
  intros Hs HPw. unfold handleInvariants. apply wpp_bind, wpp_CheckInvariants.
  eapply wp_mono, (wp_CheckInvariants C R P HP); [|done|done].
  intros [inv err] w1 (Hs1 & Hc1 & _ & Hout). cbn beta iota.
  inversion Hout as [d HPd Hfit|d m HPd Hfit|e Hi He]; subst; clear Hout.
  - apply metric_step. intros w2 Hq2. apply metric_step. intros w3 Hq3. apply wpp_ret.
    assert (Hall : Invariants.AllHold (audit_of d) = true) by (apply audit_of_wf; eauto).
    rewrite Hall. apply (ends_reading w _ _ w1); [done|done|by eapply sh_audit|by eapply quiet_trans].
  - apply wpp_ret. apply (ends_reading w _ _ w1); [done|done| |apply quiet_refl]. apply sh_audit_failed. left. by exists d.
  - apply wpp_ret. apply (ends_reading w _ _ w1); [done|done| |apply quiet_refl]. apply sh_audit_failed. by right.
Qed.
End endpoints.

(** ** POST /admin/mint *)

Lemma decode_mint_amount r body a :
  decode_mint r = Ok body → mintRequestBody.AmountPaise body = Some a → in_int64 a = true.
Proof.
  unfold decode_mint, decodeJSON. destruct (scan_document _) as [[v rest]|]; [|done]. cbn [rbind].
  destruct (decode_struct _ _ _ v) as [b|] eqn:Hd; [|done]. cbn [rbind].
  destruct (skip_space rest); [|done]. intros [= <-]. revert a.
  refine (decode_struct_inv _ _ (λ b, ∀ a, mintRequestBody.AmountPaise b = Some a → in_int64 a = true)
    _ _ _ _ _ Hd); [by intros a|].
  intros name v' [wallet amount key] Hb. unfold store_mint. simpl in Hb.
  repeat destruct (String.eqb name _); try (by destruct (store_string _ _ _)).
  pose proof (store_int64_range name v' amount Hb) as Hs. by destruct (store_int64 name v' amount).
Qed.

Section mint.
Context `{PgText} (C : choice → Prop) (R : list lock → db → db → Prop).
Context (P : db → Prop) (HP : ∀ ls d d', P d → R ls d d' → P d').
Context (HR : ∀ ls d d', R ls d d' → rely ls d d') (Hwf : ∀ d, P d → wf_db d).
Context (s : Server) (r : request).

(** What the handler makes of an outcome of [Mint]. *)
Lemma mint_answer walletID key a wallet applied err cs :
  mint_asked r walletID key a → mint_outcome C P walletID key a (wallet, applied, err) cs →
  match err with
  | None => mint_served C P r
      ((if applied then [] else [SetHeader "Idempotent-Replay" "true"]) ++ writeJSON StatusOK (PWallet wallet)) cs
  | Some err =>
      mint_served C P r
        (if errors_Is err ErrWalletNotFound
         then writeError r StatusNotFound "wallet_not_found" "no wallet with that id"
         else internal_error r "could not mint") cs
  end.
Proof.
  intros Hask Hout.
  inversion Hout as [d u wid rw now HPd Hi Ht Hm|d d0 wid row HPd HP0 Hk Hi Hrow|d w ap e HPd Hrej|w ap e Hi He
    |d u wid rw now w ap e HPd Hid Ht Hm Hi He|d w ap e HPd Hk Hi He]; subst; clear Hout.
  - by eapply ms_credited.
  - by eapply ms_replayed.
  - destruct Hrej as [He|Hn|c Hle|wid Hi Hn|wid rw Hi Hrow Hkey Hov].
    + simpl. eapply ms_refused; [done|done|by apply mr_encoding].
    + simpl. eapply ms_no_wallet; [done|done|by rewrite Hn].
    + destruct Hask as (_ & _ & Hpos & _). lia.
    + simpl. eapply ms_no_wallet; [done|done|by rewrite Hi].
    + simpl. eapply ms_refused; [done|done|by eapply mr_overflow].
  - assert (errors_Is e ErrWalletNotFound = false) as -> by not_env_error. by apply ms_env.
  - assert (errors_Is e ErrWalletNotFound = false) as -> by not_env_error. by eapply ms_lost.
  - assert (errors_Is e ErrWalletNotFound = false) as -> by not_env_error. by eapply ms_lost_replay.
Qed.

(** What it did if it was unwound: what it answers for, or nothing yet. *)
Definition mint_begun (ops : list write_op) (cs : list (db * db)) : Prop := mint_served C P r ops cs ∨ cs = [].

Lemma wpp_handleMint w :
  session w = None → P (committed w) →
  wpp C R (handleMint s r) (ends w (mint_served C P r)) (abandoned w mint_begun) w.
Proof.
  intros Hs HPw. unfold handleMint.
  assert (Hstop : ∀ ops, mint_served C P r ops [] →
    wpp C R (mret ops) (ends w (mint_served C P r)) (abandoned w mint_begun) w).
  { intros ops Hm. apply wpp_ret. by apply (ends_quiet P w _ ops [] w); [..|apply quiet_refl]. }
  destruct (decode_mint r) as [[walletID amount key]|err] eqn:Hdec; [|apply Hstop; by apply ms_body].
  assert (Hinv : ∀ code (msg : string), (∀ x k a, ¬ mint_asked r x k a) →
    wpp C R (mret (writeError r StatusUnprocessableEntity code msg)) (ends w (mint_served C P r)) (abandoned w mint_begun) w).
  { intros code msg Hn. apply Hstop. by eapply ms_invalid. }
  destruct amount as [a|]; [|apply Hinv; intros x k a [Hd _]; congruence].
  destruct (String.eqb_spec walletID "") as [->|Hid]; cbn [orb].
  { apply Hinv. intros x k b (Hd & Hne & _). congruence. }
  destruct (Z.leb_spec a 0); [apply Hinv; intros x k b (Hd & _ & Hpos & _); rewrite Hd in Hdec; simplify_eq; lia|].
  destruct (String.eqb_spec (TrimSpace key) "") as [Hk|Hk].
  { apply Hinv. intros x k b (Hd & _ & _ & Hne). congruence. }
  assert (Hask : mint_asked r walletID key a) by done.
  apply wpp_bind, wpp_Mint; [|done|].
  { intros w' [Hs' Hc']. exists []. split; [done|]. exists []. split; [done|by right]. }
  eapply wp_mono, (wp_Mint C R P HP HR Hwf); [|by eapply decode_mint_amount|done|done].
  intros [[wallet applied] err] w1 (Hs1 & cs & Hc1 & Hout). cbn beta iota.
  pose proof (mint_answer _ _ _ _ _ _ _ Hask Hout) as Hans.
  destruct err as [err|].
  - destruct (errors_Is err ErrWalletNotFound).
    + apply wpp_ret. by apply (ends_quiet P w _ _ cs w1); [..|apply quiet_refl].
    + apply (log_answer C R P HP HR Hwf s _ _ _ _ cs); [done|done|done|by left].
  - assert (Hend : ∀ w2, quiet P w1 w2 → wpp C R (log_at s (rq_ctx r) LevelInfo "mint"
        [("event", AString "mint"); ("wallet_id", AString (Wallet.ID wallet)); ("amount_paise", AInt64 a);
         ("applied", ABool applied); ("balance_paise", AInt64 (Wallet.BalancePaise wallet))];;
      mret ((if applied then [] else [SetHeader "Idempotent-Replay" "true"]) ++ writeJSON StatusOK (PWallet wallet))%list)
      (ends w (mint_served C P r)) (abandoned w mint_begun) w2).
    { intros w2 [Hs2 Hc2 _]. apply (log_answer C R P HP HR Hwf s _ _ _ _ cs); [congruence|by rewrite Hc2|done|by left]. }
    destruct applied; [|exact (Hend w1 (quiet_refl _ _))].
    apply wpp_bind. unfold metric. intros d ch Hch Hr. split; [apply guar_refl|]. split; [done|].
    apply wpp_ret, Hend. split; [done|done|]. intros HP1. split; [by eapply HP|]. by destruct (HR _ _ _ Hr (Hwf _ HP1)).
Qed.
End mint.

(** ** The layers around the endpoints *)

Section server.
Context `{PgText} (C : choice → Prop) (R : list lock → db → db → Prop).
Context (HR : ∀ ls d d', R ls d d' → rely ls d d') (s : Server).
Context (E : db → Prop) (HE : ∀ ls d d', R ls d d' → E d').

Lemma seen_R d0 ls d d' : seen E d0 d → R ls d d' → seen E d0 d'.
Proof. intros Hd Hr. eapply seen_stable; [exact Hd|]. split; eauto. Qed.

(** [B'] and [L] are for the requests that are unwound: what was done, and
    what they may have been about to answer. *)
Lemma wpp_authenticate d0 next B B' (L : list write_op → Prop) r w :
  session w = None → seen E d0 (committed w) → (∀ msg, L (internal_error r msg)) →
  (∀ d uid r' w', is_Some (users d !! uid) → session w' = None → seen E d (committed w') →
     wpp C R (next (User.Mk (uuid_out uid)) r') (ends w' (B d uid r'))
       (abandoned w' (λ ops cs, L ops ∧ B' d uid r' ops cs)) w') →
  wpp C R (authenticate s next r) (ends w (authenticated C E d0 r B))
    (abandoned w (λ ops cs, L ops ∧ authenticated C E d0 r B' ops cs)) w.
Proof.
  intros Hs Hd HL Hnext. unfold authenticate. destruct (bearerToken r) as [token|] eqn:Ht.
  2:{ apply wpp_ret. split; [done|]. exists []. split; [done|]. by apply au_anonymous. }
  apply wpp_bind, wpp_UpsertUser.
  eapply wp_mono, (wp_UpsertUser_leaves C R (seen E d0) (seen_R d0) (seen_wf E d0)); [|done|done].
  intros [user err] w1 (Hs1 & cs & Hc1 & Hout & Hleft). cbn beta iota.
  assert (Hfail : ∀ e, (∀ B, authenticated C E d0 r B (internal_error r "could not resolve caller") cs) →
    wpp C R (log_at s (rq_ctx r) LevelError "auth failed" [("error", AErrorText e)];;
      mret (writeError r StatusInternalServerError "internal_error" "could not resolve caller"))
      (ends w (authenticated C E d0 r B)) (abandoned w (λ ops cs, L ops ∧ authenticated C E d0 r B' ops cs)) w1).
  { intros e Hau. apply (log_answer C R (seen E d0) (seen_R d0) HR (seen_wf E d0) s _ _ _ _ cs); [done|done|apply Hau|].
    split; [apply HL|apply Hau]. }
  inversion Hout as [d uid d' HPd Hh|d ch row HPd HC Hu Hn|e Hi He|d uid d' e HPd Hh Hi He]; subst.
  - rewrite <- (Hleft d d' eq_refl) in *. destruct (holds_user_wf d _ _ _ (seen_wf _ _ _ HPd) Hh) as (Hwf' & _).
    assert (Huser : is_Some (users (committed w1) !! uid)).
    { clear -Hh. destruct Hh as [i row Hi _|u now _ _]; [by eexists|]. simpl. rewrite lookup_insert_eq. by eexists. }
    assert (Hends : ∀ (D : list write_op → Prop) D' ops w2, ends w1 (λ ops cs, D ops ∧ D' (committed w1) uid (authenticated_request r) ops cs) ops w2 →
      ends w (λ ops cs, D ops ∧ authenticated C E d0 r D' ops cs) ops w2).
    { intros D D' ops w2 (Hs2 & cs & Hc2 & HD & HB). split; [done|]. exists (cs ++ [(d, committed w1)]).
      split; [by rewrite Hc2, Hc1, <- app_assoc|]. split; [done|]. by eapply au_user. }
    eapply wpp_mono, (Hnext _ uid _ w1 Huser Hs1); [| |by apply seen_refl].
    + intros ops w2 (Hs2 & cs & Hc2 & HB).
      destruct (Hends (λ _, True) B ops w2) as (_ & cs' & Hc' & _ & Hau); [split; [done|by exists cs]|].
      split; [done|]. by exists cs'.
    + intros w2 [ops Hops]. exists ops. by apply Hends.
  - apply Hfail. intros B0. by eapply au_id.
  - apply Hfail. intros B0. by apply au_env.
  - apply Hfail. intros B0. by eapply au_lost.
Qed.

Lemma wpp_requireAdmin next B B' (L : list write_op → Prop) r w :
  session w = None → wpp C R (next r) (ends w (B r)) (abandoned w (λ ops cs, L ops ∧ B' r ops cs)) w →
  wpp C R (requireAdmin s next r) (ends w (admin_only s r B)) (abandoned w (λ ops cs, L ops ∧ admin_only s r B' ops cs)) w.
Proof.
  intros Hs Hn. unfold requireAdmin.
  assert (Hno : bearerToken r ≠ Some (sv_adminToken s) →
    wpp C R (mret (writeError r StatusForbidden "forbidden" "admin token required"))
      (ends w (admin_only s r B)) (abandoned w (λ ops cs, L ops ∧ admin_only s r B' ops cs)) w).
  { intros Ht. apply wpp_ret. split; [done|]. exists []. split; [done|]. by apply ao_refused. }
  destruct (bearerToken r) as [token|] eqn:Ht; [|by apply Hno].
  destruct (String.eqb_spec token (sv_adminToken s)) as [->|Hne]; [|apply Hno; congruence].
  eapply wpp_mono, Hn.
  - intros ops w1 (Hs1 & cs & Hc & HB). split; [done|]. exists cs. split; [done|]. by apply ao_admin.
  - intros w1 (ops & Hs1 & cs & Hc & HL & HB). exists ops. split; [done|]. exists cs. split; [done|].
    split; [done|]. by apply ao_admin.
Qed.

Lemma wpp_endpoint d0 sr e r w :
  session w = None → seen E d0 (committed w) →
  wpp C R (endpoint_handler s sr e r) (ends w (endpoint_served C s E d0 sr e r))
    (abandoned w (λ ops cs, may_log e ops ∧ endpoint_cut C s E d0 e r ops cs)) w.
Proof.
  intros Hs Hd.
  destruct e; cbn [endpoint_handler endpoint_served endpoint_cut may_log];
    try (apply wpp_ret; split; [done|]; exists []; done).
  1-4: apply wpp_authenticate; [done|done|by intros; try apply status_of_writeError|]; intros d uid r' w' Hu Hs' Hd'.
  - eapply wpp_mono, (wpp_handleCreateWallet C R (seen E d) (seen_R d) HR (seen_wf E d)); [done| | |done|done].
    + intros w1 (ops & Hs1 & cs & Hc & HB). exists ops. split; [done|]. by exists cs.
    + intros d1 [[_ Hg] _]. eapply lookup_weaken_is_Some; [exact Hu|apply Hg].
  - by apply (wpp_handleGetWallet C R (seen E d) (seen_R d) HR (seen_wf E d)).
  - eapply wpp_mono, (wpp_handleCreateTransfer C R (seen E d) (seen_R d) HR (seen_wf E d)); [done| |done|done].
    intros w1 (ops & Hs1 & cs & Hc & HB). exists ops. split; [done|]. by exists cs.
  - by apply (wpp_handleGetTransfer C R (seen E d) (seen_R d) HR (seen_wf E d)).
  - apply wpp_requireAdmin; [done|].
    eapply wpp_mono, (wpp_handleMint C R (seen E d0) (seen_R d0) HR (seen_wf E d0)); [done| |done|done].
    intros w1 (ops & Hs1 & cs & Hc & HB). exists ops. split; [done|]. by exists cs.
  - by apply (wpp_handleInvariants C R (seen E d0) (seen_R d0) HR (seen_wf E d0)).
Qed.

(** The deferred function emits, and is unwound at most itself. *)
Lemma wp_deferred d0 closing ctx r panicked status w :
  wp C R (unwind closing (observe_deferred s ctx r panicked status))
    (λ o w', quiet (seen E d0) w w' ∧ (o = None → ∃ n, closing n = true)) w.
Proof.
  eapply wp_mono, (wpp_unwind C R closing _ (λ _, quiet (seen E d0) w) (quiet (seen E d0) w)).
  { intros [[]|] w'; [done|]. by intros [Hq Hn]. }
  unfold observe_deferred. apply wpp_bind, (wpp_log_last C R (seen E d0) (seen_R d0) HR (seen_wf E d0)); [done|].
  intros w1 Hq1. cbv zeta. apply (wpp_metric C R (seen E d0) (seen_R d0) HR (seen_wf E d0)). intros w2 Hq2.
  apply (wpp_metric C R (seen E d0) (seen_R d0) HR (seen_wf E d0)). intros w3 Hq3.
  apply (wpp_log_last C R (seen E d0) (seen_R d0) HR (seen_wf E d0)); intros w4 Hq4; eauto using quiet_trans.
Qed.

(** The observing wrapper adds the correlation header and events, and answers
    for a handler that is unwound. *)
Definition observed (closing panics : nat → bool) (id : string) (r : request)
    (B : list write_op → list (db * db) → Prop) (B' : list (db * db) → Prop) : list write_op → list (db * db) → Prop :=
  λ ops cs, ∃ inner tail, ops = SetHeader correlationHeader id :: inner ++ tail ∧
    (tail = [] ∨ (tail = [Abort] ∧ ∃ n, closing n = true)) ∧
    (B inner cs ∨
     (inner = writeError r StatusInternalServerError "internal_error" "unexpected server error" ∧
      (∃ n, panics n = true) ∧ B' cs)).

Lemma wp_observe d0 closing panics random nanos next B B' r w :
  let header := rq_header r correlationHeader in
  let id := if String.eqb header "" then newCorrelationID random nanos else header in
  let r' := with_context r (WithCorrelationID (rq_ctx r) id) in
  session w = None → seen E d0 (committed w) →
  (∀ w', session w' = None → seen E d0 (committed w') → wpp C R (next r') (ends w' B) (abandoned w' (λ _, B')) w') →
  wp C R (observe s closing random nanos (recovered panics next) r)
    (ends w (observed closing panics id r' B B')) w.
Proof.
  intros header id r' Hs Hd Hnext. unfold observe, recovered. fold header. fold id. fold r'.
  apply (wp_metric C R (seen E d0) (seen_R d0) HR (seen_wf E d0)). intros w1 [Hs1 Hc1 Ht1].
  destruct (Ht1 Hd) as [Hd1 _]. rewrite Hs in Hs1. apply wp_bind, wp_bind.
  eapply wp_mono, wpp_unwind, Hnext; [|done|done]. intros o w2 Ho. apply wp_ret. cbv zeta.
  set (inner := match o with Some ops => ops
    | None => writeError r' StatusInternalServerError "internal_error" "unexpected server error" end).
  assert (Hlast : ∀ (closed : option unit) w3,
    quiet (seen E d0) w2 w3 ∧ (closed = None → ∃ n, closing n = true) →
    wp C R (metric HTTPInFlightDec;;
            mret (SetHeader correlationHeader id :: inner ++ (match closed with Some _ => [] | None => [Abort] end)))
      (ends w (observed closing panics id r' B B')) w3).
  { intros closed w3 [[Hs3 Hc3 _] Hcl]. apply (wp_metric C R (seen E d0) (seen_R d0) HR (seen_wf E d0)).
    intros w4 [Hs4 Hc4 _]. apply wp_ret.
    assert (Htail : match closed with Some _ => [] | None => [Abort] end = [] ∨
      match closed with Some _ => [] | None => [Abort] end = [Abort] ∧ ∃ n, closing n = true)
      by (destruct closed; [by left|right; split; [done|by apply Hcl]]).
    destruct o as [ops|]; [destruct Ho as (Hs2 & cs & Hc2 & HB)|destruct Ho as [(would & Hs2 & cs & Hc2 & HB) Hn]];
      (split; [congruence|]); exists cs; (split; [by rewrite Hc4, Hc3, Hc2, Hc1|]); eexists inner, _;
      (split; [done|]); (split; [done|]); [by left|by right]. }
  destruct o as [ops|]; cbv beta iota; apply wp_bind; eapply wp_mono, (wp_deferred d0);
    intros closed w3 H3; apply Hlast in H3; exact H3.
Qed.

(** Every request to the server is [served]. *)
Lemma wp_serve_one d0 q w :
  session w = None → seen E d0 (committed w) →
  wp C R (serve_one s q) (ends w (served C s E d0 q)) w.
Proof.
  intros Hs Hd. unfold serve_one, New_handler. set (sr := in_surroundings q).
  eapply wp_mono, (wp_observe d0 (sr_closing sr) (sr_panics sr) (in_random q) (in_nanos q)
    (mux_ServeHTTP s sr) (route_served C s E d0 q) (route_cut C s E d0 q) (routed (in_request q))); [|done|done|].
  - intros ops w1 (Hs1 & cs & Hc & inner & tail & -> & Htail & HB). split; [done|]. exists cs. split; [done|].
    destruct HB as [HB|(-> & Hn & HB)]; [by apply sv_answered|by apply sv_panicked].
  - intros w1 Hs1 Hd1. unfold mux_ServeHTTP, route_served, route_cut.
    change (find_route (with_context _ _)) with (find_route (in_request q)).
    destruct (find_route (in_request q)) as [[text e] ids|p|p o|ms|];
      [|apply wpp_ret; split; [done|]; exists []; done..].
    eapply wpp_mono, wpp_endpoint; [done| |done|done].
    intros w2 (ops & Hs2 & cs & Hc2 & HL & HB). exists []. split; [done|]. exists cs. split; [done|]. by exists ops.
Qed.
End server.

(** ** The sampler *)

Section sampler.
Context `{PgText} (C : choice → Prop) (R : list lock → db → db → Prop) (E : db → Prop).
Context (HR : ∀ ls d d', R ls d d' → rely ls d d') (HE : ∀ ls d d', R ls d d' → E d').
Context (s : Server) (d0 : db).

(** An event that does not cry wolf: the total balance of tables that were
    there, and a ledger that sums to zero. *)
Definition calm_event (e : event) : Prop :=
  match e with
  | EvMetric (TotalBalanceSet x) =>
      ∃ d, seen E d0 d ∧ audit_fits d = true ∧
        x = float64_of_int64 (map_sum (λ _, w_balance_paise) (wallets d))
  | EvMetric (LedgerSumSet z) => z = 0
  | _ => False
  end.

Record sampling (w : world) : Prop := {
  sa_session : session w = None;
  sa_tables : seen E d0 (committed w);
  sa_commits : commits w = [];
  sa_trace : Forall calm_event (trace w)
}.

Lemma seen_sampler ls d d' : seen E d0 d → R ls d d' → seen E d0 d'.
Proof. intros Hd Hr. eapply seen_stable; [exact Hd|]. split; eauto. Qed.

Lemma sample_emit {B} m (p : prog B) Q w :
  calm_event (EvMetric m) → sampling w → (∀ w', sampling w' → wp C R p Q w') → wp C R (metric m;; p) Q w.
Proof.
  intros Hm [Hs Hd Hc Ht] Hk. apply wp_emit_trace. intros d w' Hr (Hs' & Hd' & Hc') Ht'. apply Hk.
  split; [congruence|subst d; by eapply seen_sampler|congruence|]. rewrite Ht'. apply Forall_app. by repeat constructor.
Qed.

(** The audit emits nothing. *)
Lemma silent_CheckInvariants : every (emits (λ _, False)) CheckInvariants (λ _, True).
Proof. by apply every_CheckInvariants. Qed.

Lemma wp_sample_tick w : sampling w → wp C R (sample_tick s) (λ _ w', sampling w') w.
Proof.
  intros [Hs Hd Hc Ht]. unfold sample_tick. apply wp_bind.
  eapply wp_mono, (wp_trace C R calm_event); [| |exact Ht|].
  3:{ by apply (wp_CheckInvariants C R (seen E d0) seen_sampler). }
  2:{ eapply every_weaken, silent_CheckInvariants. by intros B []. }
  intros [inv [err|]] w1 [(Hs1 & Hc1 & Hd1 & Hout) Ht1]; cbn beta iota.
  { apply wp_ret. split; [done|done|congruence|done]. }
  inversion Hout as [d Hd' Hfit| |]; subst.
  destruct (audit_of_wf d (seen_wf _ _ _ Hd')) as (Hall & Hz & _). rewrite Hall, Hz.
  apply sample_emit; [by exists d|split; [done|done|congruence|done]|]. intros w2 Hw2.
  by apply sample_emit.
Qed.

Lemma wp_sampleInvariants every_ns ticks w :
  sampling w → wp C R (sampleInvariants s every_ns ticks) (λ _ w', sampling w') w.
Proof.
  intros Hw. unfold sampleInvariants. destruct (every_ns <=? 0); [done|].
  revert w Hw. induction ticks as [|n IH]; intros w Hw; [done|]. cbn [sample_loop].
  apply wp_bind. eapply wp_mono, wp_sample_tick; [|done]. intros [] w1. apply IH.
Qed.
End sampler.

(** The line the sampler logs when an invariant fails. *)
Definition alarm (e : event) : Prop :=
  ∃ ctx attrs, e = EvLog (Handle ctx (MkRecord LevelError "INVARIANT VIOLATION" attrs)).

(** A tick with nothing in its way, on any tables: whether it raises the alarm. *)
Lemma sample_tick_alarm `{PgText} (C : choice → Prop) s d :
  ¬ infra C →
  wp C alone (sample_tick s)
    (λ _ w', (∃ e, e ∈ trace w' ∧ alarm e) ↔ audit_fits d = true ∧ Invariants.AllHold (audit_of d) = false)
    (start d).
Proof.
  intros Hcalm. unfold sample_tick. apply wp_bind.
  eapply wp_mono, (wp_trace C alone (λ _, False)); [|exact silent_CheckInvariants|constructor|].
  2:{ apply (wp_CheckInvariants C alone (λ x, x = d)); [by intros ls a b -> ->|done|done]. }
  intros [inv err] w1 [(_ & _ & _ & Hout) Ht1]. cbn [fst snd].
  assert (trace w1 = []) as Htr by (destruct (trace w1); [done|by inversion Ht1]).
  inversion Hout as [x -> Hfit|x m -> Hfit|e Hi He]; subst; [| |done]; cbn beta iota.
  2:{ apply wp_ret. rewrite Htr, Hfit. split; [by intros (e & ?%not_elem_of_nil & _)|by intros [? _]]. }
  rewrite Hfit. apply wp_emit_trace. intros d2 w2 _ _ Ht2. apply wp_emit_trace. intros d3 w3 _ _ Ht3.
  rewrite Ht2, Htr in Ht3. simpl in Ht3.
  destruct (Invariants.AllHold (audit_of d)) eqn:Hall; simpl negb; cbn beta iota.
  - apply wp_ret. rewrite Ht3. split; [|by intros [_ ?]]. intros (e & He & ctx & attrs & ->). set_solver.
  - assert (Hen : Enabled (sv_level s) LevelError = true) by by destruct (sv_level s).
    unfold log_at. rewrite Hen. intros d4 ch _ _. split; [apply guar_refl|]. apply wp_ret. simpl trace. rewrite Ht3.
    split; [by split|]. intros _. eexists. split; [apply elem_of_app; right; by left|]. by eexists _, _.
Qed.

(** ** The process: the requests and the sampler, interleaved *)

Section process.
Context `{PgText} (C : choice → Prop) (s : Server) (d0 : db) (l : list incoming) (every_ns : Z) (ticks : nat).
Context (Hwf : wf_db d0).

(** What thread [i] shows: a request is served, the sampler is calm. *)
Definition process_post (E : db → Prop) (i : nat) (ops : list write_op) (w : world) : Prop :=
  match l !! i with Some q => served C s E d0 q ops (commits w) | None => sampling E d0 w end.

Lemma process_threads E i p :
  process s l every_ns ticks !! i = Some p → wp C (rely_on E) p (process_post E i) (start d0).
Proof.
  unfold process, process_post. intros [Hp|[Hlen Hp]]%lookup_app_Some.
  - unfold serving in Hp. rewrite list_lookup_fmap in Hp. destruct (l !! i) as [q|]; [|done].
    injection Hp as <-. eapply wp_mono, (wp_serve_one C (rely_on E)) with (E := E) (d0 := d0);
      [|by intros ls d d' [? _]|by intros ls d d' [_ ?]|done|by apply seen_refl].
    intros ops w' (_ & cs & Hc & Hq). simpl in Hc. rewrite app_nil_r in Hc. by rewrite Hc.
  - unfold serving in Hlen. rewrite length_fmap in Hlen. rewrite lookup_ge_None_2 by done.
    apply list_lookup_singleton_Some in Hp as [_ <-]. apply wp_bind.
    eapply wp_mono, (wp_sampleInvariants C (rely_on E)) with (E := E) (d0 := d0);
      [by intros [] w'|by intros ls d d' [? _]|by intros ls d d' [_ ?]|]. by split; [|apply seen_refl|..].
Qed.

(** An answer in a run, on the tables of the run. *)
Lemma process_finished h σ i q ops w :
  run_of C d0 (process s l every_ns ticks) h σ → l !! i = Some q → finished σ i ops w →
  served C s (λ d, d ∈ h) d0 q ops (commits w).
Proof.
  intros Hr Hq Hf.
  pose proof (run_finished C (λ d, d ∈ h) d0 _ _ Hwf (process_threads _) h σ i ops w Hr (λ _ Hd, Hd) Hf) as Hp.
  unfold process_post in Hp. by rewrite Hq in Hp.
Qed.

Section reached.
Context (σ : system) (Hr : reachable C d0 (process s l every_ns ticks) σ).

Lemma process_inv : system_inv C anything d0 (process_post anything) σ.
Proof.
  eapply reachable_inv; [exact Hwf|apply process_threads|exact Hr].
Qed.

(** A request at any moment is on the way to being served. *)
Lemma process_completes i q t :
  (∃ ch, C ch) → l !! i = Some q → sys_threads σ !! i = Some t →
  ∃ ops cs, served C s anything d0 q ops (cs ++ commits (th_world t)).
Proof.
  intros HC Hq Ht.
  destruct (reachable_completes C d0 _ _ Hwf (process_threads _) σ i t HC Hr Ht) as (ops & w' & Hp & [cs Hcs] & _).
  exists ops, cs. unfold process_post in Hp. by rewrite Hq, Hcs in Hp.
Qed.
End reached.

Lemma reads_sampler : every reads (sampleInvariants s every_ns ticks;; mret []) (λ _ : list write_op, True).
Proof. apply every_seq; [|done]. by apply every_sampleInvariants. Qed.

(** The sampler at any moment of a run. *)
Lemma process_sampler h σ t :
  (∃ ch, C ch) → run_of C d0 (process s l every_ns ticks) h σ → sys_threads σ !! length l = Some t →
  commits (th_world t) = [] ∧ Forall (calm_event (λ d, d ∈ h) d0) (trace (th_world t)).
Proof.
  intros HC Hr Ht.
  assert (Hlen : length (serving s l) = length l) by (unfold serving; apply length_fmap).
  destruct (run_completes_reads C d0 (process s l every_ns ticks) process_post h σ (length l)
    (sampleInvariants s every_ns ticks;; mret []) t Hwf process_threads HC Hr) as (ops & w' & Hp & Hcs & [tr Htr]);
    [|exact reads_sampler|done|].
  { unfold process. rewrite lookup_app_r, Hlen, Nat.sub_diag by lia. done. }
  unfold process_post in Hp. rewrite lookup_ge_None_2 in Hp by done. destruct Hp as [_ _ Hc Hcalm].
  split; [congruence|]. rewrite Htr in Hcalm. by apply Forall_app in Hcalm as [? _].
Qed.
End process.
