(* ===== verification/Deadlock.v ===== *)
(** * The store's calls are ordered

    Every call of the service asks for its locks in order, given that the
    wallet ids of a transfer are spelled as the server prints them. *)

From S2P Require Import Prelude Errors Database Locks Obs Session Store Wallets Transfers.
From S2P Require Import InvariantAudit Accounting Wp TransferSpec WalletSpec Concurrent LockOrder Service.
Import TransferRequest.

Section calls.
Context `{PgText} (C : choice → Prop).
Abbreviation idle := (λ w, session w = None).

(** An id spelled as the server prints it. *)
Definition canonical (s : string) : Prop := ∀ i, uuid_in s = Some i → uuid_out i = s.

(** ** Calls on the pool *)

Lemma ordered_query {A R} (s : stmt (option R)) (k : result error R → prog A) Q w :
  session w = None → (∀ w' r, session w' = None → ordered C (k r) Q w') →
  ordered C (pool_QueryRow s ≫= k) Q w.
Proof.
  intros Hs Hk. apply ordered_bind. unfold pool_QueryRow. apply ordered_pool; [done|].
  intros w' r Hs'. by apply Hk.
Qed.

Lemma ordered_UpsertUser token w : idle w → ordered C (UpsertUser token) (λ _ w', idle w') w.
Proof. intros Hs. apply ordered_query; [done|]. by intros w' [] Hs'. Qed.

Lemma ordered_GetOrCreateWallet uid w : idle w → ordered C (GetOrCreateWallet uid) (λ _ w', idle w') w.
Proof. intros Hs. apply ordered_query; [done|]. by intros w' [[[]]|] Hs'. Qed.

Lemma ordered_GetWallet id w : idle w → ordered C (GetWallet id) (λ _ w', idle w') w.
Proof.
  intros Hs. apply ordered_query; [done|]. intros w' [[]|e] Hs'; [done|].
  destruct (errors_Is e _); [done|]. by destruct (String.eqb _ _).
Qed.

Lemma ordered_GetTransfer id w : idle w → ordered C (GetTransfer id) (λ _ w', idle w') w.
Proof.
  intros Hs. apply ordered_query; [done|]. intros w' [[]|e] Hs'; [done|]. by destruct (_ || _).
Qed.

Lemma ordered_transferByKey u k w : idle w → ordered C (transferByKey u k) (λ _ w', idle w') w.
Proof.
  intros Hs. apply ordered_query; [done|]. intros w' [[]|e] Hs'; [done|]. by destruct (errors_Is e _).
Qed.

Lemma ordered_CheckInvariants w : idle w → ordered C CheckInvariants (λ _ w', idle w') w.
Proof.
  intros Hs. apply ordered_query; [done|]. intros w' [cols|e] Hs'; [|done].
  destruct (scan_counts cols) as [vs|]; [|done]. do 8 (destruct vs as [|? vs]; [exact Hs'|]).
  destruct vs; exact Hs'.
Qed.

(** ** Mint *)

(** The locks of a fresh mint rank below every wallet row. *)
Lemma mint_locks_rank u v k wid a h i :
  h ∈ stmt_locks u v (InsertMint k wid a) → rank_lt (rank h) (rank (LWallet NoKeyUpdate i)).
Proof.
  simpl. unfold lock_param. rewrite !elem_of_cons. intros [->|[->|Hh]]; [left; simpl; lia..|].
  destruct (uuid_in wid); [|by apply not_elem_of_nil in Hh].
  apply list_elem_of_singleton in Hh as ->. left. simpl. lia.
Qed.

Lemma ordered_read_back {A} wid (k : result error (uuid * wallet_row) → prog A) w :
  (∀ w' r, ordered C (k r) (λ _ _, True) w') →
  ordered C (tx_QueryRow (SelectWallet wid) ≫= k) (λ _ _, True) w.
Proof.
  intros Hk. apply ordered_bind. unfold tx_QueryRow. apply ordered_tx_lockless; [done|].
  intros w' r. apply Hk.
Qed.

Lemma ordered_mint_finish wid a vars w :
  (mv_applied vars = true → ∃ t, session w = Some t ∧ tx_state t = TxActive ∧
     ∀ h i, h ∈ tx_locks t → rank_lt (rank h) (rank (LWallet NoKeyUpdate i))) →
  ordered C (mint_finish wid a vars) (λ _ _, True) w.
Proof.
  intros Hap. unfold mint_finish.
  assert (Hread : ∀ w', ordered C (r ← tx_QueryRow (SelectWallet wid);
    match r with
    | Ok (i, row) => mret (MkMintVars (scan_wallet i row) (mv_applied vars), None)
    | Err err => mret (vars, Some err)
    end) (λ _ _, True) w').
  { intros w'. apply ordered_read_back. by intros w1 [[]|]. }
  destruct (mv_applied vars); [|apply Hread].
  destruct (Hap eq_refl) as (t & Ht & Ha & Hrank). unfold tx_Exec.
  eapply ordered_tx; [done|done| | |done].
  - intros u v. simpl. split; [|by apply allowed_param].
    apply polite_param. intros i _. apply polite_above. intros h Hh. by apply Hrank.
  - intros. apply Hread.
Qed.

Lemma ordered_mint_body wid k a vars w now :
  session w = Some (begin_txn now) → ordered C (mint_body wid k a vars) (λ _ _, True) w.
Proof.
  intros Hs. unfold mint_body. eapply ordered_savepoint; [done|done| |done].
  intros w1 Hs1. unfold tx_Exec. eapply ordered_tx; [done|done| | |].
  - intros u v. split; [apply polite_nil_held|]. simpl. constructor; [done|]. constructor; [done|].
    by apply allowed_param.
  - intros w2 u v r ws _ Hs2. cbn beta iota. eapply ordered_release; [done|done| |done].
    intros w3 Hs3. apply ordered_mint_finish. intros _. eexists. split; [exact Hs3|]. split; [done|].
    intros h i Hh. exact (mint_locks_rank u v k wid a h i Hh).
  - intros w2 t' e Hs2 Hsv. cbn beta iota. apply ordered_rollback_to. intros w3 Hs3.
    destruct (String.eqb _ _); [by apply ordered_mint_finish|]. by destruct (_ || _).
Qed.

Lemma ordered_Mint s wid k a w : idle w → ordered C (Mint s wid k a) (λ _ w', idle w') w.
Proof.
  intros Hs. unfold Mint. apply ordered_bind. eapply ordered_mono, ordered_inTx; [| |done].
  - intros [v e] w' Hs'. cbn beta iota. by destruct (Is e ErrNoRows).
  - intros vars w' now. apply ordered_mint_body.
Qed.

(** ** Transfer *)

(** Canonical ids rank as their spellings compare. *)
Lemma lock_order_spec from to lo hi :
  from ≠ to → lock_order from to = (lo, hi) →
  String.compare lo hi = Lt ∧ ((lo = from ∧ hi = to) ∨ (lo = to ∧ hi = from)).
Proof.
  intros Hne. unfold lock_order. destruct (String.ltb to from) eqn:Hlt; intros [= <- <-].
  - split; [|by right]. unfold String.ltb in Hlt. by destruct (String.compare to from).
  - split; [|by left]. unfold String.ltb in Hlt. rewrite String.compare_antisym in Hlt.
    destruct (String.compare from to) eqn:Hc; [|done|done].
    by apply String.compare_eq_iff in Hc.
Qed.

Lemma elem_of_param (h : lock) f s : h ∈ lock_param f s → ∃ i, uuid_in s = Some i ∧ h = f i.
Proof.
  unfold lock_param. destruct (uuid_in s) as [i|]; [|by intros ?%not_elem_of_nil].
  intros ->%list_elem_of_singleton. by exists i.
Qed.

(** What the claim of a key holds. *)
Lemma claim_locks_rank u v k r f t a fp h i :
  h ∈ stmt_locks u v (InsertTransfer k r f t a fp) → rank_lt (rank h) (rank (LWallet NoKeyUpdate i)).
Proof.
  simpl. rewrite !elem_of_app, elem_of_cons, !elem_of_app.
  intros [Hh|[->|[Hh|[Hh|Hh]]]]; try (apply elem_of_param in Hh as (j & _ & ->)); left; simpl; lia.
Qed.

Lemma claim_locks_allowed u v k r f t a fp :
  Forall (λ l, allowed l = true) (stmt_locks u v (InsertTransfer k r f t a fp)).
Proof.
  simpl. apply Forall_app. split; [by apply allowed_param|]. constructor; [done|].
  apply Forall_app. split; [by apply allowed_param|]. apply Forall_app. split; by apply allowed_param.
Qed.

Lemma claim_locks_own u v k r f t a fp : LTransfer Update u ∈ stmt_locks u v (InsertTransfer k r f t a fp).
Proof. simpl. apply elem_of_app. right. by left. Qed.

(** A session that holds the rows of its transfer and its two wallets may do
    anything to them. *)
Record settled_locks (t : txn) (u : uuid) (from to : string) : Prop := {
  sl_active : tx_state t = TxActive;
  sl_transfer : LTransfer Update u ∈ tx_locks t;
  sl_from : ∀ i, uuid_in from = Some i → LWallet NoKeyUpdate i ∈ tx_locks t;
  sl_to : ∀ i, uuid_in to = Some i → LWallet NoKeyUpdate i ∈ tx_locks t
}.

Lemma settled_more t u from to ws ls :
  settled_locks t u from to →
  settled_locks (MkTxn (tx_now t) TxActive (tx_writes t ++ ws) (tx_locks t ++ ls) (tx_saves t)) u from to.
Proof. intros [Ha Ht Hf Hto]. split; simpl; [done|apply elem_of_app; by left|..]; intros i Hi; apply elem_of_app; left; auto. Qed.

Lemma polite_own_transfer t u from to m id :
  settled_locks t u from to → id = uuid_out u → polite (tx_locks t) (lock_param (LTransfer m) id).
Proof.
  intros Hsl ->. apply polite_param. intros i Hi. rewrite uuid_out_in in Hi. injection Hi as <-.
  eapply polite_covered; [by apply Hsl|apply covers_transfer].
Qed.

Lemma polite_key_shares held s : polite held (lock_param (LWallet KeyShare) s).
Proof.
  apply polite_param. intros i _. apply polite_harmless. intros a Ha. by apply key_share_harmless.
Qed.

Lemma ordered_decline x t u from to w :
  session w = Some t → settled_locks t u from to → Transfer.ID x = uuid_out u →
  ordered C (decline x) (λ _ _, True) w.
Proof.
  intros Hs Hsl Hid. unfold decline. apply ordered_bind. unfold tx_QueryRow.
  eapply ordered_tx; [done|by apply Hsl| | |done].
  - intros u0 v. split; [by eapply polite_own_transfer|by apply allowed_param].
  - intros w' u0 v [r|] ws _ _; done.
Qed.

(** A batch of statements on what the session holds. *)
Definition owned {R} (u : uuid) (from to : string) (s : stmt R) : Prop :=
  ∀ t, settled_locks t u from to → ∀ u0 v,
  polite (tx_locks t) (stmt_locks u0 v s) ∧ Forall (λ l, allowed l = true) (stmt_locks u0 v s).

Lemma ordered_batch {R} (queue : list (stmt R)) Q u from to t w :
  Forall (owned u from to) queue → session w = Some t → settled_locks t u from to →
  (∀ w' rs, Q rs w') → ordered C (SendBatch queue) Q w.
Proof.
  intros Hq. revert Q t w. induction Hq as [|s queue Ho _ IH]; intros Q t w Hs Hsl HQ; [apply HQ|].
  rewrite SendBatch_cons. eapply ordered_tx; [done|by apply Hsl|by apply Ho| |by intros; apply HQ].
  intros w1 u1 v1 r ws _ Hs1. cbn beta iota. apply ordered_bind.
  eapply IH; [exact Hs1|by apply settled_more|]. intros. apply HQ.
Qed.

Lemma owned_wallet {R} u from to (s : stmt R) id :
  (∀ u0 v, stmt_locks u0 v s = lock_param (LWallet NoKeyUpdate) id) → id = from ∨ id = to →
  owned u from to s.
Proof.
  intros Hs Hid t Hsl u0 v. rewrite Hs. split; [|by apply allowed_param]. apply polite_param.
  intros i Hi. eapply polite_covered; [|apply covers_refl]. destruct Hid as [->| ->]; [by eapply sl_from|by eapply sl_to].
Qed.

Lemma ordered_apply req x t u w :
  session w = Some t → settled_locks t u (FromWalletID req) (ToWalletID req) →
  Transfer.ID x = uuid_out u → ordered C (apply_transfer req x) (λ _ _, True) w.
Proof.
  intros Hs Hsl Hid. unfold apply_transfer. apply ordered_bind.
  eapply (ordered_batch _ _ u (FromWalletID req) (ToWalletID req)); [|done|done|].
  - unfold apply_batch. constructor; [eapply owned_wallet; [done|by left]|].
    constructor; [eapply owned_wallet; [done|by right]|]. constructor.
    { intros t' Hsl' u0 v. simpl. split.
      - apply polite_app; [by eapply polite_own_transfer|]. apply polite_app; apply polite_key_shares.
      - apply Forall_app. split; [by apply allowed_param|]. apply Forall_app. split; by apply allowed_param. }
    constructor; [|constructor]. intros t' Hsl' u0 v.
    split; [by eapply polite_own_transfer|by apply allowed_param].
  - intros w' abr. destruct (read_apply abr); apply ordered_close; by intros w1 [].
Qed.

(** ** Locking the wallets *)

(** After the claim: the own row is held, everything held is below the wallet
    rows. *)
Record claimed_locks (t : txn) (u : uuid) : Prop := {
  cl_active : tx_state t = TxActive;
  cl_transfer : LTransfer Update u ∈ tx_locks t;
  cl_rank : ∀ h i, h ∈ tx_locks t → rank_lt (rank h) (rank (LWallet NoKeyUpdate i))
}.

Lemma ordered_lock_wallets req t u w :
  canonical (FromWalletID req) → canonical (ToWalletID req) → FromWalletID req ≠ ToWalletID req →
  session w = Some t → claimed_locks t u →
  ordered C (lock_wallets req) (λ r w', match r with
    | Ok _ => ∃ t', session w' = Some t' ∧ settled_locks t' u (FromWalletID req) (ToWalletID req)
    | Err _ => True end) w.
Proof.
  intros Hcf Hct Hne Hs [Ha Hown Hrank]. unfold lock_wallets.
  destruct (lock_order _ _) as [lo hi] eqn:Ho. apply lock_order_spec in Ho as [Hlt Hids]; [|done].
  assert (Hclo : canonical lo ∧ canonical hi) by (destruct Hids as [[-> ->]|[-> ->]]; split; assumption).
  destruct Hclo as [Hclo Hchi].
  set (Q := λ (r : result error (gmap string Z)) w', match r with
    | Ok _ => ∃ t', session w' = Some t' ∧ settled_locks t' u (FromWalletID req) (ToWalletID req)
    | Err _ => True end).
  set (read := λ rs, match read_balances rs 0 2 ∅ with
    | Err err => Session.call BatchClose;;
        if errors_Is err ErrNoRows then mret (Err ErrWalletNotFound) else mret (Err err)
    | Ok balances =>
        c ← Session.call BatchClose; match c with Err err => mret (Err err) | Ok _ => mret (Ok balances) end
    end).
  assert (Hfail : ∀ w' rs e, read_balances rs 0 2 ∅ = Err e → ordered C (read rs) Q w').
  { intros w' rs e Hrd. unfold read. rewrite Hrd. apply ordered_close. intros w1 _. by destruct (errors_Is e _). }
  assert (Hok : ∀ w' rs t', session w' = Some t' → settled_locks t' u (FromWalletID req) (ToWalletID req) →
    ordered C (read rs) Q w').
  { intros w' rs t' Hs' Hsl. destruct (read_balances rs 0 2 ∅) as [bal|e] eqn:Hrd; [|by eapply Hfail].
    unfold read. rewrite Hrd. apply ordered_close_ok; [|done]. intros w1 Hs1. exists t'. split; [congruence|done]. }
  apply ordered_bind. rewrite SendBatch_cons. eapply ordered_tx; [done|done| | |].
  { intros u0 v. split; [|by apply allowed_param]. apply polite_param. intros i _.
    apply polite_above. intros h Hh. by apply Hrank. }
  2:{ intros w1 t1 e _ _. by apply (Hfail w1 [Err e] e). }
  intros w1 u1 v1 r1 ws1 _ Hs1. cbn beta iota. apply ordered_bind. rewrite SendBatch_cons.
  eapply ordered_tx; [done|done| | |].
  { intros u0 v. split; [|by apply allowed_param]. apply polite_param. intros i Hi.
    apply polite_above. intros h [Hh|Hh]%elem_of_app; [by apply Hrank|].
    apply elem_of_param in Hh as (j & Hj & ->). right. split; [done|]. simpl.
    by rewrite (Hclo j Hj), (Hchi i Hi). }
  2:{ intros w2 t2 e _ _. destruct r1 as [[i b]|];
        [by apply (Hfail w2 [Ok (Some (i, b)); Err e] e)|by eapply (Hfail w2 [Ok None; Err e])]. }
  intros w2 u2 v2 r2 ws2 _ Hs2. eapply (Hok w2 [Ok r1; Ok r2]); [exact Hs2|].
  assert (Hlo : ∀ i, uuid_in lo = Some i → LWallet NoKeyUpdate i ∈ stmt_locks u1 v1 (SelectWalletForNoKeyUpdate lo))
    by (intros i Hi; simpl; unfold lock_param; rewrite Hi; by left).
  assert (Hhi : ∀ i, uuid_in hi = Some i → LWallet NoKeyUpdate i ∈ stmt_locks u2 v2 (SelectWalletForNoKeyUpdate hi))
    by (intros i Hi; simpl; unfold lock_param; rewrite Hi; by left).
  split; cbn [tx_state tx_locks]; [done|rewrite !elem_of_app; by do 2 left| |];
    intros i Hi; rewrite !elem_of_app; destruct Hids as [[-> ->]|[-> ->]];
    first [left; right; by apply Hlo | right; by apply Hhi].
Qed.

(** ** The whole call *)

Lemma ordered_settle req x t u w :
  canonical (FromWalletID req) → canonical (ToWalletID req) → FromWalletID req ≠ ToWalletID req →
  session w = Some t → claimed_locks t u → Transfer.ID x = uuid_out u →
  ordered C (settle_claimed req x) (λ _ _, True) w.
Proof.
  intros Hcf Hct Hne Hs Hcl Hid. unfold settle_claimed. apply ordered_bind.
  eapply ordered_mono, ordered_lock_wallets; [|done..]. intros [bal|e] w1; cbn beta iota; [|done].
  intros (t1 & Hs1 & Hsl). destruct (_ <? _); [by eapply ordered_decline|by eapply ordered_apply].
Qed.

(** The claim returns the id of the row it inserted. *)
Lemma insert_transfer_id u now v k r f t a fp x ws :
  exec_stmt u now v (InsertTransfer k r f t a fp) = Ok (Some x, ws) → x = (u, now).
Proof.
  simpl. unfold insert_transfer. intros He.
  repeat (apply rbind_Ok in He as (? & _ & He)). by injection He.
Qed.

Lemma ordered_transfer_body req fp vars w now :
  canonical (FromWalletID req) → canonical (ToWalletID req) → FromWalletID req ≠ ToWalletID req →
  session w = Some (begin_txn now) → ordered C (transfer_body req fp vars) (λ _ _, True) w.
Proof.
  intros Hcf Hct Hne Hs. unfold transfer_body. apply ordered_bind. unfold tx_QueryRow.
  eapply ordered_tx; [done|done| | |].
  - intros u v. split; [apply polite_nil_held|apply claim_locks_allowed].
  - intros w1 u v [[id created]|] ws He Hs1; simpl scan_row; apply (ordered_mono C (mret _) _ _ w1 (λ _ _ H, H)).
    + apply insert_transfer_id in He as [= -> ->]. apply ordered_bind.
      eapply ordered_mono, ordered_settle; [|done|done|done|exact Hs1| |done].
      * by intros [r|e] w2 _.
      * split; [done|exact (claim_locks_own u v _ _ _ _ (AmountPaise req) fp)|].
        intros h i Hh. exact (claim_locks_rank u v _ _ _ _ (AmountPaise req) fp h i Hh).
    + simpl. done.
  - intros w1 t' e _ _. cbn beta iota. simpl. destruct (_ && _); [done|]. by destruct (_ || _).
Qed.

Lemma ordered_Transfer s req w :
  canonical (FromWalletID req) → canonical (ToWalletID req) →
  session w = None → ordered C (Transfer s req) (λ _ w', session w' = None) w.
Proof.
  intros Hcf Hct Hs. unfold Transfer. destruct (String.eqb_spec (FromWalletID req) (ToWalletID req)); [done|].
  apply ordered_bind. eapply ordered_mono, ordered_inTx; [| |done].
  - intros [vars e] w1 Hs1. cbn beta iota. destruct (_ || _); [|by destruct e].
    unfold replay. apply ordered_bind. eapply ordered_mono, ordered_transferByKey; [|done].
    intros [ex [re|]] w2 Hs2; cbn beta iota; [done|]. by destruct (negb _).
  - intros vars w' now. by apply ordered_transfer_body.
Qed.

(** ** Every call of the service *)

Definition call_canonical (c : call) : Prop :=
  match c with
  | CTransfer req => canonical (FromWalletID req) ∧ canonical (ToWalletID req)
  | _ => True
  end.

Lemma ordered_perform s c w :
  call_canonical c → session w = None → ordered C (perform s c) (λ _ w', session w' = None) w.
Proof.
  intros Hc Hs. destruct c; unfold perform; apply ordered_bind; eapply ordered_mono.
  all: try match goal with |- ordered _ _ _ _ =>
    first [by apply ordered_UpsertUser | by apply ordered_GetOrCreateWallet | by apply ordered_GetWallet
          | by apply ordered_Mint | by apply ordered_Transfer; try apply Hc | by apply ordered_GetTransfer
          | by apply ordered_CheckInvariants] end.
  all: by intros r w' Hs'.
Qed.
End calls.
