(* ===== verification/ServerLocks.v ===== *)
(** * The whole server takes its locks in order

    The handlers, the wrapper and the sampler around the store's calls: a
    request whose body spells the wallet ids as the server prints them is
    [ordered], whatever its route. *)

From Stdlib Require Import String.
From S2P Require Import Prelude GoStrings Errors Database Locks Obs Session Store Wallets Transfers.
From S2P Require Import InvariantAudit Ring Http Middleware Handlers Routing Api Process.
From S2P Require Import Wp TransferSpec Concurrent LockOrder Progress Service ServerSpec Deadlock.

Section handlers.
Context `{PgText} (C : choice → Prop) (s : Server).
Abbreviation idle := (λ w, session w = None).
Abbreviation settles p := (ordered C p (λ _ w', session w' = None)).

Lemma ordered_metric {A} m (p : prog A) Q w :
  idle w → (∀ w', idle w' → ordered C p Q w') → ordered C (metric m;; p) Q w.
Proof. intros Hs Hk. by apply ordered_emit. Qed.

Lemma ordered_log {A} ctx lvl msg attrs (p : prog A) Q w :
  idle w → (∀ w', idle w' → ordered C p Q w') → ordered C (log_at s ctx lvl msg attrs;; p) Q w.
Proof. intros Hs Hk. unfold log_at. destruct (Enabled _ _); [|by apply Hk].
  by apply ordered_emit.
Qed.

Lemma ordered_log_last ctx lvl msg attrs w : idle w → settles (log_at s ctx lvl msg attrs) w.
Proof. intros Hs. unfold log_at. destruct (Enabled _ _); [|done]. intros d ch _. split; [|done]. split; [apply polite_nil|by repeat constructor]. Qed.

(** A store call, then the rest. *)
Lemma ordered_then {A B} (p : prog A) (f : A → prog B) Q w :
  settles p w → (∀ a w', idle w' → ordered C (f a) Q w') → ordered C (p ≫= f) Q w.
Proof. intros Hp Hf. apply ordered_bind. eapply ordered_mono, Hp. intros a w'. apply Hf. Qed.

(** Walk through metrics, log lines, branches and returns. *)
Ltac walk :=
  repeat first
    [ match goal with
      | |- ordered _ (log_at _ _ _ _ _;; _) _ _ => apply ordered_log; [assumption|intros ? ?]
      | |- ordered _ (metric _;; _) _ _ => apply ordered_metric; [assumption|intros ? ?]
      | |- ordered _ (log_at _ _ _ _ _) _ _ => apply ordered_log_last; assumption
      | |- ordered _ (mret _) _ _ => simpl; assumption
      | |- ordered _ (if ?b then _ else _) _ _ => destruct b
      | |- ordered _ (match ?x with _ => _ end) _ _ => destruct x
      end ].

Lemma ordered_handleCreateWallet user r w : idle w → settles (handleCreateWallet s user r) w.
Proof.
  intros Hs. apply ordered_then; [by apply ordered_GetOrCreateWallet|].
  intros [[wallet created] [err|]] w1 Hs1; cbn beta iota; walk.
Qed.

Lemma ordered_handleGetWallet user r w : idle w → settles (handleGetWallet s user r) w.
Proof.
  intros Hs. apply ordered_then; [by apply ordered_GetWallet|].
  intros [wallet [err|]] w1 Hs1; cbn beta iota; walk.
Qed.

Lemma ordered_handleGetTransfer user r w : idle w → settles (handleGetTransfer s user r) w.
Proof.
  intros Hs. apply ordered_then; [by apply ordered_GetTransfer|].
  intros [t [err|]] w1 Hs1; cbn beta iota; walk.
Qed.

Lemma ordered_handleInvariants r w : idle w → settles (handleInvariants r) w.
Proof.
  intros Hs. apply ordered_then; [by apply ordered_CheckInvariants|].
  intros [inv [err|]] w1 Hs1; cbn beta iota; walk.
Qed.

Lemma ordered_handleMint r w : idle w → settles (handleMint s r) w.
Proof.
  intros Hs. unfold handleMint. destruct (decode_mint r) as [[wallet [a|] key]|err]; [|done..].
  destruct (String.eqb wallet "" || (a <=? 0)); [done|]. destruct (String.eqb (TrimSpace key) ""); [done|].
  apply ordered_then; [by apply ordered_Mint|]. intros [[x applied] [err|]] w1 Hs1; cbn beta iota; [walk|].
  destruct applied; walk. by apply ordered_log.
Qed.

Lemma ordered_rejectTransferStatus r status code msg w :
  idle w → settles (rejectTransferStatus s r status code msg) w.
Proof. intros Hs. unfold rejectTransferStatus. walk. Qed.

Lemma ordered_stop_with r status code msg w : idle w → settles (stop_with s r status code msg) w.
Proof. intros Hs. apply ordered_then; [by apply ordered_rejectTransferStatus|]. by intros ops w1 Hs1. Qed.

Lemma ordered_precheck_failed r err msg w : idle w → settles (precheck_failed s r err msg) w.
Proof. intros Hs. unfold precheck_failed. walk. Qed.

Lemma ordered_precheck user body r w : idle w → settles (precheck s user body r) w.
Proof.
  intros Hs. apply ordered_then; [by apply ordered_GetWallet|]. intros [from [err|]] w1 Hs1; cbn beta iota.
  { destruct (errors_Is _ _); [by apply ordered_stop_with|by apply ordered_precheck_failed]. }
  destruct (negb _); [by apply ordered_stop_with|].
  apply ordered_then; [by apply ordered_GetWallet|]. intros [to [err|]] w2 Hs2; cbn beta iota; [|done].
  destruct (errors_Is _ _); [by apply ordered_stop_with|by apply ordered_precheck_failed].
Qed.

Lemma ordered_transfer_failed r key err w : idle w → settles (transfer_failed s r key err) w.
Proof.
  intros Hs. unfold transfer_failed. destruct (errors_Is _ _); [walk|].
  destruct (errors_Is _ _); [by apply ordered_rejectTransferStatus|].
  destruct (errors_Is _ _); [by apply ordered_rejectTransferStatus|walk].
Qed.

Lemma ordered_transfer_events r res w : idle w → settles (transfer_events s r res) w.
Proof. intros Hs. unfold transfer_events. walk. Qed.

(** The body of a transfer names its wallets as the server prints them. *)
Definition body_canonical (r : request) : Prop :=
  ∀ body, decode_transfer r = Ok body →
    canonical (transferRequestBody.From body) ∧ canonical (transferRequestBody.To body).

Lemma ordered_handleCreateTransfer user r w :
  body_canonical r → idle w → settles (handleCreateTransfer s user r) w.
Proof.
  intros Hc Hs. unfold handleCreateTransfer. destruct (decode_transfer r) as [body|err] eqn:Hd; [|walk].
  destruct (validate body) as [a|[code msg]]; [|by apply ordered_rejectTransferStatus].
  apply ordered_then; [by apply ordered_precheck|]. intros [ops|] w1 Hs1; [done|]. cbv zeta.
  apply ordered_log; [done|]. intros w2 Hs2. destruct (Hc body Hd).
  apply ordered_then; [by apply ordered_Transfer|]. intros [res [err|]] w3 Hs3; cbn beta iota.
  - by apply ordered_transfer_failed.
  - apply ordered_then; [by apply ordered_transfer_events|]. by intros [] w4 Hs4.
Qed.

(** ** The layers *)

Lemma ordered_authenticate next r w :
  idle w → (∀ user r' w', rq_body r' = rq_body r → idle w' → settles (next user r') w') →
  settles (authenticate s next r) w.
Proof.
  intros Hs Hn. unfold authenticate. destruct (bearerToken r) as [token|]; [|done].
  apply ordered_then; [by apply ordered_UpsertUser|]. intros [user [err|]] w1 Hs1; cbn beta iota; [walk|].
  by apply Hn.
Qed.

Lemma body_canonical_eq r r' : rq_body r' = rq_body r → body_canonical r → body_canonical r'.
Proof.
  intros Hb Hc body Hd. apply Hc. rewrite <- Hd. unfold decode_transfer, decodeJSON. by rewrite Hb.
Qed.

Lemma ordered_endpoint sr e r w :
  (e = ECreateTransfer → body_canonical r) → idle w → settles (endpoint_handler s sr e r) w.
Proof.
  intros Hc Hs. destruct e; cbn [endpoint_handler]; try done.
  - apply ordered_authenticate; [done|]. intros. by apply ordered_handleCreateWallet.
  - apply ordered_authenticate; [done|]. intros. by apply ordered_handleGetWallet.
  - apply ordered_authenticate; [done|]. intros user r' w' Hb Hs'. apply ordered_handleCreateTransfer; [|done].
    eapply body_canonical_eq; [exact Hb|]. by apply Hc.
  - apply ordered_authenticate; [done|]. intros. by apply ordered_handleGetTransfer.
  - unfold requireAdmin. destruct (bearerToken r); [|done]. destruct (String.eqb _ _); [|done].
    by apply ordered_handleMint.
  - by apply ordered_handleInvariants.
Qed.

(** A panic leaves no transaction open either. *)
Lemma settles_unwind {A} panics (p : prog A) w : settles p w → settles (unwind panics p) w.
Proof.
  intros Hp. eapply ordered_mono, ordered_unwind, Hp. by intros [a|].
Qed.

Lemma ordered_deferred ctx r panicked status w : idle w → settles (observe_deferred s ctx r panicked status) w.
Proof.
  intros Hs. unfold observe_deferred.
  apply ordered_then; [by destruct panicked; [apply ordered_log_last|]|]. intros _ w1 Hs1.
  apply ordered_metric; [done|]. intros w2 Hs2. apply ordered_metric; [done|]. intros w3 Hs3.
  by destruct (negb _); [apply ordered_log_last|].
Qed.

Lemma ordered_observe closing random nanos next r w :
  idle w → (∀ r' w', rq_body r' = rq_body r → find_route r' = find_route r → idle w' → settles (next r') w') →
  settles (observe s closing random nanos next r) w.
Proof.
  intros Hs Hn. unfold observe. apply ordered_metric; [done|]. intros w1 Hs1.
  apply ordered_then; [by apply Hn|]. intros [ops panicked] w2 Hs2; cbn beta iota.
  apply ordered_then; [by apply settles_unwind, ordered_deferred|]. intros closed w3 Hs3.
  by apply ordered_metric.
Qed.

(** A request that is canonical where it matters. *)
Definition request_canonical (q : incoming) : Prop :=
  routes_to q ECreateTransfer → body_canonical (in_request q).

Lemma ordered_serve_one q w : request_canonical q → idle w → settles (serve_one s q) w.
Proof.
  intros Hc Hs. unfold serve_one, New_handler. apply ordered_observe; [done|].
  intros r' w' Hb Hf Hs'. unfold recovered. apply ordered_then; [apply settles_unwind|by intros ops w1 Hs1].
  unfold mux_ServeHTTP. rewrite Hf. change (find_route (routed (in_request q))) with (find_route (in_request q)).
  destruct (find_route (in_request q)) as [[text e] ids|p|p o|ms|] eqn:Hr; try done.
  apply ordered_endpoint; [|done]. intros ->.
  eapply body_canonical_eq; [|by apply Hc; eexists _, _]. exact Hb.
Qed.

Lemma ordered_sampleInvariants every_ns ticks w : idle w → settles (sampleInvariants s every_ns ticks) w.
Proof.
  intros Hs. unfold sampleInvariants. destruct (every_ns <=? 0); [done|].
  revert w Hs. induction ticks as [|n IH]; intros w Hs; [done|]. cbn [sample_loop].
  apply ordered_then; [|intros _; apply IH]. unfold sample_tick.
  apply ordered_then; [by apply ordered_CheckInvariants|]. intros [inv [err|]] w1 Hs1; cbn beta iota; walk.
Qed.
End handlers.
