(* ===== verification/Fixtures.v ===== *)
(** * Concrete inputs

    An instance of [PgText] -- uuids as hexadecimal digits of either case,
    text as strings without NUL -- a bank with two funded users, and streams of
    choices, on which the theorems of the library are exercised. *)

From S2P Require Import Prelude Errors Database Sha256 Session Store Transfers Accounting.

(** ** Hexadecimal uuids *)

Definition hex_value (c : Ascii.ascii) : option N :=
  let n := Ascii.N_of_ascii c in
  if ((48 <=? n) && (n <=? 57))%N then Some (n - 48)%N
  else if ((97 <=? n) && (n <=? 102))%N then Some (n - 87)%N
  else if ((65 <=? n) && (n <=? 70))%N then Some (n - 55)%N
  else None.

Fixpoint unhex (s : string) : option string :=
  match s with
  | EmptyString => Some EmptyString
  | String a (String b s) =>
      x ← hex_value a; y ← hex_value b; r ← unhex s;
      Some (String (Ascii.ascii_of_N (x * 16 + y)) r)
  | String _ EmptyString => None
  end.

Lemma unhex_hex s : unhex (hex s) = Some s.
Proof.
  induction s as [|c s IH]; [done|]. cbn [hex unhex]. rewrite IH.
  destruct c as [[] [] [] [] [] [] [] []]; reflexivity.
Qed.

Fixpoint no_nul (s : string) : bool :=
  match s with
  | EmptyString => true
  | String c s => negb (Ascii.eqb c Ascii.zero) && no_nul s
  end.

Lemma no_nul_ascii7 s : ascii7 s = true → no_nul s = true.
Proof.
  induction s as [|c s IH]; [done|]. simpl. rewrite !andb_true_iff. intros [[H1 _] H2].
  split; [|by apply IH]. by destruct c as [[] [] [] [] [] [] [] []].
Qed.

Definition read_uuid (s : string) : option uuid := option_map Uuid (unhex s).

Lemma read_uuid_hex u : read_uuid (hex (uuid_bytes u)) = Some u.
Proof. destruct u. unfold read_uuid. by rewrite unhex_hex. Qed.

Lemma hex_value_nul : hex_value Ascii.zero = None.
Proof. reflexivity. Qed.

Lemma read_uuid_text s u : read_uuid s = Some u → no_nul s = true.
Proof.
  unfold read_uuid. destruct (unhex s) as [b|] eqn:Hs; [|done]. intros _. revert b Hs.
  assert (Hlen : ∀ n s b, (String.length s ≤ n)%nat → unhex s = Some b → no_nul s = true).
  { induction n as [|n IH]; intros [|a [|c t]] b Hl Hb; simpl in *; try done; [lia|].
    destruct (hex_value a) as [x|] eqn:Ha; [|done]. destruct (hex_value c) as [y|] eqn:Hc; [|done].
    simpl in Hb. destruct (unhex t) as [z|] eqn:Ht; [|done].
    rewrite (IH t z) by (done || lia).
    destruct (Ascii.eqb_spec a Ascii.zero) as [->|]; [by rewrite hex_value_nul in Ha|].
    destruct (Ascii.eqb_spec c Ascii.zero) as [->|]; [by rewrite hex_value_nul in Hc|done]. }
  intros b. by apply (Hlen (String.length s)).
Qed.

Definition hex_text : PgText := {|
  uuid_in := read_uuid;
  uuid_out u := hex (uuid_bytes u);
  text_in := no_nul;
  uuid_out_in := read_uuid_hex;
  uuid_in_text := read_uuid_text;
  text_in_ascii := no_nul_ascii7
|}.

(** ** A bank of two *)

Definition alice : uuid := Uuid "alice-----------".
Definition bob : uuid := Uuid "bob-------------".
Definition alice_wallet : uuid := Uuid "alice-wallet----".
Definition bob_wallet : uuid := Uuid "bob-wallet------".
Definition mint_1 : uuid := Uuid "mint-1----------".

Definition two_wallets : db :=
  spec_wallet bob_wallet bob 4 (spec_wallet alice_wallet alice 3
    (spec_user bob "token of bob" 2 (spec_user alice "token of alice" 1 empty_db))).

(** Alice holds 1000 paise, Bob none. *)
Definition bank : db := spec_mint mint_1 (MkMint "seed" alice_wallet 1000 5) two_wallets.

(** Close a side condition about the rows of a concrete table. *)
Ltac by_rows :=
  let i := fresh "i" in let r := fresh "r" in
  intros i r; simpl; rewrite ?lookup_insert, ?lookup_empty;
  repeat case_decide; intros; simplify_eq/=; try discriminate.

Lemma wf_two_wallets : wf_db two_wallets.
Proof.
  repeat (apply wf_wallet || apply wf_user || apply wf_empty);
    try (by vm_compute); by_rows.
Qed.

Lemma wf_bank : wf_db bank.
Proof.
  apply (wf_mint two_wallets mint_1 _ (MkWallet alice 0 3 3)); [apply wf_two_wallets|].
  split; [by vm_compute|by_rows|by vm_compute|by vm_compute|by vm_compute].
Qed.

(** ** Choices *)

(** A clock that ticks once per command, a fresh uuid per command. *)
Definition calm_env (n : nat) : choice :=
  MkChoice None false (Uuid ("fresh-" +:+ pretty n)) (1000 + Z.of_nat n) None.

(** The same with one fault, at command [k]. *)
Definition fault_at (k : nat) (f : fault) (applied : bool) (n : nat) : choice :=
  if (n =? k)%nat
  then MkChoice (Some f) applied (Uuid ("fresh-" +:+ pretty n)) (1000 + Z.of_nat n) None
  else calm_env n.

(** The choices after the first [k]. *)
Definition later (k : nat) (env : nat → choice) (n : nat) : choice := env (k + n)%nat.

Section requests.
#[local] Existing Instance hex_text.

Definition pay (amount : Z) (key : string) : TransferRequest.t :=
  TransferRequest.Mk (uuid_out alice) (uuid_out alice_wallet) (uuid_out bob_wallet) amount key.
End requests.
