(* ===== verification/StoreProps.v ===== *)
(** * The store's helpers: properties

    The request fingerprint, and the retry loop when every attempt fails. *)

From Stdlib Require Import Ascii String.
From S2P Require Import Prelude Errors Database Obs Session Sha256 Store Concurrent Fixtures.

#[local] Open Scope string_scope.
#[local] Open Scope Z_scope.

(** ** Fingerprints *)

Fixpoint no_pipe (s : string) : bool :=
  match s with
  | EmptyString => true
  | String c s => negb (Ascii.eqb c "|"%char) && no_pipe s
  end.

(** Two strings cut at their first pipe. *)
Lemma pipe_split a a' r r' :
  no_pipe a = true → no_pipe a' = true → a +:+ "|" +:+ r = a' +:+ "|" +:+ r' → a = a' ∧ r = r'.
Proof.
  revert a'. induction a as [|c a IH]; intros [|c' a'] Ha Ha' Heq; cbn [no_pipe] in Ha, Ha'.
  - by injection Heq.
  - injection Heq as Hc _. by subst c'.
  - injection Heq as Hc _. by subst c.
  - injection Heq as Hc Heq. subst c'. apply andb_true_iff in Ha as [_ Ha]. apply andb_true_iff in Ha' as [_ Ha'].
    destruct (IH a' Ha Ha' Heq) as [-> ->]. done.
Qed.

(** C38: Fingerprints tell requests apart: two requests whose wallet ids contain
    no pipe and whose fingerprints are equal have the same source, destination
    and amount -- or else their canonical strings, which then differ, are a
    collision of SHA-256. *)
Theorem fingerprint_tells from to a from' to' a' :
  no_pipe from = true → no_pipe to = true → no_pipe from' = true → no_pipe to' = true →
  Fingerprint from to a = Fingerprint from' to' a' →
  (from = from' ∧ to = to' ∧ a = a') ∨
  (canonical_request from to a ≠ canonical_request from' to' a' ∧
   Sum256 (canonical_request from to a) = Sum256 (canonical_request from' to' a')).
Proof.
  intros Hf Ht Hf' Ht' Heq.
  destruct (String.eqb_spec (canonical_request from to a) (canonical_request from' to' a')) as [Hc|Hc].
  - left. unfold canonical_request in Hc.
    change (String.append "v1|") with (λ s, "v1|" +:+ s) in Hc.
    injection Hc as Hc. destruct (pipe_split _ _ _ _ Hf Hf' Hc) as [-> Hc1].
    destruct (pipe_split _ _ _ _ Ht Ht' Hc1) as [-> Hc2]. split; [done|]. split; [done|].
    by apply (inj pretty).
  - by right.
Qed.

(** ** Retries *)

Section retries.
Context `{PgText}.

(** C37: Retries are bounded: when every begin is aborted by a deadlock and no
    context is done, the wrapper tries exactly five times, reports each of the
    four retries to the observer with SQLSTATE 40P01, leaves the tables and
    the captured variables alone, and returns the last error wrapped as
    exhausted, which still reads as a deadlock. *)
Theorem inTx_exhausts {V} env n (s : Store) (fn : V → prog (V * option error)) vars w :
  (∀ m, ch_fault (env m) = Some FDeadlock ∧ ch_done (env m) = None) →
  ∃ m, run env n (inTx s fn vars) w =
    ((vars, Some (attempts_exhausted (Some (fault_error FDeadlock)))),
     traced w (mjoin (replicate 4 (onRetry s sqlstateDeadlockDetected))), m) ∧
    sqlstate (attempts_exhausted (Some (fault_error FDeadlock))) = sqlstateDeadlockDetected.
Proof.
  intros Henv.
  assert (Htry : ∀ n w v (ws : V * (option error + error) → prog (V * option error)),
    run env n (attempt_tx fn v ≫= ws) w = run env (S n) (ws (v, inr (fault_error FDeadlock))) w).
  { intros n0 w0 v ws. destruct (Henv n0) as [Hf _]. unfold attempt_tx. simpl. by rewrite Hf. }
  assert (Hloop : ∀ k attempt v n w, 0 < attempt →
    ∃ m, run env n (inTx_loop s fn k attempt (Some (fault_error FDeadlock)) v) w =
      ((v, Some (attempts_exhausted (Some (fault_error FDeadlock)))),
       traced w (mjoin (replicate k (onRetry s sqlstateDeadlockDetected))), m)).
  { induction k as [|k IH]; intros attempt v n0 w0 Hpos.
    - exists n0. simpl. by rewrite traced_nil.
    - cbn [inTx_loop]. rewrite (proj2 (Z.ltb_lt 0 attempt) Hpos). rewrite run_emit_all.
      set (n1 := (n0 + _)%nat). destruct (Henv n1) as [_ Hd].
      change (run env n1 (call (Backoff ?ms) ≫= ?k0) ?w1) with (run env (S n1) (k0 (ECtx <$> ch_done (env n1))) w1).
      rewrite Hd. change (ECtx <$> None) with (@None error). cbn beta iota. rewrite Htry. cbn beta iota.
      destruct (IH (attempt + 1) v (S (S n1)) (traced w0 (onRetry s sqlstateDeadlockDetected))) as [m Hm];
        [lia|]. exists m. etrans; [exact Hm|]. by rewrite traced_app. }
  change (inTx s fn vars) with (attempt_tx fn vars ≫= λ '(vars, next),
    match next with inl r => mret (vars, r) | inr err => inTx_loop s fn 4 1 (Some err) vars end).
  rewrite Htry. cbn beta iota.
  destruct (Hloop 4%nat 1 vars (S n) w) as [m Hm]; [lia|]. exists m. split; [exact Hm|done].
Qed.

End retries.

(** ** At concrete inputs *)

(** Every command hit by a deadlock. *)
Definition jammed_env (n : nat) : choice := MkChoice (Some FDeadlock) false alice 0 None.

Section examples.
#[local] Existing Instance hex_text.

(** A store that logs each retry. *)
Definition watched : Store :=
  MkStore (λ code, [EvLog (Handle Background (MkRecord LevelWarn "tx_retry" [("sqlstate", AString code)]))]).

Lemma inTx_exhausts_witness :
  ∃ m, run jammed_env 0 (inTx watched (λ v, mret (v, None)) 7) (start empty_db) =
    ((7, Some (attempts_exhausted (Some (fault_error FDeadlock)))),
     traced (start empty_db) (mjoin (replicate 4 (onRetry watched sqlstateDeadlockDetected))), m) ∧
    sqlstate (attempts_exhausted (Some (fault_error FDeadlock))) = sqlstateDeadlockDetected.
Proof. apply (inTx_exhausts jammed_env 0 watched (λ v, mret (v, None)) 7). by intros m. Defined.
End examples.

(** Fingerprints of one request written twice. *)
Lemma fingerprint_tells_witness :
  ("a1" = "a1" ∧ "b2" = "b2" ∧ 300 = 300) ∨
  (canonical_request "a1" "b2" 300 ≠ canonical_request "a1" "b2" 300 ∧
   Sum256 (canonical_request "a1" "b2" 300) = Sum256 (canonical_request "a1" "b2" 300)).
Proof. by apply (fingerprint_tells "a1" "b2" 300 "a1" "b2" 300). Defined.
