(* ===== verification/TransferProps.v ===== *)
(** * Transfers: properties

    What the outcome relation of [Transfer] means for its callers, a session
    at a time: each branch as an equation, exactly-once effects over any
    number of faulty retries, and the behaviour on unusual spellings. *)

From S2P Require Import Prelude Errors Database Locks Obs Session Sha256 Store Transfers.
From S2P Require Import Accounting Wp TxLoop TransferSpec TransferProof Concurrent Service.
From S2P Require Import Fixtures.
Import TransferRequest.

Section props.
Context `{PgText}.
Implicit Types (env : nat → choice) (s : Store) (req : TransferRequest.t) (d : db).

(** No fault hits and no context is done. *)
Definition calm env : Prop := ∀ n, ch_fault (env n) = None ∧ ch_done (env n) = None.

(** The uuids generated are not in use. *)
Definition fresh_ids env d : Prop := ∀ n, transfers d !! ch_uuid (env n) = None.

Lemma calm_no_infra env : calm env → infra (env_choice env) → False.
Proof.
  intros Hc (ch & [n ->] & Hx). destruct (Hc n) as [Hf Hd]. rewrite Hf, Hd in Hx.
  by destruct Hx as [[]|[]].
Qed.

Lemma transfer_alone env s req d :
  wf_db d → in_int64 (AmountPaise req) = true →
  let '(res, d', cs) := alone_on d env (Transfer s req) in
  transfer_outcome (env_choice env) (λ x, x = d) req res cs ∧ chain d cs d'.
Proof.
  intros Hwf Ha. apply (alone_spec env (Transfer s req) d
    (transfer_outcome (env_choice env) (λ x, x = d) req)).
  apply (wp_Transfer (env_choice env) alone (λ x, x = d)) with (w := start d); try done.
  - by intros ls d1 d2 -> ->.
  - intros ls d1 d2. apply alone_rely.
  - by intros ? ->.
Qed.

(** What doing the work changes. *)
Lemma performs_wf d req doc d' : wf_db d → performs d req doc d' → wf_db d' ∧ grows d d'.
Proof.
  intros Hwf [u ru fu tu rf rt now ? ? ? ?|u ru fu tu rf now ? ? ? ?].
  - split; [by eapply wf_settle|by eapply grows_settle].
  - split; [by apply wf_decline|by apply grows_decline].
Qed.

(** Its tables grow, well-formed or not. *)
Lemma performs_grows d req doc d' : performs d req doc d' → grows d d'.
Proof.
  intros [u ru fu tu rf rt now ? ? ? ?|u ru fu tu rf now ? ? ? ?]; [by eapply grows_settle|by apply grows_decline].
Qed.

Lemma performs_key_taken d req doc d' :
  performs d req doc d' → ∃ i r, key_taken d' req i r ∧ Transfer.ID doc = uuid_out i.
Proof.
  intros [u ru fu tu rf rt now Hres ? ? ?|u ru fu tu rf now Hres ? ? ?]; exists u; eexists;
    (split; [|done]); exists ru; (split; [apply Hres|]); (split; [apply lookup_insert_eq|done]).
Qed.

Lemma performs_key_free d req doc d' i r : performs d req doc d' → ¬ key_taken d req i r.
Proof.
  intros Hp (ru' & Hru & Hi & Hk).
  destruct Hp as [u ru fu tu rf rt now Hres Hcl ? ?|u ru fu tu rf now Hres Hcl ? ?];
    (apply (cl_key _ _ _ Hcl i r Hi); rewrite Hk; destruct Hres; simpl; unfold transfer_key; simpl;
     congruence).
Qed.

(** A request all of whose parts are in order. *)
Record well_posed d req (ru fu tu : uuid) (rf rt : wallet_row) : Prop := {
  wp_resolves : resolves req ru fu tu;
  wp_user : is_Some (users d !! ru);
  wp_distinct : fu ≠ tu;
  wp_amount : 0 < AmountPaise req ≤ int64_max;
  wp_from : wallets d !! fu = Some rf;
  wp_to : wallets d !! tu = Some rt
}.

Lemma well_posed_int64 d req ru fu tu rf rt :
  well_posed d req ru fu tu rf rt → in_int64 (AmountPaise req) = true.
Proof. intros Hw. apply in_int64_spec. pose proof (wp_amount _ _ _ _ _ _ _ Hw). unfold int64_min. lia. Qed.

Lemma well_posed_ids d req ru fu tu rf rt :
  well_posed d req ru fu tu rf rt → FromWalletID req ≠ ToWalletID req.
Proof. intros [[] ? Hne ? ? ?]. congruence. Qed.

Lemma resolves_inj req ru fu tu ru' fu' tu' :
  resolves req ru fu tu → resolves req ru' fu' tu' → ru' = ru ∧ fu' = fu ∧ tu' = tu.
Proof. intros [] []. split_and!; congruence. Qed.

Lemma not_rejected env d req ru fu tu rf rt e :
  well_posed d req ru fu tu rf rt → fresh_ids env d →
  (key_free d req ru → AmountPaise req ≤ decision_balance req fu rf →
   w_balance_paise rt + AmountPaise req ≤ int64_max) →
  rejected (env_choice env) d req e → False.
Proof.
  intros [Hres [xu Hu] Hne Ham Hf Ht] Hfresh Hroom Hrej.
  destruct Hrej as [He|He|ru' fu' tu' now c Hres' Hck|ch r [n ->] Hr|ru' fu' tu' Hres' _ _ _ Hm
    |ru' fu' tu' rf' rt' Hres' _ Hfree Hf' Ht' Hfunds Hover].
  - destruct Hres. destruct He as [He|[He|[He|He]]]; try congruence;
      erewrite uuid_in_text in He by done; discriminate.
  - destruct Hres, He as [He|[He|He]]; congruence.
  - destruct (resolves_inj _ _ _ _ _ _ _ Hres Hres') as (-> & -> & ->).
    assert (check_transfer (claim_row req ru fu tu now) = None) by (apply check_claim_row_None; split; [lia|done]).
    unfold claim_row in *. simpl in *. congruence.
  - specialize (Hfresh n). congruence.
  - destruct (resolves_inj _ _ _ _ _ _ _ Hres Hres') as (-> & -> & ->).
    destruct Hm as [Hm|[Hm|Hm]]; congruence.
  - destruct (resolves_inj _ _ _ _ _ _ _ Hres Hres') as (-> & -> & ->).
    rewrite Hf in Hf'. rewrite Ht in Ht'. injection Hf' as <-. injection Ht' as <-.
    specialize (Hroom Hfree Hfunds). lia.
Qed.

Lemma key_taken_not_free d req ru i r :
  uuid_in (RequesterUserID req) = Some ru → key_taken d req i r → key_free d req ru → False.
Proof. intros Hru (ru' & Hru' & Hi & Hk) Hfree. apply (Hfree i r Hi). congruence. Qed.

Lemma key_taken_unique d req i r j r' :
  wf_db d → key_taken d req i r → key_taken d req j r' → i = j ∧ r = r'.
Proof.
  intros Hwf (ru & Hru & Hi & Hk) (ru' & Hru' & Hj & Hk').
  assert (i = j) as -> by (eapply (wf_transfer_key d Hwf); [done|done|congruence]).
  split; [done|congruence].
Qed.

(** On a calm connection a well-posed request is either performed or found
    done. *)
Lemma calm_outcome env s req d ru fu tu rf rt :
  wf_db d → calm env → fresh_ids env d → well_posed d req ru fu tu rf rt →
  (key_free d req ru → AmountPaise req ≤ decision_balance req fu rf →
   w_balance_paise rt + AmountPaise req ≤ int64_max) →
  let '(res, d', cs) := alone_on d env (Transfer s req) in
  (∃ doc, performs d req doc d' ∧ res = (TransferResult.Mk doc false, None) ∧ cs = [(d, d')]) ∨
  (∃ i r, key_taken d req i r ∧ d' = d ∧ cs = [] ∧
     res = if String.eqb (t_request_fingerprint r)
                (Fingerprint (FromWalletID req) (ToWalletID req) (AmountPaise req))
           then (TransferResult.Mk (scan_transfer i r) true, None)
           else (TransferResult.zero, Some ErrIdempotencyConflict)).
Proof.
  intros Hwf Hcalm Hids Hwp Hroom.
  pose proof (transfer_alone env s req d Hwf (well_posed_int64 _ _ _ _ _ _ _ Hwp)) as Hout.
  destruct (alone_on d env (Transfer s req)) as [[res d'] cs]. destruct Hout as [Hout Hch].
  destruct Hout as [Heq|x e -> Hrej|e Hi _|x doc x' -> Hp|x doc x' e -> _ Hi _
    |x i r -> Hk Hfp|x i r -> Hk Hfp].
  - by destruct (well_posed_ids _ _ _ _ _ _ _ Hwp).
  - exfalso. by eapply not_rejected.
  - by destruct (calm_no_infra env).
  - left. destruct Hch as [-> _]. eauto.
  - by destruct (calm_no_infra env).
  - right. exists i, r. rewrite Hfp, String.eqb_refl. by rewrite Hch.
  - right. exists i, r. apply String.eqb_neq in Hfp as ->. by rewrite Hch.
Qed.

(** ** Each branch of a call *)

(** C19: A well-posed request with a fresh key, the source id spelled as the
    server prints it, enough money in the source and room for it in the
    destination (an int64), on a calm connection that generates fresh ids,
    settles: the reply is the succeeded document with Replay false, and the
    tables become those of the double-entry action [spec_settle] -- both
    balances moved, both ledger entries, the terminal transfer row. *)
Theorem transfer_settles env s req d ru fu tu rf rt :
  wf_db d → calm env → fresh_ids env d → well_posed d req ru fu tu rf rt →
  key_free d req ru → uuid_out fu = FromWalletID req →
  AmountPaise req ≤ w_balance_paise rf →
  w_balance_paise rt + AmountPaise req ≤ int64_max →
  ∃ u now, transfers d !! u = None ∧
    alone_on d env (Transfer s req) =
      ((TransferResult.Mk (settled_doc req u now) false, None),
       spec_settle u (claim_row req ru fu tu now) d,
       [(d, spec_settle u (claim_row req ru fu tu now) d)]).
Proof.
  intros Hwf Hcalm Hids Hwp Hfree Hcan Hfunds Hroom.
  assert (Hdec : decision_balance req fu rf = w_balance_paise rf)
    by (unfold decision_balance; by rewrite Hcan, String.eqb_refl).
  pose proof (calm_outcome env s req d ru fu tu rf rt Hwf Hcalm Hids Hwp (λ _ _, Hroom)) as Hout.
  destruct (alone_on d env (Transfer s req)) as [[res d'] cs].
  destruct Hout as [(doc & Hp & -> & ->)|(i & r & Hk & _)];
    [|exfalso; eapply key_taken_not_free; [apply Hwp|done..]].
  destruct Hp as [u ru' fu' tu' rf' rt' now Hres Hcl Hpay Hle|u ru' fu' tu' rf' now Hres Hcl Hf' Hlt];
    destruct (resolves_inj _ _ _ _ _ _ _ (wp_resolves _ _ _ _ _ _ _ Hwp) Hres) as (-> & -> & ->).
  - exists u, now. split; [apply Hcl|done].
  - pose proof (wp_from _ _ _ _ _ _ _ Hwp). assert (rf' = rf) as -> by congruence. lia.
Qed.

(** C20: On a calm connection that generates fresh ids, a well-posed request with
    a fresh key still succeeds when the balance its decision reads is short: it
    records a declined transfer with reason insufficient_funds under the key,
    and moves no money -- every wallet, the ledger and the mints are as
    before. *)
Theorem transfer_declines env s req d ru fu tu rf rt :
  wf_db d → calm env → fresh_ids env d → well_posed d req ru fu tu rf rt →
  key_free d req ru → decision_balance req fu rf < AmountPaise req →
  ∃ u now d', transfers d !! u = None ∧
    alone_on d env (Transfer s req) =
      ((TransferResult.Mk (declined_doc req u now) false, None), d', [(d, d')]) ∧
    transfers d' = <[u := declined (claim_row req ru fu tu now)]> (transfers d) ∧
    wallets d' = wallets d ∧ ledger_entries d' = ledger_entries d ∧ mints d' = mints d.
Proof.
  intros Hwf Hcalm Hids Hwp Hfree Hshort.
  pose proof (calm_outcome env s req d ru fu tu rf rt Hwf Hcalm Hids Hwp ltac:(lia)) as Hout.
  destruct (alone_on d env (Transfer s req)) as [[res d'] cs].
  destruct Hout as [(doc & Hp & -> & ->)|(i & r & Hk & _)];
    [|exfalso; eapply key_taken_not_free; [apply Hwp|done..]].
  destruct Hp as [u ru' fu' tu' rf' rt' now Hres Hcl Hpay Hle|u ru' fu' tu' rf' now Hres Hcl Hf' Hlt];
    destruct (resolves_inj _ _ _ _ _ _ _ (wp_resolves _ _ _ _ _ _ _ Hwp) Hres) as (-> & -> & ->).
  - pose proof (wp_from _ _ _ _ _ _ _ Hwp). destruct Hpay as [Hpf _ _ _]. simpl in Hpf.
    assert (rf' = rf) as -> by congruence. lia.
  - exists u, now, (spec_decline u (claim_row req ru fu tu now) d). split; [apply Hcl|done].
Qed.

(** C21: On a calm connection that generates fresh ids, a well-posed request
    whose key is already recorded does no work again: the tables are unchanged,
    and the call returns the stored transfer with Replay true when the
    fingerprints agree, ErrIdempotencyConflict when they differ. *)
Theorem transfer_replays env s req d ru fu tu rf rt i r :
  wf_db d → calm env → fresh_ids env d → well_posed d req ru fu tu rf rt → key_taken d req i r →
  alone_on d env (Transfer s req) =
    ((if String.eqb (t_request_fingerprint r)
           (Fingerprint (FromWalletID req) (ToWalletID req) (AmountPaise req))
      then (TransferResult.Mk (scan_transfer i r) true, None)
      else (TransferResult.zero, Some ErrIdempotencyConflict)), d, []).
Proof.
  intros Hwf Hcalm Hids Hwp Htaken.
  assert (Hnf : key_free d req ru → False)
    by (intros; eapply key_taken_not_free; [apply Hwp|done..]).
  pose proof (calm_outcome env s req d ru fu tu rf rt Hwf Hcalm Hids Hwp
    (λ Hfree _, match Hnf Hfree with end)) as Hout.
  destruct (alone_on d env (Transfer s req)) as [[res d'] cs].
  destruct Hout as [(doc & Hp & _)|(i' & r' & Hk & -> & -> & ->)].
  - by destruct (performs_key_free _ _ _ _ i r Hp).
  - by destruct (key_taken_unique _ _ _ _ _ _ Hwf Htaken Hk) as [<- <-].
Qed.

(** C22: An error is clean: whatever the connection does, a call that returns an
    error which is not the environment's left the tables exactly as they were,
    and one that returns nil committed exactly the work its document reports,
    or is a replay that changed nothing. *)
Theorem transfer_errors_clean env s req d :
  wf_db d → in_int64 (AmountPaise req) = true →
  let '(res, d', cs) := alone_on d env (Transfer s req) in
  match res with
  | (_, Some e) => d' = d ∨ (env_error e ∧ infra (env_choice env) ∧ ∃ doc, performs d req doc d')
  | (TransferResult.Mk doc true, None) => d' = d ∧ ∃ i r, key_taken d req i r ∧ doc = scan_transfer i r
  | (TransferResult.Mk doc false, None) => performs d req doc d' ∧ cs = [(d, d')]
  end.
Proof.
  intros Hwf Ha. pose proof (transfer_alone env s req d Hwf Ha) as Hout.
  destruct (alone_on d env (Transfer s req)) as [[res d'] cs]. destruct Hout as [Hout Hch].
  destruct Hout as [Heq|x e -> Hrej|e Hi He|x doc x' -> Hp|x doc x' e -> Hp Hi He
    |x i r -> Hk Hfp|x i r -> Hk Hfp]; simpl in Hch |- *.
  - by left.
  - by left.
  - by left.
  - by destruct Hch as [-> _].
  - destruct Hch as [-> _]. right. eauto.
  - eauto.
  - by left.
Qed.

(** ** Retrying a request *)

(** The same request sent again and again, on one connection after another;
    each [env] decides what its attempt meets. *)
Fixpoint attempts s req d (envs : list (nat → choice))
    : list (TransferResult.t * option error) * db :=
  match envs with
  | [] => ([], d)
  | env :: envs =>
      let '(res, d1, _) := alone_on d env (Transfer s req) in
      let '(rs, d2) := attempts s req d1 envs in (res :: rs, d2)
  end.

(** A reply that claims to have done the work. *)
Definition fresh_reply (res : TransferResult.t * option error) : bool :=
  match res with (TransferResult.Mk _ false, None) => true | _ => false end.

(** A successful reply names the transfer [i]. *)
Definition names (i : uuid) (res : TransferResult.t * option error) : Prop :=
  res.2 = None → Transfer.ID (TransferResult.Transfer res.1) = uuid_out i.

(** Once the key is taken nothing changes any more. *)
Lemma attempts_done s req envs d i r :
  wf_db d → in_int64 (AmountPaise req) = true → key_taken d req i r →
  let '(rs, d') := attempts s req d envs in
  d' = d ∧ Forall (λ res, fresh_reply res = false ∧ names i res) rs.
Proof.
  intros Hwf Ha Hk. induction envs as [|env envs IH]; simpl; [done|].
  pose proof (transfer_alone env s req d Hwf Ha) as Hout.
  destruct (alone_on d env (Transfer s req)) as [[res d1] cs]. destruct Hout as [Hout Hch].
  assert (Hone : d1 = d ∧ fresh_reply res = false ∧ names i res).
  { destruct Hout as [Heq|x e -> Hrej|e Hi He|x doc x' -> Hp|x doc x' e -> Hp Hi He
      |x j q -> Hk' _|x j q -> Hk' _]; simpl in Hch; try done.
    - by destruct (performs_key_free _ _ _ _ i r Hp).
    - by destruct (performs_key_free _ _ _ _ i r Hp).
    - destruct (key_taken_unique _ _ _ _ _ _ Hwf Hk Hk') as [<- _]. by split. }
  destruct Hone as (-> & Hf & Hn). destruct (attempts s req d envs) as [rs d'].
  destruct IH as [-> IH]. by split; [|constructor].
Qed.

(** What the replies [rs] and the final tables [d'] of a retried request say. *)
Record once d req (rs : list (TransferResult.t * option error)) d' : Prop := {
  once_db : d' = d ∨ ∃ doc, performs d req doc d';
  once_fresh : (length (filter fresh_reply rs) ≤ 1)%nat;
  once_names : (∃ res, res ∈ rs ∧ res.2 = None) → ∃ i r, key_taken d' req i r ∧ Forall (names i) rs
}.

Lemma once_skip d req res rs d' :
  is_Some res.2 → once d req rs d' → once d req (res :: rs) d'.
Proof.
  intros [e He] [H1 H2 H3]. assert (fresh_reply res = false) as Hf.
  { destruct res as [[? []] ?]; simpl in *; by subst. }
  split; [done|rewrite filter_cons, decide_False; [done|by rewrite Hf; intros []]|].
  intros (res' & Hin & Hn). apply elem_of_cons in Hin as [->|Hin]; [congruence|].
  destruct H3 as (i & r & Hk & Hall); [eauto|]. exists i, r. split; [done|].
  constructor; [intros ?; congruence|done].
Qed.

(** After an attempt that leaves the key taken. *)
Lemma once_done s req envs d d1 res i r :
  wf_db d1 → in_int64 (AmountPaise req) = true → key_taken d1 req i r → names i res →
  (d1 = d ∨ ∃ doc, performs d req doc d1) →
  let '(rs, d2) := attempts s req d1 envs in once d req (res :: rs) d2.
Proof.
  intros Hwf Ha Hk Hn Hd. pose proof (attempts_done s req envs d1 i r Hwf Ha Hk) as Hd1.
  destruct (attempts s req d1 envs) as [rs d2]. destruct Hd1 as [-> Hall]. split; [done| |].
  - rewrite filter_cons. assert (length (filter fresh_reply rs) = O).
    { clear -Hall. induction Hall as [|x l [Hx _] _ IH]; [done|].
      rewrite filter_cons, decide_False; [done|by rewrite Hx; intros []]. }
    case_decide; simpl; lia.
  - intros _. exists i, r. split; [done|]. constructor; [done|].
    eapply Forall_impl; [exact Hall|]. by intros x [_ ?].
Qed.

(** C13: Exactly once: however many times a request is retried, and whatever
    faults hit each attempt -- a deadlock abort, a broken connection, a commit
    whose acknowledgement is lost -- the tables end either as they began or
    with the work done once; at most one reply claims to have done it; and
    every successful reply, first or replayed, names the one transfer that
    holds the key. *)
Theorem transfer_exactly_once s req envs d :
  wf_db d → in_int64 (AmountPaise req) = true →
  let '(rs, d') := attempts s req d envs in once d req rs d'.
Proof.
  revert d. induction envs as [|env envs IH]; intros d Hwf Ha; simpl.
  { split; [by left|simpl; lia|]. intros (res & Hin & _). by apply not_elem_of_nil in Hin. }
  pose proof (transfer_alone env s req d Hwf Ha) as Hout.
  destruct (alone_on d env (Transfer s req)) as [[res d1] cs]. destruct Hout as [Hout Hch].
  assert (Hskip : d1 = d → is_Some res.2 →
    let '(rs, d2) := attempts s req d1 envs in once d req (res :: rs) d2).
  { intros -> He. specialize (IH d Hwf Ha). destruct (attempts s req d envs) as [rs d2].
    by apply once_skip. }
  assert (Hdone : ∀ i r, wf_db d1 → key_taken d1 req i r → names i res →
    (d1 = d ∨ ∃ doc, performs d req doc d1) →
    let '(rs, d2) := attempts s req d1 envs in once d req (res :: rs) d2)
    by (intros; by eapply once_done).
  destruct (attempts s req d1 envs) as [rs d2].
  destruct Hout as [Heq|x e -> Hrej|e Hi He|x doc x' -> Hp|x doc x' e -> Hp Hi He
    |x j q -> Hk' _|x j q -> Hk' _]; simpl in Hch; try (by apply Hskip; [|eexists]).
  - destruct Hch as [-> _]. destruct (performs_key_taken _ _ _ _ Hp) as (i & r & Hk & Hid).
    apply (Hdone i r); [by eapply performs_wf|done|by intros _|by right; exists doc].
  - destruct Hch as [-> _]. destruct (performs_key_taken _ _ _ _ Hp) as (i & r & Hk & _).
    apply (Hdone i r); [by eapply performs_wf|done|done|by right; exists doc].
  - subst d1. apply (Hdone j q); try done. by left.
Qed.

(** ** Spellings *)

(** C39: The decision reads the locked balances under the spelling of the
    source id in the request, and finds none when the server prints the id
    otherwise (upper-case digits, braces): on a calm connection that generates
    fresh ids, a well-posed request with a fresh key, so spelled, is declined
    for insufficient funds whatever the wallet holds. *)
Theorem transfer_respelled_declines env s req d ru fu tu rf rt :
  wf_db d → calm env → fresh_ids env d → well_posed d req ru fu tu rf rt → key_free d req ru →
  uuid_out fu ≠ FromWalletID req →
  ∃ u now, (alone_on d env (Transfer s req)).1 =
    ((TransferResult.Mk (declined_doc req u now) false, None),
     spec_decline u (claim_row req ru fu tu now) d).
Proof.
  intros Hwf Hcalm Hids Hwp Hfree Hsp. pose proof (wp_amount _ _ _ _ _ _ _ Hwp) as Ham.
  assert (Hdec : ∀ rf', decision_balance req fu rf' = 0)
    by (intros; unfold decision_balance; by apply String.eqb_neq in Hsp as ->).
  pose proof (calm_outcome env s req d ru fu tu rf rt Hwf Hcalm Hids Hwp) as Hout.
  rewrite Hdec in Hout. specialize (Hout ltac:(lia)).
  destruct (alone_on d env (Transfer s req)) as [[res d'] cs].
  destruct Hout as [(doc & Hp & -> & ->)|(i & r & Hk & _)];
    [|exfalso; eapply key_taken_not_free; [apply Hwp|done..]].
  destruct Hp as [u ru' fu' tu' rf' rt' now Hres Hcl Hpay Hle|u ru' fu' tu' rf' now Hres Hcl Hf' Hlt];
    destruct (resolves_inj _ _ _ _ _ _ _ (wp_resolves _ _ _ _ _ _ _ Hwp) Hres) as (-> & -> & ->).
  - rewrite Hdec in Hle. lia.
  - by exists u, now.
Qed.

(** Two spellings of one wallet pass the Go comparison of the ids and are
    stopped by the database instead: the call fails with the check violation
    of [transfers_no_self], not with ErrSameWallet, and changes nothing. *)
Theorem transfer_self_respelled env s req d ru fu :
  wf_db d → calm env → fresh_ids env d → resolves req ru fu fu →
  FromWalletID req ≠ ToWalletID req → 0 < AmountPaise req ≤ int64_max →
  key_free d req ru →
  alone_on d env (Transfer s req) =
    ((TransferResult.zero, Some (EPg (check_violation "transfers_no_self"))), d, []).
Proof.
  intros Hwf Hcalm Hids Hres Hne Ham Hfree.
  pose proof (transfer_alone env s req d Hwf) as Hout. specialize (Hout ltac:(apply in_int64_spec;
    unfold int64_min; lia)).
  destruct (alone_on d env (Transfer s req)) as [[res d'] cs]. destruct Hout as [Hout Hch].
  destruct Hout as [Heq|x e -> Hrej|e Hi He|x doc x' -> Hp|x doc x' e -> Hp Hi He
    |x i r -> Hk _|x i r -> Hk _]; try (by destruct (calm_no_infra env)); try done;
    try (exfalso; eapply key_taken_not_free; [apply Hres|done..]).
  - rewrite Hch. repeat f_equal. destruct Hrej as [He|He|ru' fu' tu' now c Hres' Hck|ch r [n ->] Hr
      |ru' fu' tu' Hres' _ Hd _ _|ru' fu' tu' rf' rt' Hres' Hd _ _ _ _ _];
      try (destruct (resolves_inj _ _ _ _ _ _ _ Hres Hres') as (-> & -> & ->)); try done.
    + destruct Hres. destruct He as [He|[He|[He|He]]]; try congruence;
        erewrite uuid_in_text in He by done; discriminate.
    + destruct Hres, He as [He|[He|He]]; congruence.
    + do 2 f_equal. revert Hck. unfold check_transfer. simpl.
      rewrite (proj2 (Z.ltb_lt _ _)) by lia. rewrite bool_decide_eq_true_2 by done. simpl.
      congruence.
    + specialize (Hids n). congruence.
  - exfalso. destruct Hp as [u ru' fu' tu' rf' rt' now Hres' Hcl _ _|u ru' fu' tu' rf' now Hres' Hcl _ _];
      destruct (resolves_inj _ _ _ _ _ _ _ Hres Hres') as (-> & -> & ->);
      by destruct (cl_wallets _ _ _ Hcl).
Qed.
End props.

(** ** At concrete inputs *)

Section examples.
#[local] Existing Instance hex_text.

Lemma calm_calm : calm calm_env.
Proof. by intros n. Qed.

Lemma fresh_bank : fresh_ids calm_env bank.
Proof. intros n. apply lookup_empty. Qed.

Lemma free_bank amount key ru : key_free bank (pay amount key) ru.
Proof. intros j r Hj. unfold bank in Hj. cbn in Hj. by rewrite lookup_empty in Hj. Qed.

(** The rows of the two wallets of [bank]. *)
Definition alice_row : wallet_row := add_balance 1000 5 (MkWallet alice 0 3 3).
Definition bob_row : wallet_row := MkWallet bob 0 4 4.

Lemma bank_rows : wallets bank !! alice_wallet = Some alice_row ∧ wallets bank !! bob_wallet = Some bob_row.
Proof. by split; vm_compute. Qed.

Lemma bank_alice : is_Some (users bank !! alice).
Proof. exists (MkUser "token of alice" 1). by vm_compute. Qed.

Lemma resolves_pay amount key :
  no_nul key = true → resolves (pay amount key) alice alice_wallet bob_wallet.
Proof. intros Hk. by split. Qed.

Lemma pay_posed amount key :
  no_nul key = true → 0 < amount ≤ int64_max →
  well_posed bank (pay amount key) alice alice_wallet bob_wallet alice_row bob_row.
Proof.
  intros Hk Ha. split; [by apply resolves_pay|apply bank_alice|done|done|apply bank_rows|apply bank_rows].
Qed.

(** The bank after Alice paid 300 paise to Bob under the key "k". *)
Definition paid_id : uuid := Uuid "paid------------".
Definition paid_row : transfer_row := claim_row (pay 300 "k") alice alice_wallet bob_wallet 6.
Definition paid_bank : db := spec_settle paid_id paid_row bank.

Lemma paid_performs : performs bank (pay 300 "k") (settled_doc (pay 300 "k") paid_id 6) paid_bank.
Proof.
  destruct bank_rows as [Ha Hb].
  apply perf_settle with (ru := alice) (rf := alice_row) (rt := bob_row); [by apply resolves_pay|..].
  - split; [apply lookup_empty| |done|done|by eexists|by eexists].
    intros j r Hj. unfold bank in Hj. cbn in Hj. by rewrite lookup_empty in Hj.
  - by split.
  - done.
Qed.

Lemma wf_paid_bank : wf_db paid_bank.
Proof. eapply performs_wf; [apply wf_bank|apply paid_performs]. Qed.

Lemma paid_key_taken : key_taken paid_bank (pay 300 "k") paid_id (succeeded paid_row).
Proof. exists alice. split_and!; [done|apply lookup_insert_eq|done]. Qed.

Lemma paid_posed amount : 0 < amount ≤ int64_max →
  ∃ rf rt, well_posed paid_bank (pay amount "k") alice alice_wallet bob_wallet rf rt.
Proof.
  intros Ha. do 2 eexists. split; [by apply resolves_pay|apply bank_alice|done|done|by vm_compute..].
Qed.

Lemma paid_fresh : fresh_ids calm_env paid_bank.
Proof.
  intros n. unfold paid_bank. simpl. rewrite lookup_insert_ne; [apply lookup_empty|].
  unfold paid_id. intros [=].
Qed.

(** A payment whose commit acknowledgement is lost, then sent again. *)
Definition lost_then_calm : list (nat → choice) :=
  [fault_at 10 (FConn "reset") true; later 100 calm_env].

Definition is_replay (res : TransferResult.t * option error) : bool :=
  match res with (TransferResult.Mk _ true, None) => true | _ => false end.

(** The first reply is the lost connection, the second the replay. *)
Example lost_ack_replays :
  (λ r, (r.2, is_replay r)) <$> (attempts New (pay 300 "k") bank lost_then_calm).1 =
  [(Some (EConn "reset"), false); (None, true)].
Proof. vm_compute. reflexivity. Qed.

Lemma transfer_exactly_once_witness :
  wf_db bank ∧ in_int64 300 = true ∧
  let '(rs, d') := attempts New (pay 300 "k") bank lost_then_calm in
  once bank (pay 300 "k") rs d'.
Proof.
  split; [apply wf_bank|]. split; [done|].
  apply (transfer_exactly_once New (pay 300 "k") lost_then_calm bank); [apply wf_bank|done].
Defined.

Lemma transfer_settles_witness :
  well_posed bank (pay 300 "k") alice alice_wallet bob_wallet alice_row bob_row ∧
  ∃ u now, transfers bank !! u = None ∧
    alone_on bank calm_env (Transfer New (pay 300 "k")) =
      ((TransferResult.Mk (settled_doc (pay 300 "k") u now) false, None),
       spec_settle u (claim_row (pay 300 "k") alice alice_wallet bob_wallet now) bank,
       [(bank, spec_settle u (claim_row (pay 300 "k") alice alice_wallet bob_wallet now) bank)]).
Proof.
  split; [by apply pay_posed|].
  apply (transfer_settles calm_env New (pay 300 "k") bank alice alice_wallet bob_wallet alice_row bob_row);
    [apply wf_bank|apply calm_calm|apply fresh_bank|by apply pay_posed|apply free_bank|done..].
Defined.

Lemma transfer_declines_witness :
  decision_balance (pay 1001 "k") alice_wallet alice_row < 1001 ∧
  ∃ u now d', transfers bank !! u = None ∧
    alone_on bank calm_env (Transfer New (pay 1001 "k")) =
      ((TransferResult.Mk (declined_doc (pay 1001 "k") u now) false, None), d', [(bank, d')]) ∧
    transfers d' = <[u := declined (claim_row (pay 1001 "k") alice alice_wallet bob_wallet now)]> (transfers bank) ∧
    wallets d' = wallets bank ∧ ledger_entries d' = ledger_entries bank ∧ mints d' = mints bank.
Proof.
  split; [done|].
  apply (transfer_declines calm_env New (pay 1001 "k") bank alice alice_wallet bob_wallet alice_row bob_row);
    [apply wf_bank|apply calm_calm|apply fresh_bank|by apply pay_posed|apply free_bank|done].
Defined.

(** The payment sent again replays; the same key for another amount
    conflicts. *)
Lemma transfer_replays_witness :
  (key_taken paid_bank (pay 300 "k") paid_id (succeeded paid_row) ∧
   alone_on paid_bank calm_env (Transfer New (pay 300 "k")) =
     ((if String.eqb (t_request_fingerprint (succeeded paid_row))
            (Fingerprint (FromWalletID (pay 300 "k")) (ToWalletID (pay 300 "k")) 300)
       then (TransferResult.Mk (scan_transfer paid_id (succeeded paid_row)) true, None)
       else (TransferResult.zero, Some ErrIdempotencyConflict)), paid_bank, [])).
Proof.
  split; [apply paid_key_taken|]. destruct (paid_posed 300) as (rf & rt & Hp); [done|].
  apply (transfer_replays calm_env New (pay 300 "k") paid_bank alice alice_wallet bob_wallet rf rt);
    [apply wf_paid_bank|apply calm_calm|apply paid_fresh|exact Hp|apply paid_key_taken].
Defined.

Lemma transfer_errors_clean_witness :
  let '(res, d', cs) := alone_on bank (fault_at 4 (FConn "reset") true) (Transfer New (pay 300 "k")) in
  match res with
  | (_, Some e) => d' = bank ∨ (env_error e ∧ infra (env_choice (fault_at 4 (FConn "reset") true)) ∧
                     ∃ doc, performs bank (pay 300 "k") doc d')
  | (TransferResult.Mk doc true, None) =>
      d' = bank ∧ ∃ i r, key_taken bank (pay 300 "k") i r ∧ doc = scan_transfer i r
  | (TransferResult.Mk doc false, None) => performs bank (pay 300 "k") doc d' ∧ cs = [(bank, d')]
  end.
Proof. apply (transfer_errors_clean _ New (pay 300 "k") bank); [apply wf_bank|done]. Defined.

(** ** Other spellings: hexadecimal digits in upper case *)

Definition upper_digit (c : Ascii.ascii) : Ascii.ascii :=
  let n := Ascii.N_of_ascii c in
  if ((97 <=? n) && (n <=? 102))%N then Ascii.ascii_of_N (n - 32) else c.

Fixpoint upper_hex (s : string) : string :=
  match s with
  | EmptyString => EmptyString
  | String c s => String (upper_digit c) (upper_hex s)
  end.

(** Alice's payment with her wallet id in upper case. *)
Definition pay_shouted : TransferRequest.t :=
  Mk (uuid_out alice) (upper_hex (uuid_out alice_wallet)) (uuid_out bob_wallet) 300 "k".

Lemma transfer_respelled_declines_witness :
  uuid_out alice_wallet ≠ FromWalletID pay_shouted ∧
  ∃ u now, (alone_on bank calm_env (Transfer New pay_shouted)).1 =
    ((TransferResult.Mk (declined_doc pay_shouted u now) false, None),
     spec_decline u (claim_row pay_shouted alice alice_wallet bob_wallet now) bank).
Proof.
  split; [done|].
  apply (transfer_respelled_declines calm_env New pay_shouted bank alice alice_wallet bob_wallet
    alice_row bob_row); [apply wf_bank|apply calm_calm|apply fresh_bank| | |done].
  - split; [by split|apply bank_alice|done|done|apply bank_rows|apply bank_rows].
  - intros j r Hj. unfold bank in Hj. cbn in Hj. by rewrite lookup_empty in Hj.
Defined.

(** Alice pays herself, the destination in upper case. *)
Definition pay_self : TransferRequest.t :=
  Mk (uuid_out alice) (uuid_out alice_wallet) (upper_hex (uuid_out alice_wallet)) 300 "k".

Lemma transfer_self_respelled_witness :
  FromWalletID pay_self ≠ ToWalletID pay_self ∧
  alone_on bank calm_env (Transfer New pay_self) =
    ((TransferResult.zero, Some (EPg (check_violation "transfers_no_self"))), bank, []).
Proof.
  split; [done|].
  apply (transfer_self_respelled calm_env New pay_self bank alice alice_wallet);
    [apply wf_bank|apply calm_calm|apply fresh_bank|by split|done|done|].
  intros j r Hj. unfold bank in Hj. cbn in Hj. by rewrite lookup_empty in Hj.
Defined.
End examples.
