(* ===== verification/WalletProps.v ===== *)
(** * Users, wallets, mints and reads: properties *)

From S2P Require Import Prelude Errors Database Locks Obs Session Sha256 Store Wallets.
From S2P Require Import Transfers InvariantAudit Accounting Wp TxLoop TransferSpec TransferProof.
From S2P Require Import WalletSpec WalletProof Concurrent Service Fixtures TransferProps.

(** A count of rows is zero when no row satisfies the predicate. *)
Section props.
Context `{PgText}.
Implicit Types (env : nat → choice) (s : Store) (d : db).

(** ** Running one call alone *)

(** What a call proved under interference does alone on tables [d]. *)
Lemma alone_wp {A} env (p : prog A) d Q :
  (∀ C R P, (∀ ls a b, P a → R ls a b → P b) → (∀ ls a b, R ls a b → rely ls a b) →
     (∀ a, P a → wf_db a) → P d →
     wp C R p (λ r w', session w' = None ∧ ∃ cs, commits w' = cs ++ [] ∧ Q C P r cs) (start d)) →
  wf_db d →
  let '(r, d', cs) := alone_on d env p in
  Q (env_choice env) (λ x, x = d) r cs ∧ chain d cs d'.
Proof.
  intros Hp Hwf. apply (alone_spec env p d (Q (env_choice env) (λ x, x = d))). apply Hp; try done.
  - by intros ls a b -> ->.
  - intros ls a b. apply alone_rely.
  - by intros ? ->.
Qed.

Lemma mint_alone env s w k a d :
  wf_db d → in_int64 a = true →
  let '(r, d', cs) := alone_on d env (Mint s w k a) in
  mint_outcome (env_choice env) (λ x, x = d) w k a r cs ∧ chain d cs d'.
Proof.
  intros Hwf Ha. apply (alone_wp env (Mint s w k a) d (λ C P, mint_outcome C P w k a)); [|done].
  intros C R P HP HR Hw Hd. by apply (wp_Mint C R P HP HR Hw w k a Ha) with (w := start d).
Qed.

Lemma wallet_alone env uid d :
  wf_db d →
  let '(r, d', cs) := alone_on d env (GetOrCreateWallet uid) in
  wallet_outcome (env_choice env) (λ x, x = d) uid r cs ∧ chain d cs d'.
Proof.
  intros Hwf. apply (alone_wp env (GetOrCreateWallet uid) d (λ C P, wallet_outcome C P uid)); [|done].
  intros C R P HP HR Hw Hd. by apply (wp_GetOrCreateWallet C R P HP Hw uid) with (w := start d).
Qed.

Lemma user_alone env token d :
  wf_db d →
  let '(r, d', cs) := alone_on d env (UpsertUser token) in
  user_outcome (env_choice env) (λ x, x = d) token r cs ∧ chain d cs d'.
Proof.
  intros Hwf. apply (alone_wp env (UpsertUser token) d (λ C P, user_outcome C P token)); [|done].
  intros C R P HP HR Hw Hd. by apply (wp_UpsertUser C R P HP Hw token) with (w := start d).
Qed.

(** A read changes nothing: its reply is justified by the tables as they are. *)
Lemma read_alone {A} env (p : prog A) d (Q : (choice → Prop) → (db → Prop) → A → Prop) :
  (∀ C R P, (∀ ls a b, P a → R ls a b → P b) → P d →
     wp C R p (λ r w', session w' = None ∧ commits w' = [] ∧ Q C P r) (start d)) →
  let '(r, d', cs) := alone_on d env p in Q (env_choice env) (λ x, x = d) r ∧ d' = d ∧ cs = [].
Proof.
  intros Hp.
  pose proof (alone_spec env p d (λ r cs, Q (env_choice env) (λ x, x = d) r ∧ cs = [])) as Hs.
  destruct (alone_on d env p) as [[r d'] cs]. destruct Hs as [[Hq ->] Hch]; [|done].
  eapply wp_mono, (Hp _ alone (λ x, x = d)); [|by intros ls a b -> ->|done].
  intros r' w' (Hs' & Hc' & Hq). split; [done|]. by exists [].
Qed.

(** ** Users *)

(** On a calm connection with fresh ids a user is held. *)
Lemma user_calm env token d :
  wf_db d → calm env →
  (∀ n, users d !! ch_uuid (env n) = None) ∨ (∃ i r, users d !! i = Some r ∧ u_token_hash r = TokenHash token) →
  ∃ i d', (alone_on d env (UpsertUser token)).1 = (User.Mk (uuid_out i), None, d') ∧
    holds_user d (TokenHash token) i d'.
Proof.
  intros Hwf Hc Hfresh. pose proof (user_alone env token d Hwf) as Hout.
  destruct (alone_on d env (UpsertUser token)) as [[r d1] cs]. destruct Hout as [Hout Hch].
  destruct Hout as [x i x' -> Hh|x ch row -> [n ->] Hu Hn|e Hi _|x i x' e -> _ Hi _];
    try (by destruct (calm_no_infra env)).
  - destruct Hch as [-> _]. by exists i, x'.
  - destruct Hfresh as [Hf|(i & r & Hi & Hh)]; [specialize (Hf n); congruence|by destruct (Hn i r Hi)].
Qed.

(** The user row of a token, once held. *)
Lemma holds_user_row d h i d' : holds_user d h i d' → ∃ r, users d' !! i = Some r ∧ u_token_hash r = h.
Proof. intros []; [eauto|]. simpl. eexists. by rewrite lookup_insert_eq. Qed.

Lemma holds_user_again d h i r j d' :
  wf_db d → users d !! i = Some r → u_token_hash r = h → holds_user d h j d' → j = i ∧ d' = d.
Proof.
  intros Hwf Hi Hr [j' r' Hj Hr'|u now Hu Hn].
  - split; [|done]. eapply (wf_user_hash d Hwf); [done..|congruence].
  - by destruct (Hn i r Hi).
Qed.

(** One token, one user: resolving a token on a calm connection creates its
    user on first sight; resolving it again returns the same id and changes
    nothing; and another token gets another user unless the SHA-256 digests
    collide. *)
Theorem user_resolved env env' token token' d :
  wf_db d → calm env → calm env' → (∀ n, users d !! ch_uuid (env n) = None) →
  ∃ i d1, (alone_on d env (UpsertUser token)).1 = (User.Mk (uuid_out i), None, d1) ∧
    (alone_on d1 env' (UpsertUser token)).1 = (User.Mk (uuid_out i), None, d1) ∧
    (TokenHash token ≠ TokenHash token' → (∀ n, users d1 !! ch_uuid (env' n) = None) →
     ∃ j d2, (alone_on d1 env' (UpsertUser token')).1 = (User.Mk (uuid_out j), None, d2) ∧ i ≠ j).
Proof.
  intros Hwf Hc Hc' Hfresh.
  destruct (user_calm env token d Hwf Hc (or_introl Hfresh)) as (i & d1 & Hrun & Hh).
  destruct (holds_user_row _ _ _ _ Hh) as (r & Hi & Hr).
  destruct (holds_user_wf d _ _ _ Hwf Hh) as (Hwf1 & _).
  exists i, d1. split; [done|]. split.
  - destruct (user_calm env' token d1 Hwf1 Hc') as (j & d2 & -> & Hh2); [right; eauto|].
    by destruct (holds_user_again _ _ _ _ _ _ Hwf1 Hi Hr Hh2) as [-> ->].
  - intros Hne Hfresh1.
    destruct (user_calm env' token' d1 Hwf1 Hc' (or_introl Hfresh1)) as (j & d2 & -> & Hh2).
    exists j, d2. split; [done|]. intros <-.
    destruct (holds_user_row _ _ _ _ Hh2) as (r2 & Hi2 & Hr2).
    destruct (holds_user_wf d1 _ _ _ Hwf1 Hh2) as (_ & Hg & _).
    pose proof (lookup_weaken _ _ _ _ Hi (grows_users _ _ Hg)). congruence.
Qed.

(** ** Wallets *)

Lemma wallet_calm env userID uid d :
  wf_db d → calm env → uuid_in userID = Some uid → is_Some (users d !! uid) →
  (∀ n, wallets d !! ch_uuid (env n) = None) ∨ (∃ i r, wallets d !! i = Some r ∧ w_user_id r = uid) →
  ∃ i r created d',
    (alone_on d env (GetOrCreateWallet userID)).1 = (scan_wallet i r, created, None, d') ∧
    holds_wallet d uid i r created d'.
Proof.
  intros Hwf Hc Hid [xu Hu] Hfresh. pose proof (wallet_alone env userID d Hwf) as Hout.
  destruct (alone_on d env (GetOrCreateWallet userID)) as [[r d1] cs]. destruct Hout as [Hout Hch].
  destruct Hout as [x uid' i r cr x' -> Hid' Hh|x e -> Hrej|e Hi _|x uid' i r cr x' e -> _ _ Hi _];
    try (by destruct (calm_no_infra env)).
  - destruct Hch as [-> _]. assert (uid' = uid) as -> by congruence. by exists i, r, cr, x'.
  - exfalso. destruct Hrej as [He|He|ch r uid' [n ->] Hr Hid' Hn|uid' Hid' Hu' _]; [apply uuid_in_text in Hid; congruence|congruence| |congruence].
    assert (uid' = uid) as -> by congruence.
    destruct Hfresh as [Hf|(i & r' & Hi & Hw)]; [specialize (Hf n); congruence|by destruct (Hn i r' Hi)].
Qed.

(** C30: Get-or-create: on a calm connection the first call for a user with no
    wallet creates one with balance zero and says so; every later call, on any
    tables that have grown since, returns that same wallet with its current
    balance, says it was not created, and changes nothing. *)
Theorem wallet_get_or_create env env' userID uid d :
  wf_db d → calm env → calm env' → uuid_in userID = Some uid → is_Some (users d !! uid) →
  (∀ n, wallets d !! ch_uuid (env n) = None) →
  (∀ i r, wallets d !! i = Some r → w_user_id r ≠ uid) →
  ∃ i now d1,
    (alone_on d env (GetOrCreateWallet userID)).1 =
      (Wallet.Mk (uuid_out i) (uuid_out uid) 0 now, true, None, d1) ∧
    ∀ d2, wf_db d2 → grows d1 d2 →
    ∃ r, wallets d2 !! i = Some r ∧
      (alone_on d2 env' (GetOrCreateWallet userID)).1 =
        (Wallet.Mk (uuid_out i) (uuid_out uid) (w_balance_paise r) now, false, None, d2).
Proof.
  intros Hwf Hc Hc' Hid Hu Hfresh Hnone.
  destruct (wallet_calm env userID uid d Hwf Hc Hid Hu (or_introl Hfresh)) as (i & r & cr & d1 & Hrun & Hh).
  destruct Hh as [i r Hi Hr|u now Hw Hn Hu']; [by destruct (Hnone i r Hi)|].
  exists u, now, (spec_wallet u uid now d). split; [done|]. intros d2 Hwf2 Hg.
  destruct (grows_wallets _ _ Hg u (MkWallet uid 0 now now)) as (r & Hr & Hru & Hrc);
    [simpl; by rewrite lookup_insert_eq|]. simpl in Hru, Hrc.
  exists r. split; [done|].
  destruct (wallet_calm env' userID uid d2 Hwf2 Hc' Hid) as (j & r2 & cr2 & d3 & -> & Hh2).
  { destruct Hu as [x Hx]. exists x. eapply lookup_weaken; [exact Hx|]. apply (grows_users _ _ Hg). }
  { right. by exists u, r. }
  destruct Hh2 as [j r2 Hj Hr2|u2 now2 Hw2 Hn2 _]; [|by destruct (Hn2 u r Hr)].
  assert (j = u) as -> by (eapply (wf_wallet_user d2 Hwf2); [done..|congruence]).
  assert (r2 = r) as -> by congruence. unfold scan_wallet. by rewrite Hru, Hrc.
Qed.

(** ** Mints *)

(** A mint all of whose parts are in order. *)
Record mint_posed d (walletID k : string) (a : Z) (wid : uuid) (rw : wallet_row) : Prop := {
  mp_wallet : uuid_in walletID = Some wid;
  mp_key : text_in k = true;
  mp_amount : 0 < a ≤ int64_max;
  mp_row : wallets d !! wid = Some rw
}.

Definition fresh_mint_ids env d : Prop := ∀ n, mints d !! ch_uuid (env n) = None.

Lemma mint_int64 d w k a wid rw : mint_posed d w k a wid rw → in_int64 a = true.
Proof. intros []. apply in_int64_spec. unfold int64_min. lia. Qed.

(** A mint in order, on a calm connection, is applied or found done. *)
Lemma mint_calm env s w k a d wid rw :
  wf_db d → calm env → fresh_mint_ids env d → mint_posed d w k a wid rw →
  ((∀ j m, mints d !! j = Some m → m_idempotency_key m ≠ k) →
   w_balance_paise rw + a ≤ int64_max) →
  let '(r, d', cs) := alone_on d env (Mint s w k a) in
  (∃ u now, mintable d u (mint_claim k wid a now) rw ∧
     r = (scan_wallet wid (add_balance a now rw), true, None) ∧
     d' = spec_mint u (mint_claim k wid a now) d) ∨
  ((∃ i m, mints d !! i = Some m ∧ m_idempotency_key m = k) ∧
   r = (scan_wallet wid rw, false, None) ∧ d' = d).
Proof.
  intros Hwf Hc Hfresh Hp Hroom. pose proof (mint_alone env s w k a d Hwf (mint_int64 _ _ _ _ _ _ Hp)) as Hout.
  destruct (alone_on d env (Mint s w k a)) as [[r d1] cs]. destruct Hout as [Hout Hch].
  destruct Hp as [Hid Hk Ha Hrow].
  destruct Hout as [x u wid' rw' now -> Hid' _ Hm|x x0 wid' r' -> -> (y & -> & Ht) Hid' Hrow'|x v b e -> Hrej
    |v b e Hi _|x u wid' rw' now v b e -> _ _ _ Hi _|x v b e -> _ Hi _];
    try (by destruct (calm_no_infra env)); simpl in Hch.
  - left. destruct Hch as [-> _]. assert (wid' = wid) as -> by congruence.
    assert (rw' = rw) as -> by (destruct Hm; simpl in *; congruence). by exists u, now.
  - right. destruct Hch as [-> _]. assert (wid' = wid) as -> by congruence.
    assert (r' = rw) as -> by congruence. split; [|done].
    destruct Ht as [Ht|(ch & m & [n ->] & Hm)]; [done|]. specialize (Hfresh n). congruence.
  - exfalso. destruct Hrej as [He|He|c He|wid' Hid' Hn|wid' r' Hid' Hr' Hfree Hover]; try congruence;
      [apply uuid_in_text in Hid; destruct He; congruence|lia|].
    assert (wid' = wid) as -> by congruence. assert (r' = rw) as -> by congruence.
    specialize (Hroom Hfree). lia.
Qed.

(** C26: Minting credits the wallet once.  On a calm connection that generates
    fresh ids, for a mint in order (an existing wallet, a positive int64 amount,
    a key the database can hold): with a fresh key, and room for the credit in
    an int64, the reply carries the credited balance and applied = true, and the
    tables gain exactly the mint row and the credit; with a recorded key --
    whatever wallet or amount it was recorded for, and whether there is room or
    not -- nothing changes, and the reply is the wallet as it stands with
    applied = false. *)
Theorem mint_idempotent env s w k a d wid rw :
  wf_db d → calm env → fresh_mint_ids env d → mint_posed d w k a wid rw →
  ((∀ j m, mints d !! j = Some m → m_idempotency_key m ≠ k) →
   w_balance_paise rw + a ≤ int64_max →
   ∃ u now, mints d !! u = None ∧
     (alone_on d env (Mint s w k a)).1 =
       (scan_wallet wid (add_balance a now rw), true, None,
        spec_mint u (mint_claim k wid a now) d)) ∧
  ((∃ i m, mints d !! i = Some m ∧ m_idempotency_key m = k) →
   (alone_on d env (Mint s w k a)).1 = (scan_wallet wid rw, false, None, d)).
Proof.
  intros Hwf Hc Hfresh Hp. split.
  - intros Hfree Hroom. pose proof (mint_calm env s w k a d wid rw Hwf Hc Hfresh Hp (λ _, Hroom)) as Hout.
    destruct (alone_on d env (Mint s w k a)) as [[r d1] cs].
    destruct Hout as [(u & now & Hm & -> & ->)|((i & m & Hi & Hk) & _)]; [|by destruct (Hfree i m Hi)].
    exists u, now. split; [apply Hm|done].
  - intros (i & m & Hi & Hk).
    pose proof (mint_calm env s w k a d wid rw Hwf Hc Hfresh Hp (λ Hfree, match Hfree i m Hi Hk with end)) as Hout.
    destruct (alone_on d env (Mint s w k a)) as [[r d1] cs].
    destruct Hout as [(u & now & Hm & _)|(_ & -> & ->)]; [|done]. by destruct (mt_key _ _ _ _ Hm i m Hi).
Qed.

(** One mint request, sent again and again. *)
Fixpoint mint_attempts s w k a d (envs : list (nat → choice))
    : list (Wallet.t * bool * option error) * db :=
  match envs with
  | [] => ([], d)
  | env :: envs =>
      let '(r, d1, _) := alone_on d env (Mint s w k a) in
      let '(rs, d2) := mint_attempts s w k a d1 envs in (r :: rs, d2)
  end.

(** A mint call does nothing, or the work of a mint whose key was free. *)
Lemma mint_step env s w k a d :
  wf_db d → in_int64 a = true →
  let '(_, d', _) := alone_on d env (Mint s w k a) in
  d' = d ∨ ∃ u wid rw now, uuid_in w = Some wid ∧ mintable d u (mint_claim k wid a now) rw ∧
    d' = spec_mint u (mint_claim k wid a now) d.
Proof.
  intros Hwf Ha. pose proof (mint_alone env s w k a d Hwf Ha) as Hout.
  destruct (alone_on d env (Mint s w k a)) as [[r d1] cs]. destruct Hout as [Hout Hch].
  destruct Hout; simpl in Hch; subst; try destruct Hch as [-> _]; eauto 10.
Qed.

Lemma mint_attempts_done s w k a envs d i m :
  wf_db d → in_int64 a = true → mints d !! i = Some m → m_idempotency_key m = k →
  (mint_attempts s w k a d envs).2 = d.
Proof.
  intros Hwf Ha Hi Hk. induction envs as [|env envs IH]; [done|]. simpl.
  pose proof (mint_step env s w k a d Hwf Ha) as Hst.
  destruct (alone_on d env (Mint s w k a)) as [[r d2] cs].
  destruct Hst as [->|(u & wid & rw & now & _ & Hm & _)];
    [by destruct (mint_attempts s w k a d envs)|by destruct (mt_key _ _ _ _ Hm i m Hi)].
Qed.

(** C27: Exactly-once funding: however often a mint is retried and whatever
    faults hit the attempts, the tables end as they began or with the wallet
    credited exactly once. *)
Theorem mint_exactly_once s w k a envs d :
  wf_db d → in_int64 a = true →
  let d' := (mint_attempts s w k a d envs).2 in
  d' = d ∨ ∃ u wid rw now, uuid_in w = Some wid ∧ mintable d u (mint_claim k wid a now) rw ∧
    d' = spec_mint u (mint_claim k wid a now) d.
Proof.
  intros Hwf Ha. induction envs as [|env envs IH]; simpl; [by left|].
  pose proof (mint_step env s w k a d Hwf Ha) as Hst.
  destruct (alone_on d env (Mint s w k a)) as [[r d1] cs].
  destruct Hst as [->|(u & wid & rw & now & Hid & Hm & ->)].
  - by destruct (mint_attempts s w k a d envs).
  - right. exists u, wid, rw, now. split; [done|]. split; [done|]. clear IH.
    pose proof (mint_attempts_done s w k a envs (spec_mint u (mint_claim k wid a now) d) u
      (mint_claim k wid a now) (wf_mint _ _ _ _ Hwf Hm) Ha) as Hd.
    destruct (mint_attempts s w k a _ envs). apply Hd; [|done]. simpl. by rewrite lookup_insert_eq.
Qed.

(** ** Reads *)

(** A transfer reads back: once a calm call has done the work and returned
    its document, GetTransfer of the document's id -- on any well-formed tables
    that have grown since, on a calm connection -- returns that very document,
    provided the request spelled its ids as the server prints them. *)
Theorem transfer_reads_back env env' s req d d2 :
  wf_db d → in_int64 (TransferRequest.AmountPaise req) = true → calm env' →
  let '(res, d1, _) := alone_on d env (Transfer s req) in
  ∀ doc, res = (TransferResult.Mk doc false, None) →
  (∀ fu, uuid_in (TransferRequest.FromWalletID req) = Some fu → uuid_out fu = TransferRequest.FromWalletID req) →
  (∀ tu, uuid_in (TransferRequest.ToWalletID req) = Some tu → uuid_out tu = TransferRequest.ToWalletID req) →
  grows d1 d2 →
  alone_on d2 env' (GetTransfer (Transfer.ID doc)) = ((doc, None), d2, []).
Proof.
  intros Hwf Ha Hc. pose proof (transfer_alone env s req d Hwf Ha) as Hout.
  destruct (alone_on d env (Transfer s req)) as [[res d1] cs]. destruct Hout as [Hout Hch].
  intros doc -> Hf Ht Hg.
  assert (Hp : performs d req doc d1).
  { inversion Hout; subst; try done. by destruct Hch as [-> _]. }
  assert (Hrow : ∃ i r, transfers d1 !! i = Some r ∧ Transfer.ID doc = uuid_out i ∧ scan_transfer i r = doc).
  { destruct Hp as [u ru fu tu rf rt now [] ? ? ?|u ru fu tu rf now [] ? ? ?]; exists u; eexists;
      (split; [simpl; apply lookup_insert_eq|split; [done|]]); unfold scan_transfer; simpl;
      by rewrite (Hf fu), (Ht tu). }
  destruct Hrow as (i & r & Hi & Hid & Hdoc). rewrite Hid.
  assert (Hi2 : transfers d2 !! i = Some r) by (eapply lookup_weaken; [exact Hi|apply (grows_transfers _ _ Hg)]).
  pose proof (read_alone env' (GetTransfer (uuid_out i)) d2
    (λ C P, get_transfer_outcome C P (uuid_out i))) as Hread.
  destruct (alone_on d2 env' (GetTransfer (uuid_out i))) as [[r2 d3] cs2].
  destruct Hread as (Hr & -> & ->).
  { intros C R P HP Hd. by apply (wp_GetTransfer C R P HP) with (w := start d2). }
  destruct Hr as [x j q -> Hj Hq|x -> Hn|Htx|e Hi' _]; [| | |by destruct (calm_no_infra env')];
    [| |rewrite (uuid_in_text _ _ (uuid_out_in i)) in Htx; discriminate];
    rewrite uuid_out_in in *; simpl in *; [|congruence].
  injection Hj as <-. assert (q = r) as -> by congruence. by rewrite Hdoc.
Qed.

(** C29: The audit reports what is there: on a calm connection and on any tables,
    well-formed or not, CheckInvariants changes nothing and returns the eight
    counts of the tables when each fits an int64 -- a scan error when one does
    not -- and AllHold is true exactly when total balance equals total minted,
    the ledger sums to zero, no balance is negative and nothing is pending. *)
Theorem audit_exact env d :
  calm env →
  let '(res, d', cs) := alone_on d env CheckInvariants in
  d' = d ∧ cs = [] ∧
  (if audit_fits d then res = (audit_of d, None)
   else ∃ m, res = (Invariants.zero, Some (EScan m))) ∧
  (Invariants.AllHold (audit_of d) = true ↔
   map_sum (λ _, w_balance_paise) (wallets d) = map_sum (λ _, m_amount_paise) (mints d) ∧
   list_sum l_delta_paise (ledger_entries d) = 0 ∧
   (∀ i r, wallets d !! i = Some r → 0 ≤ w_balance_paise r) ∧
   (∀ i r, transfers d !! i = Some r → t_status r ≠ "pending")).
Proof.
  intros Hc. pose proof (read_alone env CheckInvariants d audit_outcome) as Hread.
  destruct (alone_on d env CheckInvariants) as [[r d'] cs]. destruct Hread as (Hr & -> & ->).
  { intros C R P HP Hd. eapply wp_mono, (wp_CheckInvariants C R P HP) with (w := start d); [|done|done].
    by intros a w (Hs & Ha & _ & Hout). }
  split; [done|]. split; [done|]. split.
  { destruct Hr as [x -> Hfit|x m -> Hfit|e Hi _]; [by rewrite Hfit|rewrite Hfit; by exists m|].
    by destruct (calm_no_infra env). }
  apply all_hold_iff.
Qed.
End props.

(** ** At concrete inputs *)

Section examples.
#[local] Existing Instance hex_text.

(** Two tokens seen for the first time. *)
Lemma user_resolved_witness :
  ∃ i d1, (alone_on empty_db calm_env (UpsertUser "ann")).1 = (User.Mk (uuid_out i), None, d1) ∧
    (alone_on d1 (later 10 calm_env) (UpsertUser "ann")).1 = (User.Mk (uuid_out i), None, d1) ∧
    (TokenHash "ann" ≠ TokenHash "ben" →
     (∀ n, users d1 !! ch_uuid (later 10 calm_env n) = None) →
     ∃ j d2, (alone_on d1 (later 10 calm_env) (UpsertUser "ben")).1 = (User.Mk (uuid_out j), None, d2) ∧ i ≠ j).
Proof.
  apply (user_resolved calm_env (later 10 calm_env) "ann" "ben" empty_db);
    [apply wf_empty|by intros n|by intros n|intros n; apply lookup_empty].
Defined.

(** A user without a wallet. *)
Definition alice_only : db := spec_user alice "token of alice" 1 empty_db.

Lemma wf_alice_only : wf_db alice_only.
Proof. apply wf_user; [apply wf_empty|by vm_compute|by_rows]. Qed.

Lemma wallet_get_or_create_witness :
  ∃ i now d1,
    (alone_on alice_only calm_env (GetOrCreateWallet (uuid_out alice))).1 =
      (Wallet.Mk (uuid_out i) (uuid_out alice) 0 now, true, None, d1) ∧
    ∀ d2, wf_db d2 → grows d1 d2 →
    ∃ r, wallets d2 !! i = Some r ∧
      (alone_on d2 (later 10 calm_env) (GetOrCreateWallet (uuid_out alice))).1 =
        (Wallet.Mk (uuid_out i) (uuid_out alice) (w_balance_paise r) now, false, None, d2).
Proof.
  apply (wallet_get_or_create calm_env (later 10 calm_env) (uuid_out alice) alice alice_only);
    [apply wf_alice_only|by intros n|by intros n|done|by eexists|intros n; apply lookup_empty|].
  intros i r Hi. unfold alice_only in Hi. cbn in Hi. by rewrite lookup_empty in Hi.
Defined.

Lemma bank_mint_posed key :
  no_nul key = true → mint_posed bank (uuid_out bob_wallet) key 50 bob_wallet bob_row.
Proof. intros Hk. split; [done|done|done|apply bank_rows]. Qed.

Lemma bank_fresh_mints : fresh_mint_ids calm_env bank.
Proof. intros n. simpl. rewrite lookup_insert_ne; [apply lookup_empty|]. unfold mint_1. intros [=]. Qed.

(** Key "top-up" is fresh; key "seed" funded Alice's wallet, and is answered
    with Bob's untouched. *)
Lemma mint_idempotent_witness :
  (∃ u now, mints bank !! u = None ∧
     (alone_on bank calm_env (Mint New (uuid_out bob_wallet) "top-up" 50)).1 =
       (scan_wallet bob_wallet (add_balance 50 now bob_row), true, None,
        spec_mint u (mint_claim "top-up" bob_wallet 50 now) bank)) ∧
  (alone_on bank calm_env (Mint New (uuid_out bob_wallet) "seed" 50)).1 =
    (scan_wallet bob_wallet bob_row, false, None, bank).
Proof.
  split.
  - apply (mint_idempotent calm_env New (uuid_out bob_wallet) "top-up" 50 bank bob_wallet bob_row);
      [apply wf_bank|by intros n|apply bank_fresh_mints|by apply bank_mint_posed| |done].
    by_rows.
  - apply (mint_idempotent calm_env New (uuid_out bob_wallet) "seed" 50 bank bob_wallet bob_row);
      [apply wf_bank|by intros n|apply bank_fresh_mints|by apply bank_mint_posed|].
    exists mint_1, (MkMint "seed" alice_wallet 1000 5). by vm_compute.
Defined.

Lemma mint_exactly_once_witness :
  let d' := (mint_attempts New (uuid_out bob_wallet) "top-up" 50 bank
               [fault_at 5 (FConn "reset") true; later 100 calm_env]).2 in
  d' = bank ∨ ∃ u wid rw now, uuid_in (uuid_out bob_wallet) = Some wid ∧
    mintable bank u (mint_claim "top-up" wid 50 now) rw ∧
    d' = spec_mint u (mint_claim "top-up" wid 50 now) bank.
Proof. apply mint_exactly_once; [apply wf_bank|done]. Defined.

Lemma transfer_reads_back_witness :
  let '(res, d1, _) := alone_on bank calm_env (Transfer New (pay 300 "k")) in
  ∃ doc, res = (TransferResult.Mk doc false, None) ∧
    alone_on d1 (later 100 calm_env) (GetTransfer (Transfer.ID doc)) = ((doc, None), d1, []).
Proof.
  pose proof (transfer_reads_back calm_env (later 100 calm_env) New (pay 300 "k") bank) as Hback.
  assert (Hkind : match (alone_on bank calm_env (Transfer New (pay 300 "k"))).1.1 with
    (TransferResult.Mk _ false, None) => true | _ => false end = true) by (vm_compute; reflexivity).
  destruct (alone_on bank calm_env (Transfer New (pay 300 "k"))) as [[[[doc []] [e|]] d1] cs];
    try discriminate Hkind.
  exists doc. split; [done|]. apply (Hback d1); [apply wf_bank|done|by intros n|done| | |reflexivity].
  - intros fu Hfu. vm_compute in Hfu. by injection Hfu as <-.
  - intros tu Htu. vm_compute in Htu. by injection Htu as <-.
Defined.

(** The audit of the bank. *)
Lemma audit_exact_witness :
  let '(res, d', cs) := alone_on bank calm_env CheckInvariants in
  d' = bank ∧ cs = [] ∧
  (if audit_fits bank then res = (audit_of bank, None)
   else ∃ m, res = (Invariants.zero, Some (EScan m))) ∧
  (Invariants.AllHold (audit_of bank) = true ↔
   map_sum (λ _, w_balance_paise) (wallets bank) = map_sum (λ _, m_amount_paise) (mints bank) ∧
   list_sum l_delta_paise (ledger_entries bank) = 0 ∧
   (∀ i r, wallets bank !! i = Some r → 0 ≤ w_balance_paise r) ∧
   (∀ i r, transfers bank !! i = Some r → t_status r ≠ "pending")).
Proof. apply (audit_exact calm_env bank). by intros n. Defined.

End examples.
