(* ===== verification/ServiceProps.v ===== *)
(** * The service: properties

    The invariant of the database under any sequence and any interleaving of
    calls, conservation of money, exactly-once transfers across concurrent
    retries, and the audit. *)

From S2P Require Import Prelude Errors Database Locks Obs Session Store Wallets Transfers InvariantAudit.
From S2P Require Import Accounting Wp TxLoop TransferSpec TransferProof WalletSpec WalletProof.
From S2P Require Import Concurrent LockOrder Progress Service Deadlock.
From S2P Require Import Fixtures TransferProps WalletProps.

Section props.
Context `{PgText}.
Implicit Types (env : nat → choice) (s : Store).

(** Every commit of a call is an accounting action on well-formed tables. *)
Lemma outcome_commits C P c r cs :
  (∀ d, P d → wf_db d) → call_outcome C P c r cs →
  ∀ a b, (a, b) ∈ cs → wf_db a ∧ wf_db b ∧ grows a b.
Proof.
  intros HP Ho a b Hab.
  assert (Hone : ∀ x y, (a, b) ∈ [(x, y)] → wf_db x → wf_db y ∧ grows x y → wf_db a ∧ wf_db b ∧ grows a b)
    by (intros x y [= -> ->]%list_elem_of_singleton ? []; eauto).
  assert (Hnil : (a, b) ∈ [] → wf_db a ∧ wf_db b ∧ grows a b) by (by intros ?%not_elem_of_nil).
  destruct c, r; simpl in Ho; try done.
  - destruct Ho as [d i d' HPd Hh| | |d i d' e HPd Hh _ _]; try (by apply Hnil);
      (eapply Hone; [done|by apply HP|]; destruct (holds_user_wf d _ _ _ (HP _ HPd) Hh) as (? & ? & _); done).
  - destruct Ho as [d uid i r cr d' HPd _ Hh| | |d uid i r cr d' e HPd _ Hh _ _]; try (by apply Hnil);
      (eapply Hone; [done|by apply HP|]; eapply holds_wallet_wf; eauto).
  - destruct Ho as [_ ->]. by apply Hnil.
  - destruct Ho as [d u wid rw now HPd _ _ Hm|d d0 wid r HPd _ _ _ _| | |d u wid rw now ? ? ? HPd _ _ Hm _ _
      |d w ap e HPd _ _ _]; try (by apply Hnil); (eapply Hone; [done|by apply HP|]; try (by split; [apply HP|]));
      (split; [eapply wf_mint; eauto|by eapply grows_mint]).
  - destruct Ho as [| | |d doc d' HPd Hp|d doc d' e HPd Hp _ _| |]; try (by apply Hnil);
      (eapply Hone; [done|by apply HP|]; eapply performs_wf; eauto).
  - destruct Ho as [_ ->]. by apply Hnil.
  - destruct Ho as [_ ->]. by apply Hnil.
Qed.

Lemma chain_wf d cs d' :
  wf_db d → chain d cs d' → (∀ a b, (a, b) ∈ cs → wf_db a ∧ wf_db b ∧ grows a b) →
  wf_db d' ∧ grows d d'.
Proof.
  intros Hwf. revert d'. induction cs as [|[a b] cs IH]; simpl; intros d' Hch Hcs; [by subst|].
  destruct Hch as [-> Hch]. destruct (IH a Hch) as [Ha Hg]; [intros; apply Hcs; by right|].
  destruct (Hcs a b) as (_ & Hb & Hg'); [by left|]. split; [done|by etrans].
Qed.

(** ** Sequences of calls *)

(** The calls in order, each under choices of its own. *)
Fixpoint serve s d (jobs : list ((nat → choice) * call)) : list reply * db :=
  match jobs with
  | [] => ([], d)
  | (env, c) :: jobs =>
      let '(r, d1, _) := alone_on d env (perform s c) in
      let '(rs, d2) := serve s d1 jobs in (r :: rs, d2)
  end.

Lemma serve_wf s jobs d :
  wf_db d → forallb (λ j, call_amount_ok j.2) jobs = true →
  wf_db (serve s d jobs).2 ∧ grows d (serve s d jobs).2.
Proof.
  revert d. induction jobs as [|[env c] jobs IH]; intros d Hwf Hok; simpl in *; [done|].
  apply andb_true_iff in Hok as [Hc Hok].
  pose proof (alone_call env s c d Hwf Hc) as Hout.
  destruct (alone_on d env (perform s c)) as [[r d1] cs]. destruct Hout as [Hout Hch].
  destruct (chain_wf d cs d1 Hwf Hch) as [Hwf1 Hg1].
  { eapply outcome_commits; [|exact Hout]. by intros ? ->. }
  destruct (IH d1 Hwf1 Hok) as [Hwf2 Hg2]. destruct (serve s d1 jobs) as [rs d2].
  split; [done|by etrans].
Qed.

(** C15: The invariant of the store: from the empty database, any sequence of
    calls under any faults leaves tables in which no balance is negative or
    over an int64, every wallet's balance is what was minted into it plus what
    the ledger moved, every succeeded transfer has exactly its two ledger
    entries, nothing is pending, every key is unique and every reference
    resolves ([wf_db]); total balance equals total minted and the ledger sums
    to zero. *)
Theorem service_conserves s jobs :
  forallb (λ j, call_amount_ok j.2) jobs = true →
  let d := (serve s empty_db jobs).2 in
  wf_db d ∧
  map_sum (λ _, w_balance_paise) (wallets d) = map_sum (λ _, m_amount_paise) (mints d) ∧
  list_sum l_delta_paise (ledger_entries d) = 0.
Proof.
  intros Hok d. destruct (serve_wf s jobs empty_db wf_empty Hok) as [Hwf _].
  split; [done|]. split; [by apply balances_are_mints|by apply ledger_sum_zero].
Qed.

(** Nothing is rewritten: any further calls keep every user, transfer and
    mint row exactly as it is, keep every wallet's owner, and only append to
    the ledger. *)
Theorem service_append_only s jobs d :
  wf_db d → forallb (λ j, call_amount_ok j.2) jobs = true → grows d (serve s d jobs).2.
Proof. intros. by apply serve_wf. Qed.

(** ** Interleaved calls *)

(** Isolation: start any number of calls at once, interleave their commands
    in any way the locks allow, let any faults hit: in every state reached the
    tables are well-formed, nothing was rewritten, and money is conserved. *)
Theorem interleaved_safe C d0 s cs σ :
  wf_db d0 → forallb call_amount_ok cs = true → reachable C d0 (service s cs) σ →
  let d := sys_db σ in
  wf_db d ∧ grows d0 d ∧
  map_sum (λ _, w_balance_paise) (wallets d) = map_sum (λ _, m_amount_paise) (mints d) ∧
  list_sum l_delta_paise (ledger_entries d) = 0.
Proof.
  intros Hwf Hok Hr. destruct (service_reachable C d0 s cs σ Hwf Hok Hr) as [Hwf' Hg _ _].
  split_and!; [done|done|by apply balances_are_mints|by apply ledger_sum_zero].
Qed.

(** Atomicity: every call that finishes in an interleaving returns a result
    its specification allows -- justified by tables that were there at some
    moment of this very run, whose tables are [h] -- and the changes it committed
    are none, or exactly one accounting action applied to the tables of that
    moment. *)
Theorem interleaved_outcomes C d0 s cs h σ i r w :
  wf_db d0 → forallb call_amount_ok cs = true → run_of C d0 (service s cs) h σ →
  finished σ i r w →
  ∃ c, cs !! i = Some c ∧ call_outcome C (seen (λ d, d ∈ h) d0) c r (commits w).
Proof.
  intros Hwf Hok Hr Hf.
  destruct (si_threads _ _ _ _ _ (service_run C d0 s cs h σ Hwf Hok Hr) i _ Hf) as [_ _ Hwp _].
  exact Hwp.
Qed.

(** Exactly once under concurrency: of the transfers running at once with
    one requester and one idempotency key, at most one commits anything, in
    any interleaving. *)
Theorem interleaved_exactly_once C d0 s cs σ i j ri rj wi wj req req' :
  wf_db d0 → forallb call_amount_ok cs = true → reachable C d0 (service s cs) σ →
  i ≠ j → cs !! i = Some (CTransfer req) → cs !! j = Some (CTransfer req') →
  uuid_in (TransferRequest.RequesterUserID req) = uuid_in (TransferRequest.RequesterUserID req') →
  TransferRequest.IdempotencyKey req = TransferRequest.IdempotencyKey req' →
  finished σ i ri wi → finished σ j rj wj →
  commits wi = [] ∨ commits wj = [].
Proof.
  intros Hwf Hok Hr Hij Hi Hj Hu Hk Hfi Hfj.
  pose proof (service_reachable C d0 s cs σ Hwf Hok Hr) as [_ _ Hths Hord].
  destruct (ti_wp _ _ _ _ _ _ (Hths i _ Hfi)) as (ci & Hci & Hoi).
  destruct (ti_wp _ _ _ _ _ _ (Hths j _ Hfj)) as (cj & Hcj & Hoj).
  rewrite Hi in Hci. rewrite Hj in Hcj. injection Hci as <-. injection Hcj as <-.
  cbn [th_world] in *.
  assert (Hperf : ∀ q r w, call_outcome C (seen anything d0) (CTransfer q) r (commits w) →
    commits w = [] ∨ ∃ a b doc, commits w = [(a, b)] ∧ performs a q doc b).
  { intros q r w Ho. destruct r; try done. destruct Ho; eauto 8. }
  destruct (Hperf _ _ _ Hoi) as [|(a & b & doc & Hca & Hpa)]; [by left|].
  destruct (Hperf _ _ _ Hoj) as [|(a' & b' & doc' & Hca' & Hpa')]; [by right|]. exfalso.
  destruct (performs_key_taken _ _ _ _ Hpa) as (x & q & Hkx & _).
  destruct (performs_key_taken _ _ _ _ Hpa') as (x' & q' & Hkx' & _).
  assert (Hsame : ∀ d y z, key_taken d req y z ↔ key_taken d req' y z)
    by (intros; unfold key_taken; by rewrite Hu, Hk).
  destruct (Hord i j _ _ a b a' b' Hij Hfi Hfj) as [Hg|Hg];
    [simpl; rewrite Hca; by left|simpl; rewrite Hca'; by left|..].
  - eapply (performs_key_free _ _ _ _ x q Hpa'), Hsame, key_taken_grows; done.
  - eapply (performs_key_free _ _ _ _ x' q' Hpa), Hsame, key_taken_grows; done.
Qed.

(** The audit is sound under load: whenever CheckInvariants returns nil --
    alone or among any interleaved calls -- it reports AllHold, a zero ledger
    sum, total balance equal to total minted, and no pending transfer. *)
Theorem interleaved_audit C d0 s cs σ i inv w :
  wf_db d0 → forallb call_amount_ok cs = true → reachable C d0 (service s cs) σ →
  cs !! i = Some CCheckInvariants → finished σ i (RInvariants (inv, None)) w →
  Invariants.AllHold inv = true ∧ Invariants.LedgerSumPaise inv = 0 ∧
  Invariants.TotalBalancePaise inv = Invariants.TotalMintedPaise inv ∧
  Invariants.PendingTransfers inv = 0.
Proof.
  intros Hwf Hok Hr Hi Hf.
  destruct (ti_wp _ _ _ _ _ _ (si_threads _ _ _ _ _ (service_reachable C d0 s cs σ Hwf Hok Hr) i _ Hf))
    as (c & Hc & Hout).
  rewrite Hi in Hc. injection Hc as <-. destruct Hout as [Ha _].
  inversion Ha as [d [[Hwfd _] _] Hfit Heq| |]; subst. by apply audit_of_wf.
Qed.

(** ** Liveness *)

(** Every call is answered: start any number of calls at once, the wallet
    ids of the transfers spelled as the server prints them.  No schedule runs
    forever, and no state that can be reached is stuck: either every call has
    returned, or some session can take its next step -- it gets the locks it
    asks for -- whatever locks the others hold and whatever faults have hit.
    Opposite transfers between two wallets cannot deadlock. *)
Theorem service_never_deadlocks C d0 s cs σ :
  (∃ ch, C ch) → Forall call_canonical cs → reachable C d0 (service s cs) σ →
  Acc (λ σ2 σ1, step C σ1 σ2) σ ∧
  ((∀ i t, sys_threads σ !! i = Some t → ∃ r, th_prog t = Ret r) ∨ ∃ σ', step C σ σ').
Proof.
  intros HC Hcs Hr. split; [apply step_wf|].
  destruct (ordered_progress C d0 (service s cs)) with (σ := σ) as [Hall|]; [|done|done| |by right].
  - intros i p. unfold service. rewrite list_lookup_fmap. destruct (cs !! i) as [c|] eqn:Hc; [|done].
    intros [= <-]. apply ordered_perform; [|done]. by eapply Forall_lookup_1.
  - left. intros i t Ht. specialize (Hall i t Ht). unfold unfinished in Hall.
    destruct (th_prog t) as [r|]; [by exists r|done].
Qed.
End props.

(** ** At concrete inputs *)

Section examples.
#[local] Existing Instance hex_text.

(** Two clients send one payment at once, and the audit runs. *)
Definition race : list call := [CTransfer (pay 300 "k"); CTransfer (pay 300 "k"); CCheckInvariants].

(** One command of each in turn, under calm choices. *)
Definition rounds (n : nat) : list (nat * choice) :=
  mjoin ((λ j, [(0%nat, calm_env (3 * j)); (1%nat, calm_env (3 * j + 1)); (2%nat, calm_env (3 * j + 2))])
    <$> seq 0 n).

Lemma rounds_calm n : Forall (λ m, env_choice calm_env m.2) (rounds n).
Proof.
  unfold rounds. apply Forall_forall. intros m Hm. apply list_elem_of_join in Hm as (l & Hm & Hl).
  apply list_elem_of_fmap in Hl as (j & -> & _). set_unfold.
  destruct Hm as [->|[->|[->|[]]]]; eexists; reflexivity.
Qed.

Definition raced : system := run_moves (init bank (service New race)) (rounds 40).

Lemma raced_reachable : reachable (env_choice calm_env) bank (service New race) raced.
Proof. apply run_moves_reachable, rounds_calm. Qed.

(** Everyone finished: one did the work, the other replayed it. *)
Example race_results :
  option_map (λ x, match x.1 with RTransfer r => (is_replay r, length (commits x.2)) | _ => (false, 9%nat) end)
    <$> (result_of raced <$> [0%nat; 1%nat]) = [Some (false, 1%nat); Some (true, 0%nat)].
Proof. vm_compute. reflexivity. Qed.

Lemma raced_finished i : (i < 3)%nat → ∃ r w, finished raced i r w.
Proof.
  intros Hi. assert (Hr : is_Some (result_of raced i)).
  { destruct i as [|[|[|]]]; [..|lia]; apply not_eq_None_Some; vm_compute; discriminate. }
  destruct Hr as [[r w] Hr]. exists r, w. by apply result_of_finished.
Qed.

Lemma service_conserves_witness :
  let jobs := [(calm_env, CUpsertUser "ann"); (later 10 calm_env, CGetWallet "none");
               (later 20 calm_env, CCheckInvariants)] in
  let d := (serve New empty_db jobs).2 in
  wf_db d ∧
  map_sum (λ _, w_balance_paise) (wallets d) = map_sum (λ _, m_amount_paise) (mints d) ∧
  list_sum l_delta_paise (ledger_entries d) = 0.
Proof. intros jobs. by apply (service_conserves New jobs). Defined.

Lemma service_append_only_witness :
  grows bank (serve New bank [(calm_env, CTransfer (pay 300 "k")); (fault_at 2 FDeadlock false, CTransfer (pay 1 "l"))]).2.
Proof. apply service_append_only; [apply wf_bank|done]. Defined.

Lemma interleaved_safe_witness :
  let d := sys_db raced in
  wf_db d ∧ grows bank d ∧
  map_sum (λ _, w_balance_paise) (wallets d) = map_sum (λ _, m_amount_paise) (mints d) ∧
  list_sum l_delta_paise (ledger_entries d) = 0.
Proof.
  apply (interleaved_safe (env_choice calm_env) bank New race raced);
    [apply wf_bank|done|apply raced_reachable].
Defined.

Lemma interleaved_outcomes_witness :
  ∃ h r w, run_of (env_choice calm_env) bank (service New race) h raced ∧ finished raced 0 r w ∧
    ∃ c, race !! 0%nat = Some c ∧ call_outcome (env_choice calm_env) (seen (λ d, d ∈ h) bank) c r (commits w).
Proof.
  destruct (raced_finished 0) as (r & w & Hf); [lia|].
  destruct (reachable_run _ _ _ _ raced_reachable) as [h Hh]. exists h, r, w. split; [done|]. split; [done|].
  apply (interleaved_outcomes (env_choice calm_env) bank New race h raced 0 r w);
    [apply wf_bank|done|exact Hh|done].
Defined.

Lemma interleaved_exactly_once_witness :
  ∃ ri rj wi wj, finished raced 0 ri wi ∧ finished raced 1 rj wj ∧ (commits wi = [] ∨ commits wj = []).
Proof.
  destruct (raced_finished 0) as (ri & wi & Hi); [lia|].
  destruct (raced_finished 1) as (rj & wj & Hj); [lia|].
  exists ri, rj, wi, wj. split; [done|]. split; [done|].
  apply (interleaved_exactly_once (env_choice calm_env) bank New race raced 0 1 ri rj wi wj
    (pay 300 "k") (pay 300 "k")); [apply wf_bank|done|apply raced_reachable|done..|exact Hi|exact Hj].
Defined.

Lemma interleaved_audit_witness :
  ∃ inv w, finished raced 2 (RInvariants (inv, None)) w ∧
    Invariants.AllHold inv = true ∧ Invariants.LedgerSumPaise inv = 0 ∧
    Invariants.TotalBalancePaise inv = Invariants.TotalMintedPaise inv ∧
    Invariants.PendingTransfers inv = 0.
Proof.
  assert (Hr : match result_of raced 2 with Some (RInvariants (_, None), _) => true | _ => false end = true)
    by (vm_compute; reflexivity).
  destruct (result_of raced 2) as [[[| | | | | |[inv [e|]]] w]|] eqn:Hres; try discriminate Hr.
  apply result_of_finished in Hres. exists inv, w. split; [done|].
  apply (interleaved_audit (env_choice calm_env) bank New race raced 2 inv w);
    [apply wf_bank|done|apply raced_reachable|done|exact Hres].
Defined.

(** Printed ids are canonical. *)
Lemma canonical_printed i : canonical (uuid_out i).
Proof. intros j Hj. rewrite uuid_out_in in Hj. by injection Hj as <-. Qed.

(** Alice and Bob pay each other at once: each transfer wants both wallets. *)
Definition crossing : list call :=
  [CTransfer (pay 300 "k");
   CTransfer (TransferRequest.Mk (uuid_out bob) (uuid_out bob_wallet) (uuid_out alice_wallet) 5 "b")].

Definition crossed : system :=
  run_moves (init bank (service New crossing))
    (mjoin ((λ j, [(0%nat, calm_env (2 * j)); (1%nat, calm_env (2 * j + 1))]) <$> seq 0 3)).

Lemma crossed_reachable : reachable (env_choice calm_env) bank (service New crossing) crossed.
Proof.
  apply run_moves_reachable, Forall_forall. intros m Hm. apply list_elem_of_join in Hm as (l & Hm & Hl).
  apply list_elem_of_fmap in Hl as (j & -> & _). set_unfold.
  destruct Hm as [->|[->|[]]]; eexists; reflexivity.
Qed.

Lemma service_never_deadlocks_witness :
  Acc (λ σ2 σ1, step (env_choice calm_env) σ1 σ2) crossed ∧
  ((∀ i t, sys_threads crossed !! i = Some t → ∃ r, th_prog t = Ret r) ∨
   ∃ σ', step (env_choice calm_env) crossed σ').
Proof.
  apply (service_never_deadlocks (env_choice calm_env) bank New crossing crossed).
  - exists (calm_env 0), 0%nat. reflexivity.
  - repeat constructor; apply canonical_printed.
  - apply crossed_reachable.
Defined.
End examples.
