(* ===== verification/HttpProps.v ===== *)
(** * The HTTP layer: properties

    Who may move money, what a response means about the tables, what is
    rejected before the database, and what every request is counted as. *)

From S2P Require Import Prelude GoStrings Json Errors Database Locks Obs Session Store Wallets.
From S2P Require Import Transfers InvariantAudit Http Middleware Handlers Bodies Counting Accounting Wp TxLoop.
From S2P Require Import TransferSpec TransferProof WalletSpec WalletProof Panics HandlerProof.
From S2P Require Import Concurrent Service Fixtures TransferProps.

Section props.
Context `{PgText}.
Implicit Types (s : Server).

(** ** Requests to POST /transfers, interleaved *)

(** An authenticated request. *)
Record post_transfer := MkPost { pt_user : User.t; pt_request : request }.

Definition posts s (l : list post_transfer) : list (prog (list write_op)) :=
  (λ p, handleCreateTransfer s (pt_user p) (pt_request p)) <$> l.

Lemma posts_handled C d0 s l σ i ops w :
  wf_db d0 → reachable C d0 (posts s l) σ → finished σ i ops w →
  ∃ p, l !! i = Some p ∧
    handled C (since d0) (pt_user p) (pt_request p) ops (commits w).
Proof.
  intros Hwf Hr Hf.
  eapply (reachable_finished C d0 (posts s l) (λ i ops w, ∃ p, l !! i = Some p ∧
    handled C (since d0) (pt_user p) (pt_request p) ops (commits w))); [done| |done|done].
  intros j q. unfold posts. rewrite list_lookup_fmap. destruct (l !! j) as [p|] eqn:Hj; [|done].
  intros Hq%(inj Some). rewrite <- Hq. eapply wp_mono, wpp_wp, (wpp_handleCreateTransfer C (rely_on anything) (since d0)); try done.
  - intros ops' w' (_ & cs & -> & Hh). exists p. simpl. by rewrite app_nil_r.
  - intros ls d d' Hd [Hrel _]. by eapply since_stable.
  - by intros ls d d' [? _].
  - by intros d [? _].
Qed.

(** Authorization: in any interleaving of POST /transfers requests, every
    change a request commits is one transfer, of the amount and between the
    wallets its validated body names, out of a wallet that its bearer owns at
    the moment of the commit. *)
Theorem posts_authorized C d0 s l σ i ops w a b :
  wf_db d0 → reachable C d0 (posts s l) σ → finished σ i ops w →
  (a, b) ∈ commits w →
  ∃ p body amount doc, l !! i = Some p ∧ decode_transfer (pt_request p) = Ok body ∧ validate body = Ok amount ∧
    owns (pt_user p) a body ∧ performs a (transfer_req (pt_user p) body amount) doc b.
Proof.
  intros Hwf Hr Hf Hab. destruct (posts_handled C d0 s l σ i ops w Hwf Hr Hf) as (p & Hp & Hh).
  exists p. destruct Hh as [err|body code msg|body n|body n d1 res ops cs Hd Hv HP1 Hown Hdest Hout _];
    try (by apply not_elem_of_nil in Hab).
  exists body, n. destruct Hout as [| | |x doc y [_ Hg] Hperf|x doc y e [_ Hg] Hperf _ _| |];
    try (by apply not_elem_of_nil in Hab); apply list_elem_of_singleton in Hab as [= -> ->];
    exists doc; split_and!; try done; by eapply owns_grows.
Qed.

(** A response never lies about money: a request answered 201 without the
    replay header committed its transfer; any other answer means it committed
    nothing -- except a 500 when the environment failed, which may hide a
    commit whose acknowledgement was lost. *)
Theorem posts_honest C d0 s l σ i ops w :
  wf_db d0 → reachable C d0 (posts s l) σ → finished σ i ops w →
  (status_of ops = StatusCreated ∧ (SetHeader "Idempotent-Replay" "true" ∉ ops) ∧
    ∃ a b, commits w = [(a, b)]) ∨
  (commits w = [] ∧ (status_of ops = StatusCreated → (SetHeader "Idempotent-Replay" "true" ∈ ops))) ∨
  (status_of ops = StatusInternalServerError ∧ infra C).
Proof.
  intros Hwf Hr Hf. destruct (posts_handled C d0 s l σ i ops w Hwf Hr Hf) as (p & Hp & Hh).
  destruct Hh as [err Hd|body code msg Hd Hv|body n ops Hd Hv Hrf|body n d1 res ops cs Hd Hv HP1 Hown Hdest Hout Hans].
  - right. left. split; [done|]. by rewrite status_of_writeError.
  - right. left. split; [done|]. by rewrite status_of_writeError.
  - right. left. split; [done|]. destruct Hrf; by rewrite status_of_writeError.
  - destruct Hout as [Heq|x e HPx Hrej|e Hi He|x doc y HPx Hperf|x doc y e HPx Hperf Hi He|x j q HPx Hk _|x j q HPx Hk _];
      simpl in Hans.
    + right. left. destruct Hans as (code & msg & ->). split; [done|]. by rewrite status_of_writeError.
    + right. left. destruct Hans as (code & msg & ->). split; [done|].
      rewrite status_of_writeError; unfold transfer_status; simpl; by repeat case_match.
    + right. left. destruct Hans as (code & msg & ->). split; [done|].
      rewrite status_of_writeError; unfold transfer_status; simpl; by repeat case_match.
    + left. subst ops. split_and!; [done| |by exists x, y]. unfold writeJSON. cbn.
      rewrite !not_elem_of_cons. split_and!; try done. apply not_elem_of_nil.
    + right. right. destruct Hans as (code & msg & ->). split; [|done].
      assert (errors_Is e ErrIdempotencyConflict = false) by not_env_error.
      assert (errors_Is e ErrWalletNotFound = false) by not_env_error.
      assert (errors_Is e ErrSameWallet = false) by not_env_error.
      unfold transfer_status. simpl. rewrite H0, H1, H2. by rewrite status_of_writeError.
    + right. left. split; [done|]. intros _. subst ops. by left.
    + right. left. destruct Hans as (code & msg & ->). split; [done|]. by rewrite status_of_writeError.
Qed.

(** ** Validation *)

(** C36: The validation switch accepts exactly the bodies with a key that is not
    blank and at most 255 bytes long, two different non-empty wallet ids, and
    a present, positive amount. *)
Theorem validate_exact body a :
  validate body = Ok a ↔
  TrimSpace (transferRequestBody.IdempotencyKey body) ≠ "" ∧
  (String.length (transferRequestBody.IdempotencyKey body) ≤ 255)%nat ∧
  transferRequestBody.From body ≠ "" ∧ transferRequestBody.To body ≠ "" ∧
  transferRequestBody.From body ≠ transferRequestBody.To body ∧
  transferRequestBody.AmountPaise body = Some a ∧ 0 < a.
Proof.
  unfold validate. destruct body as [from to amount key]. simpl.
  destruct (String.eqb_spec (TrimSpace key) ""); [split; [done|tauto]|].
  destruct (Nat.ltb_spec 255 (String.length key)); [split; [done|lia]|].
  destruct (String.eqb_spec from ""); simpl; [split; [done|tauto]|].
  destruct (String.eqb_spec to ""); simpl; [split; [done|tauto]|].
  destruct (String.eqb_spec from to); [split; [done|tauto]|].
  destruct amount as [x|]; [|split; [done|by intros (_ & _ & _ & _ & _ & ? & _)]].
  destruct (Z.leb_spec x 0); split; try done; [intros (_ & _ & _ & _ & _ & [= ->] & ?); lia| |].
  - intros [= ->]. done.
  - intros (_ & _ & _ & _ & _ & [= ->] & _). done.
Qed.

(** What validation refuses never reaches the database and never uses up a
    key: on any tables and any connection, a body that does not decode is
    answered 400 and one that fails validation 422, and nothing is committed. *)
Theorem invalid_untouched s env d user r :
  (∀ body a, decode_transfer r = Ok body → validate body ≠ Ok a) →
  ∃ status code msg,
    alone_on d env (handleCreateTransfer s user r) = (writeError r status code msg, d, []) ∧
    status = match decode_transfer r with Ok _ => StatusUnprocessableEntity | Err _ => StatusBadRequest end.
Proof.
  intros Hbad. unfold alone_on, handleCreateTransfer. destruct (decode_transfer r) as [body|err].
  - destruct (validate body) as [a|[code msg]] eqn:Hv; [by destruct (Hbad body a)|].
    exists StatusUnprocessableEntity, code, msg. split; [|done].
    unfold rejectTransfer, rejectTransferStatus, log_at. by destruct (Enabled _ _).
  - by eexists _, _, _.
Qed.

(** ** Observation *)

Lemma run_metric {A} env n m (p : prog A) w :
  run env n (metric m;; p) w = run env (S n) p (traced w [EvMetric m]).
Proof. done. Qed.

Lemma run_deferred env n s closing ctx r panicked status w :
  let code := if status =? 0 then StatusOK else status in
  ∃ o m es, run env n (unwind closing (observe_deferred s ctx r panicked status)) w = (o, traced w es, m) ∧
    es ++ [EvMetric HTTPInFlightDec] = deferred_events s closing ctx r panicked code ∧
    escapes s closing ctx r panicked code = match o with Some _ => false | None => true end.
Proof.
  intros code. unfold observe_deferred, escapes, deferred_events, unlogged, uncounted, panic_line, access_line, logged.
  fold code. unfold log_at. destruct panicked, (Enabled (sv_level s) LevelError), (isNoisyRoute (routeLabel r)),
    (Enabled (sv_level s) LevelInfo); cbn; repeat (destruct (closing _); cbn);
    (eexists _, _, _; split; [unfold traced, emit_event; cbn; rewrite <- ?app_assoc; reflexivity|done]).
Qed.

(** Every request is counted once, as what the client saw: whatever the
    handler does -- even if it panics -- the wrapper raises and lowers the
    in-flight gauge once, and unless the line of a recovered panic panics in
    turn it observes the latency once and counts one request under the route's
    pattern and the final status: the handler's, 200 if it
    never set one, 500 (with an error body) if it panicked before setting
    one; it logs the request unless the route is a noisy one. *)
Theorem observe_counts env s closing random nanos next r w :
  let id := if String.eqb (rq_header r correlationHeader) "" then newCorrelationID random nanos
            else rq_header r correlationHeader in
  let r' := with_context r (WithCorrelationID (rq_ctx r) id) in
  let '((ops, panicked), w1, n1) := run env 1 (next r') (traced w [EvMetric HTTPInFlightInc]) in
  let unanswered := panicked && (status_of ops =? 0) in
  let status := if unanswered then StatusInternalServerError
                else if status_of ops =? 0 then StatusOK else status_of ops in
  ∃ n2,
    run env 0 (observe s closing random nanos next r) w =
      (SetHeader correlationHeader id :: ops ++
         (if unanswered
          then writeError r' StatusInternalServerError "internal_error" "unexpected server error" else []) ++
         (if escapes s closing (rq_ctx r') r' panicked status then [Abort] else []),
       traced w1 (deferred_events s closing (rq_ctx r') r' panicked status), n2).
Proof.
  intros id r'. destruct (run env 1 (next r') _) as [[[ops panicked] w1] n1] eqn:Hnext.
  intros unanswered status. unfold observe. fold id. fold r'. rewrite run_metric, run_bind, Hnext.
  cbn beta iota. fold unanswered. rewrite run_bind.
  edestruct run_deferred as (o & m & es & -> & Hes & Ho). cbn beta iota. rewrite run_metric, traced_app, Hes.
  exists (S m). simpl. subst status. destruct unanswered; simpl in Ho |- *; rewrite Ho; by destruct o.
Qed.
End props.

(** ** At concrete inputs *)

Section examples.
#[local] Existing Instance hex_text.

(** Alice's payment of 300 paise to Bob. *)
Definition a_request : request :=
  post_request (transfer_text (uuid_out alice_wallet) (uuid_out bob_wallet) 300 "k").

(** A client that posts a payment twice at once. *)
Definition double_post : list post_transfer :=
  [MkPost (User.Mk (uuid_out alice)) a_request; MkPost (User.Mk (uuid_out alice)) a_request].

Definition a_server : Server := MkServer New LevelInfo "admin" "v1".

Definition posted : system :=
  run_moves (init bank (posts a_server double_post))
    (mjoin ((λ j, [(0%nat, calm_env (2 * j)); (1%nat, calm_env (2 * j + 1))]) <$> seq 0 50)).

Lemma posted_reachable : reachable (env_choice calm_env) bank (posts a_server double_post) posted.
Proof.
  apply run_moves_reachable, Forall_forall. intros m Hm. apply list_elem_of_join in Hm as (l & Hm & Hl).
  apply list_elem_of_fmap in Hl as (j & -> & _). set_unfold.
  destruct Hm as [->|[->|[]]]; eexists; reflexivity.
Qed.

Definition has_header (name : string) (ops : list write_op) : bool :=
  existsb (λ op, match op with SetHeader k _ => String.eqb k name | _ => false end) ops.

(** Both are answered 201, one as a replay; one commit. *)
Example posted_results :
  option_map (λ x, (status_of x.1, has_header "Idempotent-Replay" x.1, length (commits x.2)))
    <$> (result_of posted <$> [0%nat; 1%nat]) = [Some (201, false, 1%nat); Some (201, true, 0%nat)].
Proof. vm_compute. reflexivity. Qed.

Lemma posts_authorized_witness :
  ∃ ops w a b, finished posted 0 ops w ∧ (a, b) ∈ commits w ∧
  ∃ p body amount doc, double_post !! 0%nat = Some p ∧ decode_transfer (pt_request p) = Ok body ∧
    validate body = Ok amount ∧ owns (pt_user p) a body ∧
    performs a (transfer_req (pt_user p) body amount) doc b.
Proof.
  assert (Hr : match result_of posted 0 with Some (_, w) => length (commits w) | None => O end = 1%nat)
    by (vm_compute; reflexivity).
  destruct (result_of posted 0) as [[ops w]|] eqn:Hres; [|discriminate Hr].
  apply result_of_finished in Hres. destruct (commits w) as [|[a b] cs] eqn:Hc; [discriminate Hr|].
  exists ops, w, a, b. split; [done|]. split; [rewrite Hc; by left|].
  apply (posts_authorized (env_choice calm_env) bank a_server double_post posted 0 ops w a b);
    [apply wf_bank|apply posted_reachable|done|rewrite Hc; by left].
Defined.

Lemma posts_honest_witness :
  ∃ ops w, finished posted 1 ops w ∧
  ((status_of ops = StatusCreated ∧ (SetHeader "Idempotent-Replay" "true" ∉ ops) ∧
    ∃ a b, commits w = [(a, b)]) ∨
  (commits w = [] ∧ (status_of ops = StatusCreated → (SetHeader "Idempotent-Replay" "true" ∈ ops))) ∨
  (status_of ops = StatusInternalServerError ∧ infra (env_choice calm_env))).
Proof.
  assert (Hr : is_Some (result_of posted 1)) by (apply not_eq_None_Some; vm_compute; discriminate).
  destruct Hr as [[ops w] Hr]. apply result_of_finished in Hr. exists ops, w. split; [done|].
  apply (posts_honest (env_choice calm_env) bank a_server double_post posted 1 ops w);
    [apply wf_bank|apply posted_reachable|exact Hr].
Defined.

(** A body that names nothing. *)
Lemma invalid_untouched_witness :
  ∃ status code msg,
    alone_on bank calm_env (handleCreateTransfer a_server (User.Mk "x") (post_request "{}")) =
      (writeError (post_request "{}") status code msg, bank, []) ∧
    status = StatusUnprocessableEntity.
Proof.
  apply (invalid_untouched a_server calm_env bank (User.Mk "x") (post_request "{}")).
  intros body a Hb. vm_compute in Hb. injection Hb as <-. vm_compute. discriminate.
Defined.
End examples.
