(* ===== verification/ServerProps.v ===== *)
(** * The whole server: properties

    What any request to any route can do -- through the wrapper, the router,
    the authentication and the endpoint -- among any other requests. *)

From Stdlib Require Import String.
From S2P Require Import Prelude GoStrings Errors Database Locks Obs Session Store Wallets Transfers.
From S2P Require Import Ring Http Middleware Handlers Bodies Routing Api RouteProps Process Accounting.
From S2P Require Import Concurrent Progress Service ServerSpec Cmds Traces Metrics ApiCmds Counting Fixtures.

#[local] Open Scope string_scope.
#[local] Open Scope Z_scope.
#[local] Open Scope list_scope.

Section props.
Context `{PgText} (s : Server).

Abbreviation serve_one := (ServerSpec.serve_one s).
Abbreviation serving := (ServerSpec.serving s).
Abbreviation process := (ServerSpec.process s).

(** A request that reaches an endpoint behind credentials, with them. *)
Definition admitted (q : incoming) : bool :=
  match find_route (in_request q) with
  | FHandler (_, (ECreateWallet | EGetWallet | ECreateTransfer | EGetTransfer)) _ =>
      match token_of q with Some _ => true | None => false end
  | FHandler (_, EMint) _ =>
      match token_of q with Some token => String.eqb token (sv_adminToken s) | None => false end
  | _ => false
  end.

Definition moves_money (e : endpoint) : bool :=
  match e with ECreateWallet | ECreateTransfer | EMint => true | _ => false end.

(** ** The commands of a request *)

Section commands.
Context (K : command_pred) (Hev : allows_events K).

(** What the wrapper counts is allowed. *)
Definition allows_counts (r : request) : Prop :=
  allows_gauge K ∧
  K _ (Emit (EvMetric (HTTPDurationObserve (rq_method r) (routeLabel (routed r))))) ∧
  ∀ n, K _ (Emit (EvMetric (HTTPRequestsInc (rq_method r) (routeLabel (routed r)) (Itoa n)))).

Lemma every_serve q :
  allows_counts (in_request q) →
  (∀ ctx, every K (mux_ServeHTTP s (in_surroundings q) (with_context (routed (in_request q)) ctx)) (λ _, True)) →
  every K (serve_one q) (λ _, True).
Proof.
  intros (Hg & Hd & Hq) Hm. unfold serve_one, New_handler.
  apply (every_observe K s Hev); [exact Hg|exact Hd|exact Hq|].
  intros ctx. apply every_seq; [|by intros o]. eapply every_mono, every_unwind, Hm. by intros [].
Qed.

(** The router reads nothing the wrapper changes. *)
Lemma find_routed r ctx : find_route (with_context (routed r) ctx) = find_route r.
Proof. done. Qed.

Lemma bearer_routed r ctx : bearerToken (routed (with_context (routed r) ctx)) = bearerToken r.
Proof. done. Qed.

(** The endpoints that only read. *)
Context (Hsel : ∀ (R : Set) (st : stmt R), is_select st = true → K _ (PoolStmt st)).

Lemma every_not_admitted q ctx :
  admitted q = false →
  every K (mux_ServeHTTP s (in_surroundings q) (with_context (routed (in_request q)) ctx)) (λ _, True).
Proof.
  intros Ha. unfold mux_ServeHTTP. rewrite find_routed. unfold admitted, token_of in Ha.
  destruct (find_route (in_request q)) as [[text e] ids|p|p o|ms|] eqn:Hf; try done.
  destruct e; try done; cbn [endpoint_handler];
    try (unfold authenticate; rewrite bearer_routed; by destruct (bearerToken (in_request q))).
  - unfold requireAdmin. rewrite bearer_routed. destruct (bearerToken (in_request q)); [|done]. by rewrite Ha.
  - by apply (every_handleInvariants K Hev Hsel).
Qed.

Lemma every_reading q ctx text e ids :
  (∀ h, K _ (PoolStmt (UpsertUserStmt h))) →
  find_route (in_request q) = FHandler (text, e) ids → moves_money e = false →
  every K (mux_ServeHTTP s (in_surroundings q) (with_context (routed (in_request q)) ctx)) (λ _, True).
Proof.
  intros Hu Hf He. unfold mux_ServeHTTP. rewrite find_routed, Hf. destruct e; try done; cbn [endpoint_handler].
  - apply (every_authenticate K s Hev); [done|]. intros. by apply (every_handleGetWallet K s Hev Hsel).
  - apply (every_authenticate K s Hev); [done|]. intros. by apply (every_handleGetTransfer K s Hev Hsel).
  - by apply (every_handleInvariants K Hev Hsel).
Qed.

(** Every request, when all silent commands are allowed; the transfer metrics
    are needed for POST /transfers alone. *)
Context (Hall : ∀ (R : Set) (c : cmd R), silent c = true → K _ c).
Context (Hretry : ∀ err e, isTransient err = true → e ∈ onRetry (sv_store s) (sqlstate err) → K _ (Emit e)).

Lemma every_mux q ctx :
  (∀ text ids, find_route (in_request q) = FHandler (text, ECreateTransfer) ids → allows_transfers K) →
  every K (mux_ServeHTTP s (in_surroundings q) (with_context (routed (in_request q)) ctx)) (λ _, True).
Proof.
  intros Htr. unfold mux_ServeHTTP. rewrite find_routed.
  destruct (find_route (in_request q)) as [[text e] ids|p|p o|ms|] eqn:Hf; try done.
  destruct e; try done; cbn [endpoint_handler].
  1-4: apply (every_authenticate K s Hev); [intros; by apply Hall|]; intros user r.
  - by apply every_handleCreateWallet.
  - by apply (every_handleGetWallet K s Hev Hsel).
  - apply every_handleCreateTransfer; try done. by eapply Htr.
  - by apply (every_handleGetTransfer K s Hev Hsel).
  - unfold requireAdmin. destruct (bearerToken _); [|done]. apply every_if; [|done]. by apply every_handleMint.
  - by apply (every_handleInvariants K Hev Hsel).
Qed.
End commands.

(** ** Who changes what *)

Lemma reads_events : allows_events reads.
Proof. by split. Qed.
Lemma reads_or_user_events : allows_events reads_or_user.
Proof. by split. Qed.

Lemma reachable_lookup {A} C d0 (ps : list (prog A)) σ i t :
  reachable C d0 ps σ → sys_threads σ !! i = Some t → is_Some (ps !! i).
Proof.
  intros Hr Ht. apply lookup_lt_is_Some. apply lookup_lt_Some in Ht.
  enough (length (sys_threads σ) = length ps) by lia. clear Ht. induction Hr as [|σ σ' _ IH Hst].
  - simpl. by rewrite length_fmap.
  - destruct Hst. simpl in *. by rewrite length_insert.
Qed.

Lemma money_by_post r text e ids :
  find_route r = FHandler (text, e) ids → moves_money e = true → rq_method r = "POST".
Proof.
  intros Hf He. unfold find_route, findHandler in Hf. cbv zeta in Hf.
  destruct (slash_redirect _ _ _); [done|]. destruct (_ && _); [done|].
  destruct (matchMethodAndPath _ _ _) as [[[text' e'] ids']|] eqn:Hm; [|by destruct (matchingMethods _ _)].
  injection Hf as -> -> ->. apply serves_match in Hm as (m & ps & Hr & Hp & Hmeth & _).
  assert (HP : forallb (λ pe : pattern * (string * endpoint),
    negb (moves_money pe.2.2) || String.eqb (pt_method pe.1) "POST") mux = true) by (vm_compute; reflexivity).
  rewrite forallb_forall in HP.
  specialize (HP (MkPattern m ps, (text, e)) ltac:(apply list_elem_of_In; by apply elem_of_mux)).
  cbn in HP. rewrite He in HP. simpl in HP. apply String.eqb_eq in HP as ->.
  by destruct Hmeth as [|[_ ?]].
Qed.

(** Nobody changes anything without credentials: take any requests to any
    routes, in any interleaving, under any faults; whoever commits a change to
    the tables reached one of the five protected endpoints with a bearer token
    -- the admin token, for a mint -- and unless the request is a POST to
    wallets, transfers or mint, the change leaves all money and history as
    they were (it provisioned the bearer's user). *)
Theorem server_guarded C d0 l σ i t a b :
  reachable C d0 (serving l) σ → sys_threads σ !! i = Some t → (a, b) ∈ commits (th_world t) →
  ∃ q text e ids token, l !! i = Some q ∧ find_route (in_request q) = FHandler (text, e) ids ∧
    e ∈ [ECreateWallet; EGetWallet; ECreateTransfer; EGetTransfer; EMint] ∧
    token_of q = Some token ∧ (e = EMint → token = sv_adminToken s) ∧
    (same_money a b ∨ (moves_money e = true ∧ rq_method (in_request q) = "POST")).
Proof.
  intros Hr Ht Hab. destruct (reachable_lookup C d0 _ σ i t Hr Ht) as [p Hp].
  pose proof Hp as Hq. unfold serving in Hq. rewrite list_lookup_fmap in Hq.
  destruct (l !! i) as [q|]; [|done]. injection Hq as <-.
  destruct (admitted q) eqn:Ha.
  2:{ exfalso. refine (reachable_every C reads (λ _ _, False) d0 _ σ i _ t tame_reads Hr Hp _ Ht a b Hab).
      apply (every_serve reads reads_events); [by repeat split|]. intros ctx. by apply every_not_admitted. }
  unfold admitted in Ha.
  destruct (find_route (in_request q)) as [[text e] ids|p|p o|ms|] eqn:Hf; try done.
  destruct (token_of q) as [token|] eqn:Htok; [|by destruct e].
  exists q, text, e, ids, token. split; [done|]. split; [done|].
  split; [destruct e; try done; set_solver|]. split; [done|].
  split; [intros ->; by apply String.eqb_eq|].
  destruct (moves_money e) eqn:He; [right; split; [done|by eapply money_by_post]|left].
  refine (reachable_every C reads_or_user same_money d0 _ σ i _ t tame_reads_or_user Hr Hp _ Ht a b Hab).
  apply (every_serve reads_or_user reads_or_user_events); [by repeat split|]. intros ctx.
  by eapply every_reading; [apply reads_or_user_events|left|right| |].
Qed.

(** ** The metric set *)

Lemma find_route_slash r p : find_route r ≠ FSlash p.
Proof.
  unfold find_route, findHandler. cbv zeta.
  assert (Hs : slash_redirect mux (rq_method r)
    (if String.eqb (rq_method r) "CONNECT" then rq_escaped r else cleanPath (rq_escaped r)) = false).
  { destruct (String.eqb_spec (rq_method r) "CONNECT") as [->|]; [|apply mux_no_slash_redirect, cleanPath_ne].
    assert (Hc : ∀ path text e ids, ¬ serves "CONNECT" path text e ids).
    { intros path text e ids (m & ps & Hr & Hp & Hm & _).
      destruct (mux_methods m ps (text, e)) as [->| ->]; [by apply elem_of_mux|..];
        by destruct Hm as [|[? _]]. }
    unfold slash_redirect. rewrite !no_match by apply Hc. apply andb_false_r. }
  rewrite Hs. destruct (_ && _); [done|]. destruct (matchMethodAndPath _ _ _) as [[]|]; [done|].
  by destruct (matchingMethods _ _).
Qed.

(** The labels of routes: the patterns of the table, or "unmatched". *)
Definition label_of (pattern : string) : string :=
  routeLabel (MkRequest Background "" "" "" pattern (λ _, "") (λ _, "") "" "").

Lemma route_label_ascii r : ascii7 (routeLabel (routed r)) = true.
Proof.
  change (routeLabel (routed r)) with (label_of (route_pattern (find_route r))).
  assert (HP : forallb (λ p, ascii7 (label_of p)) ("" :: routes.*1) = true) by (vm_compute; reflexivity).
  rewrite forallb_forall in HP. apply HP, list_elem_of_In.
  assert (Hin : ∀ n te ids, matchMethodAndPath mux (rq_method r) n = Some (te, ids) → te.1 ∈ routes.*1).
  { intros n te ids Hm. apply list_elem_of_fmap. exists te. split; [done|]. revert Hm.
    unfold matchMethodAndPath. intros Hm.
    assert (Hpath : ∃ m, matchPath (method_node mux m) n = Some (te, ids)).
    { destruct (matchPath (method_node mux (rq_method r)) n) eqn:H1; [exists (rq_method r); congruence|].
      destruct (String.eqb _ _); [by exists "GET"|done]. }
    destruct Hpath as [m (ps & Hps & _)%matchPath_sound].
    apply method_node_spec in Hps. by apply elem_of_mux in Hps as [? _]. }
  pose proof (find_route_slash r) as Hns. unfold find_route, findHandler in *. cbv zeta in *.
  destruct (slash_redirect _ _ _); [by destruct (Hns _ eq_refl)|].
  destruct (matchMethodAndPath _ _ _) as [[te ids]|] eqn:Hm.
  - apply Hin in Hm. destruct te as [text e]. destruct (_ && _); right; exact Hm.
  - destruct (_ && _); [by left|]. destruct (matchingMethods _ _); by left.
Qed.

Lemma typed_events : allows_events (emits typed_event).
Proof.
  split; [done|]. unfold other_fits. intros m Hm. apply andb_true_iff in Hm as [_ Hm]. simpl.
  by rewrite typed_op_fits.
Qed.

(** The observer the process installs emits a count of retries and a line. *)
Lemma observed_retry (P : event → Prop) level err e :
  sv_store s = process_store level → isTransient err = true → e ∈ onRetry (sv_store s) (sqlstate err) →
  (∀ l, P (EvLog l)) → (∀ code, ascii7 code = true → P (EvMetric (DBRetriesInc code))) → P e.
Proof.
  intros -> Ht He Hlog Hm. simpl in He. unfold observe_retry, log_line in He.
  apply elem_of_cons in He as [->|He].
  - apply Hm. by apply isTransient_spec in Ht as [->| ->].
  - destruct (Enabled _ _); [|by apply not_elem_of_nil in He]. by apply list_elem_of_singleton in He as ->.
Qed.

Lemma every_typed q level :
  sv_store s = process_store level → ascii7 (rq_method (in_request q)) = true →
  every (emits typed_event) (serve_one q) (λ _, True).
Proof.
  intros Hst Hm. pose proof (route_label_ascii (in_request q)) as Hl.
  apply (every_serve _ typed_events).
  { split; [done|]. split; [|intros n]; simpl; rewrite typed_op_fits; simpl; rewrite Hm, Hl; [done|].
    by rewrite Itoa_ascii. }
  intros ctx. apply every_mux; [exact typed_events|done|by intros R []| |].
  - intros err e Ht He. apply (observed_retry typed_event level err); try done. intros code Hc. simpl. by rewrite typed_op_fits.
  - intros _ _ _ m _ Hf. simpl. by rewrite typed_op_fits.
Qed.

(** C25: Metrics never panic: the collectors the process declares have different
    names, and in any interleaving of any requests with the invariant sampler,
    under any faults and retries, every metric operation emitted is one its
    collector accepts: it is registered, gets one ASCII value per label it
    declares, is updated by a method of its kind, and no counter is lowered. *)
Theorem metrics_well_typed C d0 level l every_ns ticks σ i t m :
  sv_store s = process_store level → Forall (λ q, ascii7 (rq_method (in_request q)) = true) l →
  reachable C d0 (process l every_ns ticks) σ → sys_threads σ !! i = Some t →
  NoDup (mc_name <$> Metrics.Registry process_metrics) ∧
  (EvMetric m ∈ trace (th_world t) → typed_op m = true).
Proof.
  intros Hst Hl Hr Ht. split; [apply (bool_decide_unpack _); by vm_compute|]. intros Hm.
  destruct (reachable_lookup C d0 _ σ i t Hr Ht) as [p Hp].
  refine (reachable_trace C typed_event d0 _ σ i p t Hr Hp _ Ht _ Hm).
  unfold process in Hp. apply lookup_app_Some in Hp as [Hp|[_ Hp]].
  - unfold serving in Hp. rewrite list_lookup_fmap in Hp. destruct (l !! i) as [q|] eqn:Hq; [|done].
    injection Hp as <-. eapply every_typed; [done|]. by eapply Forall_lookup_1 in Hl.
  - apply list_lookup_singleton_Some in Hp as [_ <-].
    apply every_seq; [|done]. by apply (every_sampleInvariants _ s typed_events).
Qed.

(** ** What is counted *)

Lemma inner_events : allows_events (emits (λ e, http_event e = false)).
Proof.
  split; [done|]. unfold other_fits. intros m Hm. apply andb_true_iff in Hm as [Hm _].
  apply andb_true_iff in Hm as [Hm _]. by apply negb_true_iff.
Qed.

(** What the answer to a request is counted as, among the transfers. *)
Definition counted_by (q : incoming) (ops : list write_op) : list metric_op :=
  match find_route (in_request q) with FHandler (_, ECreateTransfer) _ => counted ops | _ => [] end.

Lemma emitting_mux q level ctx :
  sv_store s = process_store level →
  emitting (mux_ServeHTTP s (in_surroundings q) (with_context (routed (in_request q)) ctx)) (λ m inner,
    Forall (λ e, http_event e = false) m ∧
    transfer_metrics m = counted_by q inner).
Proof.
  intros Hst. unfold counted_by. apply emitting_and.
  - apply (emitting_mono _ (λ m _, Forall (λ e, http_event e = false) m ∧ True)); [by intros m a [Hm _]|].
    apply (emitting_every _ _ (λ _, True)).
    apply every_mux; [exact inner_events|done|by intros R []| |].
    + intros err e Ht He. by apply (observed_retry (λ e, http_event e = false) level err).
    + intros _ _ _ m Hm _. simpl. by destruct m.
  - assert (Hquiet : ∀ err e, isTransient err = true → e ∈ onRetry (sv_store s) (sqlstate err) → quiet_event e)
      by (intros err e Ht He; by apply (observed_retry quiet_event level err)).
    assert (Hdec : (∃ text ids, find_route (in_request q) = FHandler (text, ECreateTransfer) ids) ∨
      (∀ text ids, find_route (in_request q) ≠ FHandler (text, ECreateTransfer) ids)).
    { destruct (find_route (in_request q)) as [[text e] ids|p|p o|ms|]; try (by right).
      destruct (decide (e = ECreateTransfer)) as [->|Hne]; [by left; eauto|right]. by intros ?? [= _ ? _]. }
    destruct Hdec as [(text & ids & Hf)|Hn].
    + rewrite Hf. unfold mux_ServeHTTP. rewrite find_routed, Hf. by apply counting_authenticate.
    + eapply emitting_mono; [|apply (emitting_every quiet_event _ (λ _, True))].
      * intros m a [Hm _]. rewrite (quiet_metrics m Hm).
        destruct (find_route (in_request q)) as [[text []] ids|p|p o|ms|]; try done. by destruct (Hn text ids).
      * apply every_mux; [exact quiet_events|done|exact quiet_silent|exact Hquiet|].
        intros text ids Hf. by destruct (Hn text ids).
Qed.

(** The request as the wrapper sees it in the end. *)
Definition wrapped (q : incoming) : request :=
  with_context (routed (in_request q)) (WithCorrelationID (rq_ctx (in_request q)) (request_id q)).

(** The transfer metrics [m] of a request that answers [inner]: all of them, or
    those up to the line at which it panicked. *)
Definition counts (q : incoming) (panicked : bool) (inner : list write_op) (m : list metric_op) : Prop :=
  if panicked
  then inner = panic_answer q ∧ line_panics q ∧ ∃ would, m `prefix_of` counted_by q would
  else m = counted_by q inner.

(** What a request emits and answers. *)
Lemma emitting_serve q level :
  sv_store s = process_store level →
  emitting (serve_one q) (λ tr ops, ∃ inner panicked m,
    let status := if status_of inner =? 0 then StatusOK else status_of inner in
    let closing := sr_closing (in_surroundings q) in
    Forall (λ e, http_event e = false) m ∧ counts q panicked inner (transfer_metrics m) ∧
    ops = SetHeader correlationHeader (request_id q) :: inner ++
      (if escapes s closing (rq_ctx (wrapped q)) (wrapped q) panicked status then [Abort] else []) ∧
    tr = EvMetric HTTPInFlightInc :: m ++
      deferred_events s closing (rq_ctx (wrapped q)) (wrapped q) panicked status).
Proof.
  intros Hst. unfold serve_one, New_handler. set (sr := in_surroundings q).
  eapply emitting_mono; [|apply (emitting_observe s (sr_closing sr) (in_random q) (in_nanos q) _ (routed (in_request q))
    (λ m x, Forall (λ e, http_event e = false) m ∧
       if x.2 then x.1 = [] ∧ line_panics q ∧ ∃ would, transfer_metrics m `prefix_of` counted_by q would
       else transfer_metrics m = counted_by q x.1))].
  - intros tr ops (inner & panicked & m & (Hm & Hc) & Hops & Htr). cbn [fst snd] in Hc.
    destruct panicked; cbn [andb] in Hops, Htr.
    + destruct Hc as (-> & Hl & Hw). exists (panic_answer q), true, m. split; [done|]. split; [done|]. by split.
    + exists inner, false, m. split; [done|]. split; [done|]. by split.
  - unfold recovered. apply emitting_bind. eapply emitting_mono; [|apply emitting_unwind, (emitting_mux q level); exact Hst].
    intros tr [ops|]; intros Ho; apply emitting_ret; rewrite app_nil_r; [done|].
    destruct Ho as [(tr' & a & Hm & Hc) Hn]. split; [by apply Forall_app in Hm as [? _]|].
    split; [done|]. split; [done|]. exists a. rewrite <- Hc, transfer_metrics_app. by eexists.
Qed.

(** C14: The metrics tell what happened: in any interleaving of any requests and
    the sampler, under any faults, a request that came to its end raised and
    lowered the in-flight gauge once, and it was counted and timed once, under
    the pattern of its route and the status it was answered with (200 if it set
    none), and logged, at level info, unless its route is a noisy one -- unless
    a panic was recovered and the line that says so panicked in turn, which
    aborts the connection before the counts.  In between, a transfer request counts what
    its response says -- a settled transfer with its amount, a declined one, a
    replay, a conflict, a rejection -- once, and no other request counts as a
    transfer; if one of its log lines panicked, it is answered 500 and it has
    counted no more than the answer it was about to give. *)
Theorem requests_counted C d0 level l every_ns ticks σ i q ops w :
  sv_store s = process_store level → reachable C d0 (process l every_ns ticks) σ →
  l !! i = Some q → finished σ i ops w →
  ∃ inner panicked m,
    let status := if status_of inner =? 0 then StatusOK else status_of inner in
    let closing := sr_closing (in_surroundings q) in
    ops = SetHeader correlationHeader (request_id q) :: inner ++
      (if escapes s closing (rq_ctx (wrapped q)) (wrapped q) panicked status then [Abort] else []) ∧
    trace w = EvMetric HTTPInFlightInc :: m ++
      deferred_events s closing (rq_ctx (wrapped q)) (wrapped q) panicked status ∧
    Forall (λ e, http_event e = false) m ∧ counts q panicked inner (transfer_metrics m).
Proof.
  intros Hst Hr Hq Hf.
  assert (Hp : process l every_ns ticks !! i = Some (serve_one q)).
  { unfold process, serving. apply lookup_app_l_Some. by rewrite list_lookup_fmap, Hq. }
  destruct (reachable_emitting C d0 _ σ i (serve_one q) ops w _ Hr Hp (emitting_serve q level Hst) Hf)
    as (inner & panicked & m & Hin & Hc & Hops & Htrace).
  by exists inner, panicked, m.
Qed.
End props.

(** ** At concrete inputs *)

Section examples.
#[local] Existing Instance hex_text.

Definition the_server : Server := MkServer (process_store LevelInfo) LevelInfo "admin" "v1".

(** A request with a bearer token. *)
Definition with_token (token method path body : string) : incoming :=
  MkIncoming
    (MkRequest Background method path path ""
       (λ h, if String.eqb h "Authorization" then "Bearer " +:+ token else "") (λ _, "") "" body)
    (MkSurroundings 0 None (NewRing 10) (NewRing 10) (MkSession [] EndDone) (λ _, [WriteBody PMetrics]) (λ _, false) (λ _, false))
    None 0.

(** A new client looks at a wallet, somebody without a token at the log. *)
Definition visitors : list incoming :=
  [with_token "t" "GET" ("/wallets/" +:+ uuid_out alice_wallet) ""; with_token "" "GET" "/logs" ""].

Definition visited : system :=
  run_moves (init bank (process the_server visitors 1 1))
    (mjoin ((λ j, [(0%nat, calm_env (3 * j)); (1%nat, calm_env (3 * j + 1)); (2%nat, calm_env (3 * j + 2))])
      <$> seq 0 20)).

Lemma visited_reachable : reachable (env_choice calm_env) bank (process the_server visitors 1 1) visited.
Proof.
  apply run_moves_reachable, Forall_forall. intros m Hm. apply list_elem_of_join in Hm as (l & Hm & Hl).
  apply list_elem_of_fmap in Hl as (j & -> & _). set_unfold.
  destruct Hm as [->|[->|[->|[]]]]; eexists; reflexivity.
Qed.

(** What each of the three answers, commits and emits. *)
Example visited_results :
  option_map (λ x, (status_of x.1, length (commits x.2), length (trace x.2)))
    <$> (result_of visited <$> [0%nat; 1%nat; 2%nat]) =
  [Some (200, 1%nat, 5%nat); Some (200, 0%nat, 4%nat); Some (0, 0%nat, 2%nat)].
Proof. vm_compute. reflexivity. Qed.

Definition alone_visit : system :=
  run_moves (init bank (serving the_server visitors)) ((λ j, (0%nat, calm_env j)) <$> seq 0 20).

Lemma server_guarded_witness :
  ∃ t a b, sys_threads alone_visit !! 0%nat = Some t ∧ (a, b) ∈ commits (th_world t) ∧
  ∃ q text e ids token, visitors !! 0%nat = Some q ∧ find_route (in_request q) = FHandler (text, e) ids ∧
    e ∈ [ECreateWallet; EGetWallet; ECreateTransfer; EGetTransfer; EMint] ∧
    token_of q = Some token ∧ (e = EMint → token = sv_adminToken the_server) ∧
    (same_money a b ∨ (moves_money e = true ∧ rq_method (in_request q) = "POST")).
Proof.
  assert (Hc : match sys_threads alone_visit !! 0%nat with
    | Some t => length (commits (th_world t)) | None => O end = 1%nat) by (vm_compute; reflexivity).
  destruct (sys_threads alone_visit !! 0%nat) as [t|] eqn:Ht; [|discriminate Hc].
  destruct (commits (th_world t)) as [|[a b] cs] eqn:Hcs; [discriminate Hc|].
  exists t, a, b. split; [done|]. split; [rewrite Hcs; by left|].
  apply (server_guarded the_server (env_choice calm_env) bank visitors alone_visit 0 t a b);
    [|done|rewrite Hcs; by left].
  apply run_moves_reachable, Forall_forall. intros m Hm. apply list_elem_of_fmap in Hm as (j & -> & _).
  by exists j.
Defined.

Lemma metrics_well_typed_witness :
  ∃ t, sys_threads visited !! 2%nat = Some t ∧ EvMetric (TotalBalanceSet 1000) ∈ trace (th_world t) ∧
    typed_op (TotalBalanceSet 1000) = true.
Proof.
  assert (Hc : match sys_threads visited !! 2%nat with
    | Some t => nth_error (trace (th_world t)) 0 | None => None end = Some (EvMetric (TotalBalanceSet 1000)))
    by (vm_compute; reflexivity).
  destruct (sys_threads visited !! 2%nat) as [t|] eqn:Ht; [|discriminate Hc].
  exists t. split; [done|].
  assert (Hin : EvMetric (TotalBalanceSet 1000) ∈ trace (th_world t)).
  { destruct (trace (th_world t)) as [|e es]; [discriminate Hc|]. injection Hc as ->. by left. }
  split; [done|].
  apply (metrics_well_typed the_server (env_choice calm_env) bank LevelInfo visitors 1 1 visited 2 t);
    [done|by repeat constructor|apply visited_reachable|done|done].
Defined.

(** Alice, with a token of hers, pays Bob 300 paise. *)
Definition token_bank : db := spec_user alice (TokenHash "t") 1 bank.

Definition payer : incoming :=
  with_token "t" "POST" "/transfers" (transfer_text (uuid_out alice_wallet) (uuid_out bob_wallet) 300 "k").

Definition paid : system :=
  run_moves (init token_bank (process the_server [payer] 1 0)) ((λ j, (0%nat, calm_env j)) <$> seq 0 60).

Lemma paid_reachable : reachable (env_choice calm_env) token_bank (process the_server [payer] 1 0) paid.
Proof.
  apply run_moves_reachable, Forall_forall. intros m Hm. apply list_elem_of_fmap in Hm as (j & -> & _).
  by exists j.
Qed.

Example paid_counts :
  option_map (λ x, (status_of x.1, transfer_metrics (trace x.2))) (result_of paid 0) =
  Some (201, [TransfersInc OutcomeSucceeded; TransferAmountAdd 300]).
Proof. vm_compute. reflexivity. Qed.

Lemma requests_counted_witness :
  ∃ ops w inner m, finished paid 0 ops w ∧
    ops = SetHeader correlationHeader (request_id payer) :: inner ∧
    trace w = EvMetric HTTPInFlightInc :: m ++
      deferred_events the_server (λ _, false) (rq_ctx (wrapped payer)) (wrapped payer) false
        (if status_of inner =? 0 then StatusOK else status_of inner) ∧
    transfer_metrics m = counted_by payer inner.
Proof.
  assert (Hr : is_Some (result_of paid 0)) by (apply not_eq_None_Some; vm_compute; discriminate).
  destruct Hr as [[ops w] Hres]. apply result_of_finished in Hres.
  destruct (requests_counted the_server (env_choice calm_env) token_bank LevelInfo [payer] 1 0 paid 0 payer ops w
    eq_refl paid_reachable eq_refl Hres) as (inner & panicked & m & Hops & Htr & Hin & Hcount).
  exists ops, w, inner, m. destruct panicked.
  { exfalso. by destruct Hcount as (_ & [n Hn] & _). }
  split; [exact Hres|]. split; [|split; [exact Htr|exact Hcount]]. rewrite Hops. f_equal.
  assert (Hesc : ∀ c r b z, escapes the_server (λ _, false) c r b z = false)
    by (intros; unfold escapes, uncounted, unlogged; by rewrite !andb_false_r).
  change (sr_closing (in_surroundings payer)) with (λ _ : nat, false). rewrite Hesc. apply app_nil_r.
Defined.
End examples.
