(* ===== verification/ServerSafety.v ===== *)
(** * The whole server: what it may do to the tables, and what it says of it

    Authorization, exactly-once, honest answers, conservation and the absence
    of false alarms, for any requests to any routes running beside the
    invariant sampler. *)

From Stdlib Require Import String.
From S2P Require Import Prelude GoStrings Errors Database Locks Obs Session Store Wallets Transfers.
From S2P Require Import InvariantAudit Ring Http Middleware Handlers Bodies Routing Api Process.
From S2P Require Import Accounting Wp TxLoop TransferSpec TransferProof WalletSpec WalletProof HandlerProof.
From S2P Require Import Concurrent LockOrder Progress Cmds Service ServerSpec ServerProof Deadlock ServerLocks.
From S2P Require Import Fixtures TransferProps ServerProps.

#[local] Open Scope string_scope.
#[local] Open Scope Z_scope.
#[local] Open Scope list_scope.

(** ** What the bearer of a token may do *)

Section permitted.
Context `{PgText} (s : Server).

(** The token is that of user [uid]. *)
Definition bearer (d : db) (token : string) (uid : uuid) : Prop :=
  ∃ row, users d !! uid = Some row ∧ u_token_hash row = TokenHash token.

(** The endpoints behind [authenticate]. *)
Definition users_only : list endpoint := [ECreateWallet; EGetWallet; ECreateTransfer; EGetTransfer].

Inductive permitted (q : incoming) (token : string) (a b : db) : Prop :=
| may_touch e :
    routes_to q e → e ∈ EMint :: users_only → (e = EMint → token = sv_adminToken s) → b = a →
    permitted q token a b
| may_register e u now :
    routes_to q e → e ∈ users_only → users a !! u = None →
    (∀ j row, users a !! j = Some row → u_token_hash row ≠ TokenHash token) →
    b = spec_user u (TokenHash token) now a → permitted q token a b
| may_open uid u now :
    routes_to q ECreateWallet → bearer a token uid → wallets a !! u = None →
    (∀ j row, wallets a !! j = Some row → w_user_id row ≠ uid) →
    b = spec_wallet u uid now a → permitted q token a b
| may_pay uid body amount doc :
    routes_to q ECreateTransfer → bearer a token uid →
    decode_transfer (in_request q) = Ok body → validate body = Ok amount →
    owns (User.Mk (uuid_out uid)) a body →
    performs a (transfer_req (User.Mk (uuid_out uid)) body amount) doc b → permitted q token a b
| may_mint walletID key amount wid u rw now :
    routes_to q EMint → token = sv_adminToken s → mint_asked (in_request q) walletID key amount →
    uuid_in walletID = Some wid → mintable a u (mint_claim key wid amount now) rw →
    b = spec_mint u (mint_claim key wid amount now) a → permitted q token a b.

Lemma bearer_grows d d' token uid : grows d d' → bearer d token uid → bearer d' token uid.
Proof. intros Hg (row & Hr & Hh). exists row. split; [|done]. eapply lookup_weaken; [done|apply Hg]. Qed.

Lemma holds_user_bearer d token uid d' : holds_user d (TokenHash token) uid d' → bearer d' token uid.
Proof.
  intros [i row Hi Hh|u now Hu _]; [by exists row|]. exists (MkUser (TokenHash token) now).
  split; [apply lookup_insert_eq|done].
Qed.

Lemma holds_user_permitted q token e d uid d' :
  routes_to q e → e ∈ users_only → holds_user d (TokenHash token) uid d' → permitted q token d d'.
Proof.
  intros Hr He [i row _ _|u now Hu Hn]; [|by eapply may_register].
  eapply may_touch; [exact Hr|by right|intros ->; set_solver|done].
Qed.

(** A token has one user. *)
Lemma bearer_unique d token uid uid' : wf_db d → bearer d token uid → bearer d token uid' → uid = uid'.
Proof.
  intros Hwf (r & Hr & Hh) (r' & Hr' & Hh'). eapply (wf_user_hash d Hwf); [exact Hr|exact Hr'|congruence].
Qed.

(** ** Every change a request commits is permitted *)

Context (C : choice → Prop) (E : db → Prop) (d0 : db) (q : incoming).

(** Behind [authenticate], when the endpoint's own changes are permitted. *)
Lemma authenticated_permitted e r B ops cs a b :
  bearerToken r = token_of q → routes_to q e → e ∈ users_only →
  authenticated C E d0 r B ops cs → (a, b) ∈ cs →
  (∀ token uid d ops cs, bearer d token uid → B d uid (authenticated_request r) ops cs → (a, b) ∈ cs →
     permitted q token a b) →
  ∃ token, token_of q = Some token ∧ permitted q token a b.
Proof.
  intros Htok Hr He Hau Hab HB. rewrite <- Htok.
  destruct Hau as [Ht|token d uid d' ops cs Ht Hd Hh Hn|token d ch row Ht Hd HC Hu|Hi|token d uid d' Ht Hd Hh Hi];
    try (by apply not_elem_of_nil in Hab); exists token; (split; [done|]).
  - apply elem_of_app in Hab as [Hab|Hab]; [by eapply HB; [eapply holds_user_bearer|..]|].
    apply list_elem_of_singleton in Hab as [= -> ->]. by eapply holds_user_permitted.
  - apply list_elem_of_singleton in Hab as [= -> ->]. by eapply holds_user_permitted.
Qed.

Lemma wallet_permitted token d r uid ops cs a b :
  routes_to q ECreateWallet → bearer d token uid →
  wallet_served C (seen E d) r uid ops cs → (a, b) ∈ cs → permitted q token a b.
Proof.
  intros Hr Hb Hw Hab.
  assert (Hone : ∀ x i row created y, seen E d x → holds_wallet x uid i row created y → permitted q token x y).
  { intros x i row created y [[_ Hg] _] [j rw _ _|u now Hu Hn _].
    - eapply may_touch; [exact Hr|set_solver|done|done].
    - eapply may_open; [exact Hr|by eapply bearer_grows|done|done|done]. }
  destruct Hw; try (by apply not_elem_of_nil in Hab); apply list_elem_of_singleton in Hab as [= -> ->]; eauto.
Qed.

Lemma transfer_permitted token d uid r ops cs a b :
  routes_to q ECreateTransfer → rq_body r = rq_body (in_request q) → bearer d token uid →
  handled C (seen E d) (User.Mk (uuid_out uid)) r ops cs → (a, b) ∈ cs → permitted q token a b.
Proof.
  intros Hr Hbody Hb Hh Hab.
  assert (Hdec : decode_transfer r = decode_transfer (in_request q))
    by (unfold decode_transfer, decodeJSON; by rewrite Hbody).
  destruct Hh as [err|body code msg|body n|body n d1 res ops cs Hd Hv HP1 Hown Hdest Hout _];
    try (by apply not_elem_of_nil in Hab). rewrite Hdec in Hd.
  assert (Hone : ∀ doc x y, seen E d x ∧ grows d1 x →
    performs x (transfer_req (User.Mk (uuid_out uid)) body n) doc y → permitted q token x y).
  { intros doc x y [[[_ Hg] _] Hg1] Hp. eapply may_pay; [exact Hr|exact (bearer_grows _ _ _ _ Hg Hb)|done|done| |done].
    destruct Hown as (fu & row & Hfu & Hrow & Hu).
    destruct (grows_wallets _ _ Hg1 fu row Hrow) as (row' & Hr' & Ho & _). exists fu, row'. by rewrite Ho. }
  destruct Hout; try (by apply not_elem_of_nil in Hab); apply list_elem_of_singleton in Hab as [= -> ->]; eauto.
Qed.

Lemma mint_permitted r ops cs a b :
  routes_to q EMint → rq_body r = rq_body (in_request q) →
  mint_served C (seen E d0) r ops cs → (a, b) ∈ cs → permitted q (sv_adminToken s) a b.
Proof.
  intros Hr Hbody Hm Hab.
  assert (Hask : ∀ w k n, mint_asked r w k n → mint_asked (in_request q) w k n)
    by (intros w k n; unfold mint_asked, decode_mint, decodeJSON; by rewrite Hbody).
  assert (Hsame : ∀ d, permitted q (sv_adminToken s) d d)
    by (intros d; eapply may_touch; [exact Hr|by left|done|done]).
  destruct Hm; try (by apply not_elem_of_nil in Hab); apply list_elem_of_singleton in Hab as [= -> ->];
    [|done| |done]; (eapply may_mint; [exact Hr|done|by apply Hask|done|done|done]).
Qed.

(** Behind [authenticate], an endpoint that changes nothing itself. *)
Lemma reads_permitted e B ops cs a b :
  routes_to q e → e ∈ users_only →
  authenticated C E d0 (inner_request q) (λ d _ r ops cs, B d r ops ∧ cs = []) ops cs → (a, b) ∈ cs →
  ∃ token, token_of q = Some token ∧ permitted q token a b.
Proof.
  intros Hr He Hq Hab.
  apply (authenticated_permitted e (inner_request q) _ ops cs a b eq_refl Hr He Hq Hab).
  intros token uid d ops' cs' _ [_ ->]. by intros ?%not_elem_of_nil.
Qed.

Lemma admin_permitted (B : request → list write_op → list (db * db) → Prop) ops cs a b :
  routes_to q EMint → admin_only s (inner_request q) B ops cs → (a, b) ∈ cs →
  (∀ ops cs, B (inner_request q) ops cs → mint_served C (seen E d0) (inner_request q) ops cs ∨ cs = []) →
  ∃ token, token_of q = Some token ∧ permitted q token a b.
Proof.
  intros Hr Hao Hab HB. destruct Hao as [Ht|ops cs Ht Hm]; [by apply not_elem_of_nil in Hab|].
  exists (sv_adminToken s). split; [exact Ht|].
  destruct (HB _ _ Hm) as [Hm'| ->]; [|by apply not_elem_of_nil in Hab].
  by apply (mint_permitted (inner_request q) ops cs).
Qed.

(** All that an endpoint had committed when it was unwound is permitted as what
    it commits by its end is. *)
Lemma cut_permitted e ops cs a b :
  routes_to q e → endpoint_cut C s E d0 e (inner_request q) ops cs → (a, b) ∈ cs →
  ∃ token, token_of q = Some token ∧ permitted q token a b.
Proof.
  intros Hr Hq Hab. destruct e; cbn [endpoint_cut] in Hq; try done.
  - apply (authenticated_permitted _ (inner_request q) _ _ _ _ _ eq_refl Hr ltac:(set_solver) Hq Hab).
    intros. by eapply wallet_permitted.
  - eapply reads_permitted; [exact Hr|set_solver|exact Hq|exact Hab].
  - apply (authenticated_permitted _ (inner_request q) _ _ _ _ _ eq_refl Hr ltac:(set_solver) Hq Hab).
    intros token uid d ops' cs' Hb [Hh| ->] Hab'; [|by apply not_elem_of_nil in Hab'].
    by apply (transfer_permitted token d uid (authenticated_request (inner_request q)) ops' cs').
  - eapply reads_permitted; [exact Hr|set_solver|exact Hq|exact Hab].
  - by eapply admin_permitted.
Qed.

Lemma answer_permitted sr e ops cs a b :
  routes_to q e → endpoint_served C s E d0 sr e (inner_request q) ops cs → (a, b) ∈ cs →
  ∃ token, token_of q = Some token ∧ permitted q token a b.
Proof.
  intros Hr Hq Hab.
  destruct e; cbn [endpoint_served] in Hq; try (destruct Hq as [_ ->]; by apply not_elem_of_nil in Hab).
  - by apply (cut_permitted ECreateWallet ops cs).
  - by apply (cut_permitted EGetWallet ops cs).
  - apply (cut_permitted ECreateTransfer ops cs a b Hr); [|done]. cbn [endpoint_cut].
    eapply authenticated_mono; [|exact Hq]. intros d uid r ops' cs' Hh. by left.
  - by apply (cut_permitted EGetTransfer ops cs).
  - eapply admin_permitted; [exact Hr|exact Hq|exact Hab|]. intros. by left.
Qed.

Lemma served_permitted ops cs a b :
  served C s E d0 q ops cs → (a, b) ∈ cs → ∃ token, token_of q = Some token ∧ permitted q token a b.
Proof.
  intros [inner tail cs' _ Hq|tail cs' _ _ Hq] Hab; [unfold route_served in Hq|unfold route_cut in Hq];
    destruct (find_route (in_request q)) as [[text e] ids|p|p o|ms|] eqn:Hf; try done;
    try (destruct Hq as [_ ->]; by apply not_elem_of_nil in Hab);
    assert (Hr : routes_to q e) by (by exists text, ids).
  - by eapply answer_permitted.
  - destruct Hq as (would & _ & Hq). by eapply cut_permitted.
Qed.
End permitted.

(** ** What an answer tells *)

Section honest.
Context `{PgText}.

Definition marked_replay (ops : list write_op) : bool :=
  existsb (λ op, match op with SetHeader k _ => String.eqb k "Idempotent-Replay" | _ => false end) ops.

(** The answers of an endpoint that announce a change: 201 for a wallet or a
    transfer, 200 for a mint, without the header that marks a replay. *)
Definition announced_by (e : endpoint) (ops : list write_op) : bool :=
  negb (marked_replay ops) &&
  match e with
  | ECreateWallet | ECreateTransfer => status_of ops =? StatusCreated
  | EMint => status_of ops =? StatusOK
  | _ => false
  end.

Definition announces (q : incoming) (ops : list write_op) : bool :=
  match find_route (in_request q) with FHandler (_, e) _ => announced_by e ops | _ => false end.

(** The body shows a wallet of the tables [b], or the transfer that led from
    [a] to [b]. *)
Definition shows (ops : list write_op) (a b : db) : Prop :=
  (∃ i row, wallets b !! i = Some row ∧ WriteBody (PWallet (scan_wallet i row)) ∈ ops) ∨
  (∃ req doc, performs a req doc b ∧ WriteBody (PTransfer doc) ∈ ops).

Definition unmoved (cs : list (db * db)) : Prop := Forall (λ c, same_money c.1 c.2) cs.

(** What was announced is what was committed; only with an excuse may a 500
    hide a commit. *)
Definition agrees (excuse : Prop) (announced : bool) (ops : list write_op) (cs : list (db * db)) : Prop :=
  (status_of ops = StatusInternalServerError ∧ excuse) ∨
  (announced = true ∧ ∃ a b cs', cs = (a, b) :: cs' ∧ ¬ same_money a b ∧ shows ops a b ∧ unmoved cs') ∨
  (announced = false ∧ unmoved cs).

(** ** Which changes move money *)

Lemma same_money_refl d : same_money d d.
Proof. done. Qed.

Lemma holds_user_same d h i d' : holds_user d h i d' → same_money d d'.
Proof. by intros []. Qed.

Lemma fresh_row {A} (m : gmap uuid A) u x : m !! u = None → <[u := x]> m ≠ m.
Proof. intros Hu Heq. assert (Hx : <[u := x]> m !! u = Some x) by apply lookup_insert_eq. congruence. Qed.

Lemma performs_moves a req doc b : performs a req doc b → ¬ same_money a b.
Proof. intros [u ru fu tu rf rt now _ Hcl _ _|u ru fu tu rf now _ Hcl _ _] (_ & Ht & _); by eapply fresh_row, Ht; apply Hcl. Qed.

Lemma mint_moves d u m rw : mintable d u m rw → ¬ same_money d (spec_mint u m d).
Proof. intros Hm (_ & _ & _ & Ht). by eapply fresh_row, Ht; apply Hm. Qed.

(** ** Every endpoint's answers agree *)

Context (C : choice → Prop).

Lemma agrees_nothing told ops : told = false → agrees (infra C) told ops [].
Proof. intros ->. right. right. split; [done|constructor]. Qed.

Lemma agrees_one told ops a b :
  told = true → ¬ same_money a b → shows ops a b → agrees (infra C) told ops [(a, b)].
Proof. intros -> Hm Hs. right. left. split; [done|]. exists a, b, []. split_and!; [done|done|done|constructor]. Qed.

Lemma agrees_error r e status code msg :
  status ≠ StatusOK → status ≠ StatusCreated → status ≠ 0 →
  agrees (infra C) (announced_by e (writeError r status code msg)) (writeError r status code msg) [].
Proof.
  intros H200 H201 H0. apply agrees_nothing. unfold announced_by.
  assert (Hst : status_of (writeError r status code msg) = status) by by apply status_of_writeError.
  rewrite Hst. apply Z.eqb_neq in H200, H201. destruct e; rewrite ?H200, ?H201; by rewrite ?andb_false_r.
Qed.

Lemma agrees_failed r e msg cs :
  infra C → agrees (infra C) (announced_by e (internal_error r msg)) (internal_error r msg) cs.
Proof. intros Hi. left. split; [by apply status_of_writeError|done]. Qed.

Lemma wallet_agrees P r uid ops cs :
  wallet_served C P r uid ops cs → agrees (infra C) (announced_by ECreateWallet ops) ops cs.
Proof.
  intros [d i row cr d' HPd Hh|d ch row HPd HC Hu Hn|Hi|d i row cr d' HPd Hh Hi];
    try (by apply agrees_failed); [|by apply agrees_error].
  destruct Hh as [i row Hi Hu|u now Hu Hn Hus].
  - right. right. split; [done|]. by repeat constructor.
  - apply agrees_one; [done|intros (Hw & _); by eapply fresh_row, Hw|].
    left. exists u, (MkWallet uid 0 now now). split; [apply lookup_insert_eq|]. unfold writeJSON. set_solver.
Qed.

Lemma mint_agrees P r ops cs : mint_served C P r ops cs → agrees (infra C) (announced_by EMint ops) ops cs.
Proof.
  intros Hm. destruct Hm as [err|body code msg|w k n d u wid rw now Hask HPd Hi Hmt|w k n d d0 wid row Hask HPd HP0 Hk Hi Hrow
    |w k n d Hask HPd Hn|w k n d e Hask HPd Hrej|Hi|w k n d u wid rw now Hask HPd Hid Hmt Hi|d HPd Hi];
    try (by apply agrees_failed); try (by apply agrees_error).
  - apply agrees_one; [done|by eapply mint_moves|]. left. exists wid, (add_balance n now rw). split.
    + simpl. rewrite lookup_alter_eq. pose proof (mt_wallet _ _ _ _ Hmt) as Hw. simpl in Hw. by rewrite Hw.
    + unfold writeJSON. set_solver.
  - right. right. split; [done|]. by repeat constructor.
Qed.

Lemma transfer_status_env e t :
  env_error e → transfer_status (t, Some e) = StatusInternalServerError.
Proof.
  intros He. assert (H1 : errors_Is e ErrIdempotencyConflict = false) by not_env_error.
  assert (H2 : errors_Is e ErrWalletNotFound = false) by not_env_error.
  assert (H3 : errors_Is e ErrSameWallet = false) by not_env_error.
  unfold transfer_status. simpl. by rewrite H1, H2, H3.
Qed.

Lemma transfer_error_agrees r t e ops :
  answers r (t, Some e) ops → agrees (infra C) (announced_by ECreateTransfer ops) ops [].
Proof.
  intros (code & msg & ->). apply agrees_error; unfold transfer_status; simpl; by repeat case_match.
Qed.

Lemma transfer_agrees P user r ops cs :
  handled C P user r ops cs → agrees (infra C) (announced_by ECreateTransfer ops) ops cs.
Proof.
  intros [err Hd|body code msg Hd Hv|body n ops' Hd Hv Hrf|body n d1 res ops' cs' Hd Hv HP1 Hown Hdest Hout Hans];
    try (by apply agrees_error).
  { destruct Hrf; by apply agrees_error. }
  destruct Hout as [Heq|x e HPx Hrej|e Hi He|x doc y HPx Hperf|x doc y e HPx Hperf Hi He|x j row HPx Hk _|x j row HPx Hk _];
    try (by eapply transfer_error_agrees).
  - simpl in Hans. subst ops'. apply agrees_one; [done|by eapply performs_moves|].
    right. exists (transfer_req user body n), doc. split; [done|]. unfold writeJSON. set_solver.
  - left. split; [|done]. destruct Hans as (code & msg & ->). rewrite (transfer_status_env e _ He).
    by apply status_of_writeError.
  - simpl in Hans. subst ops'. by apply agrees_nothing.
Qed.

Lemma authenticated_agrees E d0 r e B ops cs :
  authenticated C E d0 r B ops cs →
  (∀ d uid r ops cs, B d uid r ops cs → agrees (infra C) (announced_by e ops) ops cs) →
  agrees (infra C) (announced_by e ops) ops cs.
Proof.
  intros Hau HB. destruct Hau as [Ht|token d uid d' ops cs Ht Hd Hh Hn|token d ch row Ht Hd HC Hu|Hi|token d uid d' Ht Hd Hh Hi];
    try (by apply agrees_failed); try (by apply agrees_error).
  assert (Hs : unmoved [(d, d')]) by (constructor; [by eapply holds_user_same|done]).
  destruct (HB _ _ _ _ _ Hn) as [Hi|[(Hann & a & b & cs' & -> & Hm & Hsh & Hun)|[Hann Hun]]]; [by left|right..].
  - left. split; [done|]. exists a, b, (cs' ++ [(d, d')]). split_and!; try done. by apply Forall_app.
  - right. split; [done|]. by apply Forall_app.
Qed.

(** The correlation header and the closing of the connection change nothing. *)
Lemma announced_wrapped e id ops tail :
  tail = [] ∨ tail = [Abort] →
  announced_by e (SetHeader correlationHeader id :: ops ++ tail) = announced_by e ops.
Proof.
  intros Ht. unfold announced_by. rewrite status_of_wrapped by done. f_equal. f_equal.
  unfold marked_replay. simpl. rewrite existsb_app. destruct Ht as [-> | ->]; by rewrite orb_false_r.
Qed.

Lemma agrees_wrapped e id tail ops cs (excuse : Prop) :
  tail = [] ∨ tail = [Abort] → (infra C → excuse) →
  agrees (infra C) (announced_by e ops) ops cs →
  agrees excuse (announced_by e (SetHeader correlationHeader id :: ops ++ tail))
    (SetHeader correlationHeader id :: ops ++ tail) cs.
Proof.
  intros Ht Hex. unfold agrees. rewrite announced_wrapped, status_of_wrapped by done.
  intros [[Hst Hi]|[(Ha & a & b & cs' & -> & Hm & Hsh & Hun)|Hn]]; [by left; auto|right; left|by right; right].
  split; [exact Ha|]. exists a, b, cs'. split_and!; try done.
  destruct Hsh as [(i & row & Hi & Hin)|(req & doc & Hp & Hin)]; [left; exists i, row|right; exists req, doc];
    (split; [done|right; apply elem_of_app; by left]).
Qed.

Lemma endpoint_agrees s E d0 sr e r ops cs :
  endpoint_served C s E d0 sr e r ops cs → agrees (infra C) (announced_by e ops) ops cs.
Proof.
  intros Hq. destruct e; cbn [endpoint_served] in Hq;
    try (destruct Hq as [_ ->]; apply agrees_nothing; apply andb_false_r).
  - eapply authenticated_agrees; [exact Hq|]. intros d uid r' ops' cs'. apply wallet_agrees.
  - eapply authenticated_agrees; [exact Hq|]. intros d uid r' ops' cs' [_ ->]. apply agrees_nothing, andb_false_r.
  - eapply authenticated_agrees; [exact Hq|]. intros d uid r' ops' cs'. apply transfer_agrees.
  - eapply authenticated_agrees; [exact Hq|]. intros d uid r' ops' cs' [_ ->]. apply agrees_nothing, andb_false_r.
  - destruct Hq as [ops' Ht|ops' cs' Ht Hm]; [by apply agrees_error|by eapply mint_agrees].
Qed.

Lemma served_agrees s E d0 q ops cs :
  served C s E d0 q ops cs → agrees (infra C ∨ panicked q ops) (announces q ops) ops cs.
Proof.
  intros [inner tail cs' Ht%ending_tail Hq|tail cs' Ht Hp _].
  - unfold route_served in Hq. unfold announces.
    destruct (find_route (in_request q)) as [[text e] ids|p|p o|ms|];
      [|destruct Hq as [_ ->]; right; right; by split; [|constructor]..].
    apply agrees_wrapped; [done|auto|]. by eapply endpoint_agrees.
  - left. split; [by rewrite status_of_wrapped by by eapply ending_tail|]. right. split; [done|by exists tail].
Qed.
End honest.

(** ** The properties *)

Section props.
Context `{PgText} (s : Server).

Lemma permitted_at C d0 l every_ns ticks σ i t a b :
  wf_db d0 → reachable C d0 (process s l every_ns ticks) σ →
  sys_threads σ !! i = Some t → (a, b) ∈ commits (th_world t) →
  ∃ q token, l !! i = Some q ∧ token_of q = Some token ∧ permitted s q token a b.
Proof.
  intros Hwf Hr Ht Hab. pose proof (reachable_chose_commit C d0 _ σ i t _ Hr Ht Hab) as HC.
  destruct (l !! i) as [q|] eqn:Hq.
  - destruct (process_completes C s d0 l every_ns ticks Hwf σ Hr i q t HC Hq Ht) as (ops & cs & Hs).
    destruct (served_permitted s C anything d0 q ops (cs ++ commits (th_world t)) a b Hs) as (token & Htok & Hp);
      [apply elem_of_app; by right|]. by exists q, token.
  - exfalso. destruct (reachable_lookup C d0 _ σ i t Hr Ht) as [p Hp].
    assert (i = length l) as ->.
    { apply lookup_ge_None_1 in Hq. apply lookup_lt_Some in Hp. unfold process in Hp.
      rewrite length_app in Hp. unfold serving in Hp. rewrite length_fmap in Hp. simpl in Hp. lia. }
    apply reachable_run in Hr as [h Hr].
    destruct (process_sampler C s d0 l every_ns ticks Hwf h σ t HC Hr Ht) as [Hc _].
    rewrite Hc in Hab. by apply not_elem_of_nil in Hab.
Qed.

(** C1: The process keeps the books: take any requests to any routes, with the
    invariant sampler beside them, in any interleaving the locks allow, under
    any faults; in every state reached the tables are well-formed, nothing was
    rewritten, the balances add up to what was minted, and the ledger sums to
    zero. *)
Theorem process_safe C d0 l every_ns ticks σ :
  wf_db d0 → reachable C d0 (process s l every_ns ticks) σ →
  let d := sys_db σ in
  wf_db d ∧ grows d0 d ∧
  map_sum (λ _, w_balance_paise) (wallets d) = map_sum (λ _, m_amount_paise) (mints d) ∧
  list_sum l_delta_paise (ledger_entries d) = 0.
Proof.
  intros Hwf Hr. destruct (process_inv C s d0 l every_ns ticks Hwf σ Hr) as [Hwf' Hg _ _].
  split_and!; [done|done|by apply balances_are_mints|by apply ledger_sum_zero].
Qed.

(** C3: Nobody moves what is not theirs: at any moment of any interleaving, even
    before an answer, every change a thread of the process has committed is one
    its request permits -- its bearer's user registered, its bearer's wallet
    opened, one transfer of the amount and between the wallets that the
    validated body names, out of a wallet the bearer owns at that moment, one
    mint by the admin as the body asks, or an existing row touched at an
    endpoint the token admits to. *)
Theorem server_authorized C d0 l every_ns ticks σ i t a b :
  wf_db d0 → reachable C d0 (process s l every_ns ticks) σ →
  sys_threads σ !! i = Some t → (a, b) ∈ commits (th_world t) →
  ∃ q token, l !! i = Some q ∧ token_of q = Some token ∧ permitted s q token a b.
Proof. apply permitted_at. Qed.

(** C4: Exactly once, for the client: of the POST /transfers requests of one
    bearer with one idempotency key, however many run at once, and at whatever
    moment one looks, at most one has moved money. *)
Theorem server_exactly_once C d0 l every_ns ticks σ i j qi qj ti tj bi bj a b a' b' :
  wf_db d0 → reachable C d0 (process s l every_ns ticks) σ → i ≠ j →
  l !! i = Some qi → l !! j = Some qj →
  routes_to qi ECreateTransfer → routes_to qj ECreateTransfer → token_of qi = token_of qj →
  decode_transfer (in_request qi) = Ok bi → decode_transfer (in_request qj) = Ok bj →
  transferRequestBody.IdempotencyKey bi = transferRequestBody.IdempotencyKey bj →
  sys_threads σ !! i = Some ti → sys_threads σ !! j = Some tj →
  (a, b) ∈ commits (th_world ti) → (a', b') ∈ commits (th_world tj) →
  same_money a b ∨ same_money a' b'.
Proof.
  intros Hwf Hr Hij Hqi Hqj Hri Hrj Htok Hbi Hbj Hkey Hti Htj Hab Hab'.
  destruct (permitted_at C d0 l every_ns ticks σ i ti a b Hwf Hr Hti Hab) as (q & token & Hq & Ht & Hp).
  destruct (permitted_at C d0 l every_ns ticks σ j tj a' b' Hwf Hr Htj Hab') as (q' & token' & Hq' & Ht' & Hp').
  rewrite Hqi in Hq. rewrite Hqj in Hq'. injection Hq as <-. injection Hq' as <-.
  assert (token' = token) as -> by congruence.
  pose proof (process_inv C s d0 l every_ns ticks Hwf σ Hr) as [Hwf' _ Hths Hord].
  assert (Hpay : ∀ q body x y, permitted s q token x y → routes_to q ECreateTransfer →
    decode_transfer (in_request q) = Ok body → same_money x y ∨
    ∃ uid amount doc, bearer x token uid ∧ performs x (transfer_req (User.Mk (uuid_out uid)) body amount) doc y).
  { intros q body x y [e Hre He Had ->|e u now Hre He Hu Hn ->|uid u now Hre Hb Hu Hn ->
      |uid body' amount doc Hre Hb Hd Hv Hown Hperf|w k n wid u rw now Hre Had Hask Hwid Hm ->] (text & ids & Hf) Hd';
      [by left|by left| |right|]; try (destruct Hre as (text' & ids' & Hf'); congruence).
    rewrite Hd in Hd'. injection Hd' as <-. by exists uid, amount, doc. }
  destruct (Hpay qi bi a b Hp Hri Hbi) as [|(uid & n & doc & Hb & Hperf)]; [by left|].
  destruct (Hpay qj bj a' b' Hp' Hrj Hbj) as [|(uid' & n' & doc' & Hb' & Hperf')]; [by right|]. exfalso.
  assert (Hend : ∀ k t x y, sys_threads σ !! k = Some t → (x, y) ∈ commits (th_world t) → grows y (sys_db σ))
    by (intros k t x y Hk; apply (ti_commits _ _ _ _ _ _ (Hths k t Hk))).
  assert (uid' = uid) as ->.
  { eapply (bearer_unique (sys_db σ) token); [done| |].
    - eapply bearer_grows; [|exact Hb']. etrans; [|by eapply (Hend j)]. by eapply performs_grows.
    - eapply bearer_grows; [|exact Hb]. etrans; [|by eapply (Hend i)]. by eapply performs_grows. }
  destruct (performs_key_taken _ _ _ _ Hperf) as (x & r & Hk & _).
  destruct (performs_key_taken _ _ _ _ Hperf') as (x' & r' & Hk' & _).
  assert (Hsame : ∀ d y z, key_taken d (transfer_req (User.Mk (uuid_out uid)) bi n) y z ↔
    key_taken d (transfer_req (User.Mk (uuid_out uid)) bj n') y z)
    by (intros; unfold key_taken; simpl; by rewrite Hkey).
  destruct (Hord i j _ _ a b a' b' Hij Hti Htj Hab Hab') as [Hg|Hg].
  - eapply (performs_key_free _ _ _ _ x r Hperf'), Hsame, key_taken_grows; done.
  - eapply (performs_key_free _ _ _ _ x' r' Hperf), Hsame, key_taken_grows; done.
Qed.

(** C10: An answer never lies about money, at any endpoint: a wallet or a
    transfer answered 201, or a mint answered 200, without the replay header,
    means that exactly one committed change of the request moved money, and
    the body shows its result; any other answer means that none did -- except
    a 500 when the environment failed, which may hide a commit whose
    acknowledgement was lost, or the 500 of a request one of whose own log lines
    panicked (unexpected server error), which may come after the commit
    ([line_panicked] below is such a run). *)
Theorem server_honest C d0 l every_ns ticks σ i q ops w :
  wf_db d0 → reachable C d0 (process s l every_ns ticks) σ →
  l !! i = Some q → finished σ i ops w →
  (status_of ops = StatusInternalServerError ∧ (infra C ∨ panicked q ops)) ∨
  (announces q ops = true ∧ ∃ a b cs, commits w = (a, b) :: cs ∧ ¬ same_money a b ∧ shows ops a b ∧ unmoved cs) ∨
  (announces q ops = false ∧ unmoved (commits w)).
Proof.
  intros Hwf [h Hr]%reachable_run Hq Hf. eapply (served_agrees C s). by eapply process_finished.
Qed.

(** C28: No false alarm, and no missed one.  Whatever runs beside it, the
    sampler emits nothing but the total balance of tables that were there at
    some moment of the run and a ledger sum of zero -- never an invariant
    violation.  GET /invariants answers 200 with the audit of tables that were
    there at some moment of the run, in which all invariants hold, or 500 when
    the environment failed or a sum of such tables was beyond an int64.  And a
    tick of the sampler alone on a calm connection, on any tables at all, raises
    the alarm exactly when the sums fit an int64 and the balances do not add up
    to the mints, the ledger does not sum to zero, a balance is negative or a
    transfer is pending. *)
Theorem no_false_alarm C d0 l every_ns ticks h σ :
  wf_db d0 → run_of C d0 (process s l every_ns ticks) h σ →
  (∀ t e, sys_threads σ !! length l = Some t → e ∈ trace (th_world t) →
     (∃ d, d ∈ h ∧ e = EvMetric (TotalBalanceSet (float64_of_int64 (map_sum (λ _, w_balance_paise) (wallets d))))) ∨
     e = EvMetric (LedgerSumSet 0)) ∧
  (∀ i q ops w, l !! i = Some q → routes_to q EInvariants → finished σ i ops w →
     (status_of ops = StatusOK ∧ ∃ d inv, d ∈ h ∧ inv = audit_of d ∧ WriteBody (PInvariants inv) ∈ ops ∧
        Invariants.AllHold inv = true ∧ Invariants.LedgerSumPaise inv = 0 ∧
        Invariants.TotalBalancePaise inv = Invariants.TotalMintedPaise inv) ∨
     (status_of ops = StatusInternalServerError ∧ (infra C ∨ ∃ d, d ∈ h ∧ audit_fits d = false))) ∧
  (∀ env d, calm env → let '(_, w, _) := run env 0 (sample_tick s) (start d) in
     (∃ e, e ∈ trace w ∧ alarm e) ↔
     audit_fits d = true ∧
     ¬ (map_sum (λ _, w_balance_paise) (wallets d) = map_sum (λ _, m_amount_paise) (mints d) ∧
        list_sum l_delta_paise (ledger_entries d) = 0 ∧
        (∀ i r, wallets d !! i = Some r → 0 ≤ w_balance_paise r) ∧
        (∀ i r, transfers d !! i = Some r → t_status r ≠ "pending"))).
Proof.
  intros Hwf Hr. apply run_reachable in Hr as Hre.
  assert (Hin : ∀ d, seen (λ d, d ∈ h) d0 d → d ∈ h)
    by (intros d [_ [Hd| ->]]; [exact Hd|by apply (run_first C _ _ _ Hr)]).
  split; [|split].
  - intros t e Ht He. pose proof (reachable_chose_trace C d0 _ σ _ t e Hre Ht He) as HC.
    destruct (process_sampler C s d0 l every_ns ticks Hwf h σ t HC Hr Ht) as [_ Hcalm].
    rewrite Forall_forall in Hcalm. specialize (Hcalm e He).
    destruct e as [m|x]; [|by destruct Hcalm]. destruct m; try (by destruct Hcalm); [left|right].
    + destruct Hcalm as (d & Hd%Hin & _ & ->). by exists d.
    + by rewrite Hcalm.
  - intros i q ops w Hq (text & ids & Hf) Hfin.
    destruct (process_finished C s d0 l every_ns ticks Hwf h σ i q ops w Hr Hq Hfin)
      as [inner tail cs Htail%ending_tail Hs|tail cs _ _ Hs]; [unfold route_served in Hs|unfold route_cut in Hs];
      rewrite Hf in Hs; [|by destruct Hs as (would & _ & [])].
    rewrite status_of_wrapped by done. destruct Hs as [[d Hd Hfit Hall|Hfail] _].
    + left. split; [done|]. exists d, (audit_of d). split; [by apply Hin|]. split; [done|].
      split; [unfold writeJSON; set_solver|].
      destruct (audit_of_wf d (seen_wf _ _ _ Hd)) as (? & ? & ? & _). done.
    + right. split; [done|]. destruct Hfail as [(d & Hd & Hfit)|Hi]; [right; exists d; by auto|by left].
  - intros env d Hc. destruct (run env 0 (sample_tick s) (start d)) as [[a w] n] eqn:Hrun.
    pose proof (wp_run (env_choice env) _ _ _ env 0 a w n (λ i, ex_intro _ i eq_refl)
      (sample_tick_alarm _ s d (calm_no_infra env Hc)) Hrun) as Hal. simpl in Hal.
    by rewrite Hal, <- all_hold_iff, not_true_iff_false.
Qed.

(** C11: Every request is answered: start any requests to any routes beside the
    sampler, the wallet ids in the transfer bodies spelled as the server prints
    them.  No schedule runs forever, and no state that can be reached is stuck:
    either every request has its answer, or some session can take its next
    step -- it gets the locks it asks for -- whatever locks the others hold and
    whatever faults have hit.  Payments in opposite directions cannot
    deadlock. *)
Theorem server_never_deadlocks C d0 l every_ns ticks σ :
  (∃ ch, C ch) → Forall request_canonical l → reachable C d0 (process s l every_ns ticks) σ →
  Acc (λ σ2 σ1, step C σ1 σ2) σ ∧
  ((∀ i t, sys_threads σ !! i = Some t → ∃ ops, th_prog t = Ret ops) ∨ ∃ σ', step C σ σ').
Proof.
  intros HC Hl Hr. split; [apply step_wf|].
  destruct (ordered_progress C d0 (process s l every_ns ticks)) with (σ := σ) as [Hall|]; [|done|done| |by right].
  - intros i p. unfold process. intros [Hp|[_ Hp]]%lookup_app_Some.
    + unfold serving in Hp. rewrite list_lookup_fmap in Hp. destruct (l !! i) as [q|] eqn:Hq; [|done].
      injection Hp as <-. eapply ordered_mono, ordered_serve_one; [done| |done].
      by eapply Forall_lookup_1 in Hl.
    + apply list_lookup_singleton_Some in Hp as [_ <-].
      apply ordered_then; [by apply ordered_sampleInvariants|done].
  - left. intros i t Ht. specialize (Hall i t Ht). unfold unfinished in Hall.
    destruct t as [[ops|B c k] w]; [by exists ops|done].
Qed.
End props.

(** ** At concrete inputs *)

Section examples.
#[local] Existing Instance hex_text.

Lemma wf_token_bank : wf_db token_bank.
Proof.
  assert (Hne : TokenHash "t" ≠ "token of bob") by (vm_compute; discriminate).
  destruct wf_bank as [Hu ? ? ? ? ? Ht ? ? ? ? ?]. split; try assumption.
  2:{ intros i r Hi. by destruct (Ht i r Hi). }
  unfold token_bank, spec_user. cbn [users]. clear -Hne Hu. apply unique_by_insert; [exact Hu|].
  cbn [u_token_hash]. revert Hne. generalize (TokenHash "t"). intros h Hne i r. simpl.
  rewrite !lookup_insert. repeat case_decide; intros; simplify_eq/=; congruence.
Qed.

(** Alice's phone and laptop pay the same bill at once; somebody looks at the
    audit. *)
Definition auditor : incoming := with_token "" "GET" "/invariants" "".

Definition crowd : list incoming := [payer; payer; auditor].

Definition crowded : system :=
  run_moves (init token_bank (process the_server crowd 1 1))
    (mjoin ((λ j, (λ i, (i, calm_env (4 * j + i))) <$> seq 0 4) <$> seq 0 60)).

Lemma crowded_reachable : reachable (env_choice calm_env) token_bank (process the_server crowd 1 1) crowded.
Proof.
  apply run_moves_reachable, Forall_forall. intros m Hm. apply list_elem_of_join in Hm as (l & Hm & Hl).
  apply list_elem_of_fmap in Hl as (j & -> & _). apply list_elem_of_fmap in Hm as (i & -> & _). by eexists.
Qed.

(** Both payments are answered 201, the audit 200; one payment moved money. *)
Example crowded_results :
  option_map (λ x, (status_of x.1, marked_replay x.1, length (commits x.2)))
    <$> (result_of crowded <$> [0%nat; 1%nat; 2%nat]) =
  [Some (201, false, 2%nat); Some (201, true, 1%nat); Some (200, false, 0%nat)].
Proof. vm_compute. reflexivity. Qed.

Lemma crowded_finished i : (i < 4)%nat → ∃ ops w, finished crowded i ops w.
Proof.
  intros Hi. assert (Hr : is_Some (result_of crowded i)).
  { destruct i as [|[|[|[|]]]]; [..|lia]; apply not_eq_None_Some; vm_compute; discriminate. }
  destruct Hr as [[ops w] Hr]. exists ops, w. by apply result_of_finished.
Qed.
Lemma process_safe_witness :
  let d := sys_db crowded in
  wf_db d ∧ grows token_bank d ∧
  map_sum (λ _, w_balance_paise) (wallets d) = map_sum (λ _, m_amount_paise) (mints d) ∧
  list_sum l_delta_paise (ledger_entries d) = 0.
Proof.
  apply (process_safe the_server (env_choice calm_env) token_bank crowd 1 1 crowded);
    [apply wf_token_bank|apply crowded_reachable].
Defined.

(** The last commit of one of the payers. *)
Lemma crowded_commit i n :
  option_map (λ x, length (commits x.2)) (result_of crowded i) = Some (S n) →
  ∃ ops w a b, finished crowded i ops w ∧ (a, b) ∈ commits w.
Proof.
  destruct (result_of crowded i) as [[ops w]|] eqn:Hres; [|done]. apply result_of_finished in Hres.
  intros [= Hl]. destruct (commits w) as [|[a b] cs] eqn:Hc; [done|]. exists ops, w, a, b.
  split; [done|]. rewrite Hc. by left.
Qed.

Lemma server_authorized_witness :
  ∃ ops w a b, finished crowded 0 ops w ∧ (a, b) ∈ commits w ∧
    ∃ q token, crowd !! 0%nat = Some q ∧ token_of q = Some token ∧ permitted the_server q token a b.
Proof.
  destruct (crowded_commit 0 1) as (ops & w & a & b & Hf & Hab); [vm_compute; reflexivity|].
  exists ops, w, a, b. split; [done|]. split; [done|].
  apply (server_authorized the_server (env_choice calm_env) token_bank crowd 1 1 crowded 0 _ a b
    wf_token_bank crowded_reachable Hf Hab).
Defined.

Lemma payer_decodes : ∃ body, decode_transfer (in_request payer) = Ok body.
Proof. eexists. vm_compute. reflexivity. Qed.

Lemma payer_routed : routes_to payer ECreateTransfer.
Proof. eexists _, _. vm_compute. reflexivity. Qed.

Lemma auditor_routed : routes_to auditor EInvariants.
Proof. eexists _, _. vm_compute. reflexivity. Qed.

Lemma server_exactly_once_witness :
  ∃ wi wj a b a' b', (a, b) ∈ commits wi ∧ (a', b') ∈ commits wj ∧ (same_money a b ∨ same_money a' b').
Proof.
  destruct (crowded_commit 0 1) as (oi & wi & a & b & Hi & Hab); [vm_compute; reflexivity|].
  destruct (crowded_commit 1 0) as (oj & wj & a' & b' & Hj & Hab'); [vm_compute; reflexivity|].
  destruct payer_decodes as [body Hbody]. exists wi, wj, a, b, a', b'. split; [done|]. split; [done|].
  apply (server_exactly_once the_server (env_choice calm_env) token_bank crowd 1 1 crowded 0 1 payer payer
    _ _ body body a b a' b' wf_token_bank crowded_reachable ltac:(done) eq_refl eq_refl payer_routed payer_routed
    eq_refl Hbody Hbody eq_refl Hi Hj Hab Hab').
Defined.

Lemma server_honest_witness :
  ∃ ops w, finished crowded 0 ops w ∧
  ((status_of ops = StatusInternalServerError ∧ (infra (env_choice calm_env) ∨ panicked payer ops)) ∨
  (announces payer ops = true ∧
    ∃ a b cs, commits w = (a, b) :: cs ∧ ¬ same_money a b ∧ shows ops a b ∧ unmoved cs) ∨
  (announces payer ops = false ∧ unmoved (commits w))).
Proof.
  destruct (crowded_finished 0) as (ops & w & Hf); [lia|]. exists ops, w. split; [done|].
  apply (server_honest the_server (env_choice calm_env) token_bank crowd 1 1 crowded 0 payer ops w);
    [apply wf_token_bank|apply crowded_reachable|done|exact Hf].
Defined.

(** Alice's payment again, alone and on a calm connection, when a viewer of the
    log leaves as its second line -- debited and credited -- is written.  The
    money moved; the answer is a 500. *)
Definition unlucky : incoming :=
  let sr := in_surroundings payer in
  MkIncoming (in_request payer)
    (MkSurroundings (sr_uptime sr) (sr_ping sr) (sr_ring sr) (sr_ring' sr) (sr_stream sr) (sr_promhttp sr)
       (λ n, Nat.eqb n 1) (λ _, false))
    None 0.

Lemma line_panicked :
  ¬ infra (env_choice calm_env) ∧ line_panics unlucky ∧
  let '(ops, d, _) := alone_on token_bank calm_env (serve_one the_server unlucky) in
  ops = SetHeader correlationHeader (request_id unlucky) :: panic_answer unlucky ∧
  (w_balance_paise <$> wallets token_bank !! alice_wallet) = Some 1000 ∧
  (w_balance_paise <$> wallets d !! alice_wallet) = Some 700 ∧
  (w_balance_paise <$> wallets d !! bob_wallet) = Some 300.
Proof.
  split; [intros Hi; by apply (calm_no_infra calm_env)|]. split; [by exists 1%nat|]. vm_compute. by split_and!.
Qed.

(** Tables where a paisa is missing. *)
Definition unbalanced : db :=
  MkDb (users bank) (alter (add_balance (-1) 0) alice_wallet (wallets bank)) (transfers bank)
    (ledger_entries bank) (mints bank).

Lemma no_false_alarm_witness :
  ∃ h : list db,
  (∀ t e, sys_threads crowded !! 3%nat = Some t → e ∈ trace (th_world t) →
     (∃ d, d ∈ h ∧ e = EvMetric (TotalBalanceSet (float64_of_int64 (map_sum (λ _, w_balance_paise) (wallets d))))) ∨
     e = EvMetric (LedgerSumSet 0)) ∧
  (∃ ops w, finished crowded 2 ops w ∧
    ((status_of ops = StatusOK ∧ ∃ d inv, d ∈ h ∧ inv = audit_of d ∧ WriteBody (PInvariants inv) ∈ ops ∧
        Invariants.AllHold inv = true ∧ Invariants.LedgerSumPaise inv = 0 ∧
        Invariants.TotalBalancePaise inv = Invariants.TotalMintedPaise inv) ∨
     (status_of ops = StatusInternalServerError ∧
        (infra (env_choice calm_env) ∨ ∃ d, d ∈ h ∧ audit_fits d = false)))) ∧
  (∃ e, e ∈ trace (run calm_env 0 (sample_tick the_server) (start unbalanced)).1.2 ∧ alarm e).
Proof.
  destruct (reachable_run _ _ _ _ crowded_reachable) as [h Hh].
  destruct (no_false_alarm the_server (env_choice calm_env) token_bank crowd 1 1 h crowded
    wf_token_bank Hh) as (Hsampler & Haudit & Halarm). exists h. split; [exact Hsampler|]. split.
  - destruct (crowded_finished 2) as (ops & w & Hf); [lia|]. exists ops, w. split; [done|].
    exact (Haudit 2%nat auditor ops w eq_refl auditor_routed Hf).
  - specialize (Halarm calm_env unbalanced ltac:(done)).
    destruct (run calm_env 0 (sample_tick the_server) (start unbalanced)) as [[a w] n].
    apply Halarm. split; [vm_compute; reflexivity|]. intros [Hsum _]. vm_compute in Hsum. discriminate Hsum.
Defined.

(** Alice and Bob pay each other at once. *)
Definition two_tokens : db := spec_user bob (TokenHash "b") 2 token_bank.

Definition back_payer : incoming :=
  with_token "b" "POST" "/transfers" (transfer_text (uuid_out bob_wallet) (uuid_out alice_wallet) 5 "b").

Definition opposite : list incoming := [payer; back_payer].

Definition opposed : system :=
  run_moves (init two_tokens (process the_server opposite 1 1))
    (mjoin ((λ j, (λ i, (i, calm_env (3 * j + i))) <$> seq 0 3) <$> seq 0 12)).

Lemma opposed_reachable : reachable (env_choice calm_env) two_tokens (process the_server opposite 1 1) opposed.
Proof.
  apply run_moves_reachable, Forall_forall. intros m Hm. apply list_elem_of_join in Hm as (l & Hm & Hl).
  apply list_elem_of_fmap in Hl as (j & -> & _). apply list_elem_of_fmap in Hm as (i & -> & _). by eexists.
Qed.

(** In the middle of it both hold locks. *)
Example opposed_locks :
  (λ t, Nat.ltb 0 (length (locks_of (th_world t)))) <$> sys_threads opposed = [true; true; false].
Proof. vm_compute. reflexivity. Qed.

Lemma canonical_hex i : canonical (uuid_out i).
Proof. intros j Hj. rewrite uuid_out_in in Hj. by injection Hj as <-. Qed.

Lemma printed_canonical q from to :
  (∀ body, decode_transfer (in_request q) = Ok body →
     transferRequestBody.From body = uuid_out from ∧ transferRequestBody.To body = uuid_out to) →
  request_canonical q.
Proof. intros Hd _ body Hb. destruct (Hd body Hb) as [-> ->]. split; apply canonical_hex. Qed.

Lemma server_never_deadlocks_witness :
  Acc (λ σ2 σ1, step (env_choice calm_env) σ1 σ2) opposed ∧
  ((∀ i t, sys_threads opposed !! i = Some t → ∃ ops, th_prog t = Ret ops) ∨
   ∃ σ', step (env_choice calm_env) opposed σ').
Proof.
  apply (server_never_deadlocks the_server (env_choice calm_env) two_tokens opposite 1 1 opposed).
  - exists (calm_env 0), 0%nat. reflexivity.
  - constructor; [|constructor; [|constructor]].
    + apply (printed_canonical payer alice_wallet bob_wallet).
      intros body Hb. vm_compute in Hb. injection Hb as <-. split; vm_compute; reflexivity.
    + apply (printed_canonical back_payer bob_wallet alice_wallet).
      intros body Hb. vm_compute in Hb. injection Hb as <-. split; vm_compute; reflexivity.
  - apply opposed_reachable.
Defined.
End examples.
