(* ===== verification/Durability.v ===== *)
(** * What was acknowledged lasts

    A client that has the document of a transfer -- fresh, or marked as a
    replay -- has a row of the tables, for good: with its two ledger entries if
    it succeeded, and made once, by a request of the same user with the same
    key. *)

From Stdlib Require Import String.
From S2P Require Import Prelude GoStrings Errors Database Locks Obs Session Store Wallets Transfers.
From S2P Require Import InvariantAudit Ring Http Middleware Handlers Bodies Routing Api Process.
From S2P Require Import Accounting Wp TxLoop TransferSpec TransferProof WalletSpec WalletProof HandlerProof.
From S2P Require Import Concurrent Service ServerSpec ServerProof Fixtures TransferProps ServerProps ServerSafety.

#[local] Open Scope string_scope.
#[local] Open Scope Z_scope.
#[local] Open Scope list_scope.

Section recorded.
Context `{PgText}.

(** The document shows row [row] under [u]; the wallets may be spelled as the
    client did. *)
Record recorded (u : uuid) (row : transfer_row) (doc : Transfer.t) : Prop := {
  rc_id : Transfer.ID doc = uuid_out u;
  rc_status : Transfer.Status doc = t_status row;
  rc_reason : Transfer.DeclineReason doc = t_decline_reason row;
  rc_from : uuid_in (Transfer.FromWalletID doc) = Some (t_from_wallet_id row);
  rc_to : uuid_in (Transfer.ToWalletID doc) = Some (t_to_wallet_id row);
  rc_amount : Transfer.AmountPaise doc = t_amount_paise row;
  rc_key : Transfer.IdempotencyKey doc = t_idempotency_key row;
  rc_created : Transfer.CreatedAt doc = t_created_at row;
  rc_completed : Transfer.CompletedAt doc = t_completed_at row
}.

Lemma scan_recorded u row : recorded u row (scan_transfer u row).
Proof. split; try done; apply uuid_out_in. Qed.

Lemma performs_recorded a req doc b :
  performs a req doc b → ∃ u ru row, uuid_in (TransferRequest.RequesterUserID req) = Some ru ∧
    transfers a !! u = None ∧ transfers b !! u = Some row ∧ transfer_key row = (ru, TransferRequest.IdempotencyKey req) ∧ recorded u row doc.
Proof.
  intros [u ru fu tu rf rt now Hres Hcl _ _|u ru fu tu rf now Hres Hcl _ _]; exists u, ru; eexists;
    (split_and!; [apply Hres|apply Hcl|apply lookup_insert_eq|done|]); split; try done; apply Hres.
Qed.

(** The one row a transfer adds. *)
Lemma performs_adds a req doc b u row :
  performs a req doc b → transfers a !! u = None → transfers b !! u = Some row →
  ∃ ru, uuid_in (TransferRequest.RequesterUserID req) = Some ru ∧
    transfer_key row = (ru, TransferRequest.IdempotencyKey req).
Proof.
  intros Hp Ha Hb. destruct Hp as [v ru fu tu rf rt now Hres _ _ _|v ru fu tu rf now Hres _ _ _]; exists ru;
    (split; [apply Hres|]); simpl in Hb; apply lookup_insert_Some in Hb as [[_ <-]|[_ Hb]]; try done; congruence.
Qed.

(** The change from [a] to [b] made row [row]. *)
Definition makes (u : uuid) (row : transfer_row) (a b : db) : Prop :=
  transfers a !! u = None ∧ transfers b !! u = Some row.

(** A row is there from the beginning, or a thread committed it. *)
Lemma row_made {A} C d0 (ps : list (prog A)) Q σ u row :
  wf_db d0 → (∀ i p, ps !! i = Some p → wp C (rely_on anything) p (Q i) (start d0)) →
  reachable C d0 ps σ → transfers (sys_db σ) !! u = Some row →
  transfers d0 !! u = Some row ∨
  ∃ j t a b, sys_threads σ !! j = Some t ∧ (a, b) ∈ commits (th_world t) ∧ makes u row a b.
Proof.
  intros Hwf Hps. induction 1 as [|σ σ' Hr IH Hst]; [by left|]. intros Hrow.
  assert (Hg : grows (sys_db σ) (sys_db σ')) by (eapply step_grows; [by eapply reachable_inv|done|done]).
  destruct Hst as [d ths i B c k w ch Hi HC w0 r w' Hgt]. cbn [sys_db sys_threads] in *.
  pose proof (exec_cmd_commits ch w0 c) as Hc. fold w' in Hc. change (commits w0) with (commits w) in Hc.
  change (committed w0) with d in Hc.
  assert (Hkeep : ∀ a b, (a, b) ∈ commits w → (a, b) ∈ commits w').
  { intros a b Hab. destruct Hc as [[-> _]| ->]; [done|by right]. }
  destruct (transfers d !! u) as [row0|] eqn:Hd.
  - assert (row0 = row) as ->.
    { pose proof (lookup_weaken _ _ _ _ Hd (grows_transfers _ _ Hg)) as Hd'. congruence. }
    destruct (IH eq_refl) as [|(j & t & a & b & Ht & Hab & Hm)]; [by left|right].
    destruct (decide (j = i)) as [->|Hj].
    + rewrite Hi in Ht. injection Ht as <-. exists i, (MkThread (k r) w'), a, b.
      split; [by eapply list_lookup_insert_eq, lookup_lt_Some|]. split; [by apply Hkeep|done].
    + exists j, t, a, b. split; [by rewrite list_lookup_insert_ne|done].
  - destruct Hc as [[_ Hc]|Hc]; [congruence|]. right. exists i, (MkThread (k r) w'), d, (committed w').
    split; [by eapply list_lookup_insert_eq, lookup_lt_Some|]. split; [cbn [th_world]; rewrite Hc; by left|by split].
Qed.
End recorded.

(** ** From an answer to its row *)

Section acknowledged.
Context `{PgText} (C : choice → Prop) (s : Server).

Lemma writeError_no_transfer r status code msg doc : WriteBody (PTransfer doc) ∉ writeError r status code msg.
Proof. unfold writeError, writeJSON. set_solver. Qed.

Lemma answers_transfer r res ops doc :
  answers r res ops → WriteBody (PTransfer doc) ∈ ops →
  res.2 = None ∧ TransferResult.Transfer res.1 = doc.
Proof.
  destruct res as [t [e|]]; simpl.
  - intros (code & msg & ->) Hin. by apply writeError_no_transfer in Hin.
  - intros ->. unfold writeJSON. destruct (TransferResult.Replay t); set_solver.
Qed.

(** The request that row [row] answers, on tables [d]: it asks for what the row
    holds, and its wallets are there. *)
Record asks_for (d : db) (uid : uuid) (body : transferRequestBody.t) (row : transfer_row) : Prop := {
  af_key : transfer_key row = (uid, transferRequestBody.IdempotencyKey body);
  af_amount : ∃ n, validate body = Ok n ∧ sound_request (transfer_req (User.Mk (uuid_out uid)) body n) ∧
    t_request_fingerprint row = Fingerprint (transferRequestBody.From body) (transferRequestBody.To body) n;
  af_owner : owns (User.Mk (uuid_out uid)) d body;
  af_destination : names_destination d body
}.

Lemma names_destination_grows d d' body : grows d d' → names_destination d body → names_destination d' body.
Proof.
  intros Hg. unfold names_destination. destruct (uuid_in _) as [i|]; [|by intros []].
  by apply grows_wallet_some.
Qed.

Lemma asks_for_grows d d' uid body row : grows d d' → asks_for d uid body row → asks_for d' uid body row.
Proof. intros Hg []. split; eauto using owns_grows, names_destination_grows. Qed.

Lemma performs_fingerprint a req doc b u row :
  performs a req doc b → transfers a !! u = None → transfers b !! u = Some row →
  t_request_fingerprint row =
    Fingerprint (TransferRequest.FromWalletID req) (TransferRequest.ToWalletID req) (TransferRequest.AmountPaise req) ∧
  sound_request req.
Proof.
  intros Hp Ha Hb. destruct Hp as [v ru fu tu rf rt now Hres Hcl _ _|v ru fu tu rf now Hres Hcl _ _];
    (split; [|by exists ru, fu, tu; split_and!; [done|apply Hcl|apply Hcl]]); simpl in Hb; apply lookup_insert_Some in Hb as [[_ <-]|[_ Hb]]; try done; congruence.
Qed.

(** The document a handled request shows is that of a row, in tables the
    request saw or made; [d1] are the tables of its checks. *)
Lemma handled_shown P uid r ops cs doc :
  handled C P (User.Mk (uuid_out uid)) r ops cs → WriteBody (PTransfer doc) ∈ ops →
  ∃ body u row d d1, decode_transfer r = Ok body ∧ transfers d !! u = Some row ∧ recorded u row doc ∧
    (P d ∨ ∃ a, (a, d) ∈ cs) ∧ P d1 ∧ asks_for d1 uid body row.
Proof.
  intros [err Hd|body code msg Hd Hv|body n ops' Hd Hv Href|body n d1 res ops' cs' Hd Hv HP1 Hown Hdest Hout Hans] Hin;
    try (by apply writeError_no_transfer in Hin).
  { exfalso. destruct Href; by apply writeError_no_transfer in Hin. }
  destruct (answers_transfer _ _ _ _ Hans Hin) as [Hok Hdoc]. exists body.
  assert (Huid : ∀ ru, uuid_in (uuid_out uid) = Some ru → ru = uid)
    by (intros ru Hru; rewrite uuid_out_in in Hru; by injection Hru).
  destruct Hout as [Heq|x e HPx Hrej|e Hi He|x doc' y HPx Hp|x doc' y e HPx Hp Hi He|x j row HPx Hk Hfp Hsd|x j row HPx Hk _];
    simpl in Hok, Hdoc; try done; subst doc.
  - destruct (performs_recorded _ _ _ _ Hp) as (u & ru & row & Hru & Hnone & Hrow & Hkey & Hrec).
    destruct (performs_fingerprint _ _ _ _ _ _ Hp Hnone Hrow) as [Hfp Hsd].
    apply Huid in Hru as ->. exists u, row, y, d1. split_and!; try done; [right; exists x; by left|].
    split; [done|by exists n|done|done].
  - destruct Hk as (ru & Hru & Hrow & Hkey). apply Huid in Hru as ->.
    exists j, row, x, d1. split_and!; [done|done|apply scan_recorded|left; apply HPx|done|].
    split; [done|by exists n|done|done].
Qed.

Context (d0 : db) (l : list incoming) (every_ns : Z) (ticks : nat) (h : list db) (σ : system (A := list write_op)).
Context (Hwf : wf_db d0) (Hrun : run_of C d0 (process s l every_ns ticks) h σ).

Lemma committed_grows i t a b : sys_threads σ !! i = Some t → (a, b) ∈ commits (th_world t) → grows b (sys_db σ).
Proof.
  intros Ht. pose proof (process_inv C s d0 l every_ns ticks Hwf σ (run_reachable _ _ _ _ _ Hrun)) as [_ _ Hths _].
  apply (ti_commits _ _ _ _ _ _ (Hths i t Ht)).
Qed.

Lemma seen_grows d0' x : grows d0' (sys_db σ) → seen (λ d, d ∈ h) d0' x → grows x (sys_db σ).
Proof.
  intros Hg [_ [Hx| ->]]; [|done].
  exact (run_grows C (λ d, d ∈ h) d0 _ _ Hwf (process_threads C s d0 l every_ns ticks Hwf _) h σ Hrun
    (λ _ Hd, Hd) x Hx).
Qed.

(** The wrapper and the authentication keep the body. *)
Lemma decode_same r r' : rq_body r = rq_body r' → decode_transfer r = decode_transfer r'.
Proof. intros Hb. unfold decode_transfer, decodeJSON. by rewrite Hb. Qed.

(** The row behind an answer is in the tables. *)
Lemma acknowledged_row i q ops w doc :
  l !! i = Some q → routes_to q ECreateTransfer → finished σ i ops w → WriteBody (PTransfer doc) ∈ ops →
  ∃ token uid body u row, token_of q = Some token ∧ bearer (sys_db σ) token uid ∧
    decode_transfer (in_request q) = Ok body ∧ transfers (sys_db σ) !! u = Some row ∧ recorded u row doc ∧
    asks_for (sys_db σ) uid body row.
Proof.
  intros Hq (text & ids & Hf) Hfin Hin.
  pose proof (process_finished C s d0 l every_ns ticks Hwf h σ i q ops w Hrun Hq Hfin) as Hserved.
  apply (served_body _ _ _ _ _ _ _ _ Hserved) in Hin as (inner & Hs & Hin); [|done].
  unfold route_served in Hs. rewrite Hf in Hs. cbn [endpoint_served] in Hs.
  pose proof (λ a b, committed_grows i _ a b Hfin) as Hcs. cbn [th_world] in Hcs.
  remember (commits w) as all eqn:Hall.
  clear Hserved Hfin. destruct Hs as [Ht|token d uid d' inner cs Ht Hd Hh Hn|token d ch row Ht Hd HC Hu|Hi|token d uid d' Ht Hd Hh Hi];
    try (by apply writeError_no_transfer in Hin).
  destruct (handled_shown _ _ _ _ _ _ Hn Hin) as (body & u & row & x & d1 & Hdec & Hrow & Hrec & Hx & Hd1 & Hasks).
  assert (Hg' : grows d' (sys_db σ)) by (apply (Hcs d), elem_of_app; right; by left).
  assert (Hgx : grows x (sys_db σ)).
  { destruct Hx as [Hx|[a Ha]]; [by eapply seen_grows|]. apply (Hcs a), elem_of_app. by left. }
  rewrite (decode_same (authenticated_request (inner_request q)) (in_request q) eq_refl) in Hdec.
  assert (Hg1 : grows d1 (sys_db σ)) by (eapply seen_grows; [exact Hg'|exact Hd1]).
  exists token, uid, body, u, row. split; [exact Ht|]. split.
  { eapply bearer_grows; [exact Hg'|by eapply holds_user_bearer]. }
  split; [exact Hdec|].
  split; [eapply lookup_weaken; [exact Hrow|apply Hgx]|]. split; [exact Hrec|by eapply asks_for_grows].
Qed.

(** Who made a row: a request for that transfer, of its user. *)
Lemma maker_of i t a b u row :
  sys_threads σ !! i = Some t → (a, b) ∈ commits (th_world t) → makes u row a b →
  ∃ q token uid body, l !! i = Some q ∧ routes_to q ECreateTransfer ∧ token_of q = Some token ∧
    bearer (sys_db σ) token uid ∧ decode_transfer (in_request q) = Ok body ∧
    transfer_key row = (uid, transferRequestBody.IdempotencyKey body).
Proof.
  intros Ht Hab [Ha Hb].
  destruct (permitted_at s C d0 l every_ns ticks σ i t a b Hwf (run_reachable _ _ _ _ _ Hrun) Ht Hab)
    as (q & token & Hq & Htok & Hp). exists q, token.
  destruct Hp as [e Hre He Had ->|e v now Hre He Hv Hn ->|uid v now Hre Hbr Hv Hn ->
    |uid body amount doc Hre Hbr Hd Hval Hown Hperf|wl k n wid v rw now Hre Had Hask Hwid Hm ->];
    try (simpl in Hb; congruence).
  destruct (performs_adds _ _ _ _ _ _ Hperf Ha Hb) as (ru & Hru & Hkey). simpl in Hru, Hkey.
  rewrite uuid_out_in in Hru. injection Hru as <-. exists uid, body. split_and!; try done.
  eapply bearer_grows; [|exact Hbr]. etrans; [by eapply performs_grows|by eapply committed_grows].
Qed.
End acknowledged.

(** ** The property *)

(** C5: What was acknowledged lasts: whenever a POST /transfers has been answered
    with a document -- fresh or a replay, and however much else the process has
    done since -- the tables hold its row: the same status, reason, amount, key
    and times, the same wallets, under the bearer's user and the key of the
    body, with one debit and one credit in the ledger if it succeeded and none
    if it was declined.  The row was there before the run, or it was made in
    it by a request of that user with that key, and by no other thread. *)
Theorem acknowledged_durable `{PgText} C s d0 l every_ns ticks h σ i q ops w doc :
  wf_db d0 → run_of C d0 (process s l every_ns ticks) h σ →
  l !! i = Some q → routes_to q ECreateTransfer → finished σ i ops w → WriteBody (PTransfer doc) ∈ ops →
  let d := sys_db σ in
  ∃ token uid body u row,
    token_of q = Some token ∧ bearer d token uid ∧ decode_transfer (in_request q) = Ok body ∧
    transfers d !! u = Some row ∧ recorded u row doc ∧
    transfer_key row = (uid, transferRequestBody.IdempotencyKey body) ∧
    entries_of d u = expected_entries u row ∧
    (transfers d0 !! u = Some row ∨
     ∃ j t a b q' token' body',
       sys_threads σ !! j = Some t ∧ (a, b) ∈ commits (th_world t) ∧ makes u row a b ∧
       l !! j = Some q' ∧ routes_to q' ECreateTransfer ∧ token_of q' = Some token' ∧ bearer d token' uid ∧
       decode_transfer (in_request q') = Ok body' ∧
       transferRequestBody.IdempotencyKey body' = transferRequestBody.IdempotencyKey body ∧
       ∀ k t' a' b', k ≠ j → sys_threads σ !! k = Some t' → (a', b') ∈ commits (th_world t') → ¬ makes u row a' b').
Proof.
  intros Hwf Hr Hq Hre Hfin Hin d.
  destruct (acknowledged_row C s d0 l every_ns ticks h σ Hwf Hr i q ops w doc Hq Hre Hfin Hin)
    as (token & uid & body & u & row & Htok & Hb & Hdec & Hrow & Hrec & [Hkey _ _ _]).
  exists token, uid, body, u, row. apply run_reachable in Hr as Hreach.
  destruct (process_inv C s d0 l every_ns ticks Hwf σ Hreach) as [Hwf' _ _ Hord].
  split_and!; try done; [by apply Hwf'|].
  destruct (row_made C d0 _ _ σ u row Hwf (process_threads C s d0 l every_ns ticks Hwf _) Hreach Hrow)
    as [|(j & t & a & b & Ht & Hab & Hm)]; [by left|right].
  destruct (maker_of C s d0 l every_ns ticks h σ Hwf Hr j t a b u row Ht Hab Hm)
    as (q' & token' & uid' & body' & Hq' & Hre' & Htok' & Hb' & Hdec' & Hkey').
  rewrite Hkey in Hkey'. injection Hkey' as -> Hk. exists j, t, a, b, q', token', body'. split_and!; try done.
  intros k t' a' b' Hkj Ht' Hab' [Ha' Hb2]. destruct Hm as [Ha Hb1].
  destruct (Hord j k t t' a b a' b' ltac:(done) Ht Ht' Hab Hab') as [Hg|Hg].
  - pose proof (lookup_weaken _ _ _ _ Hb1 (grows_transfers _ _ Hg)). congruence.
  - pose proof (lookup_weaken _ _ _ _ Hb2 (grows_transfers _ _ Hg)). congruence.
Qed.

Section examples.
#[local] Existing Instance hex_text.

Definition is_document (op : write_op) : bool :=
  match op with WriteBody (PTransfer _) => true | _ => false end.

(** The document Alice's laptop is shown. *)
Lemma crowded_document i :
  option_map (λ x, existsb is_document x.1) (result_of crowded i) = Some true →
  ∃ ops w doc, finished crowded i ops w ∧ WriteBody (PTransfer doc) ∈ ops.
Proof.
  destruct (result_of crowded i) as [[ops w]|] eqn:Hres; [|done]. apply result_of_finished in Hres.
  intros [= Hd]. apply existsb_exists in Hd as (op & Hop%list_elem_of_In & Hd).
  destruct op as [| |p| |]; try discriminate Hd. destruct p as [| |doc| | | | | | | | | | | |]; try discriminate Hd.
  exists ops, w, doc. by split.
Qed.

Lemma acknowledged_durable_witness :
  ∃ ops w doc, finished crowded 1 ops w ∧ WriteBody (PTransfer doc) ∈ ops ∧
  ∃ uid u row, transfers (sys_db crowded) !! u = Some row ∧ recorded u row doc ∧
    transfer_key row = (uid, "k") ∧ entries_of (sys_db crowded) u = expected_entries u row.
Proof.
  destruct (crowded_document 1) as (ops & w & doc & Hf & Hin); [vm_compute; reflexivity|]. exists ops, w, doc. split; [done|]. split; [done|].
  destruct (reachable_run _ _ _ _ crowded_reachable) as [h Hh].
  destruct (acknowledged_durable (env_choice calm_env) the_server token_bank crowd 1 1 h crowded 1 payer ops w doc
    wf_token_bank Hh eq_refl payer_routed Hf Hin)
    as (token & uid & body & u & row & _ & _ & Hdec & Hrow & Hrec & Hkey & Hent & _).
  exists uid, u, row. vm_compute in Hdec. injection Hdec as <-. by split_and!.
Defined.
End examples.
