(* ===== verification/Freshness.v ===== *)
(** * Real time: a request acts between its arrival and its answer

    A request that arrives later is served on later tables: every read it
    makes, and every change, is of the run between its arrival and its answer.
    What one client was told, the next request therefore finds. *)

From Stdlib Require Import String.
From S2P Require Import Prelude GoStrings Errors Database Locks Obs Session Store Wallets Transfers.
From S2P Require Import InvariantAudit Ring Http Middleware Handlers Bodies Routing Api Process.
From S2P Require Import Accounting Wp TxLoop TransferSpec TransferProof WalletSpec WalletProof HandlerProof.
From S2P Require Import Concurrent Service ServerSpec ServerProof Fixtures TransferProps ServerProps ServerSafety.
From S2P Require Import Durability.

#[local] Open Scope string_scope.
#[local] Open Scope Z_scope.
#[local] Open Scope list_scope.

Section fresh.
Context `{PgText} (C : choice → Prop) (s : Server).
Context (d0 : db) (l : list incoming) (every_ns : Z) (ticks : nat).
Context (Hwf : wf_db d0).

(** Request [q] has arrived, on thread [j], and nothing of it was done. *)
Definition arrived (σ : system (A := list write_op)) (j : nat) (q : incoming) : Prop :=
  sys_threads σ !! j = Some (MkThread (serve_one s q) (start d0)).

Context (σ1 : system (A := list write_op)).
Context (Hr1 : reachable C d0 (process s l every_ns ticks) σ1).
Context (j : nat) (q : incoming) (h : list db) (σ : system (A := list write_op)) (ops : list write_op) (w : world).
Context (Harr : arrived σ1 j q) (Hrun : run_from C σ1 h σ) (Hfin : finished σ j ops w).

Lemma fresh_wf : wf_db (sys_db σ1).
Proof. by destruct (process_inv C s d0 l every_ns ticks Hwf σ1 Hr1). Qed.

Lemma fresh_served : served C s (λ d, d ∈ h) (sys_db σ1) q ops (commits w).
Proof.
  assert (Hwp : wp C (rely_on (λ d, d ∈ h)) (serve_one s q)
    (λ ops w, served C s (λ d, d ∈ h) (sys_db σ1) q ops (commits w)) (start (sys_db σ1))).
  { eapply wp_mono, (wp_serve_one C (rely_on (λ d, d ∈ h))) with (E := λ d, d ∈ h) (d0 := sys_db σ1);
      [|by intros ls d d' [? _]|by intros ls d d' [_ ?]|done|by apply seen_refl, fresh_wf].
    intros o w' (_ & cs & Hc & Hq). simpl in Hc. rewrite app_nil_r in Hc. by rewrite Hc. }
  by destruct (later_finished C d0 _ _ Hwf (process_threads C s d0 l every_ns ticks Hwf _) (λ d, d ∈ h)
    _ j (serve_one s q) σ1 h σ ops w Hr1 Harr Hwp Hrun (λ _ Hd, Hd) Hfin).
Qed.

Lemma fresh_grows : grows (sys_db σ1) (sys_db σ).
Proof.
  eapply (run_from_grows C d0 _ _ Hwf (process_threads C s d0 l every_ns ticks Hwf _)); [exact Hr1|exact Hrun|].
  by eapply run_first.
Qed.

Lemma fresh_seen x : seen (λ d, d ∈ h) (sys_db σ1) x → grows x (sys_db σ).
Proof.
  intros [_ [Hx| ->]]; [|apply fresh_grows].
  by eapply (run_from_grows C d0 _ _ Hwf (process_threads C s d0 l every_ns ticks Hwf _)).
Qed.

Lemma fresh_commits a b : (a, b) ∈ commits w → ∃ h1 h2, h = h1 ++ a :: b :: h2.
Proof.
  intros Hab. destruct (run_commits C σ1 h σ j _ a b Hrun Hfin Hab) as [(t & Ht & Ht')|]; [|done].
  unfold arrived in Harr. rewrite Harr in Ht. injection Ht as <-. by apply not_elem_of_nil in Ht'.
Qed.
End fresh.

Lemma seen_seen E d0 d x : seen E d0 d → seen E d x → seen E d0 x.
Proof.
  intros [[Hw Hg] Hd] [[Hw' Hg'] [Hx| ->]]; [|by split]. split; [|by left]. split; [done|by etrans].
Qed.

(** ** A client that is known, a key that is used *)

Section known.
Context `{PgText} (C : choice → Prop).

(** An id the environment may generate is taken. *)
Definition id_clash (d : db) : Prop :=
  ∃ ch, C ch ∧ (is_Some (users d !! ch_uuid ch) ∨ is_Some (transfers d !! ch_uuid ch)).

Lemma id_clash_grows d d' : grows d d' → id_clash d → id_clash d'.
Proof.
  intros [Hu _ Ht _ _] (ch & HC & Hch). exists ch. split; [done|].
  destruct Hch as [Hch|Hch]; [left|right]; by eapply lookup_weaken_is_Some.
Qed.

(** A token that has its user resolves to that user, and nothing is changed. *)
Lemma known_bearer E d0 r B ops cs token uid :
  bearer d0 token uid → bearerToken r = Some token → authenticated C E d0 r B ops cs →
  (∃ d cs', cs = cs' ++ [(d, d)] ∧ seen E d0 d ∧ B d uid (authenticated_request r) ops cs') ∨
  (status_of ops = StatusInternalServerError ∧ infra C ∧ unmoved cs).
Proof.
  intros Hb Htok Hau.
  destruct Hau as [Ht|token' d i d' ops cs Ht Hd Hh Hn|token' d ch row Ht Hd HC Hu Hnone|Hi|token' d i d' Ht Hd Hh Hi];
    [congruence|..]; try (rewrite Htok in Ht; injection Ht as <-).
  - pose proof (bearer_grows _ _ _ _ (proj2 (proj1 Hd)) Hb) as Hb'. left.
    destruct Hh as [i row Hi Hh|u now Hu Hnone].
    + replace i with uid in Hn by (eapply bearer_unique; [apply Hd|exact Hb'|by exists row]). by eexists _, _.
    + destruct Hb' as (row & Hrow & Hrh). by destruct (Hnone uid row Hrow).
  - destruct (bearer_grows _ _ _ _ (proj2 (proj1 Hd)) Hb) as (row' & Hrow & Hrh). by destruct (Hnone uid row' Hrow).
  - right. split_and!; [by apply status_of_writeError|done|constructor].
  - right. split_and!; [by apply status_of_writeError|done|]. repeat constructor; by eapply holds_user_same.
Qed.

Lemma asks_for_taken d uid body row u n :
  transfers d !! u = Some row → asks_for d uid body row →
  key_taken d (transfer_req (User.Mk (uuid_out uid)) body n) u row.
Proof. intros Hrow [Hkey _ _ _]. exists uid. split_and!; [apply uuid_out_in|done|done]. Qed.

(** Nothing but a clash of ids stands against the INSERT of a sound request
    whose key is taken. *)
Lemma taken_rejected d req e u row :
  sound_request req → key_taken d req u row → rejected C d req e → ∃ p, e = EPg p ∧ id_clash d.
Proof.
  intros (ru & fu & tu & Hres & Hpos & Hne) Hk Hrej. destruct Hres as [Htk Hru Hfu Htu].
  destruct Hrej as [Ht|Hm|ru' fu' tu' now c Hres' Hc|ch r HC Hr|ru' fu' tu' Hres' _ _ Hfree _|ru' fu' tu' rf rt Hres' _ Hfree _ _ _ _].
  - pose proof (uuid_in_text _ _ Hru). pose proof (uuid_in_text _ _ Hfu). pose proof (uuid_in_text _ _ Htu).
    intuition congruence.
  - intuition congruence.
  - destruct Hres' as [_ Hru' Hfu' Htu'].
    assert (ru' = ru ∧ fu' = fu ∧ tu' = tu) as (-> & -> & ->) by (split_and!; congruence).
    by rewrite (proj2 (check_claim_row_None req ru fu tu now) (conj Hpos Hne)) in Hc.
  - eexists. split; [done|]. exists ch. split; [done|]. right. by exists r.
  - exfalso. eapply key_taken_not_free; [apply Hres'|exact Hk|exact Hfree].
  - exfalso. eapply key_taken_not_free; [apply Hres'|exact Hk|exact Hfree].
Qed.

(** The checks that passed pass again. *)
Lemma retry_refused P d r uid body row ops :
  (∀ x, P x → wf_db x ∧ grows d x) → asks_for d uid body row →
  refusal C P (User.Mk (uuid_out uid)) r body ops →
  status_of ops = StatusInternalServerError ∧ (infra C ∨ ∃ x, P x ∧ id_clash x).
Proof.
  intros HP Hasks Href.
  destruct Href as [x msg HPx Hn|x i row' msg HPx Hi Hrow Hne|x msg HPx Hn|msg Ht|msg Hi].
  1-3: exfalso; destruct (asks_for_grows _ _ _ _ _ (proj2 (HP x HPx)) Hasks) as [_ _ (fu & rf & Hfu & Hrf & Ho) Hto].
  - rewrite Hfu in Hn. simpl in Hn. congruence.
  - congruence.
  - unfold names_destination in Hto. rewrite Hn in Hto. by destruct Hto.
  - exfalso. destruct Hasks as [_ (n & _ & (ru & fu & tu & [_ _ Hfu Htu] & _) & _) _ _]. simpl in Hfu, Htu.
    pose proof (uuid_in_text _ _ Hfu). pose proof (uuid_in_text _ _ Htu). intuition congruence.
  - split; [by apply status_of_writeError|by left].
Qed.

Lemma validate_distinct body n :
  validate body = Ok n → transferRequestBody.From body ≠ transferRequestBody.To body.
Proof.
  unfold validate. destruct body as [from to amount key]. simpl.
  destruct (String.eqb_spec from to) as [->|]; [|done]. by repeat case_match.
Qed.

(** A retry of a request that has its row: the row once more, or a failure. *)
Lemma retry_handled P d r uid body row u ops cs :
  (∀ x, P x → wf_db x ∧ grows d x) → transfers d !! u = Some row → asks_for d uid body row →
  decode_transfer r = Ok body → handled C P (User.Mk (uuid_out uid)) r ops cs →
  cs = [] ∧
  (ops = SetHeader "Idempotent-Replay" "true" :: writeJSON StatusCreated (PTransfer (scan_transfer u row)) ∨
   (status_of ops = StatusInternalServerError ∧ (infra C ∨ ∃ x, P x ∧ id_clash x))).
Proof.
  intros HP Hrow Hasks Hdec Hh. pose proof Hasks as [_ (n & Hval & Hsound & Hfp) _ _].
  destruct Hh as [err Hd|body' code msg Hd Hv|body' n' ops' Hd Hv Href|body' n' d1 res ops' cs' Hd Hv HP1 _ _ Hout Hans];
    rewrite Hdec in Hd; [done|..]; injection Hd as <-; [congruence|..]; rewrite Hval in Hv; injection Hv as <-.
  { split; [done|]. right. by eapply retry_refused. }
  assert (Htaken : ∀ x, P x ∧ grows d1 x → wf_db x ∧ key_taken x (transfer_req (User.Mk (uuid_out uid)) body n) u row).
  { intros x [[Hwf Hg]%HP _]. split; [done|]. apply asks_for_taken; [|by eapply asks_for_grows].
    eapply lookup_weaken; [exact Hrow|apply Hg]. }
  destruct Hout as [Heq|x e HPx Hrej|e Hi He|x doc y HPx Hperf|x doc y e HPx Hperf Hi He|x i r' HPx Hk _ _|x i r' HPx Hk Hne _].
  - exfalso. by eapply validate_distinct.
  - destruct (Htaken x HPx) as [_ Hk]. destruct (taken_rejected _ _ _ _ _ Hsound Hk Hrej) as (p & -> & Hcl).
    split; [done|]. right. destruct Hans as (code & msg & ->). split; [by apply status_of_writeError|].
    right. exists x. split; [apply HPx|done].
  - split; [done|]. right. destruct Hans as (code & msg & ->). rewrite (transfer_status_env e _ He).
    split; [by apply status_of_writeError|by left].
  - exfalso. eapply performs_key_free; [exact Hperf|apply Htaken, HPx].
  - exfalso. eapply performs_key_free; [exact Hperf|apply Htaken, HPx].
  - destruct (Htaken x HPx) as [Hwf Hk']. destruct (key_taken_unique _ _ _ _ _ _ Hwf Hk Hk') as [-> ->].
    split; [done|by left].
  - exfalso. destruct (Htaken x HPx) as [Hwf Hk']. destruct (key_taken_unique _ _ _ _ _ _ Hwf Hk Hk') as [_ ->]. done.
Qed.
End known.

(** ** Reading a row *)

(** A row that is there is the one that is shown. *)
Lemma shown_row `{PgText} C P r ops u row :
  rq_id r = uuid_out u → (∀ x, P x → transfers x !! u = Some row) → transfer_shown C P r ops →
  ops = writeJSON StatusOK (PTransfer (scan_transfer u row)) ∨
  (status_of ops = StatusInternalServerError ∧ infra C).
Proof.
  intros Hid Hrow Hsh. pose proof (uuid_out_in u) as Hu.
  destruct Hsh as [d i row' HPd Hi Hr|d HPd Hn|Hw]; [left|exfalso|right]; rewrite Hid in *.
  - rewrite Hu in Hi. injection Hi as <-. pose proof (Hrow d HPd). congruence.
  - rewrite Hu in Hn. simpl in Hn. pose proof (Hrow d HPd). congruence.
  - split; [by apply status_of_writeError|]. destruct Hw as [Ht|]; [|done].
    by rewrite (uuid_in_text _ _ Hu) in Ht.
Qed.

(** ** The properties *)

(** C2: Requests take effect between arrival and answer (linearizability): in any
    run, for a request that arrives in a state [σ1] and is answered later, the
    answer and the commits are what [served] allows on tables that descend from
    those of its arrival, each of which was there at a moment from the arrival
    to the answer -- the tables [h]; and every change it committed is one move
    of that stretch, from one of its tables to the next.  From the start of the
    run, the server implements its specification, which says what a request may
    have committed when one of its log lines panics, and its answer then. *)
Theorem server_linearizable `{PgText} C s d0 l every_ns ticks σ1 j q h σ ops w :
  wf_db d0 → reachable C d0 (process s l every_ns ticks) σ1 → arrived s d0 σ1 j q →
  run_from C σ1 h σ → finished σ j ops w →
  served C s (λ d, d ∈ h) (sys_db σ1) q ops (commits w) ∧
  ∀ a b, (a, b) ∈ commits w → ∃ h1 h2, h = h1 ++ a :: b :: h2.
Proof.
  intros Hwf Hr Harr Hrun Hfin. split; [by eapply fresh_served|]. intros a b. by eapply fresh_commits.
Qed.

(** C6: A retry after the answer is a replay: once a POST /transfers has been
    answered with a document, a request that arrives later with the same token
    and the same body moves no money, and it is answered 201, marked as a
    replay, with the recorded row of that document -- unless the environment
    fails, or generates an id that is taken, or a log line of the retry panics
    (unexpected server error), which is a 500.  ([ending]: a panic of the access log line closes the
    connection after the answer is written.) *)
Theorem retry_replays `{PgText} C s d0 l every_ns ticks h1 σ1 i q ops w doc j q' h σ ops' w' :
  wf_db d0 → run_of C d0 (process s l every_ns ticks) h1 σ1 →
  l !! i = Some q → routes_to q ECreateTransfer → finished σ1 i ops w → WriteBody (PTransfer doc) ∈ ops →
  arrived s d0 σ1 j q' → routes_to q' ECreateTransfer → token_of q' = token_of q →
  decode_transfer (in_request q') = decode_transfer (in_request q) →
  run_from C σ1 h σ → finished σ j ops' w' →
  unmoved (commits w') ∧
  ((∃ u row, transfers (sys_db σ) !! u = Some row ∧ recorded u row doc ∧
      ∃ tail, ending q' tail ∧
      ops' = SetHeader correlationHeader (request_id q') ::
             (SetHeader "Idempotent-Replay" "true" :: writeJSON StatusCreated (PTransfer (scan_transfer u row))) ++ tail) ∨
   (status_of ops' = StatusInternalServerError ∧ (infra C ∨ id_clash C (sys_db σ) ∨ panicked q' ops'))).
Proof.
  intros Hwf Hrun1 Hq Hre Hfin1 Hin Harr (text & ids & Hf) Htok Hdec Hrun Hfin.
  destruct (acknowledged_row C s d0 l every_ns ticks h1 σ1 Hwf Hrun1 i q ops w doc Hq Hre Hfin1 Hin)
    as (token & uid & body & u & row & Ht & Hb & Hbody & Hrow & Hrec & Hasks).
  pose proof (run_reachable _ _ _ _ _ Hrun1) as Hr1.
  assert (Htok' : bearerToken (inner_request q') = Some token) by exact (eq_trans Htok Ht).
  assert (Hretry : ∀ d inner cs, seen (λ d, d ∈ h) (sys_db σ1) d →
    handled C (seen (λ d, d ∈ h) d) (User.Mk (uuid_out uid)) (authenticated_request (inner_request q')) inner cs →
    cs = [] ∧ (inner = SetHeader "Idempotent-Replay" "true" :: writeJSON StatusCreated (PTransfer (scan_transfer u row)) ∨
      (status_of inner = StatusInternalServerError ∧ (infra C ∨ id_clash C (sys_db σ))))).
  { intros d inner cs Hd Hh. assert (Hg : grows (sys_db σ1) d) by apply Hd.
    apply (retry_handled C _ d) with (body := body) (row := row) (u := u) in Hh as [-> Hans].
    - split; [done|]. destruct Hans as [->|[Hst [|(x & Hx & Hcl)]]]; [by left|by right; auto|right].
      split; [done|]. right. eapply id_clash_grows, Hcl.
      apply (fresh_seen C s d0 l every_ns ticks Hwf σ1 Hr1 h σ Hrun). by eapply seen_seen.
    - intros x [[Hx Hgx] _]. by split.
    - eapply lookup_weaken; [exact Hrow|apply Hg].
    - by eapply asks_for_grows.
    - rewrite <- Hbody, <- Hdec. by apply decode_same. }
  assert (Hkept : transfers (sys_db σ) !! u = Some row).
  { eapply lookup_weaken; [exact Hrow|]. apply (fresh_grows C s d0 l every_ns ticks Hwf σ1 Hr1 h σ Hrun). }
  destruct (fresh_served C s d0 l every_ns ticks Hwf σ1 Hr1 j q' h σ ops' w' Harr Hrun Hfin)
    as [inner tail cs Htail Hs|tail cs Htail Hp Hs].
  - unfold route_served in Hs. rewrite Hf in Hs. cbn [endpoint_served] in Hs.
    destruct (known_bearer _ _ _ _ _ _ _ _ _ Hb Htok' Hs) as [(d & cs' & -> & Hd & Hh)|(Hst & Hi & Hc)].
    + apply Hretry in Hh as [-> [->|[Hst Hwhy]]]; [..|done]; (split; [by repeat constructor|]); [left|right].
      * exists u, row. split_and!; [done|done|by exists tail].
      * rewrite status_of_wrapped by by eapply ending_tail. tauto.
    + split; [done|]. right. rewrite status_of_wrapped by (by eapply ending_tail). auto.
  - unfold route_cut in Hs. rewrite Hf in Hs. destruct Hs as (would & _ & Hs). cbn [endpoint_cut] in Hs. split.
    + destruct (known_bearer _ _ _ _ _ _ _ _ _ Hb Htok' Hs) as [(d & cs' & -> & Hd & [Hh| ->])|(_ & _ & Hc)];
        [apply Hretry in Hh as [-> _]; [|done]| |done]; by repeat constructor.
    + right. rewrite status_of_wrapped by (by eapply ending_tail). split; [done|]. right. right.
      split; [done|by exists tail].
Qed.

(** C7: Read your writes: once a POST /transfers has been answered with a
    document, a GET /transfers of the id in it that arrives later changes
    nothing but its caller's user row, and, whoever asks with a token, it is
    answered 200 with the recorded row of that document -- status, reason,
    wallets, amount, key and times -- unless the environment fails or generates
    an id that is taken, which is a 500; it is never a 404.  Without a token it
    is a 401.  ([ending]: a panic of the access log line closes the connection
    after the answer is written.) *)
Theorem read_your_transfer `{PgText} C s d0 l every_ns ticks h1 σ1 i q ops w doc j q' h σ ops' w' :
  wf_db d0 → run_of C d0 (process s l every_ns ticks) h1 σ1 →
  l !! i = Some q → routes_to q ECreateTransfer → finished σ1 i ops w → WriteBody (PTransfer doc) ∈ ops →
  arrived s d0 σ1 j q' → routes_to q' EGetTransfer → rq_id (inner_request q') = Transfer.ID doc →
  run_from C σ1 h σ → finished σ j ops' w' →
  unmoved (commits w') ∧
  ((token_of q' = None ∧ status_of ops' = StatusUnauthorized) ∨
   (∃ u row, transfers (sys_db σ) !! u = Some row ∧ recorded u row doc ∧
      ∃ tail, ending q' tail ∧
      ops' = SetHeader correlationHeader (request_id q') :: writeJSON StatusOK (PTransfer (scan_transfer u row)) ++ tail) ∨
   (status_of ops' = StatusInternalServerError ∧ (infra C ∨ id_clash C (sys_db σ)))).
Proof.
  intros Hwf Hrun1 Hq Hre Hfin1 Hin Harr (text & ids & Hf) Hid Hrun Hfin.
  destruct (acknowledged_row C s d0 l every_ns ticks h1 σ1 Hwf Hrun1 i q ops w doc Hq Hre Hfin1 Hin)
    as (token & uid & body & u & row & Ht & Hb & Hbody & Hrow & Hrec & Hasks).
  pose proof (run_reachable _ _ _ _ _ Hrun1) as Hr1. clear Hasks Hbody Hb Ht.
  pose proof (fresh_seen C s d0 l every_ns ticks Hwf σ1 Hr1 h σ Hrun) as Hlast.
  assert (Hkept : transfers (sys_db σ) !! u = Some row).
  { eapply lookup_weaken; [exact Hrow|]. apply (fresh_grows C s d0 l every_ns ticks Hwf σ1 Hr1 h σ Hrun). }
  assert (Hread : ∀ inner cs,
    authenticated C (λ d, d ∈ h) (sys_db σ1) (inner_request q')
      (λ d _ r ops cs, transfer_shown C (seen (λ d, d ∈ h) d) r ops ∧ cs = []) inner cs →
    unmoved cs ∧
    ((token_of q' = None ∧ status_of inner = StatusUnauthorized) ∨
     inner = writeJSON StatusOK (PTransfer (scan_transfer u row)) ∨
     (status_of inner = StatusInternalServerError ∧ (infra C ∨ id_clash C (sys_db σ))))).
  { intros inner cs Hs.
    destruct Hs as [Ht|tok d uid' d' inner cs Ht Hd Hh [Hn ->]|tok d ch row' Ht Hd HC Hu _|Hi|tok d uid' d' Ht Hd Hh Hi].
    - split; [constructor|]. left. by split.
    - split; [repeat constructor; by eapply holds_user_same|]. right.
      assert (Hgd : grows (sys_db σ1) d') by (destruct (holds_user_wf d _ _ _ (seen_wf _ _ _ Hd) Hh) as [_ [Hg _]];
        etrans; [apply Hd|exact Hg]).
      apply (shown_row C _ _ _ u row) in Hn as [->|[Hst Hi]]; [by left|right; by split; [|left]|..].
      + rewrite <- (rc_id _ _ _ Hrec). exact Hid.
      + intros x [[_ Hg] _]. eapply lookup_weaken; [exact Hrow|]. apply (grows_transfers _ _ (transitivity Hgd Hg)).
    - split; [constructor|]. right. right. split; [reflexivity|]. right.
      eapply id_clash_grows; [by apply Hlast|]. exists ch. split; [done|]. left. by exists row'.
    - split; [constructor|]. right. right. split; [reflexivity|by left].
    - split; [repeat constructor; by eapply holds_user_same|]. right. right.
      split; [reflexivity|by left]. }
  destruct (fresh_served C s d0 l every_ns ticks Hwf σ1 Hr1 j q' h σ ops' w' Harr Hrun Hfin)
    as [inner tail cs Htail Hs|tail cs Htail _ Hs].
  - unfold route_served in Hs. rewrite Hf in Hs. apply Hread in Hs as [Hc Hans]. split; [done|].
    rewrite status_of_wrapped by by eapply ending_tail.
    destruct Hans as [|[->|]]; [by left|right; left|by right; right]. exists u, row. split_and!; [done|done|by exists tail].
  - unfold route_cut in Hs. rewrite Hf in Hs. destruct Hs as (would & Hst & Hs). apply Hread in Hs as [Hc Hans].
    split; [done|]. right. right. rewrite status_of_wrapped by (by eapply ending_tail). split; [done|].
    cbn [may_log] in Hst. destruct Hans as [[_ Hw]|[->|[_ Hw]]]; [by rewrite Hst in Hw| |done].
    by rewrite status_of_writeJSON in Hst.
Qed.

(** ** At concrete inputs *)

Section examples.
#[local] Existing Instance hex_text.

(** Alice pays; when she has the answer she sends the same request again, and
    looks at the transfer. *)
Definition receipt_id : string := uuid_out (ch_uuid (calm_env 6)).

Definition reader : incoming := with_token "t" "GET" ("/transfers/" +:+ receipt_id) "".

Definition visits : list incoming := [payer; payer; reader].

Definition moves_of (i n m : nat) : list (nat * choice) := (λ j, (i, calm_env j)) <$> seq n m.

Definition first_paid : system := run_moves (init token_bank (process the_server visits 1 1)) (moves_of 0 0 60).

Definition all_answered : system := run_moves first_paid (moves_of 1 60 60 ++ moves_of 2 120 60).

Lemma calm_moves i n m : Forall (λ x, env_choice calm_env x.2) (moves_of i n m).
Proof. apply Forall_forall. intros x Hx. apply list_elem_of_fmap in Hx as (k & -> & _). by exists k. Qed.

Lemma first_paid_run :
  ∃ h, run_of (env_choice calm_env) token_bank (process the_server visits 1 1) h first_paid.
Proof. apply run_moves_from, calm_moves. Qed.

Lemma all_answered_run : ∃ h, run_from (env_choice calm_env) first_paid h all_answered.
Proof. apply run_moves_from. apply Forall_app. split; apply calm_moves. Qed.

(** Who comes later has arrived. *)
Lemma visit_arrived i q : i ≠ 0%nat → visits !! i = Some q → arrived the_server token_bank first_paid i q.
Proof.
  intros Hi Hq. unfold arrived, first_paid. rewrite run_moves_other.
  - unfold init, process, serving. cbn [sys_threads]. rewrite list_lookup_fmap, lookup_app_l;
      [by rewrite list_lookup_fmap, Hq|]. rewrite length_fmap. by eapply lookup_lt_Some.
  - apply Forall_forall. intros x Hx. apply list_elem_of_fmap in Hx as (k & -> & _). done.
Qed.

Lemma visit_answered i : (i < 3)%nat → ∃ ops w, finished all_answered i ops w.
Proof.
  intros Hi. assert (Hr : is_Some (result_of all_answered i)).
  { destruct i as [|[|[|]]]; [..|lia]; apply not_eq_None_Some; vm_compute; discriminate. }
  destruct Hr as [[ops w] Hr]. exists ops, w. by apply result_of_finished.
Qed.

Lemma first_document : ∃ ops w doc, finished first_paid 0 ops w ∧ WriteBody (PTransfer doc) ∈ ops ∧
  Transfer.ID doc = receipt_id.
Proof.
  assert (Hres : option_map (λ x, nth_error x.1 3) (result_of first_paid 0) = Some (Some (WriteBody (PTransfer
    (Transfer.Mk receipt_id "succeeded" None (uuid_out alice_wallet) (uuid_out bob_wallet) 300 "k" 1005 (Some 1005))))))
    by (vm_compute; reflexivity).
  destruct (result_of first_paid 0) as [[ops w]|] eqn:Hr; [|discriminate Hres]. apply result_of_finished in Hr.
  injection Hres as Hn. apply (nth_error_In ops 3), list_elem_of_In in Hn. eexists ops, w, _. split; [exact Hr|].
  split; [exact Hn|reflexivity].
Qed.

Lemma reader_routed : routes_to reader EGetTransfer.
Proof. eexists _, _. vm_compute. reflexivity. Qed.

Lemma server_linearizable_witness :
  ∃ (h : list db) ops w, finished all_answered 1 ops w ∧
    served (env_choice calm_env) the_server (λ d, d ∈ h) (sys_db first_paid) payer ops (commits w) ∧
    ∀ a b, (a, b) ∈ commits w → ∃ h1 h2, h = h1 ++ a :: b :: h2.
Proof.
  destruct first_paid_run as [h1 Hh1]. destruct all_answered_run as [h Hh].
  destruct (visit_answered 1) as (ops & w & Hf); [lia|]. exists h, ops, w. split; [exact Hf|].
  exact (server_linearizable (env_choice calm_env) the_server token_bank visits 1 1 first_paid 1 payer h all_answered ops w
    wf_token_bank (run_reachable _ _ _ _ _ Hh1) (visit_arrived 1 payer ltac:(discriminate) eq_refl) Hh Hf).
Defined.

Lemma retry_replays_witness :
  ∃ ops w doc, finished first_paid 0 ops w ∧ WriteBody (PTransfer doc) ∈ ops ∧
  ∃ ops' w', finished all_answered 1 ops' w' ∧ unmoved (commits w').
Proof.
  destruct first_paid_run as [h1 Hh1]. destruct all_answered_run as [h Hh].
  destruct first_document as (ops & w & doc & Hf & Hin & _). exists ops, w, doc. split; [exact Hf|]. split; [exact Hin|].
  destruct (visit_answered 1) as (ops' & w' & Hf'); [lia|]. exists ops', w'. split; [exact Hf'|].
  exact (proj1 (retry_replays (env_choice calm_env) the_server token_bank visits 1 1 h1 first_paid 0 payer ops w doc
    1 payer h all_answered ops' w' wf_token_bank Hh1 eq_refl payer_routed Hf Hin
    (visit_arrived 1 payer ltac:(discriminate) eq_refl) payer_routed eq_refl eq_refl Hh Hf')).
Defined.

Lemma read_your_transfer_witness :
  ∃ ops w doc, finished first_paid 0 ops w ∧ WriteBody (PTransfer doc) ∈ ops ∧
  ∃ ops' w', finished all_answered 2 ops' w' ∧ unmoved (commits w').
Proof.
  destruct first_paid_run as [h1 Hh1]. destruct all_answered_run as [h Hh].
  destruct first_document as (ops & w & doc & Hf & Hin & Hid). exists ops, w, doc. split; [exact Hf|]. split; [exact Hin|].
  destruct (visit_answered 2) as (ops' & w' & Hf'); [lia|]. exists ops', w'. split; [exact Hf'|].
  assert (Hrid : rq_id (inner_request reader) = Transfer.ID doc) by (rewrite Hid; vm_compute; reflexivity).
  exact (proj1 (read_your_transfer (env_choice calm_env) the_server token_bank visits 1 1 h1 first_paid 0 payer ops w doc
    2 reader h all_answered ops' w' wf_token_bank Hh1 eq_refl payer_routed Hf Hin
    (visit_arrived 2 reader ltac:(discriminate) eq_refl) reader_routed Hrid Hh Hf')).
Defined.
End examples.
