(* ===== verification/Funding.v ===== *)
(** * Funding

    What the admin minted: of the mints with one key at most one moves money,
    and what a mint acknowledged stays in the tables. *)

From Stdlib Require Import String.
From S2P Require Import Prelude GoStrings Errors Database Locks Obs Session Store Wallets Transfers.
From S2P Require Import InvariantAudit Ring JsonText Http Middleware Handlers Bodies Routing Api Process.
From S2P Require Import Accounting Wp TxLoop TransferSpec TransferProof WalletSpec WalletProof HandlerProof.
From S2P Require Import Concurrent Cmds Service ServerSpec ServerProof Fixtures TransferProps ServerProps ServerSafety.

#[local] Open Scope string_scope.
#[local] Open Scope Z_scope.
#[local] Open Scope list_scope.

Section funding.
Context `{PgText} (C : choice → Prop) (s : Server).

(** The minted row and the request for it. *)
Record funds (u : uuid) (m : mint_row) (walletID key : string) (n : Z) : Prop := {
  fu_key : m_idempotency_key m = key;
  fu_wallet : uuid_in walletID = Some (m_wallet_id m);
  fu_amount : m_amount_paise m = n
}.

Lemma mint_asked_unique r w k n w' k' n' :
  mint_asked r w k n → mint_asked r w' k' n' → w' = w ∧ k' = k ∧ n' = n.
Proof. intros [Hd _] [Hd' _]. rewrite Hd in Hd'. by injection Hd' as -> -> ->. Qed.

(** What a permitted change of a mint does: nothing to the money, or the mint
    that was asked for. *)
Lemma permitted_mint q token a b walletID key n :
  permitted s q token a b → routes_to q EMint → mint_asked (in_request q) walletID key n →
  same_money a b ∨
  ∃ u wid rw now, mintable a u (mint_claim key wid n now) rw ∧ uuid_in walletID = Some wid ∧
    b = spec_mint u (mint_claim key wid n now) a.
Proof.
  intros [e Hre He Had ->|e u now Hre He Hu Hn ->|uid u now Hre Hb Hu Hn ->
    |uid body amount doc Hre Hb Hd Hv Hown Hperf|w k n' wid u rw now Hre Had Hask' Hwid Hm ->] (text & ids & Hf) Hask;
    [by left|by left| | |right]; try (destruct Hre as (text' & ids' & Hf'); congruence).
  destruct (mint_asked_unique _ _ _ _ _ _ _ Hask Hask') as (-> & -> & ->). by exists u, wid, rw, now.
Qed.

(** A mint's key is free before it and taken after it. *)
Lemma mint_keys a u m rw d u' m' rw' :
  mintable a u m rw → grows (spec_mint u m a) d → mintable d u' m' rw' →
  m_idempotency_key m ≠ m_idempotency_key m'.
Proof.
  intros _ Hg Hm'. apply (mt_key _ _ _ _ Hm' u). eapply lookup_weaken; [|apply (grows_mints _ _ Hg)].
  apply lookup_insert_eq.
Qed.

(** The wrapper keeps the body. *)
Lemma mint_asked_inner q : mint_asked (inner_request q) = mint_asked (in_request q).
Proof.
  assert (Hd : decode_mint (inner_request q) = decode_mint (in_request q))
    by (unfold decode_mint, decodeJSON; by change (rq_body (inner_request q)) with (rq_body (in_request q))).
  unfold mint_asked. by rewrite Hd.
Qed.

(** The row behind an answer. *)
Lemma mint_shown P r ops cs walletID key n :
  mint_served C P r ops cs → mint_asked r walletID key n → status_of ops = StatusOK →
  (announced_by EMint ops = true ∧ ∃ d u m rw, funds u m walletID key n ∧ mintable d u m rw ∧
     cs = [(d, spec_mint u m d)]) ∨
  (announced_by EMint ops = false ∧ ∃ d, P d ∧ mint_taken C d key).
Proof.
  intros Hm Hask Hst. assert (Herr : ∀ status code msg, status ≠ 0 → status ≠ StatusOK →
    status_of (writeError r status code msg) = StatusOK → False).
  { intros status code msg H0 Hne Heq. rewrite status_of_writeError in Heq by done. done. }
  destruct Hm as [err|body code msg|w k a d u wid rw now Hask' HPd Hid Hmt|w k a d x wid row Hask' HPd HPx Hr Hid Hrow
    |w k a d Hask' HPd Hn|w k a d e Hask' HPd Hrej|Hi|w k a d u wid rw now Hask' HPd Hid Hmt Hi|d HPd Hi];
    try (by apply Herr in Hst).
  - destruct (mint_asked_unique _ _ _ _ _ _ _ Hask Hask') as (-> & -> & ->). left. split; [done|].
    by exists d, u, (mint_claim key wid n now), rw.
  - destruct (mint_asked_unique _ _ _ _ _ _ _ Hask Hask') as (-> & -> & ->). right. by split.
Qed.
End funding.

(** ** The properties *)

Section props.
Context `{PgText} (s : Server).

(** C8: Exactly-once funding, for the admin: of the POST /admin/mint requests
    with one idempotency key -- whatever wallets and amounts they name, however
    many run at once, and at whatever moment one looks -- at most one has moved
    money. *)
Theorem server_mints_once C d0 l every_ns ticks σ i j qi qj wi wj key ni nj ti tj a b a' b' :
  wf_db d0 → reachable C d0 (process s l every_ns ticks) σ → i ≠ j →
  l !! i = Some qi → l !! j = Some qj → routes_to qi EMint → routes_to qj EMint →
  mint_asked (in_request qi) wi key ni → mint_asked (in_request qj) wj key nj →
  sys_threads σ !! i = Some ti → sys_threads σ !! j = Some tj →
  (a, b) ∈ commits (th_world ti) → (a', b') ∈ commits (th_world tj) →
  same_money a b ∨ same_money a' b'.
Proof.
  intros Hwf Hr Hij Hqi Hqj Hri Hrj Hai Haj Hti Htj Hab Hab'.
  destruct (permitted_at s C d0 l every_ns ticks σ i ti a b Hwf Hr Hti Hab) as (q & token & Hq & _ & Hp).
  destruct (permitted_at s C d0 l every_ns ticks σ j tj a' b' Hwf Hr Htj Hab') as (q' & token' & Hq' & _ & Hp').
  rewrite Hqi in Hq. rewrite Hqj in Hq'. injection Hq as <-. injection Hq' as <-.
  destruct (permitted_mint s _ _ _ _ _ _ _ Hp Hri Hai) as [|(u & wid & rw & now & Hm & _ & ->)]; [by left|].
  destruct (permitted_mint s _ _ _ _ _ _ _ Hp' Hrj Haj) as [|(u' & wid' & rw' & now' & Hm' & _ & ->)]; [by right|].
  exfalso. pose proof (process_inv C s d0 l every_ns ticks Hwf σ Hr) as [_ _ _ Hord].
  destruct (Hord i j _ _ _ _ _ _ Hij Hti Htj Hab Hab') as [Hg|Hg].
  - by apply (mint_keys _ _ _ _ _ _ _ _ Hm Hg Hm').
  - by apply (mint_keys _ _ _ _ _ _ _ _ Hm' Hg Hm).
Qed.

(** C9: What the admin was told lasts: a POST /admin/mint answered 200 has a mint
    row under its key in the tables of every later moment -- of the amount and
    for the wallet of the request when the answer is not marked as a replay.
    The one exception is a marked answer when the environment generated an id
    that is taken: the code takes any unique violation for a replay. *)
Theorem mint_durable C d0 l every_ns ticks h σ i q ops w walletID key n :
  wf_db d0 → run_of C d0 (process s l every_ns ticks) h σ → l !! i = Some q → routes_to q EMint →
  finished σ i ops w → mint_asked (in_request q) walletID key n → status_of ops = StatusOK →
  (∃ u m, mints (sys_db σ) !! u = Some m ∧ m_idempotency_key m = key ∧
     (announces q ops = true → funds u m walletID key n)) ∨
  (announces q ops = false ∧ ∃ ch, C ch ∧ is_Some (mints (sys_db σ) !! ch_uuid ch)).
Proof.
  intros Hwf Hrun Hq (text & ids & Hf) Hfin Hask Hst.
  pose proof (process_finished C s d0 l every_ns ticks Hwf h σ i q ops w Hrun Hq Hfin) as Hs.
  apply served_status in Hs as (inner & tail & -> & Htail%ending_tail & Hsame & Hs); [|by rewrite Hst].
  rewrite Hst in Hsame. symmetry in Hsame. clear Hst.
  pose proof (process_inv C s d0 l every_ns ticks Hwf σ (run_reachable _ _ _ _ _ Hrun)) as [_ Hg0 Hths _].
  pose proof (ti_commits _ _ _ _ _ _ (Hths i _ Hfin)) as Hcs. cbn [th_world] in Hcs.
  unfold announces. unfold route_served in Hs. rewrite Hf in *. cbn [endpoint_served] in Hs.
  rewrite announced_wrapped by done.
  remember (commits w) as all eqn:Hall. destruct Hs as [Ht|inner cs Ht Hm]; [discriminate Hsame|].
  rewrite <- (mint_asked_inner q) in Hask.
  destruct (mint_shown C _ (inner_request q) inner cs walletID key n Hm Hask Hsame)
    as [(_ & d & u & m & rw & Hfu & Hmt & ->)|(Ha & d & Hd & Htk)].
  - left. exists u, m. split; [|split; [apply Hfu|done]].
    eapply lookup_weaken; [|apply (grows_mints _ _ (Hcs d _ (list_elem_of_here _ _)))]. apply lookup_insert_eq.
  - assert (Hgd : grows d (sys_db σ)).
    { destruct Hd as [_ [Hd| ->]]; [|done].
      by eapply (run_from_grows C d0 _ _ Hwf (process_threads C s d0 l every_ns ticks Hwf _)); [apply reach_init|..]. }
    destruct Htk as [(u & m & Hu & Hk)|(ch & m & HC & Hu)].
    + left. exists u, m. split; [eapply lookup_weaken; [exact Hu|apply Hgd]|]. split; [exact Hk|].
      intros Hann. exfalso. congruence.
    + right. split; [exact Ha|]. exists ch. split; [exact HC|]. exists m. eapply lookup_weaken; [exact Hu|apply Hgd].
Qed.
End props.

(** ** At concrete inputs *)

Section examples.
#[local] Existing Instance hex_text.

Definition mint_text (wallet : string) (amount : Z) (key : string) : string :=
  "{" +:+ quoted "wallet_id" +:+ ":" +:+ quoted wallet +:+ "," +:+ quoted "amount_paise" +:+ ":" +:+ Itoa amount +:+
  "," +:+ quoted "idempotency_key" +:+ ":" +:+ quoted key +:+ "}".

(** The admin's script is run twice at once. *)
Definition funder : incoming :=
  with_token "admin" "POST" "/admin/mint" (mint_text (uuid_out alice_wallet) 500 "bonus").

Definition funders : list incoming := [funder; funder].

Definition funded : system :=
  run_moves (init token_bank (process the_server funders 1 0))
    (mjoin ((λ j, (λ i, (i, calm_env (2 * j + i))) <$> seq 0 2) <$> seq 0 40)).

Lemma funded_reachable : reachable (env_choice calm_env) token_bank (process the_server funders 1 0) funded.
Proof.
  apply run_moves_reachable, Forall_forall. intros m Hm. apply list_elem_of_join in Hm as (l & Hm & Hl).
  apply list_elem_of_fmap in Hl as (j & -> & _). apply list_elem_of_fmap in Hm as (i & -> & _). by eexists.
Qed.

(** Both are answered 200, one of them marked; both committed, one a credit. *)
Example funded_results :
  option_map (λ x, (status_of x.1, marked_replay x.1, length (commits x.2)))
    <$> (result_of funded <$> [0%nat; 1%nat]) =
  [Some (200, false, 1%nat); Some (200, true, 1%nat)].
Proof. vm_compute. reflexivity. Qed.

Lemma funder_routed : routes_to funder EMint.
Proof. eexists _, _. vm_compute. reflexivity. Qed.

Lemma funder_asks : mint_asked (in_request funder) (uuid_out alice_wallet) "bonus" 500.
Proof. split; [vm_compute; reflexivity|]. split_and!; [vm_compute; discriminate|lia|vm_compute; discriminate]. Qed.

(** What a thread was answered with, and its commit. *)
Lemma funded_commit i : (i < 2)%nat →
  ∃ ops w a b, finished funded i ops w ∧ status_of ops = StatusOK ∧ (a, b) ∈ commits w.
Proof.
  intros Hi. assert (Hr : option_map (λ x, (status_of x.1, length (commits x.2))) (result_of funded i) = Some (200, 1%nat)).
  { destruct i as [|[|]]; [..|lia]; vm_compute; reflexivity. }
  destruct (result_of funded i) as [[ops w]|] eqn:Hres; [|discriminate Hr]. apply result_of_finished in Hres.
  injection Hr as Hst Hl. destruct (commits w) as [|[a b] cs] eqn:Hc; [discriminate Hl|]. exists ops, w, a, b.
  split; [exact Hres|]. split; [exact Hst|]. rewrite Hc. by left.
Qed.

Lemma server_mints_once_witness :
  ∃ w0 w1 a b a' b', (a, b) ∈ commits w0 ∧ (a', b') ∈ commits w1 ∧ (same_money a b ∨ same_money a' b').
Proof.
  destruct (funded_commit 0) as (o0 & w0 & a & b & H0 & _ & Hab); [lia|].
  destruct (funded_commit 1) as (o1 & w1 & a' & b' & H1 & _ & Hab'); [lia|].
  exists w0, w1, a, b, a', b'. split; [exact Hab|]. split; [exact Hab'|].
  exact (server_mints_once the_server (env_choice calm_env) token_bank funders 1 0 funded 0 1 funder funder
    _ _ "bonus" 500 500 _ _ a b a' b' wf_token_bank funded_reachable ltac:(discriminate) eq_refl eq_refl
    funder_routed funder_routed funder_asks funder_asks H0 H1 Hab Hab').
Defined.

Lemma mint_durable_witness :
  ∃ ops w, finished funded 0 ops w ∧ status_of ops = StatusOK ∧
  ((∃ u m, mints (sys_db funded) !! u = Some m ∧ m_idempotency_key m = "bonus" ∧
      (announces funder ops = true → funds u m (uuid_out alice_wallet) "bonus" 500)) ∨
   (announces funder ops = false ∧
    ∃ ch, env_choice calm_env ch ∧ is_Some (mints (sys_db funded) !! ch_uuid ch))).
Proof.
  destruct (funded_commit 0) as (ops & w & a & b & Hf & Hst & _); [lia|]. exists ops, w. split; [exact Hf|]. split; [exact Hst|].
  destruct (reachable_run _ _ _ _ funded_reachable) as [h Hh].
  exact (mint_durable the_server (env_choice calm_env) token_bank funders 1 0 h funded 0 funder ops w
    (uuid_out alice_wallet) "bonus" 500 wf_token_bank Hh eq_refl funder_routed Hf funder_asks Hst).
Defined.
End examples.
