(* ===== verification/Respelled.v ===== *)
(** * What spellings of uuids do to the order of locks

    [ServerSafety.server_never_deadlocks] asks for ids spelled as the server
    prints them.  Here is why. *)

From Stdlib Require Import String.
From S2P Require Import Prelude GoStrings Errors Database Locks Obs Session Store Wallets Transfers.
From S2P Require Import Ring Http Middleware Handlers Bodies Api Process Accounting Wp Concurrent Progress.
From S2P Require Import Service ServerSpec ServerProof Fixtures TransferProps ServerProps.

#[local] Open Scope string_scope.
#[local] Open Scope Z_scope.
#[local] Open Scope list_scope.

Section respelled.
#[local] Existing Instance hex_text.

(** Two wallets whose ids differ first in the digits a and b. *)
Definition jack_wallet : uuid := Uuid "j-wallet--------".
Definition kate_wallet : uuid := Uuid "k-wallet--------".

Definition bank_of (alices bobs : string) : db :=
  spec_wallet kate_wallet bob 4 (spec_wallet jack_wallet alice 3
    (spec_user bob bobs 2 (spec_user alice alices 1 empty_db))).

Definition spelled_bank : db := bank_of (TokenHash "t") (TokenHash "b").

Lemma wf_bank_of alices bobs : alices ≠ bobs → wf_db (bank_of alices bobs).
Proof.
  intros Hne. repeat (apply wf_wallet || apply wf_user || apply wf_empty); try (by vm_compute); by_rows.
  by intros ->.
Qed.

Lemma wf_spelled_bank : wf_db spelled_bank.
Proof. apply wf_bank_of. vm_compute. discriminate. Qed.

(** The id of Kate's wallet, in capitals. *)
Definition kate_capitals : string := "6B2D77616C6C65742D2D2D2D2D2D2D2D".

Example kate_spelled : uuid_in kate_capitals = Some kate_wallet ∧ kate_capitals ≠ uuid_out kate_wallet.
Proof. split; vm_compute; congruence. Qed.

(** The two owners pay each other at once. *)
Definition spelled : list incoming :=
  [with_token "t" "POST" "/transfers" (transfer_text (uuid_out jack_wallet) (uuid_out kate_wallet) 1 "x");
   with_token "b" "POST" "/transfers" (transfer_text kate_capitals (uuid_out jack_wallet) 1 "y")].

Definition spelled_moves : list (nat * choice) :=
  mjoin ((λ j, (λ i, (i, calm_env (3 * j + i))) <$> seq 0 3) <$> seq 0 40).

Definition embraced : system := run_moves (init spelled_bank (process the_server spelled 1 1)) spelled_moves.

(** Both have claimed their key and hold one wallet. *)
Example embraced_locks :
  (λ t, bool_decide (LWallet NoKeyUpdate jack_wallet ∈ locks_of (th_world t))) <$> sys_threads embraced =
    [true; false; false] ∧
  (λ t, bool_decide (LWallet NoKeyUpdate kate_wallet ∈ locks_of (th_world t))) <$> sys_threads embraced =
    [false; true; false].
Proof. split; vm_compute; reflexivity. Qed.

Lemma embraced_reachable :
  reachable (env_choice calm_env) spelled_bank (process the_server spelled 1 1) embraced.
Proof.
  apply run_moves_reachable, Forall_forall. intros m Hm. apply list_elem_of_join in Hm as (l & Hm & Hl).
  apply list_elem_of_fmap in Hl as (j & -> & _). apply list_elem_of_fmap in Hm as (i & -> & _). by eexists.
Qed.

(** Without a fault none of the three moves. *)
Lemma embraced_stuck i ch : ch_fault ch = None → advance embraced (i, ch) = None.
Proof.
  destruct ch as [f applied u now done]. cbn [ch_fault]. intros ->.
  destruct i as [|[|[|i]]]; vm_compute; reflexivity.
Qed.

(** Postgres picks the first of them as its victim; the wrapper retries it. *)
Definition victim : choice := MkChoice (Some FDeadlock) false jack_wallet 0 None.

Definition relieved : system :=
  run_moves (init spelled_bank (process the_server spelled 1 1))
    (spelled_moves ++ (0%nat, victim) :: spelled_moves).

Lemma relieved_reachable :
  reachable (λ ch, ch = victim ∨ env_choice calm_env ch) spelled_bank (process the_server spelled 1 1) relieved.
Proof.
  apply run_moves_reachable, Forall_app.
  assert (Hcalm : Forall (λ m, m.2 = victim ∨ env_choice calm_env m.2) spelled_moves).
  { apply Forall_forall. intros m Hm. apply list_elem_of_join in Hm as (l & Hm & Hl). right.
    apply list_elem_of_fmap in Hl as (j & -> & _). apply list_elem_of_fmap in Hm as (i & -> & _). by eexists. }
  split; [exact Hcalm|]. constructor; [by left|exact Hcalm].
Qed.

(** C12: Spellings can deadlock: the wallets are locked in the order of the texts of
    the request, so when one of two payments in opposite directions writes an
    id in capitals, the two can come to hold one wallet each and wait for the
    other's -- on well-formed tables, without any fault before.  From that
    state nothing moves, whatever else the environment chooses, until Postgres
    aborts one of them; when it does, the retry lets both be answered. *)
Theorem respelled_deadlock :
  wf_db spelled_bank ∧
  reachable (env_choice calm_env) spelled_bank (process the_server spelled 1 1) embraced ∧
  unfinished <$> sys_threads embraced = [true; true; false] ∧
  (∀ C σ', step C embraced σ' → ∃ ch, C ch ∧ is_Some (ch_fault ch)) ∧
  reachable (λ ch, ch = victim ∨ env_choice calm_env ch) spelled_bank (process the_server spelled 1 1) relieved ∧
  unfinished <$> sys_threads relieved = [false; false; false].
Proof.
  split_and!; [apply wf_spelled_bank|apply embraced_reachable|vm_compute; reflexivity| |
    apply relieved_reachable|vm_compute; reflexivity].
  intros C σ' Hst. apply step_advance in Hst as (i & ch & HC & Hadv). exists ch. split; [done|].
  destruct (ch_fault ch) as [f|] eqn:Hf; [by eexists|]. by rewrite embraced_stuck in Hadv.
Qed.
End respelled.
